(* ===== verification/_CoqProject ===== *)
-Q . S2P
Prelude.v
Bytes.v
Pool.v
Text.v
Counters.v
Files.v
Tools.v
Logger.v
Apm.v
Domain.v
Message.v
Request.v
Response.v
AreaRange.v
AreaManager.v
Config.v
TaskQueue.v
Kv.v
Records.v
Client.v
Console.v
Server.v
Service.v
