(* ===== verification/Prelude.v ===== *)
(** * st-dns : verification library

    st-dns is a DNS server that answers from what remote DNS servers told it,
    and that chooses among their answers by the country ("area") the addresses
    belong to. This library models its core in the order the code is layered,
    one file per part; the names are the code's own.

    ** The program and its parts

    A packet arrives at [dns_server::receive]; [udp_request] parses it; the
    session is answered from [dns_record_manager], or waits a little while the
    selected [remote_dns_server]s are asked by tasks of a [queue], or the
    packet is forwarded. A task asks one server through [dns_client] (UDP, TCP
    or TLS, several areas at once) and stores the answer in the record manager,
    which keeps its records in a [disk_kv]. Resolving a domain asks the area
    manager for the area of every address. A console answers commands in UDP
    datagrams and commands another process, the proxy, the same way. All sources
    are under [src/src].

    - [Prelude]: outcomes, machine integers, bytes, the tactics and hints that
      all files share.
    - [Bytes] ([byte.h]): big-endian readers and writers and copy loops, on
      blocks with checked bounds.
    - [Pool] ([pool.cpp], [basic_data]): size classes, the two counters.
    - [Text] ([string_utils.h], [ipv4.h]): what is used of [std::string];
      splitting; addresses as text.
    - [Counters] ([avg_counter.h], [median_counter.h], [interval_counter.h]).
    - [Files] ([file.h]): over the class [FileSystem], with its laws in
      [FileSystemLaws].
    - [Tools] ([moment.h], [shell.h], [dns.h], [http.h], [asio.h],
      [proxy_shm.cpp], [main.cpp]): times as text, processes and their output,
      [nslookup], the command line.
    - [Logger] ([logger.cpp], [base64.h]): lines of the log; metrics by name,
      dimensions and key ([statistics]), their report.
    - [Apm] ([apm_logger] of [logger.cpp]): the threads and the timer around the
      metrics; [apm_step] interleaves critical sections, reports, [init] and
      [disable].
    - [Domain], [Message] ([dns_message.h/.cpp]): names with compression
      pointers, header, questions, resource records. A pointer into a block is
      an offset.
    - [Request], [Response] ([request.cpp], [response.cpp]): building and
      parsing; the null pointers of the code are [None].
    - [AreaRange], [AreaManager] ([area_ip.h/.cpp]): ranges and their two texts;
      the area manager's caches, its files, its lookups over the network and
      their rate, the merge of the file with the memory.
    - [Config] ([config.h/.cpp]): the servers, which are asked for a domain, the
      loading of the configuration.
    - [TaskQueue] ([task_queue.h]): submissions, completions, the two timers;
      each critical section or timer callback is an event of [queue_step]; the
      keys are IEEE doubles ([SpecFloat]).
    - [Kv] ([abstract_kv.h], [disk_kv.cpp], [shm_kv.cpp]): the stores, over the
      class [Store] of the map underneath; they implement the class
      [AbstractKv], and clients are proved against its laws [KvLaws].
    - [Records] ([dns_record_manager.h/.cpp]): records per domain and server,
      resolving, the reverse index, dump and statistics.
    - [Client] ([dns_client.cpp]): every request is a chain of asynchronous
      operations on one thread, raced by a timer. [io] is the state of one
      request (socket, timer, ready handlers, what was freed and called),
      [run_event] one turn of the thread.
    - [Console] ([udp_console.cpp], [client.h], [command/*.h],
      [console_manager.cpp]): both ends of the console, with their buffers.
    - [Server] ([dns_server.cpp], [session.h]): each callback is a function from
      the clock and the state to the operations it starts and the new state;
      [system_step] interleaves them with the queue's timers.
    - [Service] (the rest of [dns_server.cpp]): [start], [wait_start] and
      [shutdown] as two programs of operations on shared members; every
      interleaving is explored ([explore], complete by [ends_explore]).

    ** How code is modelled

    A function of the code is a function to [outcome]: a value ([Ret]), an
    exception ([Throw]), undefined behaviour ([Undef], with its kind) or a loop
    stopped at its bound ([NoFuel]). Blocks of memory are lists of bytes, reads
    and writes outside are [Undef]. Integers are [Z], and every wrap-around
    that the types cause is written ([u8], [u16], [u32], [u64]). Hash maps and
    sets are [gmap] and [gset]; where their order of iteration is visible it is
    a parameter that gives the elements in some order. The clock is an
    argument. What is not part of the repository (leveldb, boost's containers,
    its JSON and regular expressions, the file system, [nslookup], HTTP, the
    network, random numbers, [std::sort] and [shuffle]) is a parameter; what is
    assumed of it stands as a class of laws or as a hypothesis, with an instance
    in the witness of the theorem.

    ** What is shown

    - The server: [sessions_owned] (every session has exactly one operation
      under way, so none is leaked or freed twice), [query_answered] and
      [query_uncached] (the two courses of a query, to the bytes of the
      answer), [learned_name_answered] (what a remote server answered reaches the
      next client), [chained_servers] (one st-dns as the remote server of
      another), [malformed_query] (the null pointer a bad packet leads to),
      [refresh_queued], [refresh_stored], [schedule_proxies];
      [start_and_shutdown] (every interleaving of the two).
    - The records: [resolve_spec], [add_spec]; [select_servers_spec].
    - The client: [client_exactly_once] (each request ends, calls back once and
      frees once), [client_conversation] (the three transports understand the
      same answer), [multi_area_spec], [forward_udp_outcome].
    - The protocol: [domain_roundtrip], [request_roundtrip],
      [response_roundtrip]; [parse_terminates], [parse_in_bounds],
      [request_parse_outcome], [response_parse_outcome] on arbitrary input;
      [parse_label_pointer_overrun] and the lemmas [parse_pointer_escapes],
      [query_zone_overrun], [response_count_mismatch] give the inputs that are
      handled wrongly.
    - The queue: [queue_safety], [dispatch_rate], [dispatch_highest],
      [queue_drains].
    - The stores: [disk_refines], a simulation by a map with expiries.
    - The areas: [cidr_block], [load_area_ips_spec], [lookup_rate],
      [sync_merge].
    - The console: [console_reverse_resolve] (a whole exchange),
      [console_limits] (the sizes beyond which buffers overflow).
    - The tools: [leak_size_live], [limit_files], [median_balanced],
      [interval_counts]; the logger: [log_lines_split], [statistics_refine],
      [perf_report], [metrics_conserved] (nothing is lost between statistics and
      reports), [report_cadence], and the lemmas [end_split_report] and
      [logging_restart] on what a report and a restart lose.

    ** Bounds

    [while_loop] takes a bound and gives [NoFuel] when it is reached. The loops
    over a block have its length and one more, since every turn moves forward in
    it or reads outside ([parse_terminates]); the question loop the number of
    questions and one more; the splitting loops the length of the text and two
    more ([split_spec], [do_log_split]). The recursion of names is the code's
    own, cut at depth 20. The theorems on parsing state that the bounds are not
    reached.

    ** Not modelled

    - Sockets, threads and [io_context]s themselves, and the sinks of boost's
      log: input and output only. Callbacks of the server run one at a time; the
      code runs them on several threads of one [io_context], and what they race
      on (the socket's use, [traceId]) is library state.
    - The measurements made of the server's own handlers are left out of those
      handlers; what a measurement does is in [Logger] and [Apm].
    - [strutils::uuid] (random), [httplib.h] (vendored), the tests. *)
From Stdlib Require Import Strings.Byte.
From stdpp Require Export prelude list gmap sorting strings.
From Stdlib Require Export ZArith Lia ZifyBool.

#[global] Open Scope Z_scope.

(** ** Outcomes of C++ code

    A piece of code returns a value, throws an exception, or runs into
    undefined behaviour; a loop that is cut off by its iteration bound is told
    apart from all three. *)
Inductive ub_kind :=
  | OobRead | OobWrite | NullDeref | DivByZero | BadShift | VectorRange | UseAfterFree | MissingReturn | UninitUse.

Inductive exn :=
  | InvalidArgument | OutOfRange | RuntimeError | RegexError.

Inductive outcome (A : Type) :=
  | Ret (a : A)
  | Throw (e : exn)
  | Undef (u : ub_kind)
  | NoFuel.
Arguments Ret {A} a.
Arguments Throw {A} e.
Arguments Undef {A} u.
Arguments NoFuel {A}.

#[export] Instance outcome_ret : MRet outcome := @Ret.
#[export] Instance outcome_bind : MBind outcome := fun A B k m =>
  match m with
  | Ret a => k a
  | Throw e => Throw e
  | Undef u => Undef u
  | NoFuel => NoFuel
  end.

(** A finished run neither exhausts its iteration bound nor is undefined. *)
Definition terminates {A} (m : outcome A) : Prop := m <> NoFuel.
Definition defined {A} (m : outcome A) : Prop := forall u, m <> Undef u.

(** ** Machine integers: values are [Z], the width is explicit. *)
Definition u8 (x : Z) : Z := x mod 2 ^ 8.
Definition u16 (x : Z) : Z := x mod 2 ^ 16.
Definition u32 (x : Z) : Z := x mod 2 ^ 32.
Definition u64 (x : Z) : Z := x mod 2 ^ 64.

(** [x << n] on a 32-bit operand. *)
Definition shl32 (x n : Z) : outcome Z :=
  if (0 <=? n) && (n <? 32) then Ret (u32 (Z.shiftl x n)) else Undef BadShift.

(** ** Bytes and byte strings

    A [std::string] and a buffer are both sequences of bytes. *)
Abbreviation str := (list Z).

Definition byte_ok (b : Z) : Prop := 0 <= b < 256.
Definition bytes_ok (l : list Z) : Prop := Forall byte_ok l.

(** The bytes of a string literal of the source. *)
Definition lit (s : string) : str :=
  (fun b => Z.of_N (Byte.to_N b)) <$> String.list_byte_of_string s.
Arguments lit s%_string.

(** The C string a byte sequence denotes: what precedes its first NUL. *)
Fixpoint cstr (s : str) : str :=
  match s with
  | [] => []
  | c :: s' => if c =? 0 then [] else c :: cstr s'
  end.

Definition zlen {A} (l : list A) : Z := Z.of_nat (length l).

(** ** Memory: a block is a list of bytes, addressed from 0. *)
Definition load (m : list Z) (i : Z) : outcome Z :=
  if 0 <=? i then
    match m !! Z.to_nat i with Some v => Ret v | None => Undef OobRead end
  else Undef OobRead.

Definition store (m : list Z) (i v : Z) : outcome (list Z) :=
  if (0 <=? i) && (i <? zlen m) then Ret (<[Z.to_nat i := v]> m) else Undef OobWrite.

(** ** Loops *)

(** [for (k = i; k < i + n; k++) s = body(k, s)] *)
Fixpoint for_loop {S} (n : nat) (i : Z) (body : Z -> S -> outcome S) (s : S) : outcome S :=
  match n with
  | O => Ret s
  | Datatypes.S n' => s' ← body i s; for_loop n' (i + 1) body s'
  end.

(** [while (true) { ... }]: the body continues with a new state ([inl]) or
    leaves the loop with a result ([inr]). *)
Fixpoint while_loop {S R} (fuel : nat) (body : S -> outcome (S + R)) (s : S) : outcome R :=
  match fuel with
  | O => NoFuel
  | Datatypes.S fuel' =>
      r ← body s;
      match r with
      | inl s' => while_loop fuel' body s'
      | inr res => Ret res
      end
  end.

(** ** Facts about outcomes *)
Lemma bind_ret {A B} (m : outcome A) (k : A -> outcome B) b :
  (x ← m; k x) = Ret b <-> exists a, m = Ret a /\ k a = Ret b.
Proof. destruct m; split; simpl; eauto; try done; by intros (? & ? & ?); simplify_eq. Qed.

Lemma ret_bind {A B} (a : A) (k : A -> outcome B) : (x ← Ret a; k x) = k a.
Proof. done. Qed.

Lemma bind_terminates {A B} (m : outcome A) (k : A -> outcome B) :
  terminates m -> (forall a, m = Ret a -> terminates (k a)) -> terminates (x ← m; k x).
Proof. unfold terminates. destruct m; naive_solver. Qed.

Lemma bind_defined {A B} (m : outcome A) (k : A -> outcome B) :
  defined m -> (forall a, m = Ret a -> defined (k a)) -> defined (x ← m; k x).
Proof. unfold defined. destruct m; naive_solver. Qed.

Lemma ret_terminates {A} (a : A) : terminates (Ret a).
Proof. done. Qed.

Lemma ret_defined {A} (a : A) : defined (Ret a).
Proof. done. Qed.

Create HintDb outcome.
#[export] Hint Resolve bind_terminates bind_defined ret_terminates ret_defined : outcome.

(** Splits every [x ← m; k x = Ret b] of the context. *)
Ltac inv_ret :=
  repeat match goal with
  | H : mbind _ _ = Ret _ |- _ =>
      let a := fresh "a" in let E := fresh "E" in
      apply bind_ret in H as (a & E & H)
  | H : Ret _ = Ret _ |- _ => injection H as H; subst
  | H : mret _ = Ret _ |- _ => injection H as H; subst
  end; simplify_eq.

(** Runs the continuation of a [Ret]. *)
Ltac ret_step := cbn [mbind outcome_bind].

(** [lia] with division and remainder. *)
Ltac zdiv := Z.to_euclidean_division_equations; lia.

(** Equality of two results, component by component. *)
Ltac pair_eq :=
  repeat match goal with
  | |- Ret _ = Ret _ => f_equal
  | |- Some _ = Some _ => f_equal
  | |- inl _ = inl _ => f_equal
  | |- inr _ = inr _ => f_equal
  | |- (_, _) = (_, _) => f_equal
  end; try done.

(** Decides the boolean comparisons of a goal with [lia]. *)
Ltac zb :=
  repeat match goal with
  | |- context [?a <=? ?b] =>
      first [ replace (a <=? b) with true by lia | replace (a <=? b) with false by lia ]
  | |- context [?a <? ?b] =>
      first [ replace (a <? b) with true by lia | replace (a <? b) with false by lia ]
  | |- context [?a =? ?b] =>
      first [ replace (a =? b) with true by lia | replace (a =? b) with false by lia ]
  end.

(** ** Facts about machine integers *)
Lemma u8_id x : 0 <= x < 256 -> u8 x = x.
Proof. intros. by apply Z.mod_small. Qed.
Lemma u16_id x : 0 <= x < 65536 -> u16 x = x.
Proof. intros. by apply Z.mod_small. Qed.
Lemma u32_id x : 0 <= x < 4294967296 -> u32 x = x.
Proof. intros. by apply Z.mod_small. Qed.
Lemma u64_id x : 0 <= x < 18446744073709551616 -> u64 x = x.
Proof. intros. by apply Z.mod_small. Qed.
Lemma u8_range x : 0 <= u8 x < 256.
Proof. by apply Z.mod_pos_bound. Qed.
Lemma u16_range x : 0 <= u16 x < 65536.
Proof. by apply Z.mod_pos_bound. Qed.
Lemma u32_range x : 0 <= u32 x < 4294967296.
Proof. by apply Z.mod_pos_bound. Qed.
Lemma u64_range x : 0 <= u64 x < 18446744073709551616.
Proof. by apply Z.mod_pos_bound. Qed.
#[export] Hint Resolve u8_range u16_range u32_range u64_range : core.

Lemma u16_add_l a b : u16 (u16 a + b) = u16 (a + b).
Proof. apply Zplus_mod_idemp_l. Qed.
Lemma u16_add_r a b : u16 (a + u16 b) = u16 (a + b).
Proof. apply Zplus_mod_idemp_r. Qed.
Lemma u16_sub_l a b : u16 (u16 a - b) = u16 (a - b).
Proof. apply Zminus_mod_idemp_l. Qed.
Lemma u16_sub_r a b : u16 (a - u16 b) = u16 (a - b).
Proof. apply Zminus_mod_idemp_r. Qed.
Lemma u32_add_l a b : u32 (u32 a + b) = u32 (a + b).
Proof. apply Zplus_mod_idemp_l. Qed.
Lemma u32_add_r a b : u32 (a + u32 b) = u32 (a + b).
Proof. apply Zplus_mod_idemp_r. Qed.
Lemma u32_sub_l a b : u32 (u32 a - b) = u32 (a - b).
Proof. apply Zminus_mod_idemp_l. Qed.
Lemma u32_sub_r a b : u32 (a - u32 b) = u32 (a - b).
Proof. apply Zminus_mod_idemp_r. Qed.
Lemma u64_add_l a b : u64 (u64 a + b) = u64 (a + b).
Proof. apply Zplus_mod_idemp_l. Qed.
Lemma u64_add_r a b : u64 (a + u64 b) = u64 (a + b).
Proof. apply Zplus_mod_idemp_r. Qed.
Lemma u64_sub_l a b : u64 (u64 a - b) = u64 (a - b).
Proof. apply Zminus_mod_idemp_l. Qed.
Lemma u64_sub_r a b : u64 (a - u64 b) = u64 (a - b).
Proof. apply Zminus_mod_idemp_r. Qed.
Create Rewrite HintDb wrap.
#[export] Hint Rewrite u16_add_l u16_add_r u16_sub_l u16_sub_r u32_add_l u32_add_r u32_sub_l
  u32_sub_r u64_add_l u64_add_r u64_sub_l u64_sub_r : wrap.

Lemma shl32_ret x n : 0 <= n < 32 -> shl32 x n = Ret (u32 (Z.shiftl x n)).
Proof. intros. unfold shl32. by zb. Qed.

(** ** Facts about lists and lengths *)
Lemma zlen_nonneg {A} (l : list A) : 0 <= zlen l.
Proof. unfold zlen. lia. Qed.
Lemma zlen_nil {A} : zlen (@nil A) = 0.
Proof. done. Qed.
Lemma zlen_cons {A} (x : A) l : zlen (x :: l) = 1 + zlen l.
Proof. unfold zlen. simpl. lia. Qed.
Lemma zlen_app {A} (l1 l2 : list A) : zlen (l1 ++ l2) = zlen l1 + zlen l2.
Proof. unfold zlen. rewrite length_app. lia. Qed.
Lemma zlen_replicate {A} n (x : A) : zlen (replicate n x) = Z.of_nat n.
Proof. unfold zlen. by rewrite length_replicate. Qed.
Lemma zlen_0_nil {A} (l : list A) : zlen l = 0 -> l = [].
Proof. destruct l; [done|]. unfold zlen. simpl. lia. Qed.
Create Rewrite HintDb zlen.
#[export] Hint Rewrite @zlen_nil @zlen_cons @zlen_app @zlen_replicate : zlen.
#[export] Hint Resolve zlen_nonneg : core.

Ltac zlen := autorewrite with zlen in *;
  repeat match goal with
  | l : list ?A |- _ =>
      lazymatch goal with
      | _ : 0 <= zlen l |- _ => fail
      | _ => pose proof (zlen_nonneg l)
      end
  end; try lia.

Lemma cstr_no_nul s : Forall (fun c => c <> 0) s -> cstr s = s.
Proof. induction 1 as [|c s Hc _ IH]; simpl; [done|]. zb. by rewrite IH. Qed.

Lemma cstr_prefix s : exists t, s = cstr s ++ t.
Proof.
  induction s as [|c s [t IH]]; simpl; [by exists []|].
  destruct (c =? 0); [by eexists|]. exists t. simpl. by rewrite <- IH.
Qed.

Lemma cstr_nonzero s : Forall (fun c => c <> 0) (cstr s).
Proof. induction s as [|c s IH]; simpl; [done|]. case_match; constructor; [lia|done]. Qed.

(** ** Facts about memory *)
Lemma load_range m i v : load m i = Ret v -> 0 <= i < zlen m.
Proof.
  unfold load, zlen. intros. repeat case_match; simplify_eq.
  apply lookup_lt_Some in H1. lia.
Qed.

Lemma load_defined m i : 0 <= i < zlen m -> exists v, load m i = Ret v /\ m !! Z.to_nat i = Some v.
Proof.
  unfold load, zlen. intros. zb. destruct (lookup_lt_is_Some_2 m (Z.to_nat i)) as [v ->]; [lia|].
  eauto.
Qed.

Lemma load_oob m i : zlen m <= i -> load m i = Undef OobRead.
Proof.
  intros. unfold load, zlen in *. zb. by rewrite (proj2 (lookup_ge_None m (Z.to_nat i))) by lia.
Qed.

Lemma load_at pre x post i : i = zlen pre -> load (pre ++ x :: post) i = Ret x.
Proof.
  unfold load, zlen. intros ->. zb. by rewrite Nat2Z.id, lookup_app_r, Nat.sub_diag by lia.
Qed.

Lemma store_at pre x post i v : i = zlen pre -> store (pre ++ x :: post) i v = Ret (pre ++ v :: post).
Proof.
  unfold store. intros ->. zlen. zb. simpl. unfold zlen. rewrite Nat2Z.id.
  by rewrite insert_app_r_alt, Nat.sub_diag by lia.
Qed.

Lemma store_length m i v m' : store m i v = Ret m' -> zlen m' = zlen m.
Proof. unfold store, zlen. intros. case_match; simplify_eq. by rewrite length_insert. Qed.

(** ** Facts about loops *)
Lemma for_loop_app {S} n1 n2 i (body : Z -> S -> outcome S) s :
  for_loop (n1 + n2) i body s = (s' ← for_loop n1 i body s; for_loop n2 (i + Z.of_nat n1) body s').
Proof.
  revert i s. induction n1 as [|n1 IH]; intros i s; simpl.
  { by rewrite Z.add_0_r. }
  destruct (body i s); simpl; try done. rewrite IH.
  by replace (i + 1 + Z.of_nat n1) with (i + Z.of_nat (Datatypes.S n1)) by lia.
Qed.

Lemma for_loop_terminates {S} n i (body : Z -> S -> outcome S) s :
  (forall k s, terminates (body k s)) -> terminates (for_loop n i body s).
Proof. intros Hb. revert i s. induction n; simpl; intros; auto with outcome. Qed.

(** A loop whose body lowers a measure is not cut off. *)
Lemma while_loop_terminates {S R} (μ : S -> nat) fuel (body : S -> outcome (S + R)) s :
  (forall s, terminates (body s)) ->
  (forall s s', body s = Ret (inl s') -> (μ s' < μ s)%nat) ->
  (μ s < fuel)%nat -> terminates (while_loop fuel body s).
Proof.
  intros Hb Hμ. revert s. induction fuel as [|fuel IH]; intros s Hf; [lia|]. simpl.
  apply bind_terminates; [done|]. intros [s'|r] Hs; [|done]. apply IH. apply Hμ in Hs. lia.
Qed.

(** Partial correctness of a loop from an invariant. *)
Lemma while_loop_inv {S R} (I : S -> Prop) (Q : R -> Prop) fuel (body : S -> outcome (S + R)) s r :
  (forall s s', I s -> body s = Ret (inl s') -> I s') ->
  (forall s r, I s -> body s = Ret (inr r) -> Q r) ->
  I s -> while_loop fuel body s = Ret r -> Q r.
Proof.
  intros Hs Hr. revert s. induction fuel as [|fuel IH]; intros s HI; simpl; [done|].
  intros (x & E & Hx)%bind_ret. destruct x as [s'|r']; [eauto|]. simplify_eq. eauto.
Qed.

Lemma while_loop_defined {S R} (I : S -> Prop) fuel (body : S -> outcome (S + R)) s :
  (forall s, I s -> defined (body s)) ->
  (forall s s', I s -> body s = Ret (inl s') -> I s') ->
  I s -> defined (while_loop fuel body s).
Proof.
  intros Hd Hs. revert s. induction fuel as [|fuel IH]; intros s HI; simpl; [done|].
  apply bind_defined; [auto|]. intros [s'|r] E; [eauto|done].
Qed.

(** Total correctness of a loop from an invariant and a measure. *)
Lemma while_loop_total {S R} (I : S -> Prop) (μ : S -> nat) (Q : R -> Prop) fuel
    (body : S -> outcome (S + R)) s :
  (forall s, I s -> exists x, body s = Ret x /\
     match x with inl s' => I s' /\ (μ s' < μ s)%nat | inr r => Q r end) ->
  I s -> (μ s < fuel)%nat -> exists r, while_loop fuel body s = Ret r /\ Q r.
Proof.
  intros Hb. revert s. induction fuel as [|fuel IH]; intros s HI Hf; [lia|]. simpl.
  destruct (Hb s HI) as ([s'|r] & -> & Hx); simpl; [|eauto].
  destruct Hx. apply IH; [done|lia].
Qed.
