(* ===== verification/Bytes.v ===== *)
(** * Byte-level helpers ([src/src/common/main/utils/byte.h])

    The big-endian readers and writers and the copy loops every message codec
    is built from, on blocks of memory with checked bounds.  A template
    parameter [Num]/[IntTypeB] is its size in bytes, [w]. *)
From S2P Require Import Prelude.

(** ** Operations *)

(** [copy(from, to, indexFrom, distFrom, len)] between two blocks; the
    three-argument [copy] and [copy_byte] are the case of both offsets at the
    pointers given. *)
Definition copy (from to : list Z) (indexFrom distFrom len : Z) : outcome (list Z) :=
  for_loop (Z.to_nat len) 0 (fun i to =>
    v ← load from (indexFrom + i); store to (distFrom + i) v) to.

(** The same loop when both pointers are into one block. *)
Definition copy_within (m : list Z) (from to len : Z) : outcome (list Z) :=
  for_loop (Z.to_nat len) 0 (fun i m => v ← load m (from + i); store m (to + i) v) m.

(** [to_bytes(byteArr, num)]: the mask is a 32-bit constant shifted by [move]. *)
Definition to_bytes (w : nat) (byteArr : list Z) (p num : Z) : outcome (list Z) :=
  let len := Z.of_nat w in
  for_loop w 0 (fun i m =>
    let move := (len - i - 1) * 8 in
    mask ← shl32 255 move;
    store m (p + i) (u8 (Z.shiftr (Z.land num mask) move))) byteArr.

(** [read(data, result)] ORs the bytes into what [result] already holds. *)
Definition read (w : nat) (data : list Z) (p result : Z) : outcome Z :=
  let len := Z.of_nat w in
  for_loop w 0 (fun i result =>
    val ← load data (p + i);
    let bitMove := u32 ((len - i - 1) * 8) in
    valFinal ← shl32 val bitMove;
    Ret (Z.lor result valFinal mod 2 ^ (8 * len))) result.

(** [write(data, result)]; the pointer returned is [p + w]. *)
Definition write (w : nat) (data : list Z) (p result : Z) : outcome (list Z) :=
  let len := Z.of_nat w in
  for_loop w 0 (fun i m =>
    let i1 := (len - i - 1) * 8 in
    mask ← shl32 255 i1;
    store m (p + i) (u8 (Z.shiftr (Z.land mask result) i1))) data.

(** [join(lists, delimit)]: no delimiter is written while the result is empty. *)
Definition join (lists : list str) (delimit : str) : str :=
  fold_left (fun result value =>
    (if bool_decide (result = []) then result else result ++ delimit) ++ value) lists [].

(** ** Specification: big-endian representation *)
Fixpoint be_bytes (w : nat) (v : Z) : list Z :=
  match w with
  | O => []
  | S w' => (v / 2 ^ (8 * Z.of_nat w')) mod 256 :: be_bytes w' v
  end.

Fixpoint be_value (bs : list Z) : Z :=
  match bs with
  | [] => 0
  | b :: bs' => b * 2 ^ (8 * zlen bs') + be_value bs'
  end.

(** ** Lemmas *)
Lemma length_be_bytes w v : length (be_bytes w v) = w.
Proof. induction w; simpl; auto. Qed.

Lemma zlen_be_bytes w v : zlen (be_bytes w v) = Z.of_nat w.
Proof. unfold zlen. by rewrite length_be_bytes. Qed.
#[export] Hint Rewrite zlen_be_bytes : zlen.

Lemma be_bytes_ok w v : bytes_ok (be_bytes w v).
Proof. induction w; simpl; constructor; [|done]. by apply Z.mod_pos_bound. Qed.

Lemma be_value_bytes w v : be_value (be_bytes w v) = v mod 2 ^ (8 * Z.of_nat w).
Proof.
  induction w as [|w IH]; simpl be_bytes; simpl be_value.
  { by rewrite Z.mod_1_r. }
  rewrite zlen_be_bytes, IH.
  replace (8 * Z.of_nat (S w)) with (8 * Z.of_nat w + 8) by lia.
  rewrite Z.pow_add_r by lia. change (2 ^ 8) with 256.
  rewrite Z.rem_mul_r by lia. lia.
Qed.

Lemma be_value_bound bs : bytes_ok bs -> 0 <= be_value bs < 2 ^ (8 * zlen bs).
Proof.
  induction 1 as [|b bs Hb _ IH]; [done|]. simpl. rewrite zlen_cons.
  rewrite Z.mul_add_distr_l, Z.pow_add_r by (pose proof (zlen_nonneg bs); lia).
  change (2 ^ (8 * 1)) with 256. unfold byte_ok in Hb.
  set (M := 2 ^ (8 * zlen bs)) in *. nia.
Qed.

(** A store loop over a run of cells replaces exactly that run. *)
Lemma for_store n k p pre old post (f : Z -> outcome Z) (g : Z -> Z) :
  zlen pre = p + k -> length old = n ->
  (forall i, k <= i < k + Z.of_nat n -> f i = Ret (g i)) ->
  for_loop n k (fun i m => v ← f i; store m (p + i) v) (pre ++ old ++ post) =
  Ret (pre ++ (g <$> seqZ k (Z.of_nat n)) ++ post).
Proof.
  revert k pre old. induction n as [|n IH]; intros k pre [|o old] Hpre Hold Hf; try done.
  simpl in Hold. rewrite seqZ_cons by lia.
  cbn [for_loop]. rewrite Hf by lia. rewrite ret_bind, <- app_comm_cons, store_at, ret_bind by lia.
  rewrite cons_middle, app_assoc, IH; [|zlen|lia|intros; apply Hf; lia].
  rewrite <- app_assoc. simpl.
  by replace (Z.pred (Z.of_nat (S n))) with (Z.of_nat n) by lia.
Qed.

Lemma for_store_pure n k p pre old post (g : Z -> Z) :
  zlen pre = p + k -> length old = n ->
  for_loop n k (fun i m => store m (p + i) (g i)) (pre ++ old ++ post) =
  Ret (pre ++ (g <$> seqZ k (Z.of_nat n)) ++ post).
Proof. intros. by apply (for_store n k p pre old post (fun i => Ret (g i)) g). Qed.

Lemma for_loop_ext {S} n k (b1 b2 : Z -> S -> outcome S) s :
  (forall i s, k <= i < k + Z.of_nat n -> b1 i s = b2 i s) ->
  for_loop n k b1 s = for_loop n k b2 s.
Proof.
  revert k s. induction n as [|n IH]; intros k s H; [done|]. cbn [for_loop].
  rewrite H by lia. destruct (b2 k s); simpl; try done. apply IH. intros; apply H; lia.
Qed.

Lemma land_255 x : Z.land 255 x = x mod 256.
Proof. rewrite Z.land_comm. change 255 with (Z.ones 8). by rewrite Z.land_ones. Qed.

Lemma masked_byte s v :
  0 <= s <= 24 -> u8 (Z.shiftr (Z.land (u32 (Z.shiftl 255 s)) v) s) = (v / 2 ^ s) mod 256.
Proof.
  intros Hs. rewrite u32_id.
  - rewrite Z.shiftr_land, Z.shiftr_shiftl_l, Z.sub_diag, Z.shiftl_0_r, Z.shiftr_div_pow2, land_255
      by lia. unfold u8. by rewrite Z.mod_mod.
  - rewrite Z.shiftl_mul_pow2 by lia. pose proof (Z.pow_le_mono_r 2 s 24). lia.
Qed.

Lemma be_bytes_seqZ w k v :
  (fun i => (v / 2 ^ ((k + Z.of_nat w - i - 1) * 8)) mod 256) <$> seqZ k (Z.of_nat w) = be_bytes w v.
Proof.
  revert k. induction w as [|w IH]; intros k; [done|].
  rewrite seqZ_cons, fmap_cons by lia. simpl be_bytes. f_equal.
  - do 3 f_equal. lia.
  - rewrite <- (IH (Z.succ k)). replace (Z.pred (Z.of_nat (S w))) with (Z.of_nat w) by lia.
    apply list_fmap_ext. intros i x _. do 4 f_equal. lia.
Qed.

Lemma write_spec w pre old post p v :
  (w <= 4)%nat -> zlen pre = p -> length old = w ->
  write w (pre ++ old ++ post) p v = Ret (pre ++ be_bytes w v ++ post).
Proof.
  intros Hw Hp Hold. unfold write.
  rewrite (for_loop_ext _ _ _ (fun i m =>
    store m (p + i) ((v / 2 ^ ((0 + Z.of_nat w - i - 1) * 8)) mod 256))).
  - by rewrite for_store_pure, be_bytes_seqZ by lia.
  - intros i m Hi. simpl. rewrite shl32_ret, ret_bind, masked_byte by lia. done.
Qed.

Lemma to_bytes_spec w pre old post p v :
  (w <= 4)%nat -> zlen pre = p -> length old = w ->
  to_bytes w (pre ++ old ++ post) p v = Ret (pre ++ be_bytes w v ++ post).
Proof.
  intros Hw Hp Hold. rewrite <- (write_spec w pre old post p v) by done. unfold to_bytes, write.
  apply for_loop_ext. intros i m Hi. rewrite !shl32_ret, !ret_bind by lia.
  by rewrite Z.land_comm.
Qed.

Lemma lor_disjoint a b n : 0 <= n -> 0 <= b < 2 ^ n -> Z.lor (a * 2 ^ n) b = a * 2 ^ n + b.
Proof.
  intros Hn Hb. assert (Z.land (a * 2 ^ n) b = 0) as Hl.
  { apply Z.bits_inj'. intros i Hi. rewrite Z.land_spec, Z.bits_0.
    destruct (decide (i < n)).
    - by rewrite Z.mul_pow2_bits_low.
    - destruct (decide (b = 0)) as [->|]; [by rewrite Z.bits_0, andb_false_r|].
      rewrite (Z.bits_above_log2 b), andb_false_r; [done|lia|].
      apply Z.log2_lt_pow2; [lia|]. pose proof (Z.pow_le_mono_r 2 n i). lia. }
  by rewrite <- Z.lxor_lor, <- Z.add_nocarry_lxor.
Qed.

Lemma read_spec w pre bs post p :
  (w <= 4)%nat -> zlen pre = p -> length bs = w -> bytes_ok bs ->
  read w (pre ++ bs ++ post) p 0 = Ret (be_value bs).
Proof.
  intros Hw Hp Hbs Hok. unfold read.
  enough (forall bs2 pre k q, zlen pre = p + k -> 0 <= k -> k + zlen bs2 = Z.of_nat w ->
    bytes_ok bs2 -> 0 <= q -> (q + 1) * 2 ^ (8 * zlen bs2) <= 2 ^ (8 * Z.of_nat w) ->
    for_loop (length bs2) k (fun i result =>
      val ← load (pre ++ bs2 ++ post) (p + i);
      valFinal ← shl32 val (u32 ((Z.of_nat w - i - 1) * 8));
      Ret (Z.lor result valFinal mod 2 ^ (8 * Z.of_nat w))) (q * 2 ^ (8 * zlen bs2)) =
    Ret (q * 2 ^ (8 * zlen bs2) + be_value bs2)) as Hloop.
  { assert (zlen bs = Z.of_nat w) as Hz by (unfold zlen; lia).
    specialize (Hloop bs pre 0 0). rewrite Hbs, Hz in Hloop. apply Hloop; auto; lia. }
  clear pre bs Hp Hbs Hok. intros bs. induction bs as [|b bs IH]; intros pre k q Hp Hk Hw' Hok Hq Hb.
  { simpl. f_equal. lia. }
  rewrite zlen_cons in *. apply Forall_cons in Hok as [Hb0 Hok].
  pose proof (zlen_nonneg bs) as Hz. cbn [length for_loop].
  rewrite Z.mul_add_distr_l, Z.pow_add_r in * by lia. change (2 ^ (8 * 1)) with 256 in *.
  pose proof (be_value_bound bs Hok) as Hv. unfold byte_ok in Hb0.
  assert (0 < 2 ^ (8 * zlen bs)) as HM by lia.
  rewrite <- app_comm_cons, load_at, ret_bind by lia.
  rewrite u32_id, shl32_ret, ret_bind by lia.
  replace ((Z.of_nat w - k - 1) * 8) with (8 * zlen bs) by lia.
  rewrite Z.shiftl_mul_pow2 by lia.
  assert (2 ^ (8 * Z.of_nat w) <= 2 ^ 32) as H32 by (apply Z.pow_le_mono_r; lia).
  set (M := 2 ^ (8 * zlen bs)) in *. change (2 ^ 32) with 4294967296 in H32.
  rewrite (u32_id (b * M)) by nia.
  replace (q * (256 * M)) with (q * 2 ^ (8 + 8 * zlen bs))
    by (rewrite Z.pow_add_r by lia; fold M; lia).
  rewrite lor_disjoint; [|lia|rewrite Z.pow_add_r by lia; fold M; nia].
  rewrite Z.pow_add_r by lia; fold M.
  replace (q * (2 ^ 8 * M) + b * M) with ((q * 256 + b) * M) by lia.
  rewrite Z.mod_small by nia. cbn [mbind outcome_bind].
  rewrite cons_middle, app_assoc, IH; [f_equal; simpl; fold M; lia|zlen|lia|lia|done|lia|fold M; nia].
Qed.

Lemma copy_spec from pre old post i d bs fpre fpost :
  from = fpre ++ bs ++ fpost -> zlen fpre = i -> zlen pre = d -> length old = length bs ->
  copy from (pre ++ old ++ post) i d (zlen bs) = Ret (pre ++ bs ++ post).
Proof.
  intros -> Hf Hp Hold. unfold copy, zlen at 1. rewrite Nat2Z.id.
  rewrite (for_store _ _ _ _ _ _ _ (fun i => bs !!! Z.to_nat i)); [|lia|done|].
  - do 3 f_equal. apply list_eq. intros j. rewrite list_lookup_fmap.
    destruct (decide (j < length bs)%nat) as [Hj|Hj].
    + rewrite lookup_seqZ_lt by lia. simpl.
      replace (Z.to_nat (0 + Z.of_nat j)) with j by lia.
      by rewrite list_lookup_lookup_total_lt by lia.
    + rewrite lookup_seqZ_ge, (lookup_ge_None_2 bs) by lia. done.
  - intros j Hj. unfold load. pose proof (zlen_nonneg fpre). zb.
    rewrite lookup_app_r by (unfold zlen in *; lia).
    rewrite lookup_app_l by (unfold zlen in *; lia).
    replace (Z.to_nat (i + j) - length fpre)%nat with (Z.to_nat j) by (unfold zlen in *; lia).
    rewrite list_lookup_lookup_total_lt by lia. done.
Qed.

(** A range of a block that is in bounds splits it in three. *)
Lemma split_range (m : list Z) p n :
  0 <= p -> p + Z.of_nat n <= zlen m ->
  exists pre old post, m = pre ++ old ++ post /\ zlen pre = p /\ length old = n.
Proof.
  unfold zlen. intros Hp Hn.
  exists (take (Z.to_nat p) m), (take n (drop (Z.to_nat p) m)), (drop n (drop (Z.to_nat p) m)).
  rewrite !take_drop. split_and!; [done|rewrite length_take; lia|].
  rewrite length_take, length_drop. lia.
Qed.

Lemma load_outside (pre old new post : list Z) i :
  length new = length old -> i < zlen pre \/ zlen pre + zlen old <= i ->
  load (pre ++ new ++ post) i = load (pre ++ old ++ post) i.
Proof.
  intros Hl Hi. unfold load, zlen in *. destruct (0 <=? i) eqn:E; [|done].
  destruct Hi as [Hi|Hi].
  - by rewrite !lookup_app_l by lia.
  - rewrite !(lookup_app_r pre), !lookup_app_r by lia. by rewrite Hl.
Qed.

Lemma copy_in_range from to i d len :
  0 <= i -> 0 <= d -> i + len <= zlen from -> d + len <= zlen to ->
  exists to', copy from to i d len = Ret to' /\ zlen to' = zlen to.
Proof.
  intros Hi Hd Hf Ht. destruct (Z.leb_spec len 0) as [Hl|Hl].
  { exists to. split; [|done]. unfold copy. by replace (Z.to_nat len) with 0%nat by lia. }
  destruct (split_range from i (Z.to_nat len)) as (fpre & bs & fpost & -> & Hfp & Hbs); [lia..|].
  destruct (split_range to d (Z.to_nat len)) as (pre & old & post & -> & Hp & Hold); [lia..|].
  exists (pre ++ bs ++ post). replace len with (zlen bs) by (unfold zlen; lia).
  split; [eapply copy_spec; try done; lia|]. rewrite !zlen_app. unfold zlen. lia.
Qed.

Lemma copy_oob from to i d len : 0 < len -> zlen from <= i -> copy from to i d len = Undef OobRead.
Proof.
  intros Hl Hi. unfold copy. assert (exists j, Z.to_nat len = S j) as [j ->]
    by (exists (Z.to_nat len - 1)%nat; lia).
  cbn [for_loop]. by rewrite load_oob by lia.
Qed.

Lemma load_terminates m i : terminates (load m i).
Proof. unfold load, terminates. by repeat case_match. Qed.

Lemma store_terminates m i v : terminates (store m i v).
Proof. unfold store, terminates. by case_match. Qed.
#[export] Hint Resolve load_terminates store_terminates : outcome.

Lemma copy_terminates from to i d len : terminates (copy from to i d len).
Proof. apply for_loop_terminates. intros. auto with outcome. Qed.
#[export] Hint Resolve copy_terminates : outcome.

(** ** Properties *)

(** Writing a 1- to 4-byte unsigned integer into a block and reading
    it back at the same place gives the integer, the block keeps its size and
    no byte outside the field changes. *)
Theorem read_write_roundtrip (w : nat) (m : list Z) (p v : Z) :
  (w <= 4)%nat -> 0 <= p -> p + Z.of_nat w <= zlen m -> 0 <= v < 2 ^ (8 * Z.of_nat w) ->
  exists m', write w m p v = Ret m' /\ read w m' p 0 = Ret v /\ zlen m' = zlen m /\
    forall i, i < p \/ p + Z.of_nat w <= i -> load m' i = load m i.
Proof.
  intros Hw Hp Hr Hv. destruct (split_range m p w) as (pre & old & post & -> & Hpre & Hold); [lia..|].
  exists (pre ++ be_bytes w v ++ post). split_and!.
  - by apply write_spec.
  - rewrite read_spec; [|done..|apply length_be_bytes|apply be_bytes_ok].
    by rewrite be_value_bytes, Z.mod_small.
  - rewrite !zlen_app, zlen_be_bytes. unfold zlen. lia.
  - intros i Hi. apply load_outside; [by rewrite length_be_bytes|]. unfold zlen in *. lia.
Qed.

Lemma read_write_roundtrip_witness :
  exists m', write 4 [9; 0; 0; 0; 0; 7] 1 3232243713 = Ret m' /\ read 4 m' 1 0 = Ret 3232243713 /\
    zlen m' = zlen [9; 0; 0; 0; 0; 7] /\
    forall i, i < 1 \/ 1 + Z.of_nat 4 <= i -> load m' i = load [9; 0; 0; 0; 0; 7] i.
Proof. apply (read_write_roundtrip 4 [9; 0; 0; 0; 0; 7] 1 3232243713); [lia..|done| |split; [done|reflexivity]]. vm_compute; congruence. Defined.
