(* ===== verification/Pool.v ===== *)
(** * Memory pools ([src/src/common/main/utils/pool.cpp]) and owned buffers
    ([basic_data] of [src/src/core/protocol/dns_message.h/.cpp])

    The pools themselves ([boost::singleton_pool]) hand out blocks of one of
    five sizes; what the code adds is the choice of the size class and the two
    atomic byte counters, whose difference the server reports as leaked
    memory. *)
From S2P Require Import Prelude Bytes.

(** ** The allocator *)
Record pool := Pool { mallocNum : Z; freeNum : Z }.

(** The size class of a request, shared by the five branches of [pmalloc] and
    [pfree]. *)
Definition chunk (size : Z) : outcome Z :=
  if size <=? 8 then Ret 8
  else if size <=? 1024 then Ret 1024
  else if size <=? 2048 then Ret 2048
  else if size <=? 4096 then Ret 4096
  else if size <=? 1024 * 16 then Ret (1024 * 16)
  else Throw RuntimeError.

(** [pmalloc(size)] returns the size of the block handed out. *)
Definition pmalloc (size : Z) (st : pool) : outcome (Z * pool) :=
  c ← chunk size; Ret (c, Pool (u64 (mallocNum st + c)) (freeNum st)).

Definition pfree (size : Z) (st : pool) : outcome pool :=
  c ← chunk size; Ret (Pool (mallocNum st) (u64 (freeNum st + c))).

Definition free_size (st : pool) : Z := freeNum st.
Definition malloc_size (st : pool) : Z := mallocNum st.
Definition leak_size (st : pool) : Z := u64 (mallocNum st - freeNum st).

(** ** [basic_data]: a view of [len] bytes of a block, owned or borrowed *)
Record basic_data := BasicData {
  valid : bool;
  owner : bool;
  len : Z;
  mlen : Z;
  data : list Z
}.

Definition mark_invalid (b : basic_data) : basic_data :=
  BasicData false (owner b) 0 (mlen b) (data b).
Definition mark_valid (b : basic_data) : basic_data :=
  BasicData true (owner b) (len b) (mlen b) (data b).
Definition is_valid (b : basic_data) : bool := valid b.

(** [alloc(size)]: the block has the size of its class; the first [size] bytes
    are zeroed, the others are what the pool left there ([junk]). *)
Definition alloc (junk : Z -> list Z) (size : Z) (st : pool) : outcome (basic_data * pool) :=
  '(c, st') ← pmalloc size st;
  Ret (BasicData true true size c
         (replicate (Z.to_nat size) 0 ++ junk (c - size)), st').

(** [~basic_data()] *)
Definition destroy (b : basic_data) (st : pool) : outcome pool :=
  if owner b then pfree (mlen b) st else Ret st.

(** ** The life of the buffers of a process

    The owned blocks that are live, by their [mlen], beside the counters. *)
Record heap := Heap { live : list Z; counters : pool }.

Inductive heap_step : heap -> heap -> Prop :=
  | heap_alloc l st size c st' :
      0 <= size -> pmalloc size st = Ret (c, st') ->
      heap_step (Heap l st) (Heap (c :: l) st')
  | heap_free l1 l2 c st st' :
      pfree c st = Ret st' ->
      heap_step (Heap (l1 ++ c :: l2) st) (Heap (l1 ++ l2) st').

Definition heap_run : heap -> heap -> Prop := rtc heap_step.
Definition heap_init : heap := Heap [] (Pool 0 0).

(** ** Lemmas *)
Fixpoint zsum (l : list Z) : Z := match l with [] => 0 | x :: l => x + zsum l end.

Lemma zsum_app l1 l2 : zsum (l1 ++ l2) = zsum l1 + zsum l2.
Proof. induction l1; simpl; lia. Qed.

Lemma chunk_bound size c : chunk size = Ret c -> size <= c /\ 8 <= c <= 16384.
Proof. unfold chunk. intros. repeat case_match; simplify_eq; lia. Qed.

Lemma chunk_idem size c : chunk size = Ret c -> chunk c = Ret c.
Proof. unfold chunk. intros. by repeat case_match; simplify_eq. Qed.

(** What holds of the counters and the live blocks. *)
Definition heap_inv (h : heap) : Prop :=
  u64 (mallocNum (counters h) - freeNum (counters h)) = u64 (zsum (live h)) /\
  Forall (fun c => chunk c = Ret c) (live h).

Lemma heap_step_inv h h' : heap_step h h' -> heap_inv h -> heap_inv h'.
Proof.
  unfold heap_inv. intros [l st size c st' Hs H|l1 l2 c st st' H] [Hc Hl];
    simpl in *; unfold pmalloc, pfree in H; inv_ret; simpl.
  - split; [|constructor; [by eapply chunk_idem|done]].
    rewrite u64_sub_l, <- (u64_add_r c (zsum l)), <- Hc, u64_add_r. f_equal. lia.
  - apply Forall_app in Hl as [H1 H2]. apply Forall_cons in H2 as [Hc' H2].
    assert (a = c) as -> by congruence. split; [|by apply Forall_app].
    rewrite !zsum_app in *. simpl in Hc. rewrite u64_sub_r, Z.sub_add_distr.
    rewrite <- u64_sub_l, Hc, u64_sub_l. f_equal. lia.
Qed.

(** ** Properties *)

(** Claim C36. In every history of allocations and releases of owned buffers the
    reported leak ([leak_size]) is, modulo 2^64, the total size of the blocks
    still live: the counters balance exactly although a release passes the
    block's class size and an allocation the size requested. *)
Theorem leak_size_live (h : heap) :
  heap_run heap_init h -> leak_size (counters h) = u64 (zsum (live h)).
Proof.
  intros Hrun. enough (heap_inv h) as [H _] by done.
  assert (heap_inv heap_init) as Hi by by split.
  induction Hrun as [|x y z Hs _ IH]; [done|]. eauto using heap_step_inv.
Qed.

Lemma leak_size_live_witness :
  leak_size (counters (Heap [1024] (Pool 1032 8))) = u64 (zsum (live (Heap [1024] (Pool 1032 8)))).
Proof.
  apply (leak_size_live (Heap [1024] (Pool 1032 8))).
  eapply rtc_l; [apply (heap_alloc [] (Pool 0 0) 1000 1024 (Pool 1024 0)); [lia|reflexivity]|].
  eapply rtc_l; [apply (heap_alloc [1024] (Pool 1024 0) 2 8 (Pool 1032 0)); [lia|reflexivity]|].
  eapply rtc_l; [apply (heap_free [] [1024] 8 (Pool 1032 0) (Pool 1032 8)); reflexivity|].
  apply rtc_refl.
Defined.

(** A buffer of up to 16384 bytes is always granted, in a block that
    holds it and is accounted and released under one size class: allocating and
    destroying it leaves the reported leak unchanged. Larger requests throw. *)
Theorem alloc_destroy (junk : Z -> list Z) (size : Z) (st : pool) :
  (16384 < size -> alloc junk size st = Throw RuntimeError) /\
  (size <= 16384 -> exists b st1 st2,
     alloc junk size st = Ret (b, st1) /\ is_valid b = true /\ len b = size /\ size <= mlen b /\
     take (Z.to_nat size) (data b) = replicate (Z.to_nat size) 0 /\
     destroy b st1 = Ret st2 /\ leak_size st2 = leak_size st).
Proof.
  unfold alloc, pmalloc, destroy, pfree. split; intros Hs.
  { unfold chunk. by zb. }
  assert (exists c, chunk size = Ret c) as [c Hc].
  { unfold chunk. repeat case_match; eauto; lia. }
  rewrite Hc, !ret_bind. eexists _, _, _. do 3 (split; [reflexivity|]). split_and!.
  - simpl. pose proof (chunk_bound _ _ Hc). lia.
  - simpl. apply take_app_length'. by rewrite length_replicate.
  - cbn [owner mlen]. rewrite (chunk_idem size c Hc), ret_bind. reflexivity.
  - unfold leak_size. simpl. rewrite u64_sub_l, u64_sub_r. f_equal. lia.
Qed.

Lemma alloc_destroy_witness :
  (exists b st1 st2,
     alloc (fun n => replicate (Z.to_nat n) 255) 5 (Pool 0 0) = Ret (b, st1) /\ is_valid b = true /\
     len b = 5 /\ 5 <= mlen b /\ take (Z.to_nat 5) (data b) = replicate (Z.to_nat 5) 0 /\
     destroy b st1 = Ret st2 /\ leak_size st2 = leak_size (Pool 0 0)).
Proof. apply (alloc_destroy (fun n => replicate (Z.to_nat n) 255) 5 (Pool 0 0)). lia. Defined.
