(* ===== verification/Text.v ===== *)
(** * Text helpers ([string_utils.h] and [ipv4.h] of [src/src/common/main/utils])

    What the code uses of [std::string] (search, [substr], [stoi],
    [to_string]) and the two families of functions built on it: splitting and
    joining, and the textual form of IPv4 addresses. *)
From S2P Require Import Prelude Bytes.

(** ** [std::string] *)
Definition npos : Z := 18446744073709551615.

Fixpoint find_char (c : Z) (s : str) (i : Z) : Z :=
  match s with
  | [] => npos
  | x :: s' => if x =? c then i else find_char c s' (i + 1)
  end.

Definition find_first_of (s : str) (c pos : Z) : Z :=
  if pos <? zlen s then find_char c (drop (Z.to_nat pos) s) pos else npos.

Fixpoint find_last_char (c : Z) (s : str) (i found : Z) : Z :=
  match s with
  | [] => found
  | x :: s' => find_last_char c s' (i + 1) (if x =? c then i else found)
  end.

Definition find_last_of (s : str) (c : Z) : Z := find_last_char c s 0 npos.

Fixpoint find_str (sep s : str) (i : Z) : Z :=
  if bool_decide (take (length sep) s = sep) then i
  else match s with [] => npos | _ :: s' => find_str sep s' (i + 1) end.

Definition find (s sep : str) (pos : Z) : Z :=
  if pos <=? zlen s then find_str sep (drop (Z.to_nat pos) s) pos else npos.

Definition substr (s : str) (pos count : Z) : outcome str :=
  if pos <=? zlen s
  then Ret (take (Z.to_nat (Z.min count (zlen s))) (drop (Z.to_nat pos) s))
  else Throw OutOfRange.

Definition toupper (c : Z) : Z := if (97 <=? c) && (c <=? 122) then c - 32 else c.
Definition tolower (c : Z) : Z := if (65 <=? c) && (c <=? 90) then c + 32 else c.

Definition is_digit (c : Z) : bool := (48 <=? c) && (c <=? 57).
Definition is_space (c : Z) : bool := (c =? 32) || ((9 <=? c) && (c <=? 13)).

(** [to_string] of an unsigned integer: 20 digits hold any 64-bit value. *)
Fixpoint dec_digits (fuel : nat) (n : Z) : str :=
  match fuel with
  | O => []
  | S fuel' => if n <? 10 then [48 + n] else dec_digits fuel' (n / 10) ++ [48 + n mod 10]
  end.
Definition to_string (n : Z) : str := dec_digits 20 n.
Definition to_string_int (n : Z) : str :=
  if n <? 0 then 45 :: to_string (- n) else to_string n.

Fixpoint digits_value (acc : Z) (s : str) : Z :=
  match s with
  | c :: s' => if is_digit c then digits_value (acc * 10 + (c - 48)) s' else acc
  | [] => acc
  end.

Fixpoint skip_space (s : str) : str :=
  match s with c :: s' => if is_space c then skip_space s' else s | [] => [] end.

(** [strtol] in base 10: [None] when no digit is found. *)
Definition strtol (s : str) : option Z :=
  let s := skip_space s in
  let '(sign, s) := match s with
    | c :: s' => if c =? 45 then (-1, s') else if c =? 43 then (1, s') else (1, s)
    | [] => (1, s)
    end in
  match s with
  | c :: _ => if is_digit c then Some (sign * digits_value 0 s) else None
  | [] => None
  end.

Definition stoi (s : str) : outcome Z :=
  match strtol s with
  | None => Throw InvalidArgument
  | Some v => if (-2147483648 <=? v) && (v <=? 2147483647) then Ret v else Throw OutOfRange
  end.

(** ** [strutils] *)

(** [split(str, separator, start, spit_cnt)] *)
Definition split_loop (s separator : str) (spit_cnt : Z)
    : Z * Z * Z * list str -> outcome (Z * Z * Z * list str + Z * list str) :=
  fun '(pos, lastPos, s_cnt, result) =>
    let pos := find s separator pos in
    if pos =? npos then Ret (inr (lastPos, result))
    else
      line ← substr s lastPos (u64 (pos - lastPos));
      let pos := u64 (pos + zlen separator) in
      let lastPos := pos in
      let result := result ++ [line] in
      let s_cnt := u64 (s_cnt + 1) in
      if negb (spit_cnt =? 0) && (spit_cnt <=? s_cnt) then Ret (inr (lastPos, result))
      else Ret (inl (pos, lastPos, s_cnt, result)).

Definition split_at (s separator : str) (start spit_cnt : Z) : outcome (list str) :=
  if bool_decide (s = []) then Ret []
  else
    '(lastPos, result) ← while_loop (S (S (length s))) (split_loop s separator spit_cnt)
                           (start, 0, 0, []);
    line ← substr s lastPos (u64 (zlen s - lastPos));
    Ret (result ++ [line]).

Definition split (s separator : str) : outcome (list str) := split_at s separator 0 0.

(** ** [ipv4] *)
Definition ip_to_str (ip : Z) : str :=
  to_string (Z.shiftr (Z.land ip (Z.shiftl 255 24)) 24) ++ lit "." ++
  to_string (Z.shiftr (Z.land ip (Z.shiftl 255 16)) 16) ++ lit "." ++
  to_string (Z.shiftr (Z.land ip (Z.shiftl 255 8)) 8) ++ lit "." ++
  to_string (Z.land ip 255).

(** [str_to_ip]: the loop runs at most four times. The third argument of
    [substr] is a count, and the digit test looks at [numStr[0]] whatever the
    index, as in the source. *)
Definition str_to_ip_loop (ipStr : str) : Z * Z * Z -> outcome (Z * Z * Z + Z) :=
  fun '(ip, lastPos, num) =>
    if (num <? 4) && (lastPos <? zlen ipStr) then
      let pos := find_first_of ipStr 46 lastPos in
      if (negb (num =? 3) && (pos =? npos)) || ((num =? 3) && negb (pos =? npos)) then Ret (inr 0)
      else
        numStr ← substr ipStr lastPos pos;
        if bool_decide (numStr = []) then Ret (inr 0)
        else if existsb (fun _ => negb (is_digit (default 0 (head numStr)))) numStr then Ret (inr 0)
        else
          seg ← stoi numStr;
          let ipSeg := u32 seg in
          if 255 <? ipSeg then Ret (inr 0)
          else
            let lastPos := u64 (pos + 1) in
            let num := num + 1 in
            Ret (inl (Z.lor ip (u32 (Z.shiftl ipSeg (32 - 8 * num))), lastPos, num))
    else Ret (inr ip).

Definition str_to_ip (ipStr : str) : outcome Z :=
  while_loop 5 (str_to_ip_loop ipStr) (0, 0, 0).

Fixpoint str_to_ips_loop (ipStrs : list str) (ips : list Z) : outcome (list Z) :=
  match ipStrs with
  | [] => Ret ips
  | s :: rest =>
      ip ← str_to_ip s;
      str_to_ips_loop rest (if 0 <? ip then ips ++ [ip] else ips)
  end.

Definition str_to_ips (ipStr : str) : outcome (list Z) :=
  ipStrs ← split ipStr (lit ","); str_to_ips_loop ipStrs [].

Definition ips_to_str (ips : list Z) : outcome str :=
  let ipStr := fold_left (fun s ip => s ++ ip_to_str ip ++ lit ",") ips [] in
  substr ipStr 0 (u64 (zlen ipStr - 1)).

#[global] Arguments to_string : simpl never.
#[global] Arguments ip_to_str : simpl never.
#[global] Arguments str_to_ip : simpl never.

(** ** Specification: text joined by a separator *)
Fixpoint intercalate (sep : str) (parts : list str) : str :=
  match parts with
  | [] => []
  | [p] => p
  | p :: rest => p ++ sep ++ intercalate sep rest
  end.

Definition ip_ok (ip : Z) : Prop := 0 <= ip < 2 ^ 32.

(** ** Lemmas: numbers and their text *)
Definition stops (rest : str) : Prop :=
  match rest with c :: _ => is_digit c = false | [] => True end.

Lemma dec_digits_value fuel n acc rest :
  0 <= n < 10 ^ Z.of_nat fuel ->
  digits_value acc (dec_digits fuel n ++ rest) =
  digits_value (acc * 10 ^ zlen (dec_digits fuel n) + n) rest.
Proof.
  revert n acc rest. induction fuel as [|fuel IH]; intros n acc rest Hn.
  { simpl in Hn. simpl. rewrite zlen_nil. f_equal. lia. }
  simpl. destruct (Z.ltb_spec n 10) as [Hs|Hs].
  { simpl. unfold is_digit. zb. simpl. f_equal. rewrite zlen_cons, zlen_nil. lia. }
  rewrite <- app_assoc, IH; [|rewrite Nat2Z.inj_succ, Z.pow_succ_r in Hn by lia; split;
    [apply Z.div_pos; lia|apply Z.div_lt_upper_bound; lia]].
  pose proof (Z.mod_pos_bound n 10 ltac:(lia)). simpl. unfold is_digit. zb. simpl. f_equal.
  rewrite zlen_app, zlen_cons, zlen_nil, Z.pow_add_r by (try apply zlen_nonneg; lia).
  change (10 ^ (1 + 0)) with 10. pose proof (Z.div_mod n 10 ltac:(lia)). lia.
Qed.

Lemma dec_digits_digits fuel n : 0 <= n -> Forall (fun c => is_digit c = true) (dec_digits fuel n).
Proof.
  revert n. induction fuel as [|fuel IH]; intros n Hn; simpl; [done|].
  destruct (Z.ltb_spec n 10).
  - constructor; [|done]. unfold is_digit. lia.
  - apply Forall_app. split; [apply IH, Z.div_pos; lia|]. constructor; [|done].
    pose proof (Z.mod_pos_bound n 10 ltac:(lia)). unfold is_digit. lia.
Qed.

Lemma dec_digits_length fuel n k :
  0 <= n < 10 ^ Z.of_nat (S k) -> (length (dec_digits fuel n) <= S k)%nat.
Proof.
  revert n k. induction fuel as [|fuel IH]; intros n k Hn; simpl; [lia|].
  destruct (Z.ltb_spec n 10); simpl; [lia|].
  rewrite length_app. simpl. destruct k as [|k]; [simpl in Hn; lia|].
  rewrite Nat2Z.inj_succ, Z.pow_succ_r in Hn by lia.
  pose proof (Z.div_pos n 10 ltac:(lia) ltac:(lia)).
  pose proof (Z.div_lt_upper_bound n 10 (10 ^ Z.of_nat (S k)) ltac:(lia) ltac:(lia)).
  specialize (IH (n / 10) k). lia.
Qed.

Lemma to_string_digits n : 0 <= n -> Forall (fun c => is_digit c = true) (to_string n).
Proof. apply dec_digits_digits. Qed.

Lemma to_string_cons n : 0 <= n -> exists c s, to_string n = c :: s /\ is_digit c = true.
Proof.
  intros Hn. pose proof (to_string_digits n Hn) as Hd. unfold to_string in *.
  destruct (dec_digits 20 n) as [|c s] eqn:E.
  - exfalso. revert E. cbn [dec_digits]. case_match; [done|].
    intros E. symmetry in E. by apply app_cons_not_nil in E.
  - eexists _, _. split; [done|]. by apply Forall_cons in Hd as [? _].
Qed.

Lemma to_string_no_char n c : 0 <= n -> is_digit c = false -> c ∉ to_string n.
Proof.
  intros Hn Hc Hin. pose proof (to_string_digits n Hn) as Hd.
  rewrite Forall_forall in Hd. apply Hd in Hin. congruence.
Qed.

Lemma digits_value_stops acc rest : stops rest -> digits_value acc rest = acc.
Proof. destruct rest as [|c rest]; simpl; [done|]. by intros ->. Qed.

(** [strtol] and [stoi] read back what [to_string] wrote, up to the first non-digit. *)
Lemma strtol_to_string n rest :
  0 <= n < 10 ^ 20 -> stops rest -> strtol (to_string n ++ rest) = Some n.
Proof.
  intros Hn Hr. destruct (to_string_cons n) as (c & s & E & Hc); [lia|].
  rewrite E. unfold strtol. simpl.
  assert (is_space c = false) as -> by (unfold is_space, is_digit in *; lia).
  assert ((c =? 45) = false) as -> by (unfold is_digit in *; lia).
  assert ((c =? 43) = false) as -> by (unfold is_digit in *; lia).
  rewrite Hc. f_equal.
  transitivity (digits_value 0 (to_string n ++ rest));
    [rewrite E; cbn [digits_value app]; rewrite Hc; apply Z.mul_1_l|].
  unfold to_string. rewrite dec_digits_value by (simpl; lia).
  rewrite digits_value_stops by done. lia.
Qed.

Lemma stoi_to_string n rest :
  0 <= n <= 2147483647 -> stops rest -> stoi (to_string n ++ rest) = Ret n.
Proof. intros Hn Hr. unfold stoi. rewrite strtol_to_string by (done || lia). by zb. Qed.

(** ** Lemmas: searching *)
Lemma find_char_at c a b i : c ∉ a -> find_char c (a ++ c :: b) i = i + zlen a.
Proof.
  revert i. induction a as [|x a IH]; intros i Hc; simpl.
  { rewrite Z.eqb_refl, zlen_nil. lia. }
  apply not_elem_of_cons in Hc as [Hx Hc]. zb. rewrite IH, zlen_cons by done. lia.
Qed.

Lemma find_char_none c a i : c ∉ a -> find_char c a i = npos.
Proof.
  revert i. induction a as [|x a IH]; intros i Hc; simpl; [done|].
  apply not_elem_of_cons in Hc as [Hx Hc]. zb. by apply IH.
Qed.

Lemma drop_zlen {A} (a b : list A) : drop (Z.to_nat (zlen a)) (a ++ b) = b.
Proof. unfold zlen. by rewrite Nat2Z.id, drop_app_length. Qed.

Lemma find_first_of_at c pre a b :
  c ∉ a -> find_first_of (pre ++ a ++ c :: b) c (zlen pre) = zlen pre + zlen a.
Proof.
  intros Hc. unfold find_first_of. zlen. zb.
  by rewrite drop_zlen, find_char_at.
Qed.

Lemma find_first_of_none c pre a : c ∉ a -> find_first_of (pre ++ a) c (zlen pre) = npos.
Proof.
  intros Hc. unfold find_first_of. case_match; [|done]. by rewrite drop_zlen, find_char_none.
Qed.

Lemma substr_at pre x count :
  0 <= count -> substr (pre ++ x) (zlen pre) count = Ret (take (Z.to_nat count) x).
Proof.
  intros Hc. unfold substr. zlen. zb. rewrite drop_zlen. f_equal.
  destruct (Z.min_spec count (zlen pre + zlen x)) as [[? ->]|[? ->]]; [done|].
  rewrite !take_ge; [done|unfold zlen in *; lia..].
Qed.

Lemma substr_head x y : substr (x ++ y) 0 (zlen x) = Ret x.
Proof.
  pose proof (substr_at [] (x ++ y) (zlen x) (zlen_nonneg x)) as E. cbn [app] in E. change (zlen []) with 0 in E.
  rewrite E. by rewrite take_app_length' by (unfold zlen; lia).
Qed.

Lemma find_str_spec sep s i j :
  0 <= i -> i + zlen s < npos -> find_str sep s i = j -> j <> npos ->
  exists a b, s = a ++ sep ++ b /\ j = i + zlen a.
Proof.
  revert i. induction s as [|x s IH]; intros i Hi Hl; simpl; case_bool_decide as Hs; intros <- Hj;
    try done.
  - exists [], []. rewrite zlen_nil, take_nil in *. subst. simpl. split; [done|lia].
  - exists [], (drop (length sep) (x :: s)). rewrite zlen_nil. split; [|lia].
    rewrite <- Hs at 1. simpl app. by rewrite take_drop.
  - rewrite zlen_cons in Hl. destruct (IH (i + 1)) as (a & b & -> & ->); [lia|lia|done|done|].
    exists (x :: a), b. rewrite zlen_cons. split; [done|lia].
Qed.

(** ** Lemmas: IPv4 text *)
Lemma take_dot_stops k rest : stops (take k (46 :: rest)).
Proof. by destruct k. Qed.

Lemma existsb_first_digit c s t :
  is_digit c = true -> existsb (fun _ : Z => negb (is_digit (default 0 (head (c :: s))))) t = false.
Proof. intros Hc. simpl. rewrite Hc. by induction t. Qed.

(** One turn of the loop reads one decimal segment and its dot. *)
Lemma str_to_ip_segment pre n rest ip num :
  0 <= n < 256 -> 0 <= num < 3 -> zlen pre + 5 < npos ->
  str_to_ip_loop (pre ++ to_string n ++ 46 :: rest) (ip, zlen pre, num) =
  Ret (inl (Z.lor ip (u32 (Z.shiftl n (32 - 8 * (num + 1)))),
            zlen (pre ++ to_string n ++ [46]), num + 1)).
Proof.
  intros Hn Hnum Hpre. unfold str_to_ip_loop.
  pose proof (zlen_nonneg pre). pose proof (zlen_nonneg rest). pose proof (zlen_nonneg (to_string n)).
  assert (zlen (to_string n) <= 3) as Hlen.
  { unfold zlen. pose proof (dec_digits_length 20 n 2). unfold to_string. lia. }
  rewrite !zlen_app, zlen_cons.
  replace (num <? 4) with true by lia.
  replace (zlen pre <? zlen pre + (zlen (to_string n) + (1 + zlen rest))) with true by lia.
  cbn [andb]. rewrite find_first_of_at by (apply to_string_no_char; [lia|done]).
  unfold npos in *. zb. cbn [andb orb negb].
  rewrite substr_at, ret_bind by lia. rewrite (take_app_ge (to_string n)) by (unfold zlen; lia).
  set (tl := take _ (46 :: rest)).
  destruct (to_string_cons n) as (c & s & E & Hc); [lia|].
  rewrite bool_decide_false by (rewrite E; done).
  replace (existsb _ _) with false by (rewrite E; symmetry; by apply existsb_first_digit).
  rewrite stoi_to_string, ret_bind by (try apply take_dot_stops; lia).
  rewrite (u32_id n), u64_id by lia. zb. change (zlen [46]) with 1.
  do 4 f_equal. lia.
Qed.

Lemma str_to_ip_last pre n ip :
  0 <= n < 256 ->
  str_to_ip_loop (pre ++ to_string n) (ip, zlen pre, 3) =
  Ret (inl (Z.lor ip (u32 n), 0, 4)).
Proof.
  intros Hn. unfold str_to_ip_loop.
  destruct (to_string_cons n) as (c & s & E & Hc); [lia|].
  assert (0 < zlen (to_string n)) by (rewrite E, zlen_cons; pose proof (zlen_nonneg s); lia).
  rewrite zlen_app. zb. cbn [andb].
  rewrite find_first_of_none by (apply to_string_no_char; [lia|done]).
  rewrite Z.eqb_refl. cbn [andb orb negb].
  rewrite substr_at, ret_bind by (unfold npos; lia).
  rewrite (take_ge (to_string n)).
  - rewrite bool_decide_false by (rewrite E; done).
    replace (existsb _ _) with false by (rewrite E; symmetry; by apply existsb_first_digit).
    pose proof (stoi_to_string n [] ltac:(lia) I) as Hs. rewrite app_nil_r in Hs.
    rewrite Hs, ret_bind.
    rewrite (u32_id n) by lia. zb. change (32 - 8 * (3 + 1)) with 0. by rewrite Z.shiftl_0_r, (u32_id n) by lia.
  - pose proof (dec_digits_length 20 n 2). unfold to_string, npos. lia.
Qed.

Lemma zlen_to_string n : 0 <= n < 256 -> zlen (to_string n) <= 3.
Proof. intros. unfold zlen. pose proof (dec_digits_length 20 n 2). unfold to_string. lia. Qed.

Lemma str_to_ip_segments a b c d :
  0 <= a < 256 -> 0 <= b < 256 -> 0 <= c < 256 -> 0 <= d < 256 ->
  str_to_ip (to_string a ++ lit "." ++ to_string b ++ lit "." ++ to_string c ++ lit "." ++ to_string d) =
  Ret (a * 2 ^ 24 + b * 2 ^ 16 + c * 2 ^ 8 + d).
Proof.
  intros Ha Hb Hc Hd. change (lit ".") with [46].
  pose proof (zlen_to_string a Ha). pose proof (zlen_to_string b Hb). pose proof (zlen_to_string c Hc).
  set (s := to_string a ++ _).
  assert (str_to_ip_loop s (0, 0, 0) =
    Ret (inl (Z.lor 0 (u32 (Z.shiftl a 24)), zlen (to_string a ++ [46]), 1))) as S1.
  { apply (str_to_ip_segment [] a _ 0 0); unfold npos; [lia..|done]. }
  assert (forall ip, str_to_ip_loop s (ip, zlen (to_string a ++ [46]), 1) =
    Ret (inl (Z.lor ip (u32 (Z.shiftl b 16)), zlen ((to_string a ++ [46]) ++ to_string b ++ [46]), 2))) as S2.
  { intros ip. rewrite <- (str_to_ip_segment _ b (to_string c ++ [46] ++ to_string d) ip 1);
      [|lia..|unfold npos; zlen]. unfold s. by rewrite <- !app_assoc. }
  assert (forall ip, str_to_ip_loop s (ip, zlen ((to_string a ++ [46]) ++ to_string b ++ [46]), 2) =
    Ret (inl (Z.lor ip (u32 (Z.shiftl c 8)),
      zlen (((to_string a ++ [46]) ++ to_string b ++ [46]) ++ to_string c ++ [46]), 3))) as S3.
  { intros ip. rewrite <- (str_to_ip_segment _ c (to_string d) ip 2);
      [|lia..|unfold npos; zlen]. unfold s. by rewrite <- !app_assoc. }
  assert (forall ip, str_to_ip_loop s
      (ip, zlen (((to_string a ++ [46]) ++ to_string b ++ [46]) ++ to_string c ++ [46]), 3) =
    Ret (inl (Z.lor ip (u32 d), 0, 4))) as S4.
  { intros ip. rewrite <- (str_to_ip_last (((to_string a ++ [46]) ++ to_string b ++ [46]) ++ to_string c ++ [46]))
      by lia. unfold s. by rewrite <- !app_assoc. }
  unfold str_to_ip. cbn [while_loop].
  rewrite S1, ret_bind, S2, ret_bind, S3, ret_bind, S4, ret_bind. cbn.
  rewrite !Z.shiftl_mul_pow2, !u32_id by lia. f_equal.
  rewrite Z.lor_0_l, lor_disjoint by lia.
  replace (a * 2 ^ 24 + b * 2 ^ 16) with ((a * 2 ^ 8 + b) * 2 ^ 16) by lia.
  rewrite lor_disjoint by lia.
  replace ((a * 2 ^ 8 + b) * 2 ^ 16 + c * 2 ^ 8) with (((a * 2 ^ 8 + b) * 2 ^ 8 + c) * 2 ^ 8) by lia.
  rewrite lor_disjoint by lia. lia.
Qed.

Lemma ip_to_str_segments ip :
  ip_ok ip ->
  ip_to_str ip = to_string (ip / 2 ^ 24) ++ lit "." ++ to_string (ip / 2 ^ 16 mod 256) ++ lit "." ++
    to_string (ip / 2 ^ 8 mod 256) ++ lit "." ++ to_string (ip mod 256).
Proof.
  intros Hip. unfold ip_to_str.
  assert (forall s, 0 <= s <= 24 ->
    Z.shiftr (Z.land ip (Z.shiftl 255 s)) s = (ip / 2 ^ s) mod 256) as Hm.
  { intros s Hs. rewrite Z.shiftr_land, Z.shiftr_shiftl_l, Z.sub_diag, Z.shiftl_0_r, Z.land_comm,
      land_255, Z.shiftr_div_pow2 by lia. done. }
  rewrite !Hm, Z.land_comm, land_255 by lia.
  rewrite (Z.mod_small (ip / 2 ^ 24)); [done|]. unfold ip_ok in Hip.
  split; [apply Z.div_pos; lia|apply Z.div_lt_upper_bound; lia].
Qed.

(** ** Lemmas: splitting *)
Definition contains (sep s : str) : Prop := exists x y, s = x ++ sep ++ y.

Lemma find_str_le sep x y i : find_str sep (x ++ sep ++ y) i <= i + zlen x.
Proof.
  revert i. induction x as [|c x IH]; intros i.
  - rewrite app_nil_l, zlen_nil. destruct (sep ++ y) as [|c l] eqn:E; simpl.
    + apply app_eq_nil in E as [-> ->]. rewrite bool_decide_true by done. lia.
    + rewrite bool_decide_true; [lia|]. rewrite <- E. by apply take_app_length.
  - rewrite zlen_cons. simpl. case_bool_decide; [pose proof (zlen_nonneg x); lia|].
    specialize (IH (i + 1)). lia.
Qed.

(** A successful search cuts the text at the first occurrence. *)
Lemma find_some s sep pos pre rest :
  s = pre ++ rest -> zlen pre = pos -> zlen s < npos -> sep <> [] -> find s sep pos <> npos ->
  exists a b, rest = a ++ sep ++ b /\ find s sep pos = pos + zlen a /\ ~ contains sep a.
Proof.
  intros -> Hp Hl Hsep. unfold find. rewrite zlen_app in *. subst pos.
  pose proof (zlen_nonneg pre). pose proof (zlen_nonneg rest). zb. rewrite drop_zlen. intros Hf.
  destruct (find_str_spec sep rest (zlen pre) _ ltac:(lia) ltac:(lia) eq_refl Hf) as (a & b & Er & Ef).
  exists a, b. split_and!; [done|done|]. intros (x & y & ->).
  pose proof (find_str_le sep x (y ++ sep ++ b) (zlen pre)) as Hle.
  replace (x ++ sep ++ y ++ sep ++ b) with rest in Hle by (by rewrite Er, <- !app_assoc).
  rewrite Ef, !zlen_app in Hle. destruct sep; [done|]. rewrite zlen_cons in Hle.
  pose proof (zlen_nonneg sep). pose proof (zlen_nonneg y). lia.
Qed.

Lemma find_none s sep pos pre rest :
  s = pre ++ rest -> zlen pre = pos -> zlen s < npos -> find s sep pos = npos ->
  ~ contains sep rest.
Proof.
  intros -> Hp Hl. unfold find. rewrite zlen_app in *. subst pos.
  pose proof (zlen_nonneg pre). pose proof (zlen_nonneg rest). zb. rewrite drop_zlen.
  intros Hf (x & y & ->). pose proof (find_str_le sep x y (zlen pre)).
  rewrite zlen_app in *. pose proof (zlen_nonneg (sep ++ y)). lia.
Qed.

Lemma intercalate_snoc sep parts p :
  intercalate sep (parts ++ [p]) = concat ((fun x => x ++ sep) <$> parts) ++ p.
Proof.
  induction parts as [|x parts IH]; [done|]. simpl. rewrite IH, <- !app_assoc.
  by destruct parts.
Qed.

(** The loop has consumed the parts found so far, each with its separator. *)
Definition split_inv (s sep : str) (st : Z * Z * Z * list str) : Prop :=
  let '(pos, lastPos, _, result) := st in
  pos = lastPos /\ Forall (fun p => ~ contains sep p) result /\
  exists rest, s = concat ((fun x => x ++ sep) <$> result) ++ rest /\
    zlen (concat ((fun x => x ++ sep) <$> result)) = lastPos.

Definition split_done (s sep : str) (r : Z * list str) : Prop :=
  let '(lastPos, result) := r in
  Forall (fun p => ~ contains sep p) result /\
  exists rest, s = concat ((fun x => x ++ sep) <$> result) ++ rest /\
    zlen (concat ((fun x => x ++ sep) <$> result)) = lastPos /\ ~ contains sep rest.

Definition split_measure (s : str) (st : Z * Z * Z * list str) : nat :=
  let '(pos, _, _, _) := st in Z.to_nat (zlen s - pos).

Lemma split_loop_step s sep st :
  sep <> [] -> zlen s < npos -> split_inv s sep st ->
  exists x, split_loop s sep 0 st = Ret x /\
    match x with
    | inl st' => split_inv s sep st' /\ (split_measure s st' < split_measure s st)%nat
    | inr r => split_done s sep r
    end.
Proof.
  intros Hsep Hs. destruct st as [[[pos lastPos] c] result].
  intros (-> & Hres & rest & Es & El). simpl split_loop.
  destruct (Z.eqb_spec (find s sep lastPos) npos) as [Hf|Hf].
  { eexists. split; [done|]. split; [done|]. exists rest. split_and!; [done..|].
    by eapply find_none. }
  destruct (find_some s sep lastPos _ rest Es El Hs Hsep Hf) as (a & b & -> & -> & Ha).
  pose proof (zlen_nonneg a). pose proof (zlen_nonneg b). pose proof (zlen_nonneg (concat ((fun x => x ++ sep) <$> result))).
  assert (0 < zlen sep) by (destruct sep; [done|rewrite zlen_cons; pose proof (zlen_nonneg sep); lia]).
  assert (zlen s = lastPos + zlen a + zlen sep + zlen b) as Hlen by (rewrite Es, !zlen_app; lia).
  unfold npos in *. rewrite !u64_id by lia.
  replace (lastPos + zlen a - lastPos) with (zlen a) by lia. rewrite (u64_id (zlen a)) by lia.
  assert (substr s lastPos (zlen a) = Ret a) as ->.
  { rewrite Es, <- El, substr_at by lia. by rewrite take_app_length' by (unfold zlen; lia). }
  rewrite ret_bind.
  eexists. split; [done|]. cbn [split_inv split_measure]. split; [|lia].
  split_and!; [done|by apply Forall_app, conj, Forall_singleton|]. exists b.
  rewrite fmap_app, concat_app. simpl. rewrite app_nil_r. split.
  - rewrite Es, <- !app_assoc. done.
  - rewrite !zlen_app. lia.
Qed.

Lemma str_to_ip_roundtrip_lemma ip : ip_ok ip -> str_to_ip (ip_to_str ip) = Ret ip.
Proof.
  intros Hip. rewrite ip_to_str_segments by done. unfold ip_ok in Hip.
  pose proof (Z.div_mod ip (2 ^ 8) ltac:(lia)).
  pose proof (Z.div_mod (ip / 2 ^ 8) (2 ^ 8) ltac:(lia)).
  pose proof (Z.div_mod (ip / 2 ^ 8 / 2 ^ 8) (2 ^ 8) ltac:(lia)).
  rewrite !Z.div_div in * by lia. change (2 ^ 8 * 2 ^ 8) with (2 ^ 16) in *.
  change (2 ^ 16 * 2 ^ 8) with (2 ^ 24) in *. change 256 with (2 ^ 8).
  rewrite str_to_ip_segments; [f_equal; lia| |apply Z.mod_pos_bound; lia..].
  split; [apply Z.div_pos; lia|apply Z.div_lt_upper_bound; lia].
Qed.

Lemma split_spec s separator :
  s <> [] -> separator <> [] -> zlen s < npos ->
  exists parts, split s separator = Ret parts /\ intercalate separator parts = s /\
    Forall (fun p => ~ contains separator p) parts.
Proof.
  intros Hs Hsep Hl. unfold split, split_at. rewrite bool_decide_false by done.
  destruct (while_loop_total (split_inv s separator) (split_measure s) (split_done s separator)
    (S (S (length s))) (split_loop s separator 0) (0, 0, 0, [])) as ([lastPos result] & -> & Hd & rest & Es & El & Hr).
  - intros st Hst. by apply split_loop_step.
  - split_and!; [done..|]. by exists s.
  - simpl. unfold zlen. lia.
  - rewrite ret_bind. pose proof (zlen_nonneg rest).
    assert (zlen s = lastPos + zlen rest) as Hlen by (rewrite Es, zlen_app; lia).
    pose proof (zlen_nonneg (concat ((fun x => x ++ separator) <$> result))).
    rewrite u64_id by (unfold npos in *; lia).
    assert (substr s lastPos (zlen s - lastPos) = Ret rest) as ->.
    { rewrite Hlen. rewrite Es, <- El, substr_at by lia.
      by rewrite take_ge by (unfold zlen in *; lia). }
    eexists. split; [reflexivity|]. rewrite intercalate_snoc. split; [done|].
    by apply Forall_app, conj, Forall_singleton.
Qed.

Lemma contains_char c s : contains [c] s <-> c ∈ s.
Proof.
  split; [|apply list_elem_of_split]. intros (x & y & ->). apply elem_of_app. right. by left.
Qed.

Lemma cut_unique c (a b x y : str) :
  c ∉ a -> c ∉ b -> a ++ c :: x = b ++ c :: y -> a = b /\ x = y.
Proof.
  revert b. induction a as [|u a IH]; intros [|v b] Ha Hb E; simplify_eq/=; try done.
  - destruct Hb. by left.
  - destruct Ha. by left.
  - rewrite not_elem_of_cons in *. destruct (IH b) as [-> ->]; naive_solver.
Qed.

Lemma intercalate_cons sep p q ps : intercalate sep (p :: q :: ps) = p ++ sep ++ intercalate sep (q :: ps).
Proof. done. Qed.

Lemma intercalate_inj c (ps qs : list str) :
  ps <> [] -> qs <> [] -> Forall (fun p => c ∉ p) ps -> Forall (fun p => c ∉ p) qs ->
  intercalate [c] ps = intercalate [c] qs -> ps = qs.
Proof.
  intros Hp. revert qs. induction ps as [|p ps IH]; [done|]. intros [|q qs] Hq Hps Hqs E; [done|]. clear Hq.
  apply Forall_cons in Hps as [Hp1 Hps]. apply Forall_cons in Hqs as [Hq1 Hqs].
  destruct ps as [|p' ps], qs as [|q' qs]; rewrite ?intercalate_cons in E; cbn [intercalate] in E.
  - by subst.
  - subst p. set_solver.
  - subst q. set_solver.
  - apply cut_unique in E as [-> E]; [|done..]. f_equal. by apply IH.
Qed.

Lemma ip_to_str_no_char ip c : ip_ok ip -> is_digit c = false -> c <> 46 -> c ∉ ip_to_str ip.
Proof.
  intros Hip Hc Hd. rewrite ip_to_str_segments by done. unfold ip_ok in Hip.
  pose proof (Z.mod_pos_bound (ip / 2 ^ 16) 256). pose proof (Z.mod_pos_bound (ip / 2 ^ 8) 256).
  pose proof (Z.mod_pos_bound ip 256). pose proof (Z.div_pos ip (2 ^ 24)).
  change (lit ".") with [46].
  rewrite !not_elem_of_app, !not_elem_of_cons. pose proof (not_elem_of_nil (c:Z)).
  split_and!; try done; apply to_string_no_char; auto; lia.
Qed.

Lemma ip_to_str_no_comma ip : ip_ok ip -> 44 ∉ ip_to_str ip.
Proof. intros. by apply ip_to_str_no_char. Qed.

Lemma fold_left_concat {A} (f : A -> str) l s :
  fold_left (fun s x => s ++ f x) l s = s ++ concat (f <$> l).
Proof.
  revert s. induction l as [|x l IH]; intros s; simpl; [by rewrite app_nil_r|].
  by rewrite IH, <- app_assoc.
Qed.

Lemma concat_intercalate {A} (f : A -> str) sep x l :
  concat ((fun x => f x ++ sep) <$> (x :: l)) = intercalate sep (f <$> (x :: l)) ++ sep.
Proof.
  revert x. induction l as [|y l IH]; intros x; [simpl; by rewrite app_nil_r|].
  rewrite fmap_cons, concat_cons, IH. rewrite !fmap_cons, intercalate_cons.
  by rewrite <- !app_assoc.
Qed.

Lemma ips_to_str_intercalate ip ips :
  zlen (concat ((fun ip => ip_to_str ip ++ lit ",") <$> (ip :: ips))) < npos ->
  ips_to_str (ip :: ips) = Ret (intercalate (lit ",") (ip_to_str <$> (ip :: ips))).
Proof.
  intros Hl. unfold ips_to_str.
  rewrite (fold_left_concat (fun ip => ip_to_str ip ++ lit ",")), app_nil_l.
  assert (concat ((fun ip => ip_to_str ip ++ lit ",") <$> (ip :: ips)) =
    intercalate (lit ",") (ip_to_str <$> (ip :: ips)) ++ lit ",") as E.
  { apply (concat_intercalate ip_to_str). }
  rewrite E in *. clear E. generalize dependent (intercalate (lit ",") (ip_to_str <$> (ip :: ips))).
  intros t Hl. change (lit ",") with [44] in *.
  rewrite zlen_app in *. change (zlen [44]) with 1 in *. pose proof (zlen_nonneg t).
  rewrite u64_id by (unfold npos in *; lia).
  replace (zlen t + 1 - 1) with (zlen t) by lia.
  rewrite (substr_at [] (t ++ [44])) by lia. by rewrite take_app_length' by (unfold zlen; lia).
Qed.

Lemma str_to_ips_loop_spec ips acc :
  Forall ip_ok ips ->
  str_to_ips_loop (ip_to_str <$> ips) acc = Ret (acc ++ List.filter (fun ip => 0 <? ip) ips).
Proof.
  intros H. revert acc. induction H as [|ip ips Hip _ IH]; intros acc.
  { cbn [fmap list_fmap List.filter str_to_ips_loop]. by rewrite app_nil_r. }
  rewrite fmap_cons. cbn [str_to_ips_loop List.filter]. rewrite str_to_ip_roundtrip_lemma, ret_bind, IH by done. case_match; [|done].
  by rewrite <- app_assoc.
Qed.

(** ** Properties *)

(** The textual form of every IPv4 address reads back as that
    address: [str_to_ip] inverts [ip_to_str], although each segment is cut out
    with an absolute position as its count. *)
Theorem str_to_ip_roundtrip (ip : Z) : ip_ok ip -> str_to_ip (ip_to_str ip) = Ret ip.
Proof. apply str_to_ip_roundtrip_lemma. Qed.

Lemma str_to_ip_roundtrip_witness : str_to_ip (ip_to_str 1879179521) = Ret 1879179521.
Proof. apply (str_to_ip_roundtrip 1879179521). unfold ip_ok. lia. Defined.

(** Splitting a non-empty text at a non-empty separator always
    returns; the pieces joined by the separator are the text, and none of them
    contains the separator. *)
Theorem split_intercalate (s separator : str) :
  s <> [] -> separator <> [] -> zlen s < npos ->
  exists parts, split s separator = Ret parts /\ intercalate separator parts = s /\
    Forall (fun p => ~ contains separator p) parts.
Proof. apply split_spec. Qed.

Lemma split_intercalate_witness :
  exists parts, split (lit "www.baidu.com") (lit ".") = Ret parts /\
    intercalate (lit ".") parts = lit "www.baidu.com" /\
    Forall (fun p => ~ contains (lit ".") p) parts.
Proof. apply (split_intercalate (lit "www.baidu.com") (lit ".")); done. Defined.

(** A list of addresses printed with commas reads back as that list
    without its zero addresses, which the reader treats as malformed. *)
Theorem str_to_ips_roundtrip (ips : list Z) :
  Forall ip_ok ips -> zlen (concat ((fun ip => ip_to_str ip ++ lit ",") <$> ips)) < npos ->
  exists s, ips_to_str ips = Ret s /\ str_to_ips s = Ret (List.filter (fun ip => 0 <? ip) ips).
Proof.
  intros Hok Hl. destruct ips as [|ip ips]; [by exists []|].
  rewrite ips_to_str_intercalate by done. eexists. split; [reflexivity|].
  set (s := intercalate _ _).
  assert (s <> [] /\ zlen s < npos) as [Hs Hls].
  { unfold s. split.
    - apply Forall_cons in Hok as [Hip _]. rewrite fmap_cons.
      assert (ip_to_str ip <> []) as Hne.
      { rewrite ip_to_str_segments by done. change (lit ".") with [46]. by intros [_ E]%app_nil. }
      generalize dependent (ip_to_str ip). intros t Ht.
      destruct (ip_to_str <$> ips); [done|]. rewrite intercalate_cons. by intros [? _]%app_nil.
    - rewrite (concat_intercalate ip_to_str), zlen_app in Hl. pose proof (zlen_nonneg (lit ",")).
      lia. }
  destruct (split_spec s (lit ",") Hs ltac:(done) Hls) as (parts & Hp & Ei & Hc).
  unfold str_to_ips. rewrite Hp, ret_bind.
  apply intercalate_inj in Ei as ->; [by apply str_to_ips_loop_spec|..].
  - intros ->. by simpl in Ei.
  - done.
  - eapply Forall_impl; [exact Hc|]. intros p Hn Hin. by apply Hn, contains_char.
  - apply Forall_fmap. eapply Forall_impl; [exact Hok|]. intros p. apply ip_to_str_no_comma.
Qed.

Lemma str_to_ips_roundtrip_witness :
  exists s, ips_to_str [3232235777; 0; 16843009] = Ret s /\
    str_to_ips s = Ret (List.filter (fun ip => 0 <? ip) [3232235777; 0; 16843009]).
Proof.
  apply (str_to_ips_roundtrip [3232235777; 0; 16843009]); [|reflexivity].
  repeat constructor; unfold ip_ok; lia.
Defined.
