(* ===== verification/Counters.v ===== *)
(** * Counters ([avg_counter.h], [median_counter.h], [interval_counter.h] of
    [src/src/common/main/utils])

    The average of all values, the median of the last thousand, and the counts
    per interval. The value type [T] of the templates is an unsigned integer of
    [w] bits, no narrower than [int], so that sums are formed in [T]. *)
From Stdlib Require Import Permutation.
From S2P Require Import Prelude.

(** ** [counters::average] *)
Section average.
Context (w : Z).
Definition wrap (x : Z) : Z := x mod 2 ^ w.

Record average := Average { total : Z; num : Z }.
Definition average_new : average := Average 0 0.

Definition average_add (value : Z) (c : average) : average := Average (wrap (total c + value)) (u64 (num c + 1)).

(** [total.load() / num.load()] *)
Definition avg (c : average) : outcome Z := if num c =? 0 then Undef DivByZero else Ret (wrap (total c / num c)).
End average.

(** ** [counters::median] *)
Section median.
Context (w : Z).
(** [std::sort] *)
Context (sort : list Z -> list Z).

Definition MEDIAN_MAX : Z := 1000.

(** [operator+=] on the queue, its front first. *)
Definition median_add (value : Z) (queue : list Z) : list Z :=
  (if MEDIAN_MAX <=? zlen queue then tail queue else queue) ++ [value].

(** One turn of [mid]'s loop: the front goes to the back, and to [nums]. *)
Definition rotate (s : list Z * list Z) : outcome (list Z * list Z) :=
  match s.1 with
  | [] => Undef NullDeref
  | val :: rest => Ret (rest ++ [val], s.2 ++ [val])
  end.

Definition nums_at (nums : list Z) (i : Z) : outcome Z :=
  if i <? 0 then Undef VectorRange else match nums !! Z.to_nat i with Some v => Ret v | None => Undef VectorRange end.

Definition mid (queue : list Z) : outcome (Z * list Z) :=
  let size := zlen queue in
  if size =? 0 then Ret (0, queue)
  else
    '(queue, nums) ← for_loop (Z.to_nat size) 0 (fun _ => rotate) (queue, []);
    let nums := sort nums in
    if size mod 2 =? 0 then
      a ← nums_at nums (size / 2 - 1);
      b ← nums_at nums (size / 2);
      Ret (wrap w (a + b) / 2, queue)
    else
      a ← nums_at nums (size / 2);
      Ret (a, queue).
End median.

(** ** [counters::interval] *)
Record interval := Interval {
  last_interval_time : Z; last_record_time : Z; interval_count : Z; total_count : Z
}.

Definition interval_new : interval := Interval 0 0 0 0.

(** [inter()] at time [now]: the interval's length and its count. *)
Definition inter (now : Z) (c : interval) : (Z * Z) * interval :=
  ((u64 (now - last_interval_time c), interval_count c), Interval now (last_record_time c) 0 (total_count c)).

Definition interval_add (now incr : Z) (c : interval) : interval :=
  Interval (if last_interval_time c =? 0 then now else last_interval_time c) now
    (u64 (interval_count c + incr)) (u64 (total_count c + incr)).

Definition is_start (c : interval) : bool := 0 <? total_count c.

(** *** Interleavings

    Each access of a counter is atomic, [inter] and [+=] are not. The thread
    that asks for intervals runs [inter] one access at a time, between which
    others add. *)
Inductive inter_pc := Idle | Read_time (now : Z) | Read_count (now t : Z) | Stored_time (t count : Z).

Inductive interval_step : interval * inter_pc * list Z -> interval * inter_pc * list Z -> Prop :=
  | st_begin c l now : interval_step (c, Idle, l) (c, Read_time now, l)
  | st_time c l now :
      interval_step (c, Read_time now, l) (c, Read_count now (u64 (now - last_interval_time c)), l)
  | st_count c l now t :
      interval_step (c, Read_count now t, l)
        (Interval now (last_record_time c) (interval_count c) (total_count c), Stored_time t (interval_count c), l)
  | st_reset c l t count :
      interval_step (c, Stored_time t count, l)
        (Interval (last_interval_time c) (last_record_time c) 0 (total_count c), Idle, l ++ [count])
  | st_add c l pc now incr : 0 <= incr -> total_count c + incr < 2 ^ 64 ->
      interval_step (c, pc, l) (interval_add now incr c, pc, l).

(** ** Specification *)

(** At most half of [l] lies on each side of [m]. *)
Definition balanced (m : Z) (l : list Z) : Prop :=
  2 * zlen (List.filter (fun x => x <? m) l) <= zlen l /\ 2 * zlen (List.filter (fun x => m <? x) l) <= zlen l.

Definition sorts_z (sort : list Z -> list Z) : Prop := forall l, Permutation (sort l) l /\ StronglySorted Z.le (sort l).

(** The queue after the values [l], the oldest first. *)
Definition median_of (l : list Z) : list Z := fold_left (fun q v => median_add v q) l [].

(** The operations of one thread on an interval counter. *)
Inductive interval_op := OpAdd (now incr : Z) | OpInter (now : Z).

Definition interval_do (o : interval_op) (c : interval) : list (Z * Z) * interval :=
  match o with OpAdd now incr => ([], interval_add now incr c) | OpInter now => let '(r, c) := inter now c in ([r], c) end.

Fixpoint interval_run (ops : list interval_op) (c : interval) : list (Z * Z) * interval :=
  match ops with
  | [] => ([], c)
  | o :: rest => let '(r, c) := interval_do o c in let '(rs, c) := interval_run rest c in (r ++ rs, c)
  end.

Definition added (ops : list interval_op) : Z :=
  foldr (fun o n => match o with OpAdd _ incr => incr | OpInter _ => 0 end + n) 0 ops.

Definition counted (l : list (Z * Z)) : Z := foldr (fun r n => r.2 + n) 0 l.
Definition lengths (l : list (Z * Z)) : Z := foldr (fun r n => r.1 + n) 0 l.

(** ** Lemmas: the median *)
Lemma rotate_all a : forall i b nums,
  for_loop (length a) i (fun _ => rotate) (a ++ b, nums) = Ret (b ++ a, nums ++ a).
Proof.
  induction a as [|x a IH]; intros i b nums; cbn [length for_loop].
  { by rewrite !app_nil_r. }
  change (rotate ((x :: a) ++ b, nums)) with (Ret ((a ++ b) ++ [x], nums ++ [x])). ret_step.
  rewrite <- (app_assoc a), IH, <- !app_assoc. done.
Qed.

Lemma nums_at_app l1 m l2 i : i = zlen l1 -> nums_at (l1 ++ m :: l2) i = Ret m.
Proof.
  intros ->. unfold nums_at. pose proof (zlen_nonneg l1). zb. unfold zlen. by rewrite Nat2Z.id, list_lookup_middle.
Qed.

Lemma filter_none {A} (f : A -> bool) l : Forall (fun x => f x = false) l -> List.filter f l = [].
Proof. induction 1 as [|x l Hx _ IH]; [done|]. cbn. by rewrite Hx. Qed.

Lemma filter_short {A} (f : A -> bool) l : zlen (List.filter f l) <= zlen l.
Proof. induction l as [|x l IH]; [done|]. cbn [List.filter]. destruct (f x); rewrite ?zlen_cons; lia. Qed.

Lemma sorted_middle l1 m l2 : StronglySorted Z.le (l1 ++ m :: l2) ->
  Forall (fun x => x <= m) l1 /\ Forall (fun x => m <= x) l2.
Proof.
  induction l1 as [|x l1 IH]; cbn [app]; intros H; apply StronglySorted_inv in H as [Hs Hf]; [done|].
  destruct (IH Hs) as [H1 H2]. split; [|done]. constructor; [|done]. rewrite Forall_app, Forall_cons in Hf. tauto.
Qed.

Lemma below_middle l1 m l2 m' : StronglySorted Z.le (l1 ++ m :: l2) -> m' <= m ->
  zlen (List.filter (fun x => x <? m') (l1 ++ m :: l2)) <= zlen l1.
Proof.
  intros [_ H]%sorted_middle Hm. rewrite List.filter_app, zlen_app.
  rewrite (filter_none _ (m :: l2)); [pose proof (filter_short (fun x => x <? m') l1); zlen|].
  constructor; [lia|]. eapply Forall_impl; [exact H|]. cbn. lia.
Qed.

Lemma above_middle l1 m l2 m' : StronglySorted Z.le (l1 ++ m :: l2) -> m <= m' ->
  zlen (List.filter (fun x => m' <? x) (l1 ++ m :: l2)) <= zlen l2.
Proof.
  intros [H _]%sorted_middle Hm. rewrite List.filter_app, zlen_app. cbn [List.filter]. zb.
  rewrite filter_none; [pose proof (filter_short (fun x => m' <? x) l2); zlen|].
  eapply Forall_impl; [exact H|]. cbn. lia.
Qed.

Lemma filter_perm {A} (f : A -> bool) l l' : Permutation l l' -> zlen (List.filter f l) = zlen (List.filter f l').
Proof.
  unfold zlen. induction 1 as [|x l l' _ IH|x y l|l1 l2 l3 _ IH1 _ IH2]; [done| | |congruence]; cbn [List.filter].
  - destruct (f x); cbn [length]; lia.
  - by destruct (f x), (f y).
Qed.

Lemma balanced_perm m l l' : Permutation l l' -> balanced m l -> balanced m l'.
Proof.
  intros Hp [H1 H2]. unfold balanced. rewrite <- !(filter_perm _ l l' Hp).
  assert (zlen l' = zlen l) as -> by (unfold zlen; by rewrite Hp). done.
Qed.

Lemma median_add_window v l : median_add v (drop (length l - 1000) l) = drop (length (l ++ [v]) - 1000) (l ++ [v]).
Proof.
  unfold median_add, MEDIAN_MAX, zlen. rewrite length_drop, length_app. cbn [length].
  destruct (Z.leb_spec 1000 (Z.of_nat (length l - (length l - 1000)))) as [H|H].
  - rewrite (drop_app_le l) by lia. f_equal.
    replace (length l + 1 - 1000)%nat with (S (length l - 1000)) by lia.
    rewrite <- (drop_drop l 1) || idtac. generalize (length l - 1000)%nat. clear. intros n. revert l.
    induction n as [|n IH]; intros [|x l]; try done. apply IH.
  - replace (length l - 1000)%nat with 0%nat by lia. replace (length l + 1 - 1000)%nat with 0%nat by lia. done.
Qed.

Lemma median_of_window l : median_of l = drop (length l - 1000) l.
Proof.
  unfold median_of. induction l as [|v l IH] using rev_ind; [done|].
  rewrite fold_left_app. cbn [fold_left]. by rewrite IH, median_add_window.
Qed.

Lemma mid_balanced w sort queue : sorts_z sort -> 0 <= w -> Forall (fun x => 0 <= x /\ 2 * x < 2 ^ w) queue -> queue <> [] ->
  exists m, mid w sort queue = Ret (m, queue) /\ balanced m queue.
Proof.
  intros Hsort Hw Hq Hne. destruct (Hsort queue) as [Hp Hs]. set (nums := sort queue) in *.
  assert (zlen nums = zlen queue) as Hlen by (unfold zlen; by rewrite Hp).
  assert (0 < zlen queue) as Hpos by (destruct queue; [done|rewrite zlen_cons; pose proof (zlen_nonneg queue); lia]).
  unfold mid. replace (zlen queue =? 0) with false by lia. pose proof (rotate_all queue 0 [] []) as Hr. rewrite app_nil_r in Hr.
  replace (Z.to_nat (zlen queue)) with (length queue) by (unfold zlen; lia). rewrite Hr. ret_step. cbn [app]. fold nums.
  assert (exists l1 m l2, nums = l1 ++ m :: l2 /\ zlen l1 = zlen queue / 2) as (l1 & m & l2 & El & Hl1).
  { assert (zlen queue / 2 < zlen nums) by (rewrite Hlen; zdiv).
    assert (0 <= zlen queue / 2) by (apply Z.div_pos; lia).
    destruct (lookup_lt_is_Some_2 nums (Z.to_nat (zlen queue / 2))) as [m Hm]; [unfold zlen in *; lia|].
    exists (take (Z.to_nat (zlen queue / 2)) nums), m, (drop (S (Z.to_nat (zlen queue / 2))) nums).
    split; [by rewrite take_drop_middle|]. unfold zlen in *. rewrite length_take. lia. }
  assert (zlen l1 + (1 + zlen l2) = zlen queue) as Hsum by (rewrite <- Hlen, El; zlen).
  destruct (Z.eqb_spec (zlen queue mod 2) 0) as [He|Ho].
  - destruct l1 as [|a l1' _] using rev_ind; [change (zlen []) with 0 in *; zdiv|].
    rewrite zlen_app in *. change (zlen [a]) with 1 in *.
    rewrite <- app_assoc in El. cbn [app] in El.
    assert (nums_at nums (zlen queue / 2 - 1) = Ret a) as -> by (rewrite El; apply nums_at_app; lia). ret_step.
    assert (nums_at nums (zlen queue / 2) = Ret m) as ->.
    { rewrite El. change (a :: m :: l2) with ([a] ++ m :: l2). rewrite app_assoc. apply nums_at_app.
      rewrite zlen_app. change (zlen [a]) with 1. lia. }
    ret_step.
    assert (a <= m) as Ham by (rewrite El in Hs; apply sorted_middle in Hs as [_ Hs]; by apply Forall_cons in Hs as [Hs _]).
    assert (Forall (fun x => 0 <= x /\ 2 * x < 2 ^ w) nums) as Hn by (by rewrite Hp).
    rewrite El, Forall_app, !Forall_cons in Hn. destruct Hn as (_ & Ha & Hm & _).
    unfold wrap. rewrite Z.mod_small by lia. eexists. split; [reflexivity|].
    apply (balanced_perm _ nums); [done|]. rewrite El. split.
    + replace (l1' ++ a :: m :: l2) with ((l1' ++ [a]) ++ m :: l2) by (by rewrite <- app_assoc).
      etransitivity; [apply Z.mul_le_mono_nonneg_l; [lia|]; apply below_middle|].
      * rewrite <- app_assoc. cbn [app]. by rewrite <- El.
      * zdiv.
      * rewrite !zlen_app, !zlen_cons in *. change (zlen (@nil Z)) with 0 in *. zdiv.
    + etransitivity; [apply Z.mul_le_mono_nonneg_l; [lia|]; apply above_middle|].
      * by rewrite <- El.
      * zdiv.
      * rewrite !zlen_app, !zlen_cons in *. zdiv.
  - assert (nums_at nums (zlen queue / 2) = Ret m) as -> by (rewrite El; apply nums_at_app; lia). ret_step. eexists. split; [reflexivity|].
    apply (balanced_perm _ nums); [done|]. rewrite El in *. split.
    + etransitivity; [apply Z.mul_le_mono_nonneg_l; [lia|]; by apply below_middle|]. rewrite !zlen_app, !zlen_cons in *. zdiv.
    + etransitivity; [apply Z.mul_le_mono_nonneg_l; [lia|]; by apply above_middle|]. rewrite !zlen_app, !zlen_cons in *. zdiv.
Qed.

(** ** Lemmas: the interval counter *)
Lemma interval_run_counts ops : forall c rs c', interval_run ops c = (rs, c') ->
  Forall (fun o => match o with OpAdd _ incr => 0 <= incr | OpInter _ => True end) ops ->
  0 <= interval_count c <= total_count c -> total_count c + added ops < 2 ^ 64 ->
  counted rs + interval_count c' = interval_count c + added ops /\ total_count c' = total_count c + added ops /\
  0 <= added ops.
Proof.
  induction ops as [|o ops IH]; intros c rs c' E Ho Hc Hb.
  { injection E as <- <-. cbn. lia. }
  apply Forall_cons in Ho as [Ho Hos]. cbn [interval_run] in E.
  destruct o as [now incr|now]; cbn [interval_do inter] in E.
  - destruct (interval_run ops (interval_add now incr c)) as [rs1 c1] eqn:E1. injection E as <- <-.
    change (added (OpAdd now incr :: ops)) with (incr + added ops) in *.
    assert (0 <= added ops) as Hn.
    { clear - Hos. unfold added. induction Hos as [|o ops Ho _ IH]; [done|]. destruct o; cbn in *; lia. }
    destruct (IH _ _ _ E1 Hos) as (I1 & I2 & _); cbn [interval_add interval_count total_count] in *;
      rewrite ?u64_id in * by lia; cbn [app]; lia.
  - destruct (interval_run ops (Interval now (last_record_time c) 0 (total_count c))) as [rs1 c1] eqn:E1. injection E as <- <-.
    change (added (OpInter now :: ops)) with (0 + added ops) in *.
    destruct (IH _ _ _ E1 Hos) as (I1 & I2 & I3); cbn [interval_count total_count] in *; [lia|lia|].
    unfold counted in *. cbn [foldr snd]. lia.
Qed.

(** What is counted and what is to be counted never exceed what was added. *)
Definition interval_inv (s : interval * inter_pc * list Z) : Prop :=
  let '(c, pc, l) := s in
  0 <= interval_count c /\ foldr Z.add 0 l + interval_count c <= total_count c /\ 0 <= foldr Z.add 0 l /\
  total_count c < 2 ^ 64 /\
  match pc with Stored_time _ count => 0 <= count <= interval_count c | _ => True end.

Lemma sum_app l n : foldr Z.add 0 (l ++ [n]) = foldr Z.add 0 l + n.
Proof. induction l as [|x l IH]; cbn [app foldr]; lia. Qed.

Lemma interval_step_inv s s' : interval_inv s -> interval_step s s' -> interval_inv s'.
Proof.
  intros Hi Hs. destruct Hs as [c l now|c l now|c l now t|c l t count|c l pc now incr Hn Hb]; unfold interval_inv in *;
    cbn [interval_count total_count interval_add] in *; rewrite ?sum_app; try lia.
  rewrite !u64_id by lia. destruct pc; lia.
Qed.

(** ** Properties *)

(** The median counter keeps the last thousand values; asking for the median leaves
    them in place and in order and gives a value with at most half of them below it and at most
    half above. *)
Theorem median_balanced (w : Z) (sort : list Z -> list Z) (l : list Z) :
  sorts_z sort -> 0 <= w -> Forall (fun x => 0 <= x /\ 2 * x < 2 ^ w) l -> l <> [] ->
  exists m, mid w sort (median_of l) = Ret (m, median_of l) /\ balanced m (drop (length l - 1000) l).
Proof.
  intros Hs Hw Hl Hne. rewrite median_of_window. apply mid_balanced; [done|done|by apply Forall_drop|].
  intros E. apply (f_equal length) in E. rewrite length_drop in E. destruct l; [done|]. cbn [length] in E. lia.
Qed.

Lemma median_balanced_witness :
  exists m, mid 32 (merge_sort Z.le) (median_of [7; 1; 3; 9]) = Ret (m, median_of [7; 1; 3; 9]) /\
    balanced m (drop (length [7; 1; 3; 9] - 1000) [7; 1; 3; 9]).
Proof.
  apply (median_balanced 32 (merge_sort Z.le) [7; 1; 3; 9]).
  - intros l. split; [apply merge_sort_Permutation|apply (StronglySorted_merge_sort Z.le)].
  - lia.
  - repeat constructor; lia.
  - discriminate.
Defined.

(** Asked and added to by one thread, the interval counter counts every increment in
    exactly one interval. When others add while it is asked no increment is counted twice, but an
    increment between the reading of the count and its reset is in no interval. *)
Theorem interval_counts (ops : list interval_op) (rs : list (Z * Z)) (c : interval) (s : interval * inter_pc * list Z) :
  Forall (fun o => match o with OpAdd _ incr => 0 <= incr | OpInter _ => True end) ops -> added ops < 2 ^ 64 ->
  interval_run ops interval_new = (rs, c) -> rtc interval_step (interval_new, Idle, []) s ->
  (counted rs + interval_count c = added ops /\ total_count c = added ops) /\
  foldr Z.add 0 s.2 + interval_count s.1.1 <= total_count s.1.1 /\
  exists c' l, rtc interval_step (interval_new, Idle, []) (c', Idle, l) /\
    foldr Z.add 0 l + interval_count c' < total_count c'.
Proof.
  intros Ho Hb E Hr. split; [|split].
  - destruct (interval_run_counts ops _ _ _ E Ho) as (H1 & H2 & _); cbn [interval_new interval_count total_count] in *; lia.
  - assert (interval_inv s) as Hi.
    { clear - Hr. assert (interval_inv (interval_new, Idle, [])) as Hi by (cbn; lia).
      induction Hr as [|s1 s2 s3 Hstep _ IH]; [done|]. apply IH. by eapply interval_step_inv. }
    destruct s as [[c' pc] l]. cbn in *. lia.
  - eexists (Interval 5 6 0 1), [0]. split; [|cbn; lia].
    eapply rtc_l; [apply (st_begin _ _ 5)|]. eapply rtc_l; [apply st_time|]. eapply rtc_l; [apply st_count|].
    eapply rtc_l; [apply (st_add _ _ _ 6 1); cbn; lia|]. eapply rtc_l; [apply st_reset|]. apply rtc_refl.
Qed.

Lemma interval_counts_witness :
  let ops := [OpAdd 10 2; OpInter 15; OpAdd 20 3] in
  counted (interval_run ops interval_new).1 + interval_count (interval_run ops interval_new).2 = added ops.
Proof.
  intros ops. refine (proj1 (proj1 (interval_counts ops _ _ _ _ _ (surjective_pairing _) (rtc_refl _ _)))).
  - repeat constructor; lia.
  - vm_compute. reflexivity.
Defined.

Lemma sum_nonneg l : Forall (fun v => 0 <= v) l -> 0 <= foldr Z.add 0 l.
Proof. induction 1; cbn [foldr]; lia. Qed.

(** The average of nothing divides by zero. *)
Lemma avg_spec w l : 0 <= w -> Forall (fun v => 0 <= v) l -> foldr Z.add 0 l < 2 ^ w -> zlen l < 2 ^ 64 ->
  avg w (fold_left (fun c v => average_add w v c) l average_new) =
  if bool_decide (l = []) then Undef DivByZero else Ret (foldr Z.add 0 l / zlen l).
Proof.
  intros Hw Hl Hs Hn.
  assert (fold_left (fun c v => average_add w v c) l average_new = Average (foldr Z.add 0 l) (zlen l)) as ->.
  { induction l as [|v l IH] using rev_ind; [done|]. rewrite fold_left_app, sum_app, zlen_app in *. change (zlen [v]) with 1 in *.
    apply Forall_app in Hl as [Hl Hv]. apply Forall_inv in Hv. pose proof (zlen_nonneg l). rewrite IH by (done || lia).
    cbn [fold_left]. unfold average_add, wrap. cbn [total num]. rewrite u64_id by lia.
    pose proof (sum_nonneg l Hl). by rewrite Z.mod_small by lia. }
  unfold avg. cbn [num total]. case_bool_decide as E; [by subst l|]. pose proof (zlen_nonneg l).
  assert (zlen l <> 0) by (intros H0; by apply zlen_0_nil in H0). zb. unfold wrap.
  pose proof (sum_nonneg l Hl) as H1. rewrite Z.mod_small; [done|]. split; [apply Z.div_pos; lia|].
  eapply Z.le_lt_trans; [|exact Hs]. apply Z.div_le_upper_bound; [lia|]. nia.
Qed.
