(* ===== verification/Files.v ===== *)
(** * Files ([src/src/common/main/utils/file.h])

    The helpers on files and directories. What [boost::filesystem] and the file
    streams do is the class [FileSystem]; [FileSystemLaws] states what the
    helpers rely on. *)
From S2P Require Import Prelude Text.

(** ** The file system *)
Class FileSystem (F : Type) := {
  fs_exists : F -> str -> bool;
  fs_regular : F -> str -> bool;                      (* [is_regular_file] *)
  fs_directory : F -> str -> bool;
  fs_remove : str -> F -> F;
  fs_create_directories : str -> F -> bool * F;       (* an error, the state *)
  fs_append : str -> F -> option F;                   (* opened for appending, created if missing *)
  fs_write : str -> str -> F -> option F;             (* truncated and written *)
  fs_content : F -> str -> option str;                (* opened for reading *)
  fs_entries : F -> str -> option (list str);         (* [directory_iterator], which throws *)
  fs_time : F -> str -> Z;                            (* [last_write_time] *)
  parent_path : str -> str
}.

Class FileSystemLaws (F : Type) `{FileSystem F} := {
  fs_entries_nodup : forall f d l, fs_entries f d = Some l -> NoDup l;
  fs_remove_entries : forall f p d, fs_entries (fs_remove p f) d = List.filter (fun q => negb (bool_decide (q = p))) <$> fs_entries f d;
  fs_remove_regular : forall f p q, q <> p -> fs_regular (fs_remove p f) q = fs_regular f q;
  fs_write_content : forall f f' p s, fs_write p s f = Some f' -> fs_content f' p = Some s
}.

Section files.
Context {F : Type} `{FileSystem F}.
(** [std::sort] on times and paths, by time. *)
Context (sort : list (Z * str) -> list (Z * str)).

(** ** Operations *)
Definition pid (process : Z) (pidFile : str) (f : F) : bool * F :=
  match fs_write pidFile (to_string_int process) f with Some f => (true, f) | None => (false, f) end.

Definition exists_ (path : str) (f : F) : bool := fs_regular f path.

Definition del (path : str) (f : F) : F := fs_remove path f.

(** A directory created without error leaves the function at its end, where no
    value is returned. *)
Definition mkdirs (path : str) (f : F) : outcome (bool * F) :=
  if fs_exists f path && fs_directory f path then Ret (true, f)
  else
    let '(error, f) := fs_create_directories path f in
    if (error : bool) then Ret (false, f) else Undef MissingReturn.

Definition create_if_not_exits (path : str) (f : F) : bool * F :=
  let '(failed, f) :=
    if negb (fs_exists f (parent_path path)) then fs_create_directories (parent_path path) f else (false, f) in
  if (failed : bool) then (false, f)
  else if negb (exists_ path f) then
    match fs_append path f with Some f => (true, f) | None => (false, f) end
  else (true, f).

(** The lines [getline] gives: what follows the last newline is one if it is
    not empty. *)
Fixpoint getlines (line s : str) : list str :=
  match s with
  | [] => if bool_decide (line = []) then [] else [line]
  | c :: s' => if c =? 10 then line :: getlines [] s' else getlines (line ++ [c]) s'
  end.

(** [read(path, data)] into a set *)
Definition read_lines (path : str) (data : gset str) (f : F) : gset str :=
  match fs_content f path with
  | Some s => fold_left (fun data line => {[line]} ∪ data) (getlines [] s) data
  | None => data
  end.

(** [read(path)] *)
Definition read_file (path : str) (f : F) : str :=
  match fs_content f path with
  | Some s => fold_left (fun result line => result ++ line ++ [10]) (getlines [] s) []
  | None => []
  end.

Definition regular_files (path : str) (f : F) : outcome (list (Z * str)) :=
  match fs_entries f path with
  | None => Throw RuntimeError
  | Some l => Ret ((fun p => (fs_time f p, p)) <$> List.filter (fs_regular f) l)
  end.

(** The deleting loop, until the count is used up. *)
Fixpoint delete_files (files : list (Z * str)) (need_delete_cnt : Z) (f : F) : F :=
  match files with
  | [] => f
  | (_, p) :: rest =>
      let f := fs_remove p f in
      let need_delete_cnt := u32 (need_delete_cnt - 1) in
      if need_delete_cnt <=? 0 then f else delete_files rest need_delete_cnt f
  end.

Definition limit_file_cnt (path : str) (limit : Z) (f : F) : outcome (Z * F) :=
  files ← regular_files path f;
  let files := sort files in
  let need_delete_cnt := if limit <? zlen files then u32 (zlen files - limit) else 0 in
  Ret (need_delete_cnt, if 0 <? need_delete_cnt then delete_files files need_delete_cnt f else f).

Definition get_file_cnt (path : str) (f : F) : outcome Z :=
  match fs_entries f path with
  | None => Throw RuntimeError
  | Some l => Ret (fold_left (fun cnt p => if fs_regular f p then u32 (cnt + 1) else cnt) l 0)
  end.
End files.

(** ** Specification *)
Definition by_time (a b : Z * str) : Prop := a.1 <= b.1.
#[export] Instance by_time_dec a b : Decision (by_time a b) := Z_le_dec _ _.
#[export] Instance by_time_trans : Transitive by_time. Proof. unfold by_time. intros x y z. lia. Qed.
#[export] Instance by_time_total : Total by_time. Proof. unfold by_time. intros x y. lia. Qed.
Definition sorts_files (sort : list (Z * str) -> list (Z * str)) : Prop :=
  forall l, Permutation (sort l) l /\ StronglySorted by_time (sort l).

(** ** Lemmas *)
Section lemmas.
Context {F : Type} `{FileSystemLaws F}.

Definition remove_all (ps : list str) (f : F) : F := fold_left (fun f p => fs_remove p f) ps f.

Lemma delete_files_take files : forall n f, 0 < n <= zlen files -> n < 2 ^ 32 ->
  delete_files files n f = remove_all (take (Z.to_nat n) files).*2 f.
Proof.
  induction files as [|[t p] files IH]; intros n f Hn Hb; [change (zlen []) with 0 in Hn; lia|].
  rewrite zlen_cons in Hn. cbn [delete_files]. rewrite u32_id by lia.
  replace (Z.to_nat n) with (S (Z.to_nat (n - 1))) by lia. cbn [take fmap list_fmap snd].
  destruct (Z.leb_spec (n - 1) 0) as [Hz|Hz].
  - by replace (Z.to_nat (n - 1)) with 0%nat by lia.
  - by rewrite IH by lia.
Qed.

Lemma remove_all_entries ps : forall f d,
  fs_entries (remove_all ps f) d = List.filter (fun q => negb (bool_decide (q ∈ ps))) <$> fs_entries f d.
Proof.
  induction ps as [|p ps IH]; intros f d; cbn [remove_all fold_left].
  - destruct (fs_entries f d) as [l|]; [|done]. cbn. f_equal. induction l as [|q l IH]; [done|]. cbn. by rewrite <- IH.
  - fold (remove_all ps (fs_remove p f)). rewrite IH, fs_remove_entries. destruct (fs_entries f d) as [l|]; [|done]. cbn. f_equal.
    induction l as [|q l IHl]; [done|]. cbn [List.filter]. destruct (bool_decide (q = p)) eqn:E; cbn [negb].
    + rewrite IHl. apply bool_decide_eq_true in E as ->. by rewrite (bool_decide_true (p ∈ p :: ps)) by left.
    + apply bool_decide_eq_false in E. cbn [List.filter]. rewrite IHl.
      rewrite (bool_decide_ext (q ∈ p :: ps) (q ∈ ps)); [done|]. rewrite elem_of_cons. tauto.
Qed.

Lemma remove_all_regular ps : forall (f : F) q, q ∉ ps -> fs_regular (remove_all ps f) q = fs_regular f q.
Proof.
  induction ps as [|p ps IH]; intros f q Hq; [done|]. apply not_elem_of_cons in Hq as [Hp Hq].
  cbn [remove_all fold_left]. fold (remove_all ps (fs_remove p f)). by rewrite IH, fs_remove_regular.
Qed.

Lemma count_loop (f : F) l : forall n, 0 <= n -> n + zlen l < 2 ^ 32 ->
  fold_left (fun cnt p => if fs_regular f p then u32 (cnt + 1) else cnt) l n = n + zlen (List.filter (fs_regular f) l).
Proof.
  induction l as [|p l IH]; intros n Hn Hb; cbn [fold_left List.filter]; [change (zlen []) with 0; lia|].
  rewrite zlen_cons in Hb. pose proof (zlen_nonneg l). destruct (fs_regular f p).
  - rewrite u32_id by lia. rewrite IH by lia. rewrite zlen_cons. lia.
  - by rewrite IH by lia.
Qed.

Lemma filter_split {A} (g : A -> bool) l : zlen (List.filter g l) + zlen (List.filter (fun x => negb (g x)) l) = zlen l.
Proof. induction l as [|x l IH]; [done|]. cbn [List.filter]. destruct (g x); cbn [negb]; rewrite !zlen_cons; lia. Qed.

Lemma filter_le {A} (g : A -> bool) l : zlen (List.filter g l) <= zlen l.
Proof. rewrite <- (filter_split g l). pose proof (zlen_nonneg (List.filter (fun x => negb (g x)) l)). lia. Qed.

Lemma filter_filter {A} (g h : A -> bool) l : List.filter g (List.filter h l) = List.filter (fun x => h x && g x) l.
Proof. induction l as [|x l IH]; [done|]. cbn [List.filter]. destruct (h x); cbn [andb List.filter]; by rewrite IH. Qed.

Lemma filter_in {A} (g : A -> bool) l x : x ∈ List.filter g l <-> x ∈ l /\ g x = true.
Proof. rewrite !list_elem_of_In. apply List.filter_In. Qed.

Lemma nodup_filter {A} (g : A -> bool) l : NoDup l -> NoDup (List.filter g l).
Proof. rewrite !NoDup_ListNoDup. apply List.NoDup_filter. Qed.

(** The elements of a duplicate-free list that are in a duplicate-free sublist. *)
Lemma filter_sub ps files : NoDup files -> NoDup ps -> ps ⊆ files ->
  zlen (List.filter (fun q : str => bool_decide (q ∈ ps)) files) = zlen ps.
Proof.
  intros Hf Hp Hs. unfold zlen. f_equal. apply Permutation_length. apply NoDup_Permutation; [by apply nodup_filter|done|].
  intros x. rewrite filter_in, bool_decide_eq_true. split; [tauto|]. intros Hx. split; [by apply Hs|done].
Qed.

Lemma sorted_split (l1 l2 : list (Z * str)) x y : StronglySorted by_time (l1 ++ l2) -> x ∈ l1 -> y ∈ l2 -> x.1 <= y.1.
Proof.
  induction l1 as [|z l1 IH]; intros Hs Hx Hy; [by apply elem_of_nil in Hx|]. apply StronglySorted_inv in Hs as [Hs Hf].
  apply elem_of_cons in Hx as [->|Hx]; [|by apply IH]. rewrite Forall_forall in Hf. apply Hf. apply elem_of_app. by right.
Qed.
End lemmas.

Lemma list_filter_ext {A} (g h : A -> bool) l : (forall x, x ∈ l -> g x = h x) -> List.filter g l = List.filter h l.
Proof.
  induction l as [|x l IH]; intros E; [done|]. cbn [List.filter]. rewrite (E x) by left. rewrite IH; [done|].
  intros y Hy. apply E. by right.
Qed.

(** What stays of a directory whose first [n] files by time are removed. *)
Lemma limit_kept {F} `{FileSystemLaws F} (f : F) d l (sorted : list (Z * str)) n :
  fs_entries f d = Some l ->
  Permutation sorted ((fun p => (fs_time f p, p)) <$> List.filter (fs_regular f) l) -> StronglySorted by_time sorted ->
  let doomed := (take n sorted).*2 in
  fs_entries (remove_all doomed f) d = Some (List.filter (fun q => negb (bool_decide (q ∈ doomed))) l) /\
  List.filter (fs_regular (remove_all doomed f)) (List.filter (fun q => negb (bool_decide (q ∈ doomed))) l) =
    List.filter (fun q => negb (bool_decide (q ∈ doomed))) (List.filter (fs_regular f) l) /\
  zlen doomed + zlen (List.filter (fun q => negb (bool_decide (q ∈ doomed))) (List.filter (fs_regular f) l)) =
    zlen (List.filter (fs_regular f) l) /\
  forall x y, x ∈ doomed -> y ∈ List.filter (fs_regular f) l -> y ∉ doomed -> fs_time f x <= fs_time f y.
Proof.
  intros Hl Hp Hs doomed. set (files := List.filter (fs_regular f) l) in *.
  assert (NoDup files) as Hnf by (apply nodup_filter; by eapply fs_entries_nodup).
  assert (Permutation sorted.*2 files) as Hps.
  { rewrite Hp, <- list_fmap_compose. clear. induction files as [|x files IH]; [done|]. cbn. by constructor. }
  assert (forall t p, (t, p) ∈ sorted -> t = fs_time f p) as Ht.
  { intros t p Hin. rewrite Hp in Hin. apply list_elem_of_fmap in Hin as (q & Hq & _). by simplify_eq. }
  assert (doomed ++ (drop n sorted).*2 = sorted.*2) as Hsplit by (unfold doomed; by rewrite <- fmap_app, take_drop).
  assert (NoDup sorted.*2) as Hnd by (by rewrite Hps). rewrite <- Hsplit in Hnd. apply NoDup_app in Hnd as (Hd & Hdj & _).
  split_and!.
  - by rewrite remove_all_entries, Hl.
  - unfold files. rewrite !filter_filter. apply list_filter_ext. intros x _.
    case_bool_decide as Hx; cbn [negb andb]; [by rewrite andb_false_r|]. rewrite remove_all_regular by done. by rewrite andb_true_r.
  - pose proof (filter_split (fun q => bool_decide (q ∈ doomed)) files) as Hc.
    rewrite filter_sub in Hc; [exact Hc|done|done|]. intros x Hx. rewrite <- Hps, <- Hsplit. apply elem_of_app. by left.
  - intros x y Hx Hy Hny. apply list_elem_of_fmap in Hx as ([tx x'] & -> & Hx).
    rewrite <- Hps, <- Hsplit in Hy. apply elem_of_app in Hy as [Hy|Hy]; [done|].
    apply list_elem_of_fmap in Hy as ([ty y'] & -> & Hy). cbn [snd].
    rewrite <- (take_drop n sorted) in Hs. pose proof (sorted_split _ _ _ _ Hs Hx Hy) as Hle. cbn [fst] in Hle.
    rewrite <- (Ht tx x'), <- (Ht ty y'); [done| |]; rewrite <- (take_drop n sorted); apply elem_of_app; auto.
Qed.

(** ** Properties *)

(** Limiting a directory to a number of files deletes the oldest ones, exactly as many
    as there are too many, and returns how many; what [get_file_cnt] counts afterwards is the
    limit or the number of files there were, whichever is less. *)
Theorem limit_files {F} `{FileSystemLaws F} (sort : list (Z * str) -> list (Z * str)) (f : F) (d : str) (limit : Z) (l : list str) :
  sorts_files sort -> fs_entries f d = Some l -> zlen l < 2 ^ 32 -> 0 <= limit ->
  let files := List.filter (fs_regular f) l in
  exists n f' kept, limit_file_cnt sort d limit f = Ret (n, f') /\ n = Z.max 0 (zlen files - limit) /\
    get_file_cnt d f' = Ret (Z.min (zlen files) limit) /\
    List.filter (fs_regular f') <$> fs_entries f' d = Some kept /\ kept ⊆ files /\
    forall x y, x ∈ files -> x ∉ kept -> y ∈ kept -> fs_time f x <= fs_time f y.
Proof.
  intros Hsort Hl Hlen Hlim files. unfold limit_file_cnt, regular_files. rewrite Hl. ret_step. fold files.
  destruct (Hsort ((fun p => (fs_time f p, p)) <$> files)) as [Hp Hs]. set (sorted := sort _) in *.
  assert (zlen sorted = zlen files) as Hz by (unfold zlen; rewrite Hp; by rewrite length_fmap).
  assert (zlen files <= zlen l) as Hle by apply filter_le.
  pose proof (zlen_nonneg files) as Hn0. rewrite Hz.
  assert (forall n, zlen (take n sorted).*2 = Z.min (Z.of_nat n) (zlen files)) as Hzt
    by (intros n; rewrite <- Hz; unfold zlen; rewrite length_fmap, length_take; lia).
  set (cnt := Z.max 0 (zlen files - limit)).
  replace (if limit <? zlen files then u32 (zlen files - limit) else 0) with cnt
    by (unfold cnt; destruct (Z.ltb_spec limit (zlen files)); [rewrite u32_id|]; change (2 ^ 32) with 4294967296 in *; lia).
  destruct (limit_kept f d l sorted (Z.to_nat cnt) Hl Hp Hs) as (E1 & E2 & E3 & E4). fold files in E2, E3, E4.
  set (doomed := (take (Z.to_nat cnt) sorted).*2) in *.
  assert ((if 0 <? cnt then delete_files sorted cnt f else f) = remove_all doomed f) as ->.
  { destruct (Z.ltb_spec 0 cnt) as [Hc|Hc].
    - apply delete_files_take; unfold cnt in *; lia.
    - unfold doomed. by replace (Z.to_nat cnt) with 0%nat by lia. }
  eexists cnt, _, _. split; [reflexivity|]. split; [done|]. unfold get_file_cnt. rewrite E1. cbn [fmap option_fmap option_map].
  pose proof (Hzt (Z.to_nat cnt)) as Hd. fold doomed in Hd. split; [|split; [reflexivity|rewrite E2; split]].
  - rewrite count_loop; [|lia|].
    + rewrite E2. f_equal. unfold cnt in *. lia.
    + rewrite Z.add_0_l. eapply Z.le_lt_trans; [apply filter_le|done].
  - intros x Hx. by apply filter_in in Hx as [Hx _].
  - intros x y Hx Hnx [Hy Hny]%filter_in. apply negb_true_iff, bool_decide_eq_false in Hny. apply E4; [|done|done].
    destruct (decide (x ∈ doomed)) as [|Hnd]; [done|]. exfalso. apply Hnx. apply filter_in. split; [done|].
    by rewrite bool_decide_eq_false_2.
Qed.

(** *** An instance: files in a list, all in one directory *)
Section list_fs.
Abbreviation files := (list (str * (Z * str))).

Definition named (p : str) (e : str * (Z * str)) : bool := bool_decide (e.1 = p).

#[export] Instance list_fs : FileSystem files := {|
  fs_exists f p := existsb (named p) f;
  fs_regular f p := existsb (named p) f;
  fs_directory _ _ := false;
  fs_remove p f := List.filter (fun e => negb (named p e)) f;
  fs_create_directories _ f := (false, f);
  fs_append p f := Some (if existsb (named p) f then f else f ++ [(p, (0, []))]);
  fs_write p s f := Some ((p, (0, s)) :: f);
  fs_content f p := (fun e => e.2.2) <$> List.find (named p) f;
  fs_entries f _ := Some (remove_dups f.*1);
  fs_time f p := from_option (fun e => e.2.1) 0 (List.find (named p) f);
  parent_path _ := []
|}.

Lemma remove_dups_filter (g : str -> bool) l : remove_dups (List.filter g l) = List.filter g (remove_dups l).
Proof.
  induction l as [|x l IH]; [done|]. cbn [List.filter remove_dups]. destruct (g x) eqn:Eg; cbn [remove_dups].
  - case_decide as H1; case_decide as H2.
    + done.
    + exfalso. apply H2. apply list_elem_of_In in H1. apply List.filter_In in H1 as [H1 _]. by apply list_elem_of_In.
    + exfalso. apply H1. apply list_elem_of_In, List.filter_In. split; [by apply list_elem_of_In|done].
    + cbn [List.filter]. by rewrite Eg, IH.
  - case_decide; [done|]. cbn [List.filter]. by rewrite Eg.
Qed.

#[export] Instance list_fs_laws : FileSystemLaws files.
Proof.
  split.
  - intros f d l [= <-]. apply NoDup_remove_dups.
  - intros f p d. cbn. f_equal. rewrite <- remove_dups_filter. f_equal.
    induction f as [|e f IH]; [done|]. cbn [List.filter fmap list_fmap]. unfold named at 1.
    destruct (bool_decide (e.1 = p)); cbn [negb fmap list_fmap]; by rewrite IH.
  - intros f p q Hq. cbn. induction f as [|e f IH]; [done|]. cbn [List.filter existsb]. destruct (named p e) eqn:E; cbn [negb existsb].
    + rewrite IH. unfold named in *. apply bool_decide_eq_true in E. rewrite bool_decide_eq_false_2; [done|congruence].
    + by rewrite IH.
  - intros f f' p s [= <-]. cbn. unfold named. cbn. by rewrite bool_decide_eq_true_2.
Qed.
End list_fs.

Lemma limit_files_witness :
  let f := [(lit "a", (3, [])); (lit "b", (1, [])); (lit "c", (2, []))] in
  let l := [lit "a"; lit "b"; lit "c"] in
  exists n f' kept, limit_file_cnt (merge_sort by_time) [] 2 f = Ret (n, f') /\ n = 1 /\
    List.filter (fs_regular f') <$> fs_entries f' [] = Some kept /\ kept ⊆ l.
Proof.
  intros f l.
  destruct (limit_files (merge_sort by_time) f [] 2 l) as (n & f' & kept & E & En & _ & Hk & Hs & _).
  - intros x. split; [apply merge_sort_Permutation|]. apply (StronglySorted_merge_sort by_time).
  - vm_compute. reflexivity.
  - vm_compute. reflexivity.
  - lia.
  - exists n, f', kept. split; [exact E|]. split; [rewrite En; vm_compute; reflexivity|]. by split.
Defined.

(** What [getline] and the newlines put back give. *)
Lemma getlines_join s : forall line acc,
  fold_left (fun result line => result ++ line ++ [10]) (getlines line s) acc =
  acc ++ line ++ s ++ (if bool_decide (line ++ s = []) then [] else match last s with Some 10 => [] | _ => [10] end).
Proof.
  induction s as [|c s IH]; intros line acc; cbn [getlines].
  - rewrite app_nil_r. case_bool_decide as E; [subst; by rewrite !app_nil_r|]. cbn [fold_left last app]. done.
  - destruct (Z.eqb_spec c 10) as [->|Hc].
    + cbn [fold_left]. rewrite IH. rewrite (bool_decide_eq_false_2 (line ++ 10 :: s = [])) by (by destruct line).
      cbn [app]. destruct s as [|c' s']; [by rewrite !app_nil_r, <- ?app_assoc|].
      rewrite bool_decide_eq_false_2 by done. rewrite <- !app_assoc. cbn [app]. done.
    + rewrite IH. rewrite !bool_decide_eq_false_2 by (by destruct line). rewrite <- !app_assoc. cbn [app]. do 3 f_equal. f_equal.
      destruct s as [|c' s']; [|done]. cbn [last]. destruct c as [|p|p]; try done.
      do 4 (destruct p as [p|p|]; try done).
Qed.

(** Reading a file gives its text, with a newline put behind a last line that has none;
    the pid file holds the process number and a newline. A directory that is missing and created
    makes [mkdirs] run off its end without a value. *)
Theorem file_text {F} `{FileSystemLaws F} (f : F) (path s : str) (process : Z) (f' : F) :
  (fs_content f path = Some s ->
     read_file path f = s ++ (if bool_decide (s = []) then [] else match last s with Some 10 => [] | _ => [10] end)) /\
  (pid process path f = (true, f') -> 0 <= process -> read_file path f' = to_string_int process ++ [10]) /\
  (fs_exists f path && fs_directory f path = false -> (fs_create_directories path f).1 = false ->
     mkdirs path f = Undef MissingReturn).
Proof.
  assert (forall f s, fs_content f path = Some s ->
     read_file path f = s ++ (if bool_decide (s = []) then [] else match last s with Some 10 => [] | _ => [10] end)) as Hr.
  { intros g t E. unfold read_file. rewrite E, getlines_join. done. }
  split; [apply Hr|]. split.
  - unfold pid. destruct (fs_write path (to_string_int process) f) as [g|] eqn:E; [|done]. intros [= <-] Hp.
    apply fs_write_content in E. rewrite (Hr _ _ E). unfold to_string_int. zb.
    destruct (to_string_cons process Hp) as (c & t & Ec & _). pose proof (to_string_digits process Hp) as Hd.
    rewrite Ec in *. rewrite bool_decide_eq_false_2 by done. f_equal.
    destruct (last (c :: t)) as [x|] eqn:El; [|by apply last_None in El].
    apply last_Some in El as [l' El]. rewrite El in Hd. apply Forall_app in Hd as [_ Hd]. apply Forall_inv in Hd.
    destruct (Z.eq_dec x 10) as [->|Hx]; [done|]. destruct x as [|q|q]; try done. do 4 (destruct q as [q|q|]; try done).
  - intros E Hc. unfold mkdirs. rewrite E. destruct (fs_create_directories path f) as [e g]. cbn in Hc. by subst e.
Qed.

Lemma file_text_witness :
  let f : list (str * (Z * str)) := [(lit "a", (3, lit "x"))] in
  read_file (lit "a") f = lit "x" ++ [10] /\ read_file (lit "p") (pid 42 (lit "p") f).2 = to_string_int 42 ++ [10] /\
  mkdirs (lit "d") f = Undef MissingReturn.
Proof.
  intros f. split; [|split].
  - apply (proj1 (file_text f (lit "a") (lit "x") 0 f)). reflexivity.
  - apply (proj1 (proj2 (file_text f (lit "p") [] 42 (pid 42 (lit "p") f).2))); [reflexivity|lia].
  - apply (proj2 (proj2 (file_text f (lit "d") [] 0 f))); reflexivity.
Defined.
