(* ===== verification/Tools.v ===== *)
(** * Processes, names, times and the command line ([shell.h], [dns.h], [http.h],
    [asio.h], [moment.h], [shm/proxy_shm.*] of [src/src/common/main/utils], and
    [src/src/server/main.cpp])

    The operating system, [nslookup], the resolver and the HTTP client are
    arguments: what they give is what the functions are applied to. *)
From S2P Require Import Prelude Bytes Text Files.

(** ** [moment.h] *)

(** [char buff[20]] holds 19 characters; a longer text leaves it unspecified.
    [strftime] formats seconds of local time. *)
Definition strftime_buffer (strftime : str -> Z -> str) (format : str) (seconds : Z) : outcome str :=
  let text := strftime format seconds in
  if 20 <=? zlen text then Undef OobRead else Ret (cstr text).

Definition ISO_FORMAT : str := lit "%Y-%m-%dT%H:%M:%S".

Definition now_str_format (strftime : str -> Z -> str) (now : Z) (format : str) : outcome str :=
  result ← strftime_buffer strftime format (now / 1000);
  Ret (result ++ lit "." ++ to_string (now mod 1000)).

Definition now_str (strftime : str -> Z -> str) (now : Z) : outcome str := now_str_format strftime now ISO_FORMAT.

Definition format (strftime : str -> Z -> str) (timestamp : Z) : outcome str :=
  now_str_format strftime timestamp ISO_FORMAT.

(** ** [asio.h] *)
Definition addr_str (address : str) (port : Z) : str := address ++ lit ":" ++ to_string port.

(** ** [shell.h]: what a process leaves *)
Record process_result := ProcessResult { sys_error : bool; exit_code : Z; std_out : str; std_err : str }.

(** The [getline] loops: a newline is put only behind a text that is not empty. *)
Definition add_line (text line : str) : str := (if bool_decide (text = []) then text else text ++ [10]) ++ line.
Definition output_lines (text s : str) : str := fold_left add_line (getlines [] s) text.

(** [exec(command, resultStr, errorStr)] *)
Definition exec3 (p : process_result) (errorStr : str) : bool * str * str :=
  (negb (sys_error p) && (exit_code p =? 0), output_lines [] (std_out p), output_lines errorStr (std_err p)).

(** [exec(command, resultStr)] *)
Definition exec2 (p : process_result) : bool * str := (exec3 p []).1.

(** [exec(command)] *)
Definition exec1 (p : process_result) : bool := negb (sys_error p) && (exit_code p =? 0).

(** ** [dns.h] *)
Definition nslookup_command (dnsServer host : str) : str := lit "nslookup " ++ host ++ lit "  " ++ dnsServer.

Definition has (s sub : str) : bool := negb (find s sub 0 =? npos).

(** The loop over the lines of the answer; [trim] is [boost::trim]. *)
Fixpoint nslookup_lines (trim : str -> str) (host : str) (lines : list str) (nameLine : bool) (resultIPs : list Z)
    : outcome (list Z) :=
  match lines with
  | [] => Ret resultIPs
  | s :: rest =>
      resultIPs ← (if nameLine && has s (lit "Address") then
                     parts ← split s (lit ":");
                     match parts with
                     | _ :: ipStr :: _ => ip ← str_to_ip (trim ipStr); Ret (resultIPs ++ [ip])
                     | _ => Undef VectorRange
                     end
                   else Ret resultIPs);
      let nameLine := if nameLine then true else has s (lit "Name:") && has s host in
      nslookup_lines trim host rest nameLine resultIPs
  end.

(** [query(dnsServer, host)] *)
Definition query_nslookup (trim : str -> str) (p : process_result) (host : str) : outcome (list Z) :=
  let result := (exec3 p []).1.2 in
  if bool_decide (result = []) then Ret []
  else lines ← split result [10]; nslookup_lines trim host lines false [].

(** [query(host)]: the resolver's endpoints, IPv6 ones left out. *)
Fixpoint query_resolver (endpoints : list (option Z)) : list Z :=
  match endpoints with
  | [] => []
  | Some ip :: rest => ip :: query_resolver rest
  | None :: rest => query_resolver rest
  end.

(** ** [http.h]: [None] stands for an exception, [inl] for an error *)
Definition http_get (answer : option (unit + Z * str)) : Z * str :=
  match answer with
  | Some (inr (status, body)) => (status, body)
  | Some (inl _) => (0, [])
  | None => (0, [])
  end.

(** ** [proxy_shm] *)
Definition forbid_ip (ip : Z) : unit := tt.
Definition recover_ip (ip : Z) : unit := tt.
Definition is_ip_forbid (ip : Z) : bool := false.
Definition forbid_ip_list : list str := [].

(** ** [main.cpp] *)
Section main.
Context {F : Type} `{FileSystem F}.

Definition availablePaths : list str := [lit "../confs"; lit "/usr/local/etc/st/dns"; lit "/etc/st/dns"].
Definition pidFile : str := lit "/var/run/st-dns.pid".

(** What [main] does, in order. *)
Inductive main_action :=
  | WritePid (path : str)
  | StartServer (confPath : str)
  | ServiceScript (command : str)
  | LogError (text : str).

Fixpoint first_config (paths : list str) (f : F) : str :=
  match paths with
  | [] => []
  | path :: rest => if exists_ (path ++ lit "/config.json") f then path else first_config rest f
  end.

Definition serviceScript (confPath op : str) : main_action :=
  ServiceScript (lit "sh " ++ confPath ++ lit "/service/" ++ op ++ lit ".sh").

(** [main(argc, argv)], [args] without the program's name. The server returns
    when it is shut down, after which [main] falls through to its last message. *)
Definition main (args : list str) (f : F) : list main_action :=
  let argc := 1 + zlen args in
  let arg i := default [] (args !! i) in
  let inputConfigPath := (3 <=? argc) && bool_decide (arg 0%nat = lit "-c") in
  let confPath := if inputConfigPath then arg 1%nat else first_config availablePaths f in
  if bool_decide (confPath = []) then [LogError (lit "the config folder not exits!")]
  else
    let directStartServer := if argc =? 1 then true else (argc =? 3) && bool_decide (arg 0%nat = lit "-c") in
    if directStartServer then [WritePid pidFile; StartServer confPath; LogError (lit "not valid command")]
    else
      let serviceOP :=
        if inputConfigPath && (argc =? 5) && bool_decide (arg 2%nat = lit "-d") then arg 3%nat
        else if negb inputConfigPath && (argc =? 3) && bool_decide (arg 0%nat = lit "-d") then arg 1%nat
        else [] in
      if negb (bool_decide (serviceOP = [])) then
        if bool_decide (serviceOP = lit "start") || bool_decide (serviceOP = lit "stop") then [serviceScript confPath serviceOP]
        else if bool_decide (serviceOP = lit "restart") then
          [serviceScript confPath (lit "stop"); serviceScript confPath (lit "start")]
        else [LogError (lit "not support command")]
      else [LogError (lit "not valid command")].
End main.

(** ** Facts *)

(** The output of a process is its lines joined as [join] of [byte.h] does, so
    that empty lines at its beginning are dropped. *)
Lemma exec_output p : (exec3 p []).1.2 = Bytes.join (getlines [] (std_out p)) [10].
Proof. done. Qed.

Lemma query_resolver_spec endpoints : query_resolver endpoints = omap id endpoints.
Proof. induction endpoints as [|[ip|] l IH]; [done| |]; cbn; by rewrite IH. Qed.

(** A millisecond below 100 is not padded. *)
Lemma now_str_unpadded strftime now : 0 <= now -> zlen (strftime ISO_FORMAT (now / 1000)) < 20 ->
  now_str strftime now = Ret (cstr (strftime ISO_FORMAT (now / 1000)) ++ lit "." ++ to_string (now mod 1000)).
Proof. intros Hn Hl. unfold now_str, now_str_format, strftime_buffer. by zb. Qed.

(** The server is started exactly for [st-dns] and [st-dns -c <dir>], with the
    directory given or the first that holds a configuration. *)
Lemma main_starts {F} `{FileSystem F} args (f : F) confPath : StartServer confPath ∈ main args f <->
  confPath <> [] /\ (args = [] /\ confPath = first_config availablePaths f \/ args = [lit "-c"; confPath]).
Proof.
  destruct args as [|a [|b [|c args]]]; unfold main.
  - change (1 + zlen (@nil str)) with 1. cbn [Z.leb Z.eqb Z.compare Pos.compare Pos.compare_cont Pos.eqb andb].
    case_bool_decide as E; rewrite !elem_of_cons, !elem_of_nil; naive_solver.
  - change (1 + zlen [a]) with 2. cbn [Z.leb Z.eqb Z.compare Pos.compare Pos.compare_cont Pos.eqb andb lookup list_lookup default].
    case_bool_decide as E; cbn [negb andb]; repeat case_bool_decide; cbn [negb orb]; rewrite ?elem_of_cons, ?elem_of_nil;
      unfold serviceScript; naive_solver.
  - change (1 + zlen [a; b]) with 3. cbn [Z.leb Z.eqb Z.compare Pos.compare Pos.compare_cont Pos.eqb andb lookup list_lookup default].
    destruct (decide (a = lit "-c")) as [->|Ha].
    + rewrite (bool_decide_eq_true_2 (lit "-c" = lit "-c")) by done. cbn [default].
      case_bool_decide as E; rewrite !elem_of_cons, !elem_of_nil; naive_solver.
    + rewrite !(bool_decide_eq_false_2 _ Ha). cbn [andb negb].
      repeat case_bool_decide; cbn [negb orb andb]; unfold serviceScript;
        repeat match goal with |- context [if ?b then _ else _] => destruct b end;
        rewrite ?elem_of_cons, ?elem_of_nil; naive_solver.
  - assert (1 + zlen (a :: b :: c :: args) =? 1 = false /\ 1 + zlen (a :: b :: c :: args) =? 3 = false) as [-> ->].
    { rewrite !zlen_cons. pose proof (zlen_nonneg args). lia. }
    cbn [andb]. unfold serviceScript.
    repeat match goal with |- context [if ?b then _ else _] => destruct b end;
      rewrite ?elem_of_cons, ?elem_of_nil; naive_solver.
Qed.
