(* ===== verification/Logger.v ===== *)
(** * Logging and metrics ([logger.h], [logger.cpp], [base64.h] of
    [src/src/common/main/utils])

    The line logger, and [apm_logger], which gathers metrics by name,
    dimensions and metric and writes them to a file every minute. The
    dimensions are a property tree; as a key they are its JSON in base64. *)
From S2P Require Import Prelude Bytes Text Files Tools.

(** ** [base64.h] *)
Section base64.
(** The iterators of [boost::archive]: six bits of the text per character, and back. *)
Context (six_bits : str -> str) (eight_bits : str -> str).

Definition base64_encode (s : str) : str :=
  let num := (3 - zlen s mod 3) mod 3 in six_bits s ++ replicate (Z.to_nat num) 61.

Definition base64_decode (s : str) : str := eight_bits (List.filter (fun c => negb (c =? 61)) s).

(** [decode(str, data)]: the bytes are written at [data], their number returned. *)
Definition base64_decode_to (s : str) (data : list Z) : outcome (Z * list Z) :=
  let bytes := eight_bits (List.filter (fun c => negb (c =? 61)) s) in
  data ← copy bytes data 0 0 (zlen bytes);
  Ret (u16 (zlen bytes), data).
End base64.

(** ** [logger] *)
Record logger := Logger { levelName : str; level : Z; text : str }.

Definition DEBUG : logger := Logger (lit "DEBUG") 0 [].
Definition WARN : logger := Logger (lit "WARN") 1 [].
Definition INFO : logger := Logger (lit "INFO") 2 [].
Definition ERROR : logger := Logger (lit "ERROR") 3 [].
Definition SPLIT : str := lit " ".

(** What is printed before a line: [INITED], and what the console line holds. *)
Record log_env := LogEnv { LEVEL : Z; INITED : bool; now_text : str; thread_id : str; traceId : Z }.

Definition with_text (l : logger) (t : str) : logger := Logger (levelName l) (level l) t.

Definition append_str (env : log_env) (info : str) (l : logger) : logger :=
  if level l <? LEVEL env then l else with_text l (text l ++ info ++ SPLIT).

(** [operator<<] of a character does not look at the level. *)
Definition log_char (ch : Z) (l : logger) : logger := with_text l (text l ++ [ch] ++ SPLIT).

Definition log_strs (env : log_env) (strs : list str) (l : logger) : logger :=
  fold_left (fun l line => append_str env line l) strs l.

(** [do_log(line)] *)
Definition log_line (env : log_env) (l : logger) (line : str) : str :=
  if INITED env then
    lit "[" ++ levelName l ++ lit "]" ++ SPLIT ++ lit "[" ++ to_string (traceId env) ++ lit "]" ++ SPLIT ++ line
  else
    now_text env ++ SPLIT ++ lit "[" ++ levelName l ++ lit "]" ++ SPLIT ++ thread_id env ++ SPLIT ++
    lit "[" ++ to_string (traceId env) ++ lit "]" ++ SPLIT ++ line.

(** A [size_t] as an [int]. *)
Definition s32 (x : Z) : Z := let y := u32 x in if 2 ^ 31 <=? y then y - 2 ^ 32 else y.

(** The loop of [do_log] over [pos], [lastPos] and the lines written. *)
Definition do_log_loop (s : str) : Z * Z * list str -> outcome (Z * Z * list str + Z * list str) :=
  fun '(pos, lastPos, out) =>
    let pos := find_first_of s 10 pos in
    if pos =? npos then Ret (inr (lastPos, out))
    else
      line ← substr s (u64 lastPos) (u64 (pos - lastPos));
      let pos := u64 (pos + 1) in
      Ret (inl (pos, s32 pos, out ++ [line])).

(** [do_log()]: the lines written and the cleared logger. *)
Definition do_log (env : log_env) (l : logger) : outcome (list str * logger) :=
  if level l <? LEVEL env then Ret ([], with_text l [])
  else
    '(lastPos, out) ← while_loop (S (S (length (text l)))) (do_log_loop (text l)) (0, 0, []);
    line ← substr (text l) (u64 lastPos) (u64 (zlen (text l) - lastPos));
    Ret (log_line env l <$> out ++ [line], with_text l []).

(** ** [apm_logger]: the statistics *)
Abbreviation metric := (gmap str Z).
Abbreviation statistics := (gmap str (gmap str (gmap str metric))).

Definition metric_at (m : metric) (key : str) : Z := default 0 (m !! key).

Definition accumulate_metric (m : metric) (value sample : Z) : metric :=
  let m := if bool_decide (m = ∅) then <[lit "max" := 0]> (<[lit "min" := 2 ^ 64 - 1]> (<[lit "sum" := 0]> m)) else m in
  let sum := u64 (value * sample) in
  let m := <[lit "sum" := u64 (metric_at m (lit "sum") + sum)]> m in
  let m := <[lit "min" := Z.min value (metric_at m (lit "min"))]> m in
  <[lit "max" := Z.max value (metric_at m (lit "max"))]> m.

(** [STATISTICS[name][id][metric]], which is created if missing. *)
Definition with_metric (name id key : str) (f : metric -> metric) (st : statistics) : statistics :=
  let by_id := default ∅ (st !! name) in
  let by_key := default ∅ (by_id !! id) in
  <[name := <[id := <[key := f (default ∅ (by_key !! key))]> by_key]> by_id]> st.

Definition accumulate (name id key : str) (value sample : Z) (st : statistics) : statistics :=
  with_metric name id key (fun m => accumulate_metric m value sample) st.

Section apm.
(** [boost::property_tree] and its JSON. *)
Context {tree : Type} (empty_tree : tree) (put : str -> str -> tree -> tree) (get : tree -> str -> option str).
Context (write_json : tree -> str) (unquote_numbers : str -> str) (read_json : str -> outcome tree).
Context (six_bits : str -> str) (eight_bits : str -> str).

Definition to_json (t : tree) : str := unquote_numbers (write_json t).
Definition dimensions_id (t : tree) : str := base64_encode six_bits (to_json t).

(** *** [perf] *)

(** [is_sample(sample)] for the number drawn from 0 to 999. *)
Definition is_sample (drawn sample : Z) : outcome bool :=
  if sample =? 0 then Undef DivByZero
  else
    let scale := 1000 / sample in
    if scale =? 0 then Undef DivByZero else Ret (drawn / scale =? 0).

(** The tree of [perf]: the dimensions, then the name. *)
Definition perf_tree (name : str) (dimensions : list (str * str)) : tree :=
  put (lit "name") name (fold_left (fun pt d => put d.1 d.2 pt) dimensions empty_tree).

Definition perf (drawn : Z) (name : str) (dimensions : list (str * str)) (cost count sample : Z) (st : statistics)
    : outcome statistics :=
  sampled ← is_sample drawn sample;
  if (sampled : bool) then
    let id := dimensions_id (perf_tree name dimensions) in
    Ret (accumulate name id (lit "cost") cost sample (accumulate name id (lit "count") count sample st))
  else Ret st.

Definition perf_sample (drawn : Z) (name : str) (dimensions : list (str * str)) (cost sample : Z) (st : statistics)
    : outcome statistics := perf drawn name dimensions cost 1 sample st.
Definition perf_cost (drawn : Z) (name : str) (dimensions : list (str * str)) (cost : Z) (st : statistics)
    : outcome statistics := perf_sample drawn name dimensions cost 1 st.

(** [perf(name, dimensions, counts)]: a negative count is taken as [uint64_t]. *)
Definition perf_counts (name : str) (dimensions : list (str * str)) (counts : list (str * Z)) (st : statistics)
    : statistics :=
  let id := dimensions_id (perf_tree name dimensions) in
  fold_left (fun st c => accumulate name id c.1 (u64 c.2) 1 st) counts (accumulate name id (lit "count") 1 1 st).

(** *** The object *)
Record apm_logger := ApmLogger {
  dimensions : tree; metrics : list (str * Z); start_time : Z; last_step_time : Z
}.

Definition add_dimension (name value : str) (a : apm_logger) : apm_logger :=
  ApmLogger (put name value (dimensions a)) (metrics a) (start_time a) (last_step_time a).

(** [ptree::put] replaces the value of a name that is there. *)
Fixpoint put_metric (name : str) (value : Z) (l : list (str * Z)) : list (str * Z) :=
  match l with
  | [] => [(name, value)]
  | (n, v) :: rest => if bool_decide (n = name) then (n, value) :: rest else (n, v) :: put_metric name value rest
  end.

Definition add_metric (name : str) (value : Z) (a : apm_logger) : apm_logger :=
  ApmLogger (dimensions a) (put_metric name value (metrics a)) (start_time a) (last_step_time a).

Definition apm_new (name : str) (start last_step : Z) : apm_logger :=
  add_dimension (lit "name") name (ApmLogger empty_tree [] start last_step).

Definition apm_start (now : Z) (a : apm_logger) : apm_logger := ApmLogger (dimensions a) (metrics a) now now.

(** [step]: the clock is read twice. *)
Definition apm_step (now now' : Z) (step : str) (a : apm_logger) : apm_logger :=
  add_metric (step ++ lit "Cost") (u64 (now - last_step_time a))
    (ApmLogger (dimensions a) (metrics a) (start_time a) now').

(** [end], and the function it posts. *)
Definition apm_end (now : Z) (a : apm_logger) : apm_logger :=
  add_metric (lit "count") 1 (add_metric (lit "cost") (u64 (now - start_time a)) a).

Definition apm_post (a : apm_logger) (st : statistics) : outcome statistics :=
  match get (dimensions a) (lit "name") with
  | None => Throw RuntimeError
  | Some name =>
      let id := dimensions_id (dimensions a) in
      Ret (fold_left (fun st m => accumulate name id m.1 m.2 1 st) (metrics a) st)
  end.

(** *** The report *)
Record report_line := ReportLine { rl_dimensions : tree; rl_metrics : gmap str metric; rl_count : Z }.

(** The metrics of one line, with their averages. *)
Definition with_avg (count : Z) (m : metric) : metric := <[lit "avg" := metric_at m (lit "sum") / count]> m.

Definition report_entry (id : str) (by_key : gmap str metric) : outcome (option report_line) :=
  t_dimensions ← read_json (base64_decode eight_bits id);
  let t_count := metric_at (default ∅ (by_key !! lit "count")) (lit "sum") in
  if t_count <=? 0 then Ret None
  else Ret (Some (ReportLine t_dimensions (with_avg t_count <$> delete (lit "count") by_key) t_count)).

Fixpoint report_entries (entries : list (str * gmap str metric)) : outcome (list report_line) :=
  match entries with
  | [] => Ret []
  | (id, by_key) :: rest =>
      line ← report_entry id by_key;
      lines ← report_entries rest;
      Ret (match line with Some line => line :: lines | None => lines end)
  end.

Fixpoint report_names (names : list (str * gmap str (gmap str metric))) : outcome (list report_line) :=
  match names with
  | [] => Ret []
  | (_, by_id) :: rest =>
      lines ← report_entries (map_to_list by_id);
      more ← report_names rest;
      Ret (lines ++ more)
  end.

(** [report_apm_log_local]: the statistics are taken and cleared; the lines go to
    a new file, [line_text] being the JSON of a line with [server_time]. *)
Context {F : Type} `{FileSystem F} (sort : list (Z * str) -> list (Z * str)) (line_text : report_line -> str).

Definition PERF_FOLDER : str := lit "/tmp/st/perf/".
Definition perf_filename (time tag uuid : str) : str := PERF_FOLDER ++ time ++ lit "." ++ tag ++ lit ".perf." ++ uuid.

Definition report (time tag uuid : str) (st : statistics) (f : F) : outcome (statistics * F) :=
  if bool_decide (st = ∅) then Ret (∅, f)
  else
    let filename := perf_filename time tag uuid in
    let '(_, f) := create_if_not_exits filename f in
    '(_, f) ← limit_file_cnt sort PERF_FOLDER 200 f;
    match fs_write filename [] f with
    | None => Ret (∅, f)
    | Some f =>
        lines ← report_names (map_to_list st);
        Ret (∅, default f (fs_write filename (mjoin ((fun l => line_text l ++ [10]) <$> lines)) f))
    end.
End apm.

(** ** Specification *)

(** The values observed for a metric: none leave no metric. *)
Definition summary (values : list Z) : option metric :=
  match values with
  | [] => None
  | _ => Some {[ lit "sum" := u64 (foldr Z.add 0 values); lit "min" := foldr Z.min (2 ^ 64 - 1) values;
                 lit "max" := foldr Z.max 0 values ]}
  end.

Record sample := Sample { sm_name : str; sm_id : str; sm_key : str; sm_value : Z }.
#[export] Instance sample_eq : EqDecision sample. Proof. solve_decision. Defined.

Definition record_sample (st : statistics) (s : sample) : statistics :=
  accumulate (sm_name s) (sm_id s) (sm_key s) (sm_value s) 1 st.

Definition values_of (name id key : str) (history : list sample) : list Z :=
  sm_value <$> List.filter (fun s => bool_decide (sm_name s = name /\ sm_id s = id /\ sm_key s = key)) history.

Definition stat_at (name id key : str) (st : statistics) : option metric :=
  by_id ← st !! name; by_key ← by_id !! id; by_key !! key.

(** ** Lemmas: lines *)
Lemma find_char_bound c s : forall i, find_char c s i = npos \/ i <= find_char c s i < i + zlen s.
Proof.
  induction s as [|x s IH]; intros i; cbn [find_char]; [by left|]. rewrite zlen_cons. pose proof (zlen_nonneg s).
  destruct (x =? c); [right; lia|]. destruct (IH (i + 1)) as [->|Hb]; [by left|right; lia].
Qed.

Lemma find_str_char c s : forall i, find_str [c] s i = find_char c s i.
Proof.
  induction s as [|x s IH]; intros i; cbn [find_str find_char length take]; [done|].
  destruct (Z.eqb_spec x c) as [->|Hx]; [by rewrite bool_decide_eq_true_2|].
  rewrite bool_decide_eq_false_2 by congruence. apply IH.
Qed.

Lemma find_newline s pos : 0 <= pos -> find s [10] pos = find_first_of s 10 pos.
Proof.
  intros Hp. unfold find, find_first_of. rewrite find_str_char.
  destruct (Z.leb_spec pos (zlen s)), (Z.ltb_spec pos (zlen s)); try done; try lia.
  replace pos with (zlen s) at 1 by lia. unfold zlen. rewrite Nat2Z.id, drop_all. done.
Qed.

Lemma find_first_of_bound s c pos : 0 <= pos -> find_first_of s c pos <> npos -> pos <= find_first_of s c pos < zlen s.
Proof.
  unfold find_first_of. intros Hp. case_match; [|done]. intros Hn.
  destruct (find_char_bound c (drop (Z.to_nat pos) s) pos) as [|Hb]; [done|].
  unfold zlen in *. rewrite length_drop in Hb. lia.
Qed.

Lemma s32_id x : 0 <= x < 2 ^ 31 -> s32 x = x.
Proof. intros Hx. unfold s32. change (2 ^ 31) with 2147483648 in *. rewrite u32_id by lia. by zb. Qed.

(** The loop of [do_log] is [split]'s. *)
Lemma do_log_loop_split s fuel : zlen s < 2 ^ 31 -> forall pos k out, 0 <= pos < 2 ^ 31 ->
  while_loop fuel (do_log_loop s) (pos, pos, out) = while_loop fuel (split_loop s [10] 0) (pos, pos, k, out) /\
  forall lastPos out', while_loop fuel (do_log_loop s) (pos, pos, out) = Ret (lastPos, out') -> 0 <= lastPos < 2 ^ 31.
Proof.
  intros Hs. change (2 ^ 31) with 2147483648 in *. induction fuel as [|fuel IH]; intros pos k out Hp; [done|].
  cbn [while_loop do_log_loop split_loop]. rewrite find_newline by lia.
  destruct (Z.eqb_spec (find_first_of s 10 pos) npos) as [Hn|Hn].
  { split; [done|]. ret_step. intros l o [= <- <-]. lia. }
  pose proof (find_first_of_bound s 10 pos ltac:(lia) Hn) as Hb.
  change (zlen [10]) with 1. change (negb (0 =? 0) && (0 <=? u64 (k + 1))) with false. cbn [andb].
  rewrite (u64_id pos), (u64_id (find_first_of s 10 pos + 1)) by lia.
  rewrite (s32_id (find_first_of s 10 pos + 1)) by (change (2 ^ 31) with 2147483648; lia).
  destruct (substr s pos _) as [line|e|u|]; ret_step; try done. apply IH. lia.
Qed.

Lemma do_log_split env l : LEVEL env <= level l -> zlen (text l) < 2 ^ 31 -> text l <> [] ->
  exists parts, split (text l) [10] = Ret parts /\ do_log env l = Ret (log_line env l <$> parts, with_text l []) /\
    intercalate [10] parts = text l /\ Forall (fun p => ~ contains [10] p) parts.
Proof.
  intros Hl Hs Hne. change (2 ^ 31) with 2147483648 in Hs.
  destruct (split_spec (text l) [10] Hne) as (parts & E & Hi & Hf); [done|unfold npos; lia|].
  exists parts. split; [done|]. split; [|done]. unfold do_log. zb. unfold split, split_at in E.
  rewrite bool_decide_eq_false_2 in E by done.
  destruct (do_log_loop_split (text l) (S (S (length (text l)))) Hs 0 0 [] ltac:(lia)) as [Hw Hb]. rewrite <- Hw in E.
  destruct (while_loop _ (do_log_loop (text l)) _) as [[lastPos out]|e|u|] eqn:Ew; try done.
  specialize (Hb _ _ eq_refl). change (2 ^ 31) with 2147483648 in Hb. cbn [mbind outcome_bind] in *.
  rewrite (u64_id lastPos) by lia. destruct (substr (text l) lastPos _) as [line|e|u|]; try done.
  cbn [mbind outcome_bind] in *. by injection E as <-.
Qed.

(** ** Lemmas: statistics *)
Lemma stat_at_with name id key name' id' key' f st :
  stat_at name id key (with_metric name' id' key' f st) =
  if decide (name' = name /\ id' = id /\ key' = key) then Some (f (default ∅ (stat_at name id key st)))
  else stat_at name id key st.
Proof.
  unfold stat_at, with_metric. destruct (decide (name' = name)) as [->|Hn].
  - rewrite lookup_insert_eq. cbn [mbind option_bind]. destruct (decide (id' = id)) as [->|Hi].
    + rewrite lookup_insert_eq. cbn [mbind option_bind]. destruct (decide (key' = key)) as [->|Hk].
      * rewrite lookup_insert_eq, decide_True by done. do 2 f_equal.
        destruct (st !! name) as [by_id|]; cbn [default mbind option_bind]; [|done].
        by destruct (by_id !! id) eqn:Ei; cbn; rewrite Ei.
      * rewrite lookup_insert_ne, decide_False by naive_solver.
        destruct (st !! name) as [by_id|]; cbn [default mbind option_bind]; [|done].
        by destruct (by_id !! id) eqn:Ei; cbn; rewrite Ei.
    + rewrite lookup_insert_ne, decide_False by naive_solver. by destruct (st !! name).
  - by rewrite lookup_insert_ne, decide_False by naive_solver.
Qed.

(** The three fields of a metric. *)
Section fields.
Context (s m x : str) (Hsm : s <> m) (Hsx : s <> x) (Hmx : m <> x).

Definition fields (a b c : Z) : metric := {[ s := a; m := b; x := c ]}.

Lemma fields_at a b c : metric_at (fields a b c) s = a /\ metric_at (fields a b c) m = b /\ metric_at (fields a b c) x = c.
Proof. unfold metric_at, fields. split_and!; by simplify_map_eq. Qed.

Lemma fields_update a b c a' b' c' : <[x := c']> (<[m := b']> (<[s := a']> (fields a b c))) = fields a' b' c'.
Proof.
  unfold fields. apply map_eq. intros i. destruct (decide (i = s)) as [->|]; [by simplify_map_eq|].
  destruct (decide (i = m)) as [->|]; [by simplify_map_eq|]. destruct (decide (i = x)) as [->|]; by simplify_map_eq.
Qed.

Lemma fields_new a b c : <[x := c]> (<[m := b]> (<[s := a]> ∅)) = fields a b c.
Proof.
  unfold fields. apply map_eq. intros i. destruct (decide (i = s)) as [->|]; [by simplify_map_eq|].
  destruct (decide (i = m)) as [->|]; [by simplify_map_eq|]. destruct (decide (i = x)) as [->|]; by simplify_map_eq.
Qed.

Lemma fields_nonempty a b c : fields a b c <> ∅.
Proof. unfold fields. apply insert_non_empty. Qed.
End fields.

Lemma keys_distinct : lit "sum" <> lit "min" /\ lit "sum" <> lit "max" /\ lit "min" <> lit "max" /\
  lit "cost" <> lit "count" /\ lit "count" <> lit "cost".
Proof. split_and!; discriminate. Qed.

Abbreviation summed := (fields (lit "sum") (lit "min") (lit "max")).

Lemma accumulate_fields a b c v n : accumulate_metric (summed a b c) v n =
  summed (u64 (a + u64 (v * n))) (Z.min v b) (Z.max v c).
Proof.
  destruct keys_distinct as (H1 & H2 & H3 & _). unfold accumulate_metric.
  rewrite bool_decide_eq_false_2 by apply fields_nonempty. cbv zeta.
  set (s := u64 (v * n)). destruct (fields_at _ _ _ H1 H2 H3 a b c) as (-> & Hb & Hc).
  assert (metric_at (<[lit "sum":=u64 (a + s)]> (summed a b c)) (lit "min") = b) as ->.
  { unfold metric_at in *. by rewrite lookup_insert_ne. }
  assert (metric_at (<[lit "min":=Z.min v b]> (<[lit "sum":=u64 (a + s)]> (summed a b c))) (lit "max") = c) as ->.
  { unfold metric_at in *. by rewrite !lookup_insert_ne. }
  by apply fields_update.
Qed.

Lemma accumulate_empty v n : accumulate_metric ∅ v n = accumulate_metric (summed 0 (2 ^ 64 - 1) 0) v n.
Proof.
  destruct keys_distinct as (H1 & H2 & H3 & _). unfold accumulate_metric.
  rewrite (bool_decide_eq_true_2 (∅ = ∅)) by done. rewrite (bool_decide_eq_false_2 (summed _ _ _ = ∅)) by apply fields_nonempty.
  by rewrite (fields_new _ _ _ H1 H2 H3).
Qed.

Lemma foldr_min v b vs : foldr Z.min (Z.min v b) vs = Z.min v (foldr Z.min b vs).
Proof. induction vs as [|x vs IH]; cbn [foldr]; [done|]. rewrite IH. lia. Qed.
Lemma foldr_max v b vs : foldr Z.max (Z.max v b) vs = Z.max v (foldr Z.max b vs).
Proof. induction vs as [|x vs IH]; cbn [foldr]; [done|]. rewrite IH. lia. Qed.
Lemma foldr_add v b vs : foldr Z.add (v + b) vs = v + foldr Z.add b vs.
Proof. induction vs as [|x vs IH]; cbn [foldr]; [done|]. rewrite IH. lia. Qed.

Lemma summary_snoc vs v : summary (vs ++ [v]) = Some (accumulate_metric (default ∅ (summary vs)) v 1).
Proof.
  destruct vs as [|x vs].
  - cbn [summary app default]. rewrite accumulate_empty, accumulate_fields. cbn [foldr]. rewrite Z.mul_1_r. unfold fields.
    f_equal. rewrite Z.add_0_r, Z.add_0_l. f_equal. unfold u64. by rewrite Zmod_mod.
  - assert (default ∅ (summary (x :: vs)) = summed (u64 (x + foldr Z.add 0 vs)) (Z.min x (foldr Z.min (2 ^ 64 - 1) vs))
      (Z.max x (foldr Z.max 0 vs))) as -> by done.
    cbn [summary app]. change (x :: vs ++ [v]) with ((x :: vs) ++ [v]). rewrite !foldr_app. cbn [foldr].
    rewrite accumulate_fields, Z.mul_1_r, u64_add_l, u64_add_r, foldr_min, foldr_max, foldr_add. unfold fields.
    rewrite (Z.add_assoc x), (Z.add_comm x v), <- (Z.add_assoc v), (Z.add_comm v), (Z.min_assoc x), (Z.min_comm x v), <- (Z.min_assoc v),
      (Z.max_assoc x), (Z.max_comm x v), <- (Z.max_assoc v). done.
Qed.

Lemma summary_fields vs : vs <> [] ->
  summary vs = Some (summed (u64 (foldr Z.add 0 vs)) (foldr Z.min (2 ^ 64 - 1) vs) (foldr Z.max 0 vs)).
Proof. by destruct vs. Qed.

Lemma summary_at vs m : vs <> [] -> summary vs = Some m ->
  metric_at m (lit "sum") = u64 (foldr Z.add 0 vs) /\ metric_at m (lit "min") = foldr Z.min (2 ^ 64 - 1) vs /\
  metric_at m (lit "max") = foldr Z.max 0 vs.
Proof.
  intros Hne. rewrite summary_fields by done. intros [= <-]. destruct keys_distinct as (H1 & H2 & H3 & _).
  by apply fields_at.
Qed.

Lemma with_avg_at n m : metric_at (with_avg n m) (lit "avg") = metric_at m (lit "sum") / n /\
  metric_at (with_avg n m) (lit "sum") = metric_at m (lit "sum") /\
  metric_at (with_avg n m) (lit "min") = metric_at m (lit "min") /\
  metric_at (with_avg n m) (lit "max") = metric_at m (lit "max").
Proof.
  unfold with_avg. set (x := metric_at m (lit "sum") / n). unfold metric_at. rewrite lookup_insert_eq, !lookup_insert_ne by discriminate.
  done.
Qed.

Lemma foldr_min_bounds b vs v : v ∈ vs -> foldr Z.min b vs <= v /\ foldr Z.min b vs <= b.
Proof.
  induction vs as [|x vs IH]; [by intros ?%elem_of_nil|]. cbn [foldr]. intros [->|Hv]%elem_of_cons.
  - split; [lia|]. clear IH. induction vs as [|y vs IH]; cbn [foldr] in *; lia.
  - destruct (IH Hv). lia.
Qed.
Lemma foldr_max_bound b vs v : v ∈ vs -> v <= foldr Z.max b vs.
Proof.
  induction vs as [|x vs IH]; [by intros ?%elem_of_nil|]. cbn [foldr]. intros [->|Hv]%elem_of_cons; [lia|]. pose proof (IH Hv). lia.
Qed.

(** *** One name, one set of dimensions *)
Section one.
Context (name id : str).

Definition one (a b : metric) : statistics := {[ name := {[ id := <[lit "cost" := b]> {[ lit "count" := a ]} ]} ]}.

Lemma one_count f a b : with_metric name id (lit "count") f (one a b) = one (f a) b.
Proof.
  destruct keys_distinct as (_ & _ & _ & H1 & H2). unfold with_metric, one.
  rewrite lookup_singleton_eq. cbn [from_option Datatypes.id]. rewrite lookup_singleton_eq. cbn [from_option Datatypes.id].
  rewrite lookup_insert_ne, lookup_singleton_eq by done. cbn [from_option Datatypes.id].
  by rewrite insert_insert_ne, insert_singleton_eq, !insert_singleton_eq by done.
Qed.

Lemma one_cost f a b : with_metric name id (lit "cost") f (one a b) = one a (f b).
Proof.
  unfold with_metric, one. rewrite lookup_singleton_eq. cbn [from_option Datatypes.id]. rewrite lookup_singleton_eq. cbn [from_option Datatypes.id].
  rewrite lookup_insert_eq. cbn [from_option Datatypes.id]. by rewrite insert_insert_eq, !insert_singleton_eq.
Qed.

Lemma one_new f g : with_metric name id (lit "cost") g (with_metric name id (lit "count") f ∅) = one (f ∅) (g ∅).
Proof.
  destruct keys_distinct as (_ & _ & _ & H1 & H2). unfold with_metric, one. rewrite !lookup_empty. cbn [from_option Datatypes.id].
  rewrite !lookup_empty. cbn [from_option Datatypes.id]. rewrite lookup_empty. cbn [from_option Datatypes.id]. rewrite !insert_empty.
  rewrite lookup_singleton_eq. cbn [from_option Datatypes.id]. rewrite lookup_singleton_eq. cbn [from_option Datatypes.id].
  rewrite lookup_singleton_ne by done. cbn [from_option Datatypes.id]. by rewrite !insert_singleton_eq.
Qed.
End one.

Lemma filter_all {A} (f : A -> bool) l : (forall x, x ∈ l -> f x = true) -> List.filter f l = l.
Proof.
  induction l as [|x l IH]; intros H; [done|]. cbn [List.filter]. rewrite H by left. rewrite IH; [done|].
  intros y Hy. apply H. by right.
Qed.

Lemma filter_pad n : List.filter (fun c => negb (c =? 61)) (replicate n 61) = [].
Proof. by induction n. Qed.

(** *** Sampling *)
Lemma is_sample_spec drawn sample : 0 <= drawn < 1000 -> 0 <= sample ->
  is_sample drawn sample =
  if (1 <=? sample) && (sample <=? 1000) then Ret (drawn <? 1000 / sample) else Undef DivByZero.
Proof.
  intros Hd Hs. unfold is_sample. destruct (Z.eqb_spec sample 0) as [->|Hz]; [done|].
  destruct (Z.leb_spec sample 1000) as [Hle|Hgt].
  - assert (1 <= 1000 / sample) by (apply Z.div_le_lower_bound; lia). zb. cbn [andb]. zb. f_equal.
    destruct (Z.ltb_spec drawn (1000 / sample)) as [Hlt|Hge].
    + rewrite Z.div_small by lia. done.
    + assert (1 <= drawn / (1000 / sample)) by (apply Z.div_le_lower_bound; lia). lia.
  - rewrite andb_false_r. rewrite (Z.div_small 1000) by lia. done.
Qed.

(** The calls of [perf(name, dimensions, cost)], with the numbers drawn. *)
Fixpoint perf_calls {tree} (empty_tree : tree) (put : str -> str -> tree -> tree) (write_json : tree -> str)
    (unquote_numbers six_bits : str -> str) (name : str) (dims : list (str * str)) (calls : list (Z * Z)) (st : statistics)
    : outcome statistics :=
  match calls with
  | [] => Ret st
  | (drawn, cost) :: rest =>
      st ← perf_cost empty_tree put write_json unquote_numbers six_bits drawn name dims cost st;
      perf_calls empty_tree put write_json unquote_numbers six_bits name dims rest st
  end.

Lemma perf_calls_one {tree} (empty_tree : tree) put write_json unquote_numbers six_bits name dims calls : forall count cost n,
  Forall (fun c => 0 <= c.1 < 1000) calls -> summary (replicate n 1) = Some count -> forall vs, summary vs = Some cost ->
  let id := dimensions_id write_json unquote_numbers six_bits (perf_tree empty_tree put name dims) in
  exists count' cost', perf_calls empty_tree put write_json unquote_numbers six_bits name dims calls (one name id count cost) =
      Ret (one name id count' cost') /\
    summary (replicate (n + length calls) 1) = Some count' /\ summary (vs ++ calls.*2) = Some cost'.
Proof.
  intros count cost n Hc. revert count cost n.
  induction Hc as [|[drawn c] calls Hd _ IH]; intros count cost n Hn vs Hvs id; cbn [perf_calls].
  { exists count, cost. split; [done|]. cbn [length fmap list_fmap]. by rewrite Nat.add_0_r, app_nil_r. }
  unfold perf_cost, perf_sample, perf. rewrite is_sample_spec by (cbn in Hd; lia).
  change ((1 <=? 1) && (1 <=? 1000)) with true. change (1000 / 1) with 1000. cbn in Hd. zb. ret_step. fold id.
  unfold accumulate. rewrite one_count, one_cost.
  destruct (IH (accumulate_metric count 1 1) (accumulate_metric cost c 1) (S n)) with (vs := vs ++ [c])
    as (count' & cost' & E & E1 & E2).
  - replace (replicate (S n) 1) with (replicate n 1 ++ [1]) by (by rewrite <- replicate_cons_app || (rewrite replicate_S_end; done)).
    by rewrite summary_snoc, Hn.
  - by rewrite summary_snoc, Hvs.
  - exists count', cost'. fold id in E. split; [exact E|]. split.
    + cbn [length]. by replace (n + S (length calls))%nat with (S n + length calls)%nat by lia.
    + cbn [fmap list_fmap snd]. change (c :: calls.*2) with ([c] ++ calls.*2). by rewrite app_assoc.
Qed.

Lemma sum_ones n : foldr Z.add 0 (replicate n 1) = Z.of_nat n.
Proof. induction n as [|n IH]; cbn [replicate foldr]; lia. Qed.

Lemma min_sum_max vs b : (forall v, v ∈ vs -> v <= b) ->
  zlen vs * foldr Z.min b vs <= foldr Z.add 0 vs <= zlen vs * foldr Z.max 0 vs.
Proof.
  induction vs as [|v vs IH]; intros Hb; [done|]. rewrite zlen_cons. cbn [foldr]. pose proof (zlen_nonneg vs).
  destruct IH as [H1 H2]; [intros x Hx; apply Hb; by right|]. nia.
Qed.

Lemma base64_decode_encode six_bits eight_bits s : eight_bits (six_bits s) = s -> 61 ∉ six_bits s ->
  base64_decode eight_bits (base64_encode six_bits s) = s.
Proof.
  intros E Hn. unfold base64_decode, base64_encode. rewrite List.filter_app, filter_pad, app_nil_r, filter_all; [done|].
  intros c Hc. destruct (Z.eqb_spec c 61) as [->|]; done.
Qed.

Lemma sum_bounds vs : Forall (fun v => 0 <= v) vs ->
  0 <= foldr Z.add 0 vs /\ forall v, v ∈ vs -> v <= foldr Z.add 0 vs.
Proof.
  induction 1 as [|x l Hx _ [IH1 IH2]]; cbn [foldr]; [split; [done|]; intros v Hv; by apply elem_of_nil in Hv|].
  split; [lia|]. intros v [->|Hv]%elem_of_cons; [lia|]. specialize (IH2 v Hv). lia.
Qed.

(** A metric of values whose sum does not overflow, with its average. *)
Lemma summary_avg vs m : vs <> [] -> Forall (fun v => 0 <= v) vs -> foldr Z.add 0 vs < 2 ^ 64 -> summary vs = Some m ->
  let m' := with_avg (zlen vs) m in
  metric_at m' (lit "sum") = foldr Z.add 0 vs /\
  metric_at m' (lit "min") <= metric_at m' (lit "avg") <= metric_at m' (lit "max") /\
  (forall v, v ∈ vs -> metric_at m' (lit "min") <= v <= metric_at m' (lit "max")).
Proof.
  intros Hne Hv Hs Hm m'. destruct (summary_at _ _ Hne Hm) as (Es & Emin & Emax). destruct (sum_bounds vs Hv) as [H0 Hb].
  unfold m'. destruct (with_avg_at (zlen vs) m) as (-> & -> & -> & ->). rewrite Es, Emin, Emax, u64_id by lia. split; [done|].
  assert (0 < zlen vs) as Hpos by (destruct vs as [|v vs]; [done|]; rewrite zlen_cons; pose proof (zlen_nonneg vs); lia).
  pose proof (min_sum_max vs (2 ^ 64 - 1) ltac:(intros v Hx; specialize (Hb v Hx); lia)) as [Hlo Hhi]. split.
  - split; [apply Z.div_le_lower_bound; lia|apply Z.div_le_upper_bound; lia].
  - intros v Hx. split; [apply (foldr_min_bounds _ _ _ Hx)|apply (foldr_max_bound _ _ _ Hx)].
Qed.

(** ** Properties *)

(** Logging a text of fewer than 2^31 bytes at an enabled level writes exactly the
    lines [strutils::split] cuts it into, each with its prefix, and leaves the logger empty;
    below the level nothing is written. *)
Theorem log_lines_split (env : log_env) (l : logger) :
  zlen (text l) < 2 ^ 31 -> text l <> [] ->
  exists parts, split (text l) [10] = Ret parts /\ intercalate [10] parts = text l /\
    Forall (fun p => ~ contains [10] p) parts /\
    do_log env l = Ret (if level l <? LEVEL env then [] else log_line env l <$> parts, with_text l []).
Proof.
  intros Hs Hne. destruct (Z.ltb_spec (level l) (LEVEL env)) as [Hl|Hl].
  - destruct (split_spec (text l) [10] Hne) as (parts & E & Hi & Hf); [done|change (2 ^ 31) with 2147483648 in Hs; unfold npos; lia|].
    exists parts. split_and!; [done|done|done|]. unfold do_log. by zb.
  - destruct (do_log_split env l) as (parts & E & Ed & Hi & Hf); [lia|done|done|]. exists parts. by split_and!.
Qed.

Lemma log_lines_split_witness :
  let l := with_text INFO (lit "a" ++ [10] ++ lit "b ") in
  exists parts, split (text l) [10] = Ret parts /\
    do_log (LogEnv 2 true [] [] 7) l = Ret (log_line (LogEnv 2 true [] [] 7) l <$> parts, with_text l []).
Proof.
  intros l. destruct (log_lines_split (LogEnv 2 true [] [] 7) l) as (parts & E & _ & _ & Ed).
  - vm_compute. reflexivity.
  - discriminate.
  - exists parts. split; [exact E|exact Ed].
Defined.


(** When the calls of one [perf] are reported, the report is one line: the dimensions
    put with the name, the number of calls, and for the cost its sum, least and greatest with an
    average that lies between these. *)
Theorem perf_report {tree} (empty_tree : tree) (put : str -> str -> tree -> tree) (write_json : tree -> str)
    (unquote_numbers : str -> str) (read_json : str -> outcome tree) (six_bits eight_bits : str -> str)
    (name : str) (dims : list (str * str)) (calls : list (Z * Z)) :
  (forall s, eight_bits (six_bits s) = s /\ 61 ∉ six_bits s) ->
  let t := perf_tree empty_tree put name dims in
  read_json (to_json write_json unquote_numbers t) = Ret t ->
  calls <> [] -> Forall (fun c => 0 <= c.1 < 1000 /\ 0 <= c.2) calls -> foldr Z.add 0 calls.*2 < 2 ^ 64 -> zlen calls < 2 ^ 64 ->
  exists st m, perf_calls empty_tree put write_json unquote_numbers six_bits name dims calls ∅ = Ret st /\
    report_names read_json eight_bits (map_to_list st) = Ret [ReportLine t {[ lit "cost" := m ]} (zlen calls)] /\
    metric_at m (lit "sum") = foldr Z.add 0 calls.*2 /\
    metric_at m (lit "min") <= metric_at m (lit "avg") <= metric_at m (lit "max") /\
    (forall c, c ∈ calls -> metric_at m (lit "min") <= c.2 <= metric_at m (lit "max")).
Proof.
  intros Hb t Hj Hne Hc Hsum Hlen. set (id := dimensions_id write_json unquote_numbers six_bits t).
  assert (base64_decode eight_bits id = to_json write_json unquote_numbers t) as Hid by (by apply base64_decode_encode; apply Hb).
  destruct calls as [|[drawn c] calls]; [done|]. pose proof Hc as Hc0. apply Forall_cons in Hc as [[Hd Hc1] Hc]. cbn [fst snd] in Hd, Hc1.
  assert (Forall (fun c => 0 <= c.1 < 1000) calls) as Hdr by (eapply Forall_impl; [exact Hc|]; cbn; tauto).
  destruct (perf_calls_one empty_tree put write_json unquote_numbers six_bits name dims calls
    (accumulate_metric ∅ 1 1) (accumulate_metric ∅ c 1) 1 Hdr (summary_snoc [] 1) [c] (summary_snoc [] c))
    as (count & cost & E & En & Ec). fold t id in E. cbn [app] in Ec.
  change (c :: calls.*2) with (((drawn, c) :: calls).*2) in Ec.
  change (replicate (1 + length calls) 1) with (replicate (length ((drawn, c) :: calls)) 1) in En.
  set (cs := (drawn, c) :: calls) in *.
  exists (one name id count cost), (with_avg (zlen cs) cost). split; [|split].
  - unfold cs. cbn [perf_calls]. unfold perf_cost, perf_sample, perf. rewrite is_sample_spec by lia.
    change ((1 <=? 1) && (1 <=? 1000)) with true. change (1000 / 1) with 1000. zb. ret_step. fold t id.
    unfold accumulate. rewrite one_new. exact E.
  - unfold one. rewrite map_to_list_singleton. cbn [report_names report_entries]. rewrite map_to_list_singleton.
    cbn [report_entries]. unfold report_entry. rewrite Hid, Hj. ret_step.
    destruct keys_distinct as (H1 & H2 & H3 & H4 & H5).
    rewrite lookup_insert_ne, lookup_singleton_eq by done. cbn [from_option Datatypes.id].
    assert (replicate (length cs) 1 <> []) as Hrep by (unfold cs; discriminate).
    destruct (summary_at _ _ Hrep En) as (-> & _ & _). rewrite sum_ones.
    change (Z.of_nat (length cs)) with (zlen cs). rewrite u64_id by (pose proof (zlen_nonneg cs); done || lia).
    replace (zlen cs <=? 0) with false by (unfold cs; rewrite zlen_cons; pose proof (zlen_nonneg calls); lia).
    ret_step. rewrite delete_insert_ne, delete_singleton_eq by done. by rewrite insert_empty, map_fmap_singleton.
  - assert (zlen cs.*2 = zlen cs) as Hz by (unfold zlen; by rewrite length_fmap).
    destruct (summary_avg cs.*2 cost) as (Es & Ea & Ev); [by unfold cs| |exact Hsum|exact Ec|].
    { rewrite Forall_fmap. eapply Forall_impl; [exact Hc0|]. cbn. tauto. }
    rewrite Hz in *. split; [exact Es|]. split; [exact Ea|]. intros x Hx. by apply Ev, list_elem_of_fmap_2.
Qed.

(** A coder that avoids 61, and its inverse. *)
Definition skip_pad (s : str) : str := (fun c => if c <? 61 then c else c + 1) <$> s.

Definition unskip_pad (s : str) : str := (fun c => if c <? 61 then c else c - 1) <$> s.

Lemma skip_pad_laws s : unskip_pad (skip_pad s) = s /\ 61 ∉ skip_pad s.
Proof.
  unfold unskip_pad, skip_pad. induction s as [|c s [IH Hn]]; [split; [done|apply not_elem_of_nil]|].
  cbn [fmap list_fmap]. destruct (Z.ltb_spec c 61); (split; [f_equal; [|exact IH]; zb; lia|]);
    apply not_elem_of_cons; (split; [lia|exact Hn]).
Qed.

Lemma perf_report_witness :
  let put := fun k v (t : list (str * str)) => (k, v) :: t in
  let t := perf_tree [] put (lit "p") [(lit "d", lit "e")] in
  let calls := [(17, 30); (400, 10)] in
  exists st m, perf_calls [] put (fun _ => lit "x") (fun s => s) skip_pad (lit "p") [(lit "d", lit "e")] calls ∅ = Ret st /\
    report_names (fun _ => Ret t) unskip_pad (map_to_list st) = Ret [ReportLine t {[ lit "cost" := m ]} 2] /\
    metric_at m (lit "sum") = 40.
Proof.
  intros put t calls.
  destruct (perf_report [] put (fun _ => lit "x") (fun s => s) (fun _ => Ret t) skip_pad unskip_pad (lit "p")
    [(lit "d", lit "e")] calls skip_pad_laws) as (st & m & E & Er & Es & _).
  - reflexivity.
  - discriminate.
  - repeat constructor; cbn; lia.
  - reflexivity.
  - reflexivity.
  - exists st, m. split; [exact E|]. split; [exact Er|exact Es].
Defined.
