(* ===== verification/Apm.v ===== *)
(** * The life of the metrics ([apm_logger] of [src/src/common/main/utils/logger.cpp])

    [Logger] has what a measurement does to the statistics and what a report
    prints; here are the threads around it: measurements are posted to
    [IO_CONTEXT] and executed by its threads one critical section at a time,
    reports take the statistics away, [init] and [disable] start and stop all of
    it. One step of the relation is one critical section, one call from outside
    or one step of a timer. *)
From S2P Require Import Prelude Bytes Text Files Tools Logger.

(** ** Data *)

(** One [accumulate_metric(STATISTICS[name][id][key], value, sample)]. *)
Record observation := Observation { ob_name : str; ob_id : str; ob_key : str; ob_value : Z; ob_sample : Z }.

(** A posted function: its critical sections under [APM_LOCK], in order. *)
Definition closure : Type := list (list observation).

(** A [std::thread *] of [LOG_THREADS]. *)
Inductive thread_status := Running | Returned | Deleted.
#[export] Instance thread_status_eq : EqDecision thread_status. Proof. solve_decision. Defined.

Record apm := Apm {
  stats : gmap str (gmap str (gmap str (gmap str Z)));   (* [STATISTICS] *)
  work : bool;                        (* [IO_CONTEXT_WORK != nullptr] *)
  stopped : bool;                     (* [IO_CONTEXT] *)
  threads : list thread_status;
  joining : bool;                     (* [disable] waits for the threads *)
  posted : list closure;
  executing : list closure;           (* what is left of the functions under way *)
  waits : nat;                        (* waits of [LOG_TIMER] *)
  fired : nat;                        (* its handlers that are ready *)
  reports : list (gmap str (gmap str (gmap str (gmap str Z))))
}.

Definition apm_initial : apm := Apm ∅ false false [] false [] [] 0 0 [].

(** ** Measurements *)
Definition observe (st : gmap str (gmap str (gmap str (gmap str Z)))) (o : observation)
    : gmap str (gmap str (gmap str (gmap str Z))) :=
  accumulate (ob_name o) (ob_id o) (ob_key o) (ob_value o) (ob_sample o) st.

(** The function [perf] posts: count and cost under one lock. *)
Definition perf_closure (name id : str) (cost count sample : Z) : closure :=
  [[Observation name id (lit "count") count sample; Observation name id (lit "cost") cost sample]].

(** The function [perf] with counts posts: all under one lock. *)
Definition counts_closure (name id : str) (counts : list (str * Z)) : closure :=
  [Observation name id (lit "count") 1 1 :: ((fun c => Observation name id c.1 (u64 c.2) 1) <$> counts)].

(** The function [end] posts: the lock is taken for each metric. *)
Definition end_closure (name id : str) (metrics : list (str * Z)) : closure :=
  (fun m => [Observation name id m.1 m.2 1]) <$> metrics.

Definition post (c : closure) (a : apm) : apm :=
  Apm (stats a) (work a) (stopped a) (threads a) (joining a) (posted a ++ [c]) (executing a) (waits a) (fired a) (reports a).

(** ** Reports *)

(** The critical section of [report_apm_log_local]: the statistics are copied
    and cleared; empty ones are not reported. *)
Definition take_report (a : apm) : apm :=
  Apm ∅ (work a) (stopped a) (threads a) (joining a) (posted a) (executing a) (waits a) (fired a)
    (if bool_decide (stats a = ∅) then reports a else reports a ++ [stats a]).

(** [schedule_log()]: [expires_from_now] cancels a wait under way, whose handler
    becomes ready; the handler does not look at its error code. *)
Definition schedule_log (a : apm) : apm :=
  Apm (stats a) (work a) (stopped a) (threads a) (joining a) (posted a) (executing a) 1 (waits a + fired a) (reports a).

(** The handler of [LOG_TIMER]. *)
Definition on_log_timer (a : apm) : apm :=
  let a := Apm (stats a) (work a) (stopped a) (threads a) (joining a) (posted a) (executing a) (waits a) (pred (fired a)) (reports a) in
  take_report (schedule_log a).

(** ** [init] and [disable] *)

(** The threads of a stopped context return at once: nothing restarts it. *)
Definition apm_init (cpu_count : nat) (a : apm) : apm :=
  schedule_log (Apm (stats a) true (stopped a) (threads a ++ replicate cpu_count (if stopped a then Returned else Running))
    (joining a) (posted a) (executing a) (waits a) (fired a) (reports a)).

(** The first half of [disable]: the context is stopped, the work deleted. *)
Definition apm_stop (a : apm) : apm :=
  Apm (stats a) false true (threads a) true (posted a) (executing a) (waits a) (fired a) (reports a).

(** The second half: [join] and [delete] of every thread of the list, which
    keeps the pointers; then the last report. *)
Definition apm_join (a : apm) : outcome apm :=
  if bool_decide (Deleted ∈ threads a) then Undef UseAfterFree
  else Ret (take_report (Apm (stats a) (work a) (stopped a) ((fun _ => Deleted) <$> threads a) false (posted a) (executing a)
              (waits a) (fired a) (reports a))).

(** ** Runs *)
Definition with_executing (a : apm) (st : gmap str (gmap str (gmap str (gmap str Z)))) (p e : list closure) : apm :=
  Apm st (work a) (stopped a) (threads a) (joining a) p e (waits a) (fired a) (reports a).

Definition busy (a : apm) : bool := negb (stopped a) && bool_decide (Running ∈ threads a).

Inductive event := Init (cpu_count : nat) | Post (c : closure) | Begin | Section_of (os : list observation) | End
  | Expire | Report | Stop | Join.

Inductive apm_step : apm -> event -> apm -> Prop :=
  | step_init a n : joining a = false -> apm_step a (Init n) (apm_init n a)
  | step_post a c : apm_step a (Post c) (post c a)
  | step_begin a c rest : busy a = true -> posted a = c :: rest ->
      apm_step a Begin (with_executing a (stats a) rest (executing a ++ [c]))
  | step_section a l1 os c l2 : executing a = l1 ++ (os :: c) :: l2 ->
      apm_step a (Section_of os) (with_executing a (fold_left observe os (stats a)) (posted a) (l1 ++ c :: l2))
  | step_end a l1 l2 : executing a = l1 ++ [] :: l2 ->
      apm_step a End (with_executing a (stats a) (posted a) (l1 ++ l2))
  | step_expire a w : waits a = S w ->
      apm_step a Expire (Apm (stats a) (work a) (stopped a) (threads a) (joining a) (posted a) (executing a) w (S (fired a)) (reports a))
  | step_report a w : busy a = true -> fired a = S w -> apm_step a Report (on_log_timer a)
  | step_stop a : work a = true -> joining a = false -> apm_step a Stop (apm_stop a)
  | step_join a a' : joining a = true -> executing a = [] -> apm_join a = Ret a' -> apm_step a Join a'
  | step_disabled a : work a = false -> joining a = false -> apm_step a Join (take_report a).

Inductive apm_run : apm -> list event -> apm -> Prop :=
  | run_nil a : apm_run a [] a
  | run_snoc a es a1 e a2 : apm_run a es a1 -> apm_step a1 e a2 -> apm_run a (es ++ [e]) a2.

(** ** Specification *)
Definition observed (es : list event) : list observation :=
  mjoin ((fun e => match e with Section_of os => os | _ => [] end) <$> es).

Definition inits (es : list event) : nat := length (List.filter (fun e => match e with Init _ => true | _ => false end) es).

(** The sum of a metric in statistics, and what observations add to it. *)
Definition sum_at (name id key : str) (st : gmap str (gmap str (gmap str (gmap str Z)))) : Z :=
  from_option (fun m => metric_at m (lit "sum")) 0 (stat_at name id key st).

Definition adds (name id key : str) (o : observation) : Z :=
  if decide (ob_name o = name /\ ob_id o = id /\ ob_key o = key) then ob_value o * ob_sample o else 0.

Definition total (l : list Z) : Z := foldr Z.add 0 l.

(** ** Lemmas: sums *)
Lemma accumulate_sum m value sample :
  metric_at (accumulate_metric m value sample) (lit "sum") = u64 (metric_at m (lit "sum") + u64 (value * sample)).
Proof.
  unfold accumulate_metric. set (m1 := if bool_decide _ then _ else _).
  assert (metric_at m1 (lit "sum") = metric_at m (lit "sum")) as E.
  { unfold m1. case_bool_decide as E; [subst m|done]. unfold metric_at.
    destruct keys_distinct as (H1 & H2 & _). by rewrite !lookup_insert_ne, lookup_insert_eq by done. }
  unfold metric_at at 1. destruct keys_distinct as (H1 & H2 & _).
  rewrite !lookup_insert_ne, lookup_insert_eq by done. cbn [from_option Datatypes.id]. by rewrite E.
Qed.

Section sums.
Context (name id key : str).
Abbreviation sum_at := (sum_at name id key).
Abbreviation adds := (adds name id key).

Lemma observe_sum st o : u64 (sum_at (observe st o)) = u64 (sum_at st + adds o).
Proof.
  unfold sum_at, adds, observe, accumulate. rewrite stat_at_with. case_decide as E.
  - cbn [from_option]. rewrite accumulate_sum.
    assert (metric_at (default ∅ (stat_at name id key st)) (lit "sum") =
      from_option (fun m => metric_at m (lit "sum")) 0 (stat_at name id key st)) as ->
      by (by destruct (stat_at name id key st)).
    unfold u64. by rewrite Zmod_mod, Zplus_mod_idemp_r.
  - by rewrite Z.add_0_r.
Qed.

Lemma observe_all_sum os : forall st, u64 (sum_at (fold_left observe os st)) = u64 (sum_at st + total (adds <$> os)).
Proof.
  induction os as [|o os IH]; intros st; cbn [fold_left fmap list_fmap total foldr]; [by rewrite Z.add_0_r|].
  rewrite IH. fold (total (adds <$> os)). unfold u64. rewrite <- Zplus_mod_idemp_l. fold (u64 (sum_at (observe st o))).
  rewrite observe_sum. unfold u64. rewrite Zplus_mod_idemp_l. f_equal. lia.
Qed.

Lemma total_app l1 l2 : total (l1 ++ l2) = total l1 + total l2.
Proof. unfold total. induction l1 as [|x l1 IH]; cbn [app foldr]; lia. Qed.

(** Everything that was reported or is in the statistics. *)
Definition held (a : apm) : Z := total (sum_at <$> reports a) + sum_at (stats a).

Lemma take_report_held a : held (take_report a) = held a.
Proof.
  unfold held, take_report. cbn [stats reports]. change (sum_at ∅) with 0.
  case_bool_decide as E; [by rewrite E|]. rewrite fmap_app, total_app. unfold total at 2. cbn [fmap list_fmap foldr]. lia.
Qed.

Lemma observed_snoc es e : observed (es ++ [e]) = observed es ++ match e with Section_of os => os | _ => [] end.
Proof. unfold observed. rewrite fmap_app, join_app. f_equal. apply app_nil_r. Qed.

Lemma step_held a e a' : apm_step a e a' ->
  u64 (held a') = u64 (held a + total (adds <$> match e with Section_of os => os | _ => [] end)).
Proof.
  intros Hs. destruct Hs as [a n|a c|a c rest|a l1 os c l2|a l1 l2|a w|a w|a|a a' _ _ Hj|a]; cbn [fmap list_fmap total foldr]; rewrite ?Z.add_0_r; try done.
  - unfold held. cbn [with_executing stats reports]. fold (total (adds <$> os)).
    unfold u64. rewrite <- Zplus_mod_idemp_r. fold (u64 (sum_at (fold_left observe os (stats a)))). rewrite observe_all_sum.
    unfold u64. rewrite Zplus_mod_idemp_r. f_equal. lia.
  - unfold on_log_timer. by rewrite take_report_held.
  - unfold apm_join in Hj. case_bool_decide; [done|]. injection Hj as <-. by rewrite take_report_held.
  - by rewrite take_report_held.
Qed.

Lemma run_held a es a' : apm_run a es a' -> u64 (held a') = u64 (held a + total (adds <$> observed es)).
Proof.
  intros Hr. induction Hr as [a|a es a1 e a2 _ IH Hs]; [by rewrite Z.add_0_r|].
  rewrite (step_held _ _ _ Hs), observed_snoc, fmap_app, total_app. unfold u64 in *. rewrite <- Zplus_mod_idemp_l, IH, Zplus_mod_idemp_l.
  f_equal. lia.
Qed.
End sums.

(** ** Lemmas: the timer and the threads *)
Lemma inits_snoc es e : inits (es ++ [e]) = (inits es + match e with Init _ => 1 | _ => 0 end)%nat.
Proof. unfold inits. rewrite List.filter_app, length_app. by destruct e. Qed.

Lemma step_chains a e a' : apm_step a e a' ->
  (waits a' + fired a' = waits a + fired a + match e with Init _ => 1 | _ => 0 end)%nat.
Proof.
  intros Hs. destruct Hs as [a n|a c|a c rest|a l1 os c l2|a l1 l2|a w Hw|a w Hb Hf|a|a a' _ _ Hj|a]; cbn; try lia.
  unfold apm_join in Hj. case_bool_decide; [done|]. injection Hj as <-. cbn. lia.
Qed.

Lemma run_chains a es a' : apm_run a es a' -> (waits a' + fired a' = waits a + fired a + inits es)%nat.
Proof.
  intros Hr. induction Hr as [a|a es a1 e a2 _ IH Hs]; [cbn; lia|]. apply step_chains in Hs. rewrite inits_snoc. lia.
Qed.

(** A stopped context stays stopped, and starts nothing. *)
Lemma step_stopped a e a' : apm_step a e a' -> stopped a = true -> stopped a' = true.
Proof.
  intros Hs. destruct Hs as [a n|a c|a c rest|a l1 os c l2|a l1 l2|a w Hw|a w Hb Hf|a|a a' _ _ Hj|a]; try done.
  unfold apm_join in Hj. case_bool_decide; [done|]. by injection Hj as <-.
Qed.

Lemma step_quiet a e a' : apm_step a e a' -> stopped a = true -> executing a = [] ->
  executing a' = [] /\ match e with Begin | Section_of _ | Report => False | _ => True end.
Proof.
  intros Hs Hst He. destruct Hs as [a n|a c|a c rest Hb|a l1 os c l2 Hx|a l1 l2 Hx|a w Hw|a w Hb Hf|a|a a' _ _ Hj|a]; try (by split);
    try (unfold busy in Hb; by rewrite Hst in Hb); try (rewrite He in Hx; by destruct l1).
  unfold apm_join in Hj. case_bool_decide; [done|]. by injection Hj as <-.
Qed.

Lemma run_quiet a es a' : apm_run a es a' -> stopped a = true -> executing a = [] ->
  stopped a' = true /\ executing a' = [] /\
  Forall (fun e => match e with Begin | Section_of _ | Report => False | _ => True end) es.
Proof.
  intros Hr Hst He. induction Hr as [a|a es a1 e a2 _ IH Hs]; [done|]. destruct (IH Hst He) as (H1 & H2 & H3).
  destruct (step_quiet _ _ _ Hs H1 H2) as [H4 H5]. split; [by eapply step_stopped|]. split; [done|].
  apply Forall_app. by split; [|apply Forall_singleton].
Qed.

(** Without the timer and without [init] no handler becomes ready. *)
Lemma run_no_timer a es a' : apm_run a es a' -> fired a = 0%nat -> inits es = 0%nat -> Expire ∉ es ->
  fired a' = 0%nat /\ Report ∉ es.
Proof.
  intros Hr Hf. induction Hr as [a|a es a1 e a2 _ IH Hs]; intros Hi He; [split; [done|apply not_elem_of_nil]|].
  rewrite inits_snoc in Hi. rewrite not_elem_of_app, list_elem_of_singleton in He |- *.
  destruct IH as [H1 H2]; [done|lia|tauto|].
  assert (fired a2 = 0%nat /\ Report <> e); [|tauto].
  destruct Hs as [a1 n|a1 c|a1 c rest|a1 l1 os c l2|a1 l1 l2|a1 w Hw|a1 w Hb Hx|a1|a1 a' _ _ Hj|a1]; try (by split); try lia; try tauto.
  unfold apm_join in Hj. case_bool_decide; [done|]. by injection Hj as <-.
Qed.

Lemma run_reports a es a' : apm_run a es a' -> waits a = 1%nat -> (forall e, e ∈ es -> e = Report) -> waits a' = 1%nat.
Proof.
  intros Hr Hw He. destruct Hr as [a|a es a1 e a2 _ Hs]; [done|].
  rewrite (He e) in Hs by (apply elem_of_app; right; left). by inversion Hs.
Qed.

(** ** Runs that can be computed: the first function under way goes first *)
#[export] Instance observation_eq : EqDecision observation. Proof. solve_decision. Defined.
#[export] Instance event_eq : EqDecision event. Proof. solve_decision. Defined.

Definition apm_exec (a : apm) (e : event) : option apm :=
  match e with
  | Init n => if joining a then None else Some (apm_init n a)
  | Post c => Some (post c a)
  | Begin =>
      match posted a with
      | c :: rest => if busy a then Some (with_executing a (stats a) rest (executing a ++ [c])) else None
      | [] => None
      end
  | Section_of os =>
      match executing a with
      | (os' :: c) :: l =>
          if decide (os = os') then Some (with_executing a (fold_left observe os' (stats a)) (posted a) (c :: l)) else None
      | _ => None
      end
  | End => match executing a with [] :: l => Some (with_executing a (stats a) (posted a) l) | _ => None end
  | Expire =>
      match waits a with
      | S w => Some (Apm (stats a) (work a) (stopped a) (threads a) (joining a) (posted a) (executing a) w (S (fired a)) (reports a))
      | O => None
      end
  | Report => match fired a with S _ => if busy a then Some (on_log_timer a) else None | O => None end
  | Stop => if work a && negb (joining a) then Some (apm_stop a) else None
  | Join =>
      if joining a then
        match executing a, apm_join a with [], Ret a' => Some a' | _, _ => None end
      else if work a then None else Some (take_report a)
  end.

Fixpoint apm_execs (a : apm) (es : list event) : option apm :=
  match es with [] => Some a | e :: es => a' ← apm_exec a e; apm_execs a' es end.

Lemma apm_exec_step a e a' : apm_exec a e = Some a' -> apm_step a e a'.
Proof.
  destruct e as [n|c| |os| | | | |]; cbn [apm_exec]; intros E; repeat case_match; simplify_eq; try (by econstructor).
  all: try (match goal with H : executing ?a = (?o :: ?c) :: ?l |- _ => by apply (step_section a [] o c l) end).
  all: try (match goal with H : executing ?a = [] :: ?l |- _ => by apply (step_end a [] l) end).
  all: try (rewrite andb_true_iff, negb_true_iff in *; destruct_and?; by constructor).
Qed.

Lemma apm_execs_run es : forall a0 es0 a a', apm_run a0 es0 a -> apm_execs a es = Some a' -> apm_run a0 (es0 ++ es) a'.
Proof.
  induction es as [|e es IH]; intros a0 es0 a a' Hr E; [injection E as <-; by rewrite app_nil_r|].
  cbn in E. apply bind_Some in E as (a1 & E1 & E). change (e :: es) with ([e] ++ es). rewrite app_assoc.
  eapply IH; [|exact E]. eapply run_snoc; [exact Hr|]. by apply apm_exec_step.
Qed.

Lemma apm_computed es a : apm_execs apm_initial es = Some a -> apm_run apm_initial es a.
Proof. apply (apm_execs_run es _ []). apply run_nil. Qed.

Lemma execs_cons a a1 a' e es : apm_exec a e = Some a1 -> apm_execs a1 es = Some a' -> apm_execs a (e :: es) = Some a'.
Proof. intros E. cbn [apm_execs]. by rewrite E. Qed.

Lemma observe_first name id key value :
  observe ∅ (Observation name id key value 1) = {[ name := {[ id := {[ key := accumulate_metric ∅ value 1 ]} ]} ]}.
Proof.
  unfold observe, accumulate, with_metric. cbn [ob_name ob_id ob_key ob_value ob_sample].
  by rewrite !lookup_empty; cbn [from_option Datatypes.id]; rewrite !lookup_empty; cbn [from_option Datatypes.id]; rewrite lookup_empty, !insert_empty.
Qed.

Lemma exec_section os c l st w s th j p wt f r :
  apm_exec (Apm st w s th j p ((os :: c) :: l) wt f r) (Section_of os) = Some (Apm (fold_left observe os st) w s th j p (c :: l) wt f r).
Proof. cbn [apm_exec executing]. by rewrite decide_True. Qed.

Lemma exec_report st w th j p e wt f r : st <> ∅ -> Running ∈ th ->
  apm_exec (Apm st w false th j p e wt (S f) r) Report = Some (Apm ∅ w false th j p e 1 (wt + f) (r ++ [st])).
Proof.
  intros Hst Hth. cbn [apm_exec fired]. unfold busy. cbn [stopped threads]. rewrite (bool_decide_true _ Hth). cbn [negb andb].
  unfold on_log_timer, schedule_log, take_report. cbn. by rewrite bool_decide_false.
Qed.

(** ** Properties *)



(** The function that [end] posts is not one critical section: a report between its metrics
    finds a cost without a count and drops it, and the next one has the count alone, so the cost is
    in no line of any report. *)
Theorem end_split_report {tree} (read_json : str -> outcome tree) (eight_bits : str -> str) (name id : str) (cost : Z) (t : tree) :
  read_json (base64_decode eight_bits id) = Ret t ->
  exists es a r1 r2, apm_run apm_initial es a /\ Post (end_closure name id [(lit "cost", cost); (lit "count", 1)]) ∈ es /\
    observed es = [Observation name id (lit "cost") cost 1; Observation name id (lit "count") 1 1] /\
    reports a = [r1; r2] /\ report_names read_json eight_bits (map_to_list r1) = Ret [] /\
    report_names read_json eight_bits (map_to_list r2) = Ret [ReportLine t ∅ 1].
Proof.
  intros Ht. set (cost_only := observe ∅ (Observation name id (lit "cost") cost 1)).
  set (count_only := observe ∅ (Observation name id (lit "count") 1 1)).
  assert (cost_only <> ∅ /\ count_only <> ∅) as [H1 H2].
  { unfold cost_only, count_only. rewrite !observe_first. split; apply map_non_empty_singleton. }
  exists ([Init 2; Post (end_closure name id [(lit "cost", cost); (lit "count", 1)]); Begin;
    Section_of [Observation name id (lit "cost") cost 1]; Expire; Report;
    Section_of [Observation name id (lit "count") 1 1]; Expire; Report]),
    (Apm ∅ true false [Running; Running] false [] [[]] 1 0 [cost_only; count_only]), cost_only, count_only.
  split_and!; [|right; left|done|done| |].
  - apply apm_computed.
    do 3 (eapply execs_cons; [reflexivity|]).
    eapply execs_cons; [apply exec_section|]. eapply execs_cons; [reflexivity|].
    eapply execs_cons; [apply (exec_report cost_only); [done|left]|].
    eapply execs_cons; [apply exec_section|]. eapply execs_cons; [reflexivity|].
    eapply execs_cons; [apply (exec_report count_only); [done|left]|]. reflexivity.
  - unfold cost_only. rewrite observe_first, map_to_list_singleton. cbn [report_names]. rewrite map_to_list_singleton.
    cbn [report_entries]. unfold report_entry. rewrite Ht. ret_step. rewrite lookup_singleton_ne by discriminate. reflexivity.
  - unfold count_only. rewrite observe_first, map_to_list_singleton. cbn [report_names]. rewrite map_to_list_singleton.
    cbn [report_entries]. unfold report_entry. rewrite Ht. ret_step. rewrite lookup_singleton_eq. cbn [from_option Datatypes.id].
    replace (metric_at (accumulate_metric ∅ 1 1) (lit "sum")) with 1 by (vm_compute; reflexivity).
    cbn [Z.leb Z.compare]. ret_step. by rewrite delete_singleton_eq, fmap_empty.
Qed.

Lemma end_split_report_witness :
  exists es a r1 r2, apm_run apm_initial es a /\ reports a = [r1; r2] /\
    report_names (fun s => Ret s) (fun s => s) (map_to_list r1) = Ret [].
Proof.
  destruct (end_split_report (fun s => Ret s) (fun s => s) (lit "st-dns") (lit "x") 12 (lit "x")) as (es & a & r1 & r2 & Hr & _ & _ & E & E1 & _).
  - vm_compute. reflexivity.
  - exists es, a, r1, r2. split; [exact Hr|]. split; [exact E|exact E1].
Defined.

(** Claim C17. The report waits for its timer only when [init] ran once: after every report as many
    handlers are ready at once as there were other calls of [init], since each cancels the wait of the
    one before. With one [init] the next report needs the timer; with more, reports never pause. *)
Theorem report_cadence (es es' : list event) (a a1 a2 : apm) :
  apm_run apm_initial es a -> apm_step a Report a1 -> apm_run a1 es' a2 -> inits es' = 0%nat ->
  waits a1 = 1%nat /\ S (fired a1) = inits es /\
  (inits es = 1%nat -> Report ∈ es' -> Expire ∈ es') /\
  ((1 < inits es)%nat -> (forall e, e ∈ es' -> e = Report) -> (0 < fired a2)%nat).
Proof.
  intros Hr Hs Hr' Hno. pose proof (run_chains _ _ _ Hr) as Hc. pose proof (step_chains _ _ _ Hs) as Hc1. cbn in Hc, Hc1.
  assert (waits a1 = 1%nat) as Hw by (inversion Hs; done).
  split; [done|]. split; [lia|]. split.
  - intros H1 Hin. destruct (decide (Expire ∈ es')) as [|He]; [done|].
    destruct (run_no_timer _ _ _ Hr') as [_ Hn]; [lia|done|done|done].
  - intros H1 Hall. pose proof (run_reports _ _ _ Hr' Hw Hall). pose proof (run_chains _ _ _ Hr'). lia.
Qed.

Lemma report_cadence_witness :
  exists a a1, apm_run apm_initial [Init 1; Expire] a /\ apm_step a Report a1 /\ S (fired a1) = 1%nat.
Proof.
  destruct (apm_execs apm_initial [Init 1; Expire]) as [a|] eqn:E; [|vm_compute in E; discriminate E].
  destruct (apm_exec a Report) as [a1|] eqn:E1; [|vm_compute in E; injection E as <-; vm_compute in E1; discriminate E1].
  apply apm_computed in E. apply apm_exec_step in E1. exists a, a1. split; [exact E|]. split; [exact E1|].
  refine (proj1 (proj2 (report_cadence [Init 1; Expire] [] a a1 a1 E E1 (run_nil a1) _))). reflexivity.
Defined.

(** [disable] is final: nothing that is posted afterwards is ever executed, not even after
    [init] is called again, as no one restarts the context; and when [disable] is called after that,
    it joins the threads it deleted the first time. *)
Theorem logging_restart (es' : list event) (a a1 a2 a3 : apm) (cpu_count : nat) :
  apm_step a Stop a1 -> apm_step a1 Join a2 -> threads a <> [] ->
  apm_run a2 es' a3 ->
  observed es' = [] /\ Report ∉ es' /\ apm_join (apm_stop (apm_init cpu_count a2)) = Undef UseAfterFree.
Proof.
  intros Hs Hj Hne Hr. inversion Hs as [| | | | | | |a' Hw Hjo| |]; subst.
  inversion Hj as [| | | | | | | |a' a'' _ He Hjn|a' Hwk Hjo']; subst; [|discriminate].
  unfold apm_join in Hjn. case_bool_decide; [done|]. injection Hjn as <-. split; [|split].
  - destruct (run_quiet _ _ _ Hr) as (_ & _ & Hall); [done|exact He|]. clear Hr.
    induction Hall as [|e es' Hx _ IH]; [done|].
    change (observed (e :: es')) with ((match e with Section_of os => os | _ => [] end) ++ observed es'). rewrite IH. by destruct e.
  - destruct (run_quiet _ _ _ Hr) as (_ & _ & Hall); [done|exact He|]. intros Hin. rewrite Forall_forall in Hall. by apply Hall in Hin.
  - unfold apm_join. rewrite bool_decide_true; [done|]. cbn [apm_stop apm_init schedule_log take_report threads].
    apply elem_of_app. left. destruct (threads a) as [|th l]; [done|]. left.
Qed.

Lemma logging_restart_witness :
  exists a a1 a2, apm_run apm_initial [Init 1] a /\ apm_step a Stop a1 /\ apm_step a1 Join a2 /\
    apm_join (apm_stop (apm_init 1 a2)) = Undef UseAfterFree.
Proof.
  exists (apm_init 1 apm_initial), (apm_stop (apm_init 1 apm_initial)).
  destruct (apm_exec (apm_stop (apm_init 1 apm_initial)) Join) as [a2|] eqn:E2; [|vm_compute in E2; discriminate E2].
  apply apm_exec_step in E2. exists a2.
  assert (apm_run apm_initial [Init 1] (apm_init 1 apm_initial)) as E by (apply apm_computed; reflexivity).
  assert (apm_step (apm_init 1 apm_initial) Stop (apm_stop (apm_init 1 apm_initial))) as E1 by (by apply apm_exec_step).
  split; [exact E|]. split; [exact E1|]. split; [exact E2|].
  refine (proj2 (proj2 (logging_restart [] _ _ a2 a2 1 E1 E2 _ (run_nil a2)))). discriminate.
Defined.
