(* ===== verification/Domain.v ===== *)
(** * Domain names on the wire ([dns_domain] of
    [src/src/core/protocol/dns_message.h] and [dns_message.cpp])

    A name is generated into a block at an offset, and parsed from a block at
    an offset; [allData] is the offset of the message the compression pointers
    are relative to. *)
From S2P Require Import Prelude Bytes Text.

(** ** Data *)
Record dns_domain := DnsDomain {
  dd_data : Z;        (* offset of the view in its block *)
  dd_len : Z;
  dd_valid : bool;
  domain : str
}.

(** ** Parsing *)

(** One turn of the loop of [parseRe]; [recur] is the call at [depth + 1].
    [inr] carries the value returned and the text left in [domain]. *)
Definition parse_frame (recur : Z -> Z -> str -> outcome (Z * str))
    (m : list Z) (data begin allDataSize maxParse : Z)
    : Z * str -> outcome (Z * str + Z * str) :=
  fun '(actualLen, domain) =>
    if actualLen <? maxParse then
      frameLen ← load m (data + actualLen);
      if Z.land frameLen 192 =? 192 then
        b0 ← load m (data + actualLen);
        b1 ← load m (data + actualLen + 1);
        let pos := u16 (Z.lor (Z.shiftl (Z.land b0 63) 8) b1) in
        let actualLen := actualLen + 2 in
        if negb (pos =? begin) then
          '(consume, domainRe) ← recur pos (u64 (allDataSize - pos)) [];
          if negb (consume =? 0) then
            if negb (bool_decide (domain = []))
            then Ret (inl (actualLen, domain ++ lit "." ++ domainRe))
            else Ret (inr (actualLen, domainRe))
          else Ret (inr (0, domain))
        else Ret (inr (actualLen, domain))
      else if Z.land frameLen 192 =? 0 then
        let actualLen := actualLen + 1 in
        if frameLen =? 0 then Ret (inr (actualLen, domain))
        else if u64 (maxParse - actualLen) <? frameLen then Ret (inr (0, domain))
        else
          let actualLen := actualLen + frameLen in
          domainStr ← copy m (replicate (Z.to_nat (frameLen + 1)) 0)
                        (data + (actualLen - frameLen)) 0 frameLen;
          let domain := if negb (bool_decide (domain = [])) then domain ++ lit "." else domain in
          Ret (inl (actualLen, domain ++ cstr domainStr))
      else Ret (inr (actualLen, domain))
    else Ret (inr (actualLen, domain)).

(** [parseRe(allData, allDataSize, begin, maxParse, domain, depth)], where
    [room] is [21 - depth]: the call with [depth > 20] returns 0. A turn that
    does not leave the loop moves the read position forward, so the length of
    the block bounds the turns. *)
Fixpoint parseRe (room : nat) (m : list Z) (allData allDataSize begin maxParse : Z)
    (domain : str) : outcome (Z * str) :=
  match room with
  | O => Ret (0, domain)
  | S room' =>
      while_loop (S (length m))
        (parse_frame (parseRe room' m allData allDataSize) m (allData + begin) begin
           allDataSize maxParse)
        (0, domain)
  end.

Definition parse (m : list Z) (allData allDataSize begin maxParse : Z) (domain : str)
    : outcome (Z * str) :=
  parseRe 21 m allData allDataSize begin maxParse domain.

(** What the constructors and the member [parse()] do with the result. *)
Definition domain_of_parse (off len : Z) (r : Z * str) : dns_domain :=
  let '(actualLen, d) := r in
  if actualLen =? 0 then DnsDomain off 0 false d else DnsDomain off (u32 actualLen) true d.

(** [dns_domain(data, len).parse()] *)
Definition dns_domain_parse (m : list Z) (data len : Z) : outcome dns_domain :=
  r ← parse m data len 0 len []; Ret (domain_of_parse data len r).

(** [dns_domain(data, dataSize, begin)] *)
Definition dns_domain_begin (m : list Z) (data dataSize begin : Z) : outcome dns_domain :=
  r ← parse m data dataSize begin (u64 (dataSize - begin)) [];
  Ret (domain_of_parse (data + begin) (u32 (dataSize - begin)) r).

(** [dns_domain(data, dataSize, begin, maxParse)] *)
Definition dns_domain_max (m : list Z) (data dataSize begin maxParse : Z) : outcome dns_domain :=
  r ← parse m data dataSize begin maxParse [];
  Ret (domain_of_parse (data + begin) (u32 (dataSize - begin)) r).

(** ** Generating *)

(** [host.data()[i]]: the terminator is readable, nothing after it is. *)
Definition char_at (host : str) (i : Z) : outcome Z := load (host ++ [0]) i.

(** The scan for the bounds of the labels, kept as pairs of unsigned chars. *)
Definition generate_scan (host : str) : outcome (list (Z * Z) * Z * Z) :=
  let strLen := zlen (cstr host) in
  for_loop (Z.to_nat (strLen + 1)) 0 (fun i '(subLens, total, lastBegin) =>
    if negb (i =? strLen) then
      ch ← char_at host i;
      if ch =? 46 then Ret (subLens ++ [(u8 lastBegin, u8 (i - 1))], total, i + 1)
      else Ret (subLens, total + 1, lastBegin)
    else Ret (subLens ++ [(u8 lastBegin, u8 (i - 1))], total, lastBegin)) ([], 0, 0).

Definition generate_label (host : str) (data : Z) (p : Z * Z) (st : list Z * Z)
    : outcome (list Z * Z) :=
  let '(m, i) := st in
  m ← store m (data + i) (u8 (p.2 - p.1 + 1));
  for_loop (Z.to_nat (p.2 - p.1 + 1)) p.1 (fun j '(m, i) =>
    ch ← char_at host j; m ← store m (data + i) ch; Ret (m, i + 1)) (m, i + 1).

Fixpoint generate_labels (host : str) (data : Z) (subLens : list (Z * Z)) (st : list Z * Z)
    : outcome (list Z * Z) :=
  match subLens with
  | [] => Ret st
  | p :: rest => st ← generate_label host data p st; generate_labels host data rest st
  end.

(** [dns_domain::generate(data, host)] *)
Definition domain_generate (m : list Z) (data : Z) (host : str) : outcome (list Z * dns_domain) :=
  '(subLens, total, _) ← generate_scan host;
  let finalDataLen := zlen subLens + total + 1 in
  '(m, i) ← generate_labels host data subLens (m, 0);
  m ← store m (data + i) 0;
  Ret (m, DnsDomain data (u32 finalDataLen) true host).

(** ** First-level domain *)
Definition getFIDomain (domain : str) : outcome str :=
  let pos := find_last_of domain 46 in
  if pos =? npos then Ret []
  else
    fiDomain ← substr domain (u64 (pos + 1)) npos;
    Ret (map toupper fiDomain).

Definition removeFIDomain (domain : str) : outcome str :=
  let pos := find_last_of domain 46 in
  if pos =? npos then Ret domain else substr domain 0 pos.

(** ** Specification: names as lists of labels *)
Definition valid_label (l : str) : Prop :=
  1 <= zlen l <= 63 /\ Forall (fun c => 0 < c < 256 /\ c <> 46) l.

Definition name_text (labels : list str) : str := intercalate (lit ".") labels.

Definition valid_name (labels : list str) : Prop :=
  labels <> [] /\ Forall valid_label labels /\ zlen (name_text labels) <= 255.

Definition enc_label (l : str) : list Z := zlen l :: l.
Definition enc_name (labels : list str) : list Z := concat (enc_label <$> labels) ++ [0].

(** ** Lemmas: one turn of the parser *)
Definition join_label (dom l : str) : str :=
  (if negb (bool_decide (dom = [])) then dom ++ lit "." else dom) ++ l.

Lemma land_192_small f : 0 <= f < 64 -> Z.land f 192 = 0.
Proof.
  intros Hf. assert (Forall (fun f => Z.land f 192 = 0) (seqZ 0 64)) as H by (by repeat constructor).
  rewrite Forall_forall in H. apply H, elem_of_seqZ. lia.
Qed.

Lemma valid_label_no_nul l : valid_label l -> Forall (fun c => c <> 0) l.
Proof. intros [_ H]. eapply Forall_impl; [exact H|]. simpl. lia. Qed.

Lemma cstr_label l : valid_label l -> cstr (l ++ [0]) = l.
Proof.
  intros Hl%valid_label_no_nul. induction Hl as [|c l Hc _ IH]; [done|]. simpl. zb. by rewrite IH.
Qed.

Section frames.
Context (recur : Z -> Z -> str -> outcome (Z * str)).
Context (m : list Z) (data begin allDataSize maxParse : Z).
Hypothesis maxParse_range : maxParse < 2 ^ 64.

Lemma parse_frame_label pre l post actualLen dom :
  m = pre ++ enc_label l ++ post -> data + actualLen = zlen pre -> valid_label l ->
  0 <= actualLen -> actualLen + zlen (enc_label l) <= maxParse ->
  parse_frame recur m data begin allDataSize maxParse (actualLen, dom) =
  Ret (inl (actualLen + zlen (enc_label l), join_label dom l)).
Proof.
  intros Hm Hp Hl Ha Hmax. pose proof Hl as [Hlen _]. unfold enc_label in *. rewrite zlen_cons in *.
  unfold parse_frame. zb. rewrite Hm, <- app_comm_cons.
  rewrite (load_at _ _ _ (data + actualLen)) by lia. ret_step. rewrite land_192_small by lia. cbn [Z.eqb].
  zb. rewrite u64_id by lia. zb.
  replace (replicate (Z.to_nat (zlen l + 1)) 0) with ([] ++ replicate (length l) 0 ++ [0]).
  2:{ rewrite app_nil_l, <- replicate_S_end. f_equal. unfold zlen. lia. }
  rewrite (copy_spec _ [] (replicate (length l) 0) [0] _ _ l (pre ++ [zlen l]) post);
    [|by rewrite <- app_assoc|rewrite zlen_app, zlen_cons, zlen_nil; lia|done|by rewrite length_replicate].
  ret_step. rewrite app_nil_l, cstr_label by done. unfold join_label. do 3 f_equal. lia.
Qed.

Lemma parse_frame_end pre post actualLen dom :
  m = pre ++ 0 :: post -> data + actualLen = zlen pre -> actualLen < maxParse ->
  parse_frame recur m data begin allDataSize maxParse (actualLen, dom) =
  Ret (inr (actualLen + 1, dom)).
Proof.
  intros Hm Hp Ha. unfold parse_frame. zb. by rewrite Hm, (load_at _ _ _ (data + actualLen)) by lia.
Qed.

(** The labels of a name and its terminator, read in one run of the loop. *)
Lemma parse_labels labels pre post actualLen dom fuel :
  m = pre ++ enc_name labels ++ post -> data + actualLen = zlen pre ->
  Forall valid_label labels -> 0 <= actualLen ->
  actualLen + zlen (enc_name labels) <= maxParse -> (length labels < fuel)%nat ->
  while_loop fuel (parse_frame recur m data begin allDataSize maxParse) (actualLen, dom) =
  Ret (actualLen + zlen (enc_name labels), fold_left join_label labels dom).
Proof.
  intros Hm Hp Hl. revert pre actualLen dom fuel Hm Hp.
  induction Hl as [|l labels Hl _ IH]; intros pre actualLen dom fuel Hm Hp Ha Hmax Hf;
    (destruct fuel as [|fuel]; [simpl in Hf; lia|]); cbn [while_loop].
  - change (enc_name []) with [0] in *. rewrite zlen_cons, zlen_nil in *.
    rewrite (parse_frame_end pre post) by (done || lia). simpl. do 2 f_equal; lia.
  - assert (enc_name (l :: labels) = enc_label l ++ enc_name labels) as E
      by (unfold enc_name; simpl; by rewrite <- app_assoc).
    rewrite E, <- app_assoc in Hm. rewrite E, zlen_app in *.
    pose proof (zlen_nonneg (enc_name labels)). pose proof (zlen_nonneg (enc_label l)).
    rewrite (parse_frame_label pre l (enc_name labels ++ post)) by (done || lia). cbn [mbind outcome_bind].
    rewrite (IH (pre ++ enc_label l)); [do 2 f_equal; lia|by rewrite <- app_assoc|zlen|lia|lia|simpl in Hf; lia].
Qed.

(** A pointer ends the loop only when no label was read before it. *)
Lemma parse_frame_pointer pre b0 b1 post actualLen dom consume re pos :
  m = pre ++ b0 :: b1 :: post -> data + actualLen = zlen pre -> actualLen < maxParse ->
  Z.land b0 192 = 192 -> pos = u16 (Z.lor (Z.shiftl (Z.land b0 63) 8) b1) -> pos <> begin ->
  recur pos (u64 (allDataSize - pos)) [] = Ret (consume, re) -> consume <> 0 ->
  parse_frame recur m data begin allDataSize maxParse (actualLen, dom) =
  if bool_decide (dom = []) then Ret (inr (actualLen + 2, re))
  else Ret (inl (actualLen + 2, dom ++ lit "." ++ re)).
Proof.
  intros Hm Hp Ha Hb Hpos Hne Hrec Hc. unfold parse_frame. zb.
  rewrite Hm, (load_at _ _ _ (data + actualLen)) by lia. ret_step. rewrite Hb. cbn [Z.eqb Pos.eqb].
  rewrite cons_middle, app_assoc, load_at by (rewrite zlen_app, zlen_cons, zlen_nil; lia).
  ret_step. rewrite <- Hpos. zb. cbn [negb].
  rewrite Hrec. ret_step. zb. cbn [negb]. by case_bool_decide.
Qed.
Lemma parse_frame_pointer_undef pre b0 b1 post actualLen dom pos u :
  m = pre ++ b0 :: b1 :: post -> data + actualLen = zlen pre -> actualLen < maxParse ->
  Z.land b0 192 = 192 -> pos = u16 (Z.lor (Z.shiftl (Z.land b0 63) 8) b1) -> pos <> begin ->
  recur pos (u64 (allDataSize - pos)) [] = Undef u ->
  parse_frame recur m data begin allDataSize maxParse (actualLen, dom) = Undef u.
Proof.
  intros Hm Hp Ha Hb Hpos Hne Hrec. unfold parse_frame. zb.
  rewrite Hm, (load_at _ _ _ (data + actualLen)) by lia. ret_step. rewrite Hb. cbn [Z.eqb Pos.eqb].
  rewrite cons_middle, app_assoc, load_at by (rewrite zlen_app, zlen_cons, zlen_nil; lia).
  ret_step. rewrite <- Hpos. zb. cbn [negb]. by rewrite Hrec.
Qed.

Lemma parse_frame_oob actualLen dom :
  zlen m <= data + actualLen -> actualLen < maxParse ->
  parse_frame recur m data begin allDataSize maxParse (actualLen, dom) = Undef OobRead.
Proof. intros Hm Ha. unfold parse_frame. zb. by rewrite (load_oob m (data + actualLen)) by lia. Qed.
End frames.

Lemma parseRe_S room m allData allDataSize begin maxParse d :
  parseRe (S room) m allData allDataSize begin maxParse d =
  while_loop (S (length m))
    (parse_frame (parseRe room m allData allDataSize) m (allData + begin) begin allDataSize maxParse)
    (0, d).
Proof. done. Qed.

(** ** Lemmas: the text of a name *)
Lemma name_text_cons l l' ls : name_text (l :: l' :: ls) = l ++ 46 :: name_text (l' :: ls).
Proof. done. Qed.

Lemma fold_join_label labels dom :
  dom <> [] -> Forall valid_label labels -> labels <> [] ->
  fold_left join_label labels dom = dom ++ 46 :: name_text labels.
Proof.
  intros Hd Hl. revert dom Hd. induction Hl as [|l labels Hl Hls IH]; [done|]. intros dom Hd _.
  cbn [fold_left]. unfold join_label at 2. rewrite bool_decide_false by done. cbn [negb].
  destruct labels as [|l' ls].
  - cbn. by rewrite <- app_assoc.
  - rewrite IH; [|by destruct dom|done]. rewrite name_text_cons. by rewrite <- !app_assoc.
Qed.

Lemma fold_join_labels labels :
  Forall valid_label labels -> labels <> [] -> fold_left join_label labels [] = name_text labels.
Proof.
  intros Hl. destruct Hl as [|l labels Hl Hls]; [done|]. intros _. cbn [fold_left].
  change (join_label [] l) with l. destruct labels as [|l' ls]; [done|].
  rewrite fold_join_label; [done| |done|done].
  intros ->. destruct Hl as [Hl _]. rewrite zlen_nil in Hl. lia.
Qed.

Lemma zlen_enc_name labels :
  labels <> [] -> zlen (enc_name labels) = zlen (name_text labels) + 2.
Proof.
  unfold enc_name. rewrite zlen_app, zlen_cons, zlen_nil. intros Hne.
  enough (zlen (concat (enc_label <$> labels)) = zlen (name_text labels) + 1) by lia.
  induction labels as [|l [|l' ls] IH]; [done| |].
  - cbn. rewrite app_nil_r, zlen_cons. lia.
  - rewrite fmap_cons, concat_cons, name_text_cons, zlen_app, IH by done. unfold enc_label. zlen.
Qed.

Lemma length_name_labels labels : labels <> [] -> (length labels <= length (enc_name labels))%nat.
Proof.
  intros _. unfold enc_name. rewrite length_app.
  assert (length labels <= length (concat (enc_label <$> labels)))%nat; [|lia].
  induction labels as [|l ls IH]; [simpl; lia|].
  rewrite fmap_cons, concat_cons, length_app. unfold enc_label at 1. simpl. lia.
Qed.

(** A name written in full is parsed to its text, and its extent is exact. *)
Lemma parse_name room m pre labels post allData begin allDataSize maxParse :
  m = pre ++ enc_name labels ++ post -> allData + begin = zlen pre -> valid_name labels ->
  zlen (enc_name labels) <= maxParse < 2 ^ 64 ->
  parseRe (S room) m allData allDataSize begin maxParse [] =
  Ret (zlen (enc_name labels), name_text labels).
Proof.
  intros Hm Hp (Hne & Hl & _) Hmax. cbn [parseRe].
  rewrite (parse_labels _ m _ begin allDataSize maxParse ltac:(lia) labels pre post); [|done|lia|done|lia|lia|].
  - by rewrite fold_join_labels.
  - pose proof (length_name_labels labels Hne). rewrite Hm, !length_app. lia.
Qed.

(** A bare pointer to a name written in full stands for that name. *)
Lemma parse_pointer room m pre post allData begin allDataSize maxParse b0 b1 pos consume re :
  m = pre ++ b0 :: b1 :: post -> allData + begin = zlen pre -> 0 < maxParse ->
  Z.land b0 192 = 192 -> pos = u16 (Z.lor (Z.shiftl (Z.land b0 63) 8) b1) -> pos <> begin ->
  parseRe room m allData allDataSize pos (u64 (allDataSize - pos)) [] = Ret (consume, re) ->
  consume <> 0 ->
  parseRe (S room) m allData allDataSize begin maxParse [] = Ret (2, re).
Proof.
  intros Hm Hp Hmax Hb Hpos Hne Hrec Hc. cbn [parseRe while_loop].
  rewrite (parse_frame_pointer _ _ _ _ _ _ pre b0 b1 post 0 [] consume re pos) by (done || lia).
  by rewrite bool_decide_true.
Qed.

(** ** Lemmas: generating a name *)
Fixpoint bounds (i : Z) (labels : list str) : list (Z * Z) :=
  match labels with
  | [] => []
  | l :: ls => (i, i + zlen l - 1) :: bounds (i + zlen l + 1) ls
  end.

Definition labels_size (labels : list str) : Z := zlen (concat labels).

Lemma char_at_in p c q host i : host = p ++ c :: q -> zlen p = i -> char_at host i = Ret c.
Proof.
  intros -> Hp. unfold char_at. rewrite <- app_assoc, <- app_comm_cons. apply load_at. lia.
Qed.

Lemma cstr_name labels : Forall valid_label labels -> cstr (name_text labels) = name_text labels.
Proof.
  intros Hl. apply cstr_no_nul. induction Hl as [|l ls Hl Hls IH]; [constructor|].
  apply valid_label_no_nul in Hl. destruct ls as [|l' ls]; [done|]. rewrite name_text_cons.
  apply Forall_app. split; [done|]. by constructor.
Qed.

Definition scan_body (host : str) (i : Z) (st : list (Z * Z) * Z * Z)
    : outcome (list (Z * Z) * Z * Z) :=
  let '(subLens, total, lastBegin) := st in
  if negb (i =? zlen (cstr host)) then
    ch ← char_at host i;
    if ch =? 46 then Ret (subLens ++ [(u8 lastBegin, u8 (i - 1))], total, i + 1)
    else Ret (subLens, total + 1, lastBegin)
  else Ret (subLens ++ [(u8 lastBegin, u8 (i - 1))], total, lastBegin).

Lemma scan_body_char host i c subs total lb :
  i <> zlen (cstr host) -> char_at host i = Ret c ->
  scan_body host i (subs, total, lb) =
  Ret (if c =? 46 then (subs ++ [(u8 lb, u8 (i - 1))], total, i + 1) else (subs, total + 1, lb)).
Proof. intros Hi Hc. unfold scan_body. zb. cbn [negb]. rewrite Hc. ret_step. by case_match. Qed.

Lemma scan_body_end host subs total lb i :
  i = zlen (cstr host) ->
  scan_body host i (subs, total, lb) = Ret (subs ++ [(u8 lb, u8 (i - 1))], total, lb).
Proof. intros ->. unfold scan_body. by rewrite Z.eqb_refl. Qed.

Lemma scan_chars host p l q i subs total lb :
  host = p ++ l ++ q -> cstr host = host -> zlen p = i -> 46 ∉ l ->
  for_loop (length l) i (scan_body host) (subs, total, lb) = Ret (subs, total + zlen l, lb).
Proof.
  intros Hh Hc. revert p i total Hh. induction l as [|c l IH]; intros p i total Hh Hp Hl.
  { cbn [length for_loop]. rewrite zlen_nil. do 3 f_equal. lia. }
  cbn [length for_loop].
  assert (zlen host = zlen p + (1 + zlen l + zlen q)) as Hlen by (rewrite Hh, !zlen_app, zlen_cons; lia).
  pose proof (zlen_nonneg l). pose proof (zlen_nonneg q).
  rewrite (scan_body_char host i c) by (rewrite ?Hc; lia || by apply (char_at_in p c (l ++ q))).
  apply not_elem_of_cons in Hl as [Hc46 Hl]. zb. ret_step.
  rewrite (IH (p ++ [c])); [rewrite zlen_cons; do 3 f_equal; lia|by rewrite <- app_assoc|zlen|done].
Qed.

Lemma scan_names labels host p i subs total lb0 :
  labels <> [] -> Forall valid_label labels -> host = p ++ name_text labels -> cstr host = host ->
  zlen p = i -> zlen host <= 255 -> lb0 = i ->
  exists lb, for_loop (Z.to_nat (zlen (name_text labels) + 1)) i (scan_body host) (subs, total, lb0) =
    Ret (subs ++ bounds i labels, total + labels_size labels, lb).
Proof.
  intros Hne Hl. revert p i subs total lb0. induction Hl as [|l ls Hl Hls IH]; [done|].
  intros p i subs total lb0 Hh Hc Hp Hmax ->. unfold labels_size in *. cbn [concat bounds].
  destruct Hl as [Hlen Hch].
  assert (46 ∉ l) as Hdot.
  { intros Hin. rewrite Forall_forall in Hch. apply Hch in Hin. lia. }
  pose proof (zlen_nonneg p). assert (u8 i = i /\ u8 (i + zlen l - 1) = i + zlen l - 1) as [Hu1 Hu2].
  { assert (zlen p + zlen l <= 255); [|split; apply u8_id; lia].
    rewrite Hh, zlen_app in Hmax. destruct ls as [|l' ls].
    - change (name_text [l]) with l in Hmax. lia.
    - rewrite name_text_cons, zlen_app in Hmax. pose proof (zlen_nonneg (46 :: name_text (l' :: ls))). lia. }
  destruct ls as [|l' ls].
  - cbn [name_text intercalate] in *. change (name_text [l]) with l in *.
    replace (Z.to_nat (zlen l + 1)) with (length l + 1)%nat by (unfold zlen; lia).
    rewrite for_loop_app, (scan_chars host p l []) by (by rewrite ?app_nil_r).
    ret_step. cbn [for_loop].
    rewrite scan_body_end by (rewrite Hc, Hh, zlen_app; unfold zlen in *; lia).
    ret_step. exists i.
    rewrite app_nil_r. replace (i + Z.of_nat (length l) - 1) with (i + zlen l - 1) by (unfold zlen; lia).
    rewrite Hu1, Hu2. done.
  - rewrite name_text_cons in *.
    assert (zlen host = i + zlen l + 1 + zlen (name_text (l' :: ls))) as Hlh
      by (rewrite Hh, !zlen_app, zlen_cons; lia).
    pose proof (zlen_nonneg (name_text (l' :: ls))).
    rewrite zlen_app, zlen_cons.
    replace (Z.to_nat (zlen l + (1 + zlen (name_text (l' :: ls))) + 1)) with
      (length l + (1 + Z.to_nat (zlen (name_text (l' :: ls)) + 1)))%nat by (unfold zlen in *; lia).
    rewrite for_loop_app, (scan_chars host p l (46 :: name_text (l' :: ls))) by done.
    ret_step. rewrite for_loop_app. cbn [for_loop]. change (Z.of_nat (length l)) with (zlen l).
    rewrite (scan_body_char host (i + zlen l) 46);
      [|rewrite Hc; lia|apply (char_at_in (p ++ l) 46 (name_text (l' :: ls)));
        [by rewrite <- app_assoc|rewrite zlen_app; lia]].
    cbn [Z.eqb Pos.eqb]. ret_step. change (Z.of_nat 1) with 1.
    rewrite Hu1, Hu2.
    destruct (IH ltac:(done) (p ++ l ++ [46]) (i + zlen l + 1) (subs ++ [(i, i + zlen l - 1)])
      (total + zlen l) (i + zlen l + 1)) as [lb E];
      [by rewrite <- !app_assoc|done|rewrite !zlen_app; change (zlen [46]) with 1; lia|done|done|].
    exists lb. rewrite E. rewrite zlen_app, <- app_assoc. do 3 f_equal. cbn [concat]. lia.
Qed.

Lemma write_chars host p l q pre old post data i k :
  host = p ++ l ++ q -> zlen p = i -> data + k = zlen pre -> length old = length l ->
  for_loop (length l) i (fun j '(m, i) =>
    ch ← char_at host j; m ← store m (data + i) ch; Ret (m, i + 1)) (pre ++ old ++ post, k) =
  Ret (pre ++ l ++ post, k + zlen l).
Proof.
  revert p pre old i k. induction l as [|c l IH]; intros p pre [|o old] i k Hh Hp Hk Hold; try done.
  { cbn. rewrite zlen_nil. do 2 f_equal. lia. }
  cbn [length for_loop]. rewrite (char_at_in p c (l ++ q)) by done. ret_step.
  rewrite <- app_comm_cons, store_at by lia. ret_step.
  rewrite cons_middle, app_assoc, (IH (p ++ [c])); cycle 1.
  { by rewrite <- app_assoc. } { zlen. } { zlen. } { simpl in Hold. lia. }
  rewrite zlen_cons, <- app_assoc. do 2 f_equal. lia.
Qed.

Lemma generate_label_spec host p l q pre old post data k i :
  host = p ++ l ++ q -> zlen p = i -> data + k = zlen pre -> length old = S (length l) ->
  zlen l <= 255 ->
  generate_label host data (i, i + zlen l - 1) (pre ++ old ++ post, k) =
  Ret (pre ++ enc_label l ++ post, k + zlen (enc_label l)).
Proof.
  intros Hh Hp Hk Hold Hl. destruct old as [|o old]; [done|]. simpl in Hold.
  unfold generate_label. cbn [fst snd].
  replace (i + zlen l - 1 - i + 1) with (zlen l) by lia.
  rewrite u8_id by (pose proof (zlen_nonneg l); lia).
  rewrite <- app_comm_cons, store_at by lia. ret_step.
  replace (Z.to_nat (zlen l)) with (length l) by (unfold zlen; lia).
  rewrite cons_middle, app_assoc, (write_chars host p l q); cycle 1.
  { done. } { done. } { zlen. } { lia. }
  unfold enc_label. rewrite zlen_cons, <- app_assoc. do 2 f_equal. lia.
Qed.

Lemma length_enc_label l : length (enc_label l) = S (length l).
Proof. done. Qed.

Lemma generate_labels_spec host labels p pre old post data k i :
  labels <> [] -> Forall (fun l => zlen l <= 255) labels ->
  host = p ++ name_text labels -> zlen p = i -> data + k = zlen pre ->
  length old = length (concat (enc_label <$> labels)) ->
  generate_labels host data (bounds i labels) (pre ++ old ++ post, k) =
  Ret (pre ++ concat (enc_label <$> labels) ++ post, k + zlen (concat (enc_label <$> labels))).
Proof.
  intros Hne Hl. revert p pre old k i. induction Hl as [|l ls Hl Hls IH]; [done|].
  intros p pre old k i Hh Hp Hk Hold. rewrite fmap_cons, concat_cons in *. cbn [bounds generate_labels].
  rewrite length_app, length_enc_label in Hold. rewrite <- (take_drop (S (length l)) old), <- app_assoc.
  assert (exists q, host = p ++ l ++ q /\ (ls <> [] -> q = 46 :: name_text ls)) as (q & Hq & Hq').
  { destruct ls as [|l' ls]; [exists []; by rewrite app_nil_r|]. eexists. by rewrite name_text_cons in Hh. }
  rewrite (generate_label_spec host p l q); cycle 1.
  { done. } { done. } { done. } { rewrite length_take. lia. } { done. }
  ret_step. destruct ls as [|l' ls].
  - cbn [bounds generate_labels fmap list_fmap concat]. rewrite app_nil_r.
    rewrite drop_ge by (cbn in Hold; lia). done.
  - rewrite app_assoc, (IH ltac:(done) (p ++ l ++ [46])); cycle 1.
    { rewrite Hq, (Hq' ltac:(done)), <- !app_assoc. done. }
    { rewrite !zlen_app. change (zlen [46]) with 1. lia. }
    { rewrite zlen_app. lia. }
    { rewrite length_drop. lia. }
    rewrite zlen_app, <- !app_assoc. do 2 f_equal. lia.
Qed.

Lemma last_app_exists {A} (l : list A) : (0 < length l)%nat -> exists l' x, l = l' ++ [x].
Proof.
  destruct l as [|x l] using rev_ind; simpl; [lia|]. eauto.
Qed.

Lemma zlen_bounds labels :
  labels <> [] -> forall i, zlen (bounds i labels) + labels_size labels = zlen (name_text labels) + 1.
Proof.
  unfold labels_size. induction labels as [|l [|l' ls] IH]; [done| |]; intros _ i.
  - cbn. rewrite app_nil_r, zlen_cons, zlen_nil. lia.
  - specialize (IH ltac:(done) (i + zlen l + 1)). rewrite name_text_cons.
    cbn [bounds concat] in *. rewrite !zlen_app, !zlen_cons in *. lia.
Qed.

Lemma domain_generate_spec labels pre old post data :
  valid_name labels -> data = zlen pre -> length old = length (enc_name labels) ->
  domain_generate (pre ++ old ++ post) data (name_text labels) =
  Ret (pre ++ enc_name labels ++ post,
       DnsDomain data (zlen (enc_name labels)) true (name_text labels)).
Proof.
  intros (Hne & Hl & Hmax) Hd Hold. unfold domain_generate, generate_scan.
  set (host := name_text labels) in *.
  assert (cstr host = host) as Hc by by apply cstr_name.
  destruct (scan_names labels host [] 0 [] 0 0 Hne Hl ltac:(done) Hc ltac:(done) Hmax ltac:(done)) as [lb E].
  rewrite Hc. unfold scan_body in E. rewrite Hc in E. fold host in E. rewrite E. ret_step.
  unfold enc_name in *. rewrite length_app in Hold. simpl in Hold. rewrite app_nil_l.
  destruct (last_app_exists old) as (old' & o & ->); [lia|]. rewrite length_app in Hold. simpl in Hold.
  rewrite <- app_assoc, (generate_labels_spec host labels [] pre old' ([o] ++ post) data 0 0); cycle 1.
  { done. } { eapply Forall_impl; [exact Hl|]. intros l [? _]. lia. }
  { done. } { done. } { lia. } { lia. }
  ret_step. rewrite app_assoc. cbn [app]. rewrite store_at by (rewrite zlen_app; lia). ret_step.
  rewrite <- app_assoc. do 3 f_equal; [by rewrite <- app_assoc|].
  fold (enc_name labels). rewrite zlen_enc_name by done. fold host.
  pose proof (zlen_bounds labels Hne 0) as Hb. fold host in Hb. pose proof (zlen_nonneg host).
  rewrite u32_id; lia.
Qed.

(** ** Lemmas: termination and memory safety of the parser *)
Lemma load_byte m i v : bytes_ok m -> load m i = Ret v -> byte_ok v.
Proof.
  unfold load, bytes_ok. intros Hm H. repeat case_match; simplify_eq.
  eapply Forall_lookup_1; eauto.
Qed.

Lemma parse_frame_progress recur m data begin ads maxParse k d k' d' :
  bytes_ok m ->
  parse_frame recur m data begin ads maxParse (k, d) = Ret (inl (k', d')) ->
  0 <= data + k < zlen m /\ k < k' /\ k < maxParse /\ (k' <= maxParse + 1 \/ u64 (maxParse - (k + 1)) + k + 1 >= k').
Proof.
  intros Hm. unfold parse_frame. destruct (Z.ltb_spec k maxParse) as [Hk|Hk]; [|done].
  intros (f & Ef & H)%bind_ret. pose proof (load_range _ _ _ Ef). pose proof (load_byte _ _ _ Hm Ef) as Hf.
  unfold byte_ok in Hf. split; [done|].
  destruct (Z.land f 192 =? 192).
  - inv_ret. destruct (negb _); inv_ret. destruct a1 as [c re]. repeat case_match; simplify_eq. lia.
  - destruct (Z.land f 192 =? 0); [|done]. destruct (f =? 0); [done|].
    destruct (Z.ltb_spec (u64 (maxParse - (k + 1))) f); [done|]. inv_ret. lia.
Qed.

Lemma parse_frame_terminates recur m data begin ads maxParse st :
  (forall pos mp d, terminates (recur pos mp d)) ->
  terminates (parse_frame recur m data begin ads maxParse st).
Proof.
  intros Hr. destruct st as [k d]. unfold parse_frame. case_match; [|done].
  apply bind_terminates; [auto with outcome|]. intros f _.
  destruct (Z.land f 192 =? 192).
  - apply bind_terminates; [auto with outcome|]. intros b0 _.
    apply bind_terminates; [auto with outcome|]. intros b1 _. destruct (negb _); [|done].
    apply bind_terminates; [apply Hr|]. intros [c re] _. by repeat case_match.
  - destruct (Z.land f 192 =? 0); [|done]. destruct (f =? 0); [done|].
    case_match; [done|]. apply bind_terminates; auto with outcome.
Qed.

Lemma parseRe_terminates room m allData ads begin maxParse d :
  bytes_ok m -> terminates (parseRe room m allData ads begin maxParse d).
Proof.
  intros Hm. revert begin maxParse d. induction room as [|room IH]; intros begin maxParse d; [done|].
  cbn [parseRe].
  apply (while_loop_terminates (fun st => Nat.min (length m) (Z.to_nat (zlen m - (allData + begin + st.1))))).
  - intros st. apply parse_frame_terminates. auto.
  - intros [k d1] [k' d1'] H. apply parse_frame_progress in H; [|done]. unfold zlen in *. simpl. lia.
  - simpl. lia.
Qed.

#[export] Hint Resolve parseRe_terminates : outcome.

(** Every pointer of a message of [n] bytes leads into the message. *)
Definition pointers_inside (m : list Z) (allData n : Z) : Prop :=
  forall i b0 b1, 0 <= i < n -> load m (allData + i) = Ret b0 -> load m (allData + i + 1) = Ret b1 ->
    Z.land b0 192 = 192 -> u16 (Z.lor (Z.shiftl (Z.land b0 63) 8) b1) <= n.

Lemma load_is_defined m i : 0 <= i < zlen m -> defined (load m i).
Proof. intros Hi. destruct (load_defined m i Hi) as (v & -> & _). done. Qed.

Lemma parse_frame_defined recur m allData begin n maxParse k d :
  bytes_ok m -> pointers_inside m allData n -> 0 <= allData -> 0 <= begin -> allData + n < zlen m ->
  begin + maxParse <= n -> n < 2 ^ 64 -> 0 <= k ->
  (forall pos d, 0 <= pos <= n -> defined (recur pos (n - pos) d)) ->
  defined (parse_frame recur m (allData + begin) begin n maxParse (k, d)).
Proof.
  intros Hm Hptr Ha Hb Hn Hmax Hn64 Hk Hrec. unfold parse_frame.
  destruct (Z.ltb_spec k maxParse) as [Hlt|]; [|done].
  apply bind_defined; [apply load_is_defined; lia|]. intros f Ef.
  pose proof (load_byte _ _ _ Hm Ef) as Hf. unfold byte_ok in Hf.
  destruct (Z.eqb_spec (Z.land f 192) 192) as [Hl|Hl].
  - apply bind_defined; [apply load_is_defined; lia|]. intros b0 E0.
    apply bind_defined; [apply load_is_defined; lia|]. intros b1 E1.
    destruct (negb _); [|done]. assert (f = b0) as -> by congruence.
    replace (allData + begin + k) with (allData + (begin + k)) in * by lia.
    specialize (Hptr (begin + k) _ _ ltac:(lia) E0 E1 Hl).
    set (pos := u16 _) in *. assert (0 <= pos) by apply u16_range.
    rewrite u64_id by lia.
    apply bind_defined; [by apply Hrec|]. intros [c re] _. by repeat case_match.
  - destruct (Z.land f 192 =? 0); [|done]. destruct (f =? 0); [done|].
    destruct (Z.ltb_spec (u64 (maxParse - (k + 1))) f) as [|Hle]; [done|].
    rewrite u64_id in Hle by lia.
    destruct (copy_in_range m (replicate (Z.to_nat (f + 1)) 0)
      (allData + begin + (k + 1 + f - f)) 0 f) as (to' & -> & _); [lia|lia|lia| |done].
    rewrite zlen_replicate. lia.
Qed.

Lemma parseRe_defined room m allData n begin maxParse d :
  bytes_ok m -> pointers_inside m allData n -> 0 <= allData -> 0 <= begin -> allData + n < zlen m ->
  begin + maxParse <= n -> n < 2 ^ 64 ->
  defined (parseRe room m allData n begin maxParse d).
Proof.
  intros Hm Hptr Ha Hb Hn Hmax Hn64. revert begin maxParse d Hb Hmax.
  induction room as [|room IH]; intros begin maxParse d Hb Hmax; [done|]. cbn [parseRe].
  apply (while_loop_defined (fun st => 0 <= st.1)); [| |done].
  - intros [k d1] Hk. apply parse_frame_defined; try done. intros pos d2 Hpos. apply IH; lia.
  - intros [k d1] [k' d1'] Hk E. apply parse_frame_progress in E; [|done]. simpl in *. lia.
Qed.

(** ** Lemmas: the first-level domain *)
Lemma find_last_char_app c a b i found :
  find_last_char c (a ++ b) i found = find_last_char c b (i + zlen a) (find_last_char c a i found).
Proof.
  revert i found. induction a as [|x a IH]; intros i found; simpl.
  { by rewrite zlen_nil, Z.add_0_r. }
  rewrite IH, zlen_cons. f_equal. lia.
Qed.

Lemma find_last_char_none c a i found : c ∉ a -> find_last_char c a i found = found.
Proof.
  revert i. induction a as [|x a IH]; intros i Ha; simpl; [done|].
  apply not_elem_of_cons in Ha as [Hx Ha]. zb. by apply IH.
Qed.

Lemma find_last_of_at a b c : c ∉ b -> find_last_of (a ++ c :: b) c = zlen a.
Proof.
  intros Hb. unfold find_last_of. rewrite find_last_char_app. cbn [find_last_char].
  by rewrite Z.eqb_refl, find_last_char_none, Z.add_0_l.
Qed.

Lemma find_last_of_none a c : c ∉ a -> find_last_of a c = npos.
Proof. apply find_last_char_none. Qed.

Lemma fi_domain_split a b :
  46 ∉ b -> zlen (a ++ 46 :: b) < npos ->
  getFIDomain (a ++ 46 :: b) = Ret (map toupper b) /\ removeFIDomain (a ++ 46 :: b) = Ret a.
Proof.
  intros Hb Hl. rewrite zlen_app, zlen_cons in Hl. pose proof (zlen_nonneg a). pose proof (zlen_nonneg b).
  unfold getFIDomain, removeFIDomain. rewrite find_last_of_at by done. zb. split.
  - rewrite u64_id by (unfold npos in *; lia). rewrite cons_middle, app_assoc.
    replace (zlen a + 1) with (zlen (a ++ [46])) by (by rewrite zlen_app).
    rewrite substr_at by (unfold npos; lia). ret_step. rewrite take_ge; [done|].
    unfold zlen in *. lia.
  - pose proof (substr_at [] (a ++ 46 :: b) (zlen a) ltac:(lia)) as E.
    rewrite app_nil_l, zlen_nil in E. rewrite E. by rewrite take_app_length' by (unfold zlen; lia).
Qed.

(** ** Properties *)

(** Claim C32. A host name of labels of 1 to 63 bytes and at most 255 characters,
    generated into a block and parsed at the same place, gives the host back and
    the exact number of bytes written; the rest of the block is untouched. *)
Theorem domain_roundtrip (labels : list str) (pre old post : list Z) (dataSize : Z) :
  valid_name labels -> length old = length (enc_name labels) ->
  zlen (pre ++ old ++ post) <= dataSize < 2 ^ 64 ->
  exists m', domain_generate (pre ++ old ++ post) (zlen pre) (name_text labels) =
      Ret (pre ++ m' ++ post, DnsDomain (zlen pre) (zlen m') true (name_text labels)) /\
    dns_domain_begin (pre ++ m' ++ post) 0 dataSize (zlen pre) =
      Ret (DnsDomain (zlen pre) (zlen m') true (name_text labels)).
Proof.
  intros Hv Hold Hsize. exists (enc_name labels). split.
  { by apply domain_generate_spec. }
  assert (zlen old = zlen (enc_name labels)) as Hz by (unfold zlen; lia).
  rewrite !zlen_app, Hz in Hsize. pose proof (zlen_nonneg pre). pose proof (zlen_nonneg post).
  pose proof Hv as (Hne & _ & Hmax). pose proof (zlen_enc_name labels Hne). pose proof (zlen_nonneg (name_text labels)).
  unfold dns_domain_begin, parse.
  rewrite (parse_name 20 _ pre labels post); [|done|lia|done|rewrite u64_id; lia].
  ret_step. unfold domain_of_parse. zb. rewrite u32_id by lia. done.
Qed.

Lemma domain_roundtrip_witness :
  exists m', domain_generate ([1; 2] ++ replicate 14 0 ++ [9]) (zlen [1; 2]) (name_text [lit "www"; lit "baidu"; lit "cn"]) =
      Ret ([1; 2] ++ m' ++ [9], DnsDomain (zlen [1; 2]) (zlen m') true (name_text [lit "www"; lit "baidu"; lit "cn"])) /\
    dns_domain_begin ([1; 2] ++ m' ++ [9]) 0 1024 (zlen [1; 2]) =
      Ret (DnsDomain (zlen [1; 2]) (zlen m') true (name_text [lit "www"; lit "baidu"; lit "cn"])).
Proof.
  apply (domain_roundtrip [lit "www"; lit "baidu"; lit "cn"] [1; 2] (replicate 14 0) [9] 1024).
  - split; [done|]. split; [|vm_compute; congruence].
    repeat constructor; unfold zlen; simpl; lia.
  - reflexivity.
  - split; vm_compute; congruence.
Defined.



(** Claim C34. A message of [n] bytes in a block of more than [n] bytes whose
    compression pointers all lead into the message is parsed without ever reading
    outside the block, from any start and with any limit inside the message. *)
Theorem parse_in_bounds (m : list Z) (allData n begin maxParse : Z) (d : str) :
  bytes_ok m -> pointers_inside m allData n -> 0 <= allData -> 0 <= begin ->
  allData + n < zlen m -> begin + maxParse <= n -> n < 2 ^ 64 ->
  defined (parse m allData n begin maxParse d).
Proof. apply parseRe_defined. Qed.

Lemma parse_in_bounds_witness : defined (parse [1; 97; 0; 192; 0; 0; 0] 0 6 3 3 []).
Proof.
  apply (parse_in_bounds [1; 97; 0; 192; 0; 0; 0] 0 6 3 3 []); [| |lia|lia|reflexivity|lia|lia].
  - repeat constructor; lia.
  - intros i b0 b1 Hi. assert (i = 0 \/ i = 1 \/ i = 2 \/ i = 3 \/ i = 4 \/ i = 5) as Hc by lia.
    destruct Hc as [->|[->|[->|[->|[->| ->]]]]]; intros E0 E1 Hl; vm_compute in E0, E1;
      injection E0 as <-; injection E1 as <-; vm_compute in Hl |- *; congruence.
Defined.

(** A name that starts with a compression pointer past the end of the
    block makes the parser read outside the block: the offset of a pointer is
    never compared with the size of the message. *)
Theorem parse_pointer_escapes (m pre post : list Z) (b0 b1 n maxParse : Z) :
  m = pre ++ b0 :: b1 :: post -> Z.land b0 192 = 192 -> 0 < maxParse -> n <= zlen m ->
  0 <= n -> zlen m < u16 (Z.lor (Z.shiftl (Z.land b0 63) 8) b1) ->
  parse m 0 n (zlen pre) maxParse [] = Undef OobRead.
Proof.
  intros Hm Hb Hmax Hn Hn0 Hpos. unfold parse. change 21%nat with (S (S 19)). generalize 19%nat. intros r.
  pose proof (u16_range (Z.lor (Z.shiftl (Z.land b0 63) 8) b1)) as Hr.
  assert (zlen pre < zlen m) by (rewrite Hm, zlen_app, !zlen_cons; pose proof (zlen_nonneg post); lia).
  rewrite parseRe_S. cbn [while_loop].
  rewrite (parse_frame_pointer_undef _ m _ _ _ _ pre b0 b1 post 0 []
    (u16 (Z.lor (Z.shiftl (Z.land b0 63) 8) b1)) OobRead Hm);
    [done|lia|lia|done|reflexivity|lia|].
  set (pos := u16 _) in *. rewrite parseRe_S. cbn [while_loop].
  rewrite parse_frame_oob; [done|lia|].
  unfold u64. rewrite <- (Z.mod_add _ 1), Z.mod_small by lia. lia.
Qed.

Lemma parse_pointer_escapes_witness :
  parse ([1; 2] ++ 255 :: 255 :: []) 0 4 (zlen [1; 2]) 2 [] = Undef OobRead.
Proof.
  apply (parse_pointer_escapes _ [1; 2] [] 255 255 4 2); [done|done|lia|vm_compute; congruence|lia|].
  vm_compute; congruence.
Defined.

(** Claim C35. A compression pointer that follows at least one label does not end
    the name: when the octet after the pointer is zero (as in the high byte of a
    record type) the parser takes it for the terminator, and reports the name one
    byte longer than it is. *)
Theorem parse_label_pointer_overrun (l : str) (labels : list str) (mid post : list Z) :
  let m := enc_name labels ++ mid ++ enc_label l ++ 192 :: 0 :: 0 :: post in
  let begin := zlen (enc_name labels ++ mid) in
  valid_name labels -> valid_label l -> zlen m < 2 ^ 16 ->
  parse m 0 (zlen m) begin (zlen m - begin) [] =
  Ret (zlen (enc_label l) + 3, l ++ lit "." ++ name_text labels).
Proof.
  intros m begin Hv Hl Hm. unfold parse. change 21%nat with (S (S 19)). generalize 19%nat. intros r.
  pose proof Hv as (Hne & _ & _). pose proof (zlen_enc_name labels Hne). pose proof (zlen_nonneg (name_text labels)).
  pose proof (zlen_nonneg mid). pose proof (zlen_nonneg post). pose proof (zlen_nonneg (enc_label l)).
  assert (zlen m = begin + zlen (enc_label l) + 3 + zlen post) as Hlen
    by (unfold m, begin; rewrite !zlen_app, !zlen_cons; lia).
  assert (m = (enc_name labels ++ mid) ++ enc_label l ++ 192 :: 0 :: 0 :: post) as Em
    by (unfold m; by rewrite <- app_assoc).
  assert (m = ((enc_name labels ++ mid) ++ enc_label l) ++ 192 :: 0 :: 0 :: post) as Em2
    by (by rewrite Em, (app_assoc (enc_name labels ++ mid))).
  assert (m = (((enc_name labels ++ mid) ++ enc_label l) ++ [192; 0]) ++ 0 :: post) as Em3
    by (by rewrite Em2, <- (app_assoc ((enc_name labels ++ mid) ++ enc_label l))).
  assert (0 < begin) by (unfold begin; rewrite zlen_app; lia).
  assert (exists F, length m = S (S F)) as [F HF].
  { exists (length m - 2)%nat. unfold zlen in *. lia. }
  rewrite parseRe_S, HF. cbn [while_loop].
  rewrite (parse_frame_label _ m _ _ _ (zlen m - begin) ltac:(lia) (enc_name labels ++ mid) l _ 0 [] Em)
    by (done || (fold begin; lia)).
  ret_step. rewrite Z.add_0_l. change (join_label [] l) with l.
  rewrite (parse_frame_pointer _ m _ _ _ _ _ 192 0 (0 :: post) _ l (zlen (enc_name labels)) (name_text labels) 0 Em2);
    cycle 1.
  { rewrite zlen_app. fold begin. lia. } { lia. } { done. } { done. } { lia. }
  { rewrite u64_id by lia. apply (parse_name r m [] labels (mid ++ enc_label l ++ 192 :: 0 :: 0 :: post));
      [done|done|done|].
    assert (begin = zlen (enc_name labels) + zlen mid) by (unfold begin; by rewrite zlen_app). lia. }
  { lia. }
  rewrite bool_decide_false by (intros ->; destruct Hl as [Hl _]; rewrite zlen_nil in Hl; lia). ret_step.
  rewrite (parse_frame_end _ m _ _ _ (zlen m - begin) _ _ _ _ Em3); [ret_step; do 2 f_equal; lia| |lia].
  rewrite (zlen_app (_ ++ enc_label l)), (zlen_app (enc_name labels ++ mid)). fold begin.
  change (zlen [192; 0]) with 2. lia.
Qed.

Lemma parse_label_pointer_overrun_witness :
  let labels := [lit "baidu"; lit "com"] in let l := lit "www" in
  let mid := [0; 1; 0; 1] in let post := [1; 0; 1] in
  let m := enc_name labels ++ mid ++ enc_label l ++ 192 :: 0 :: 0 :: post in
  let begin := zlen (enc_name labels ++ mid) in
  parse m 0 (zlen m) begin (zlen m - begin) [] =
  Ret (zlen (enc_label l) + 3, l ++ lit "." ++ name_text labels).
Proof.
  apply (parse_label_pointer_overrun (lit "www") [lit "baidu"; lit "com"] [0; 1; 0; 1] [1; 0; 1]).
  - split; [done|]. split; [|vm_compute; congruence]. repeat constructor; unfold zlen; simpl; lia.
  - repeat constructor; unfold zlen; simpl; lia.
  - vm_compute. congruence.
Defined.
