(* ===== verification/Message.v ===== *)
(** * Sections of a DNS message ([src/src/core/protocol/dns_message.h])

    [dns_header], [dns_query], [dns_query_zone] and [dns_resource_zone] on a
    block of memory; a view of the code is the offset of its first byte. *)
From S2P Require Import Prelude Bytes Text Domain.

(** ** Data *)
Record dns_header := DnsHeader {
  h_data : Z;
  h_len : Z;
  id : Z;
  answerCount : Z;
  questionCount : Z;
  responseCode : Z;
  qr : Z;
  opcode : Z
}.

Record dns_query := DnsQuery {
  q_data : Z;
  q_len : Z;
  q_valid : bool;
  q_domain : option dns_domain;
  queryType : Z;
  queryTypeValue : Z
}.

Record dns_query_zone := DnsQueryZone {
  z_data : Z;
  z_len : Z;
  z_valid : bool;
  querys : list dns_query;
  z_hosts : list str
}.

Record dns_resource_zone := DnsResourceZone {
  rz_data : Z;
  rz_len : Z;
  rz_valid : bool;
  rz_domain : option dns_domain;
  cname : option dns_domain;
  type : Z;
  resource : Z;
  liveTime : Z;
  length_ : Z;
  ipv4s : list Z
}.

Definition DEFAULT_LEN : Z := 12.
Definition DEFAULT_FLAGS : list Z := [0; 1; 0; 1].
Definition DEFAULT_FLAGS_SIZE : Z := 4.
Definition DEFAULT_SINGLE_IP_LEN : Z := 2 + 2 + 2 + 4 + 2 + 4.
Definition MAX_LEN : Z := 512.
Definition TYPE_A : Z := 1.
Definition TYPE_AAAA : Z := 28.
Definition TYPE_CNAME : Z := 5.

(** ** The header *)

(** [dns_header::parse(data, len)]; [None] is the null pointer. *)
Definition header_parse (m : list Z) (data len : Z) : outcome (option dns_header) :=
  if DEFAULT_LEN <=? len then
    b0 ← load m data;
    b1 ← load m (data + 1);
    b2 ← load m (data + 2);
    b3 ← load m (data + 3);
    qd ← read 2 m (data + 4) 0;
    an ← read 2 m (data + 6) 0;
    Ret (Some (DnsHeader data DEFAULT_LEN (u16 (Z.lor (Z.shiftl b0 8) b1)) an qd
      (Z.land b3 15) (Z.land b2 128) (Z.shiftr (Z.land b2 120) 3)))
  else Ret None.

(** The twelve bytes [dns_header::init] stores, from six 16-bit words. *)
Definition header_words (id hostCount additionalCount answerCount : Z) (isAnswer : bool) : list Z :=
  let flags :=
    if isAnswer
    then Z.lor (if answerCount =? 0 then 32768 else 32768) 128
    else 256 in
  [id; flags; u16 hostCount; u16 answerCount; 0; u16 additionalCount].

Definition header_generate (m : list Z) (data id hostCount additionalCount answerCount : Z)
    (isAnswer : bool) : outcome (list Z * dns_header) :=
  let tmpData := header_words id hostCount additionalCount answerCount isAnswer in
  m ← for_loop 6 0 (fun i m =>
    w ← load tmpData i;
    let ui := u16 (Z.land w (u16 (Z.shiftl 255 8))) in
    m ← store m (data + i * 2) (u8 (Z.shiftr ui 8));
    store m (data + (i * 2 + 1)) (u8 (Z.land w 255))) m;
  Ret (m, DnsHeader data (6 * 2) id 0 0 0 0 0).

Definition generateAnswer (m : list Z) (data id hostCount answerCount : Z) :=
  header_generate m data id hostCount 0 answerCount true.

(** [dns_id_generator]: a 16-bit signed atomic counter, read as unsigned. *)
Definition id16 (counter : Z) : Z * Z :=
  let next := u16 (counter + 1) in
  (u16 counter, if next <? 32768 then next else next - 65536).

Definition generateQuery (m : list Z) (data hostCount counter : Z)
    : outcome (list Z * dns_header * Z) :=
  let '(id, counter') := id16 counter in
  '(m, h) ← header_generate m data id hostCount 0 0 false;
  Ret (m, h, counter').

Definition updateId (m : list Z) (h : dns_header) (id : Z) : outcome (list Z * dns_header) :=
  m ← store m (h_data h) (u8 (Z.shiftr id 8));
  m ← store m (h_data h + 1) (u8 (Z.land id 255));
  Ret (m, DnsHeader (h_data h) (h_len h) id (answerCount h) (questionCount h) (responseCode h)
            (qr h) (opcode h)).

(** ** Questions *)

(** [dns_query(data, len).parse()] *)
Definition query_parse (m : list Z) (data len : Z) : outcome dns_query :=
  dnsDomain ← dns_domain_parse m data (u32 len);
  if negb (dd_valid dnsDomain) then Ret (DnsQuery data 0 false None TYPE_A TYPE_A)
  else
    typeValue ← read 2 m (data + dd_len dnsDomain) 0;
    Ret (DnsQuery data (u32 (dd_len dnsDomain + DEFAULT_FLAGS_SIZE)) true (Some dnsDomain)
           typeValue typeValue).

Definition generateDomain (m : list Z) (data : Z) (host : str) : outcome (list Z * dns_query) :=
  '(m, domain) ← domain_generate m data host;
  let finalDataLen := u32 (dd_len domain + DEFAULT_FLAGS_SIZE) in
  m ← copy DEFAULT_FLAGS m 0 (data + dd_len domain) DEFAULT_FLAGS_SIZE;
  Ret (m, DnsQuery data finalDataLen true (Some domain) TYPE_A TYPE_A).

(** One turn of the loop of [dns_query_zone(data, len, size)]: every question
    is parsed with the length of the whole zone. *)
Definition query_zone_step (m : list Z) (len size : Z)
    : Z * Z * Z * list dns_query ->
      outcome (Z * Z * Z * list dns_query + Z * bool * list dns_query) :=
  fun '(resetSize, realSize, data, qs) =>
    if (0 <? resetSize) && (zlen qs <? size) then
      query ← query_parse m data len;
      if q_valid query then
        Ret (inl (u32 (resetSize - q_len query), u32 (realSize + q_len query),
                  data + q_len query, qs ++ [query]))
      else Ret (inr (realSize, false, qs))
    else Ret (inr (realSize, true, qs)).

Definition query_zone_parse (m : list Z) (data len size : Z) : outcome dns_query_zone :=
  '(realSize, ok, qs) ← while_loop (S (Z.to_nat size)) (query_zone_step m len size)
                          (u32 len, 0, data, []);
  Ret (DnsQueryZone data realSize ok qs []).

Fixpoint generate_domains (m : list Z) (data size : Z) (hosts : list str) (domains : list dns_query)
    : outcome (list Z * Z * Z * list dns_query) :=
  match hosts with
  | [] => Ret (m, data, size, domains)
  | host :: hosts' =>
      '(m, domain) ← generateDomain m data host;
      generate_domains m (data + q_len domain) (u32 (size + q_len domain)) hosts' (domains ++ [domain])
  end.

Fixpoint copy_domains (m : list Z) (dst curLen : Z) (domains : list dns_query) : outcome (list Z) :=
  match domains with
  | [] => Ret m
  | domain :: domains' =>
      m ← copy_within m (q_data domain) (dst + curLen) (q_len domain);
      copy_domains m dst (u32 (curLen + q_len domain)) domains'
  end.

(** [dns_query_zone::generate]: the questions are written from [data] on, and
    a second time where the first writing ended, which is where the zone
    returned starts. *)
Definition query_zone_generate (m : list Z) (data : Z) (hosts : list str)
    : outcome (list Z * dns_query_zone) :=
  '(m, data, size, domains) ← generate_domains m data 0 hosts [];
  m ← copy_domains m data 0 domains;
  Ret (m, DnsQueryZone data size true domains hosts).

(** [dns_query_zone::copy(data)], into another block. *)
Definition query_zone_copy (src : list Z) (zone : dns_query_zone) (m : list Z) (data : Z)
    : outcome (list Z * dns_query_zone) :=
  m ← copy src m (z_data zone) data (z_len zone);
  Ret (m, DnsQueryZone data (z_len zone) true [] []).

(** ** Answers *)
Definition resource_ips (m : list Z) (cur length : Z) : outcome (list Z) :=
  for_loop (Z.to_nat (length / 4)) 0 (fun i ips =>
    ipv4 ← read 4 m (cur + i * 4) 0; Ret (ips ++ [ipv4])) [].

(** [dns_resource_zone(original, originalMax, begin)] *)
Definition resource_zone_parse (m : list Z) (original originalMax begin : Z)
    : outcome dns_resource_zone :=
  domain ← dns_domain_begin m original originalMax begin;
  if negb (dd_valid domain) then
    Ret (DnsResourceZone (original + begin) 0 false (Some domain) None 0 0 0 0 [])
  else
    let cur := original + begin + dd_len domain in
    ty ← read 2 m cur 0;
    rs ← read 2 m (cur + 2) 0;
    lt ← read 4 m (cur + 4) 0;
    ln ← read 2 m (cur + 8) 0;
    let cur := cur + 10 in
    let size := u32 (dd_len domain + 10 + ln) in
    if ty =? TYPE_CNAME then
      cn ← dns_domain_max m original originalMax (cur - original) ln;
      Ret (DnsResourceZone (original + begin) (if dd_valid cn then size else 0) (dd_valid cn)
             (Some domain) (Some cn) ty rs lt ln [])
    else if ln mod 4 =? 0 then
      ips ← resource_ips m cur ln;
      Ret (DnsResourceZone (original + begin) size true (Some domain) None ty rs lt ln ips)
    else Ret (DnsResourceZone (original + begin) 0 false (Some domain) None ty rs lt ln []).

(** [dns_resource_zone::generate(data, ip, expire)] *)
Definition resource_zone_generate (m : list Z) (data ip expire : Z)
    : outcome (list Z * dns_resource_zone) :=
  m ← store m data 192;
  m ← store m (data + 1) DEFAULT_LEN;
  m ← write 2 m (data + 2) TYPE_A;
  m ← write 2 m (data + 4) 1;
  m ← write 4 m (data + 6) expire;
  m ← write 2 m (data + 10) 4;
  m ← write 4 m (data + 12) ip;
  Ret (m, DnsResourceZone data DEFAULT_SINGLE_IP_LEN true None None TYPE_A 1 expire 0 [ip]).

(** ** Specification: the bytes of each section *)
Definition enc_header (id flags qd an ar : Z) : list Z :=
  be_bytes 2 id ++ be_bytes 2 flags ++ be_bytes 2 qd ++ be_bytes 2 an ++ be_bytes 2 0 ++ be_bytes 2 ar.

(** A question: the labels of its name and its type; the class is 1. *)
Definition question : Type := list str * Z.
Definition enc_question (q : question) : list Z :=
  enc_name q.1 ++ be_bytes 2 q.2 ++ be_bytes 2 1.
Definition valid_question (q : question) : Prop := valid_name q.1 /\ 0 <= q.2 < 65536.

(** An A record for the name at offset 12 of the message. *)
Definition enc_answer (ip ttl : Z) : list Z :=
  [192; 12] ++ be_bytes 2 1 ++ be_bytes 2 1 ++ be_bytes 4 ttl ++ be_bytes 2 4 ++ be_bytes 4 ip.

Definition enc_questions (qs : list question) : list Z := concat (enc_question <$> qs).

(** What parsing makes of a question at offset [off]. *)
Definition parsed_question (off : Z) (q : question) : dns_query :=
  DnsQuery off (zlen (enc_question q)) true
    (Some (DnsDomain off (zlen (enc_name q.1)) true (name_text q.1))) q.2 q.2.

Fixpoint parsed_questions (off : Z) (qs : list question) : list dns_query :=
  match qs with
  | [] => []
  | q :: qs' => parsed_question off q :: parsed_questions (off + zlen (enc_question q)) qs'
  end.

(** ** Lemmas: reading and writing inside a message *)
Lemma load_mid pre l post p i :
  p = zlen pre + i -> 0 <= i < zlen l -> load (pre ++ l ++ post) p = load l i.
Proof.
  unfold load, zlen. intros -> Hi. zb. f_equal.
  rewrite lookup_app_r by lia. rewrite lookup_app_l by lia.
  by replace (Z.to_nat (Z.of_nat (length pre) + i) - length pre)%nat with (Z.to_nat i) by lia.
Qed.

Lemma read_field w pre post p v :
  (w <= 4)%nat -> p = zlen pre -> 0 <= v < 2 ^ (8 * Z.of_nat w) ->
  read w (pre ++ be_bytes w v ++ post) p 0 = Ret v.
Proof.
  intros Hw -> Hv. rewrite read_spec; [|done|done|apply length_be_bytes|apply be_bytes_ok].
  by rewrite be_value_bytes, Z.mod_small.
Qed.

(** [m] holds [bs] at offset [p]. *)
Definition at_off (m : list Z) (p : Z) (bs : list Z) : Prop :=
  exists pre post, m = pre ++ bs ++ post /\ p = zlen pre.

Lemma at_off_app m p b1 b2 : at_off m p (b1 ++ b2) -> at_off m p b1 /\ at_off m (p + zlen b1) b2.
Proof.
  intros (pre & post & -> & ->). split.
  - exists pre, (b2 ++ post). by rewrite <- app_assoc.
  - exists (pre ++ b1), post. split; [by rewrite <- !app_assoc|]. by rewrite zlen_app.
Qed.

Lemma at_off_load m p x bs : at_off m p (x :: bs) -> load m p = Ret x.
Proof. intros (pre & post & -> & ->). by apply load_at. Qed.

Lemma at_off_cons m p x bs : at_off m p (x :: bs) -> at_off m (p + 1) bs.
Proof. intros H. by apply (at_off_app m p [x] bs) in H as [_ H]. Qed.

Lemma at_off_read w m p v :
  at_off m p (be_bytes w v) -> (w <= 4)%nat -> 0 <= v < 2 ^ (8 * Z.of_nat w) -> read w m p 0 = Ret v.
Proof. intros (pre & post & -> & ->) Hw Hv. by apply read_field. Qed.

Lemma at_off_bound m p bs : at_off m p bs -> 0 <= p /\ p + zlen bs <= zlen m.
Proof. intros (pre & post & -> & ->). zlen. Qed.

Lemma at_off_grow m p bs x y : at_off m p bs -> at_off (x ++ m ++ y) (zlen x + p) bs.
Proof.
  intros (pre & post & -> & ->). exists (x ++ pre), (post ++ y). split; [|by rewrite zlen_app].
  by rewrite <- !app_assoc.
Qed.

Lemma at_off_here pre bs post : at_off (pre ++ bs ++ post) (zlen pre) bs.
Proof. by exists pre, post. Qed.

(** Splits the bytes known at an offset into their parts. *)
Ltac at_split H :=
  repeat match type of H with
  | at_off _ _ (_ ++ _) =>
      let H1 := fresh "Hat" in apply at_off_app in H as [H1 H]
  end.

(** ** Lemmas: the header *)
Lemma header_word w :
  u8 (Z.shiftr (u16 (Z.land w (u16 (Z.shiftl 255 8)))) 8) = (w / 2 ^ 8) mod 256 /\
  u8 (Z.land w 255) = w mod 256.
Proof.
  split.
  - change (u16 (Z.shiftl 255 8)) with (Z.shiftl 255 8). unfold u8, u16.
    rewrite <- (Z.land_ones (Z.land w _) 16) by lia. rewrite <- Z.land_assoc.
    change (Z.land (Z.shiftl 255 8) (Z.ones 16)) with (Z.shiftl 255 8).
    rewrite Z.shiftr_land, Z.shiftr_shiftl_l, Z.sub_diag, Z.shiftl_0_r by lia.
    rewrite Z.land_comm, land_255, Z.mod_mod by lia. by rewrite Z.shiftr_div_pow2 by lia.
  - rewrite Z.land_comm, land_255. unfold u8. by rewrite Z.mod_mod.
Qed.

Lemma header_loop ws all i pre old post data :
  (forall k, (k < length ws)%nat -> load all (i + Z.of_nat k) = Ret (nth k ws 0)) ->
  zlen pre = data + i * 2 -> length old = (2 * length ws)%nat ->
  for_loop (length ws) i (fun i m =>
    w ← load all i;
    let ui := u16 (Z.land w (u16 (Z.shiftl 255 8))) in
    m ← store m (data + i * 2) (u8 (Z.shiftr ui 8));
    store m (data + (i * 2 + 1)) (u8 (Z.land w 255))) (pre ++ old ++ post) =
  Ret (pre ++ concat (be_bytes 2 <$> ws) ++ post).
Proof.
  revert i pre old. induction ws as [|w ws IH]; intros i pre old Hw Hp Hold.
  { by destruct old. }
  cbn [length] in Hold. destruct old as [|o1 [|o2 old]]; [simpl in Hold; lia..|].
  cbn [length for_loop]. pose proof (Hw 0%nat ltac:(simpl; lia)) as H0.
  rewrite Z.add_0_r in H0. rewrite H0. ret_step. cbn [nth]. cbv zeta.
  destruct (header_word w) as [-> ->].
  rewrite <- !app_comm_cons, store_at by lia. ret_step.
  rewrite cons_middle, app_assoc, store_at by (rewrite zlen_app, zlen_cons, zlen_nil; lia). ret_step.
  rewrite (cons_middle _ (_ ++ _)), app_assoc. rewrite IH.
  - cbn [fmap list_fmap concat be_bytes Z.of_nat]. rewrite <- !app_assoc. do 2 f_equal. cbn [app].
    f_equal. f_equal. change (8 * 0) with 0. by rewrite Z.pow_0_r, Z.div_1_r.
  - intros k Hk. specialize (Hw (S k) ltac:(simpl; lia)). cbn [nth] in Hw. rewrite <- Hw. f_equal. lia.
  - rewrite !zlen_app, !zlen_cons, !zlen_nil. lia.
  - simpl in Hold. lia.
Qed.

Lemma header_generate_spec pre old post data id hc ac an ans :
  data = zlen pre -> length old = 12%nat ->
  header_generate (pre ++ old ++ post) data id hc ac an ans =
  Ret (pre ++ enc_header id (if ans then 32896 else 256) (u16 hc) (u16 an) (u16 ac) ++ post,
       DnsHeader data 12 id 0 0 0 0 0).
Proof.
  intros Hd Hold. unfold header_generate.
  set (ws := header_words id hc ac an ans).
  replace 6%nat with (length ws) by done. rewrite (header_loop ws ws 0 pre old post).
  - ret_step. do 2 f_equal. unfold ws, header_words. cbn [fmap list_fmap concat]. unfold enc_header.
    rewrite app_nil_r. destruct ans; [|done].
    by destruct (an =? 0).
  - intros k Hk. unfold ws, header_words in *. simpl in Hk.
    do 6 (destruct k as [|k]; [done|]). lia.
  - lia.
  - by rewrite Hold.
Qed.

Lemma header_parse_spec m data len id flags qd an ar :
  at_off m data (enc_header id flags qd an ar) -> 12 <= len ->
  0 <= id < 65536 -> 0 <= flags < 65536 -> 0 <= qd < 65536 -> 0 <= an < 65536 ->
  header_parse m data len =
  Ret (Some (DnsHeader data 12 id an qd (Z.land flags 15) (Z.land (flags / 256) 128)
               (Z.shiftr (Z.land (flags / 256) 120) 3))).
Proof.
  intros H Hlen Hid Hfl Hqd Han. unfold header_parse, enc_header, DEFAULT_LEN in *. zb.
  at_split H. rewrite !zlen_be_bytes in *. change (Z.of_nat 2) with 2 in *.
  cbn [be_bytes] in Hat, Hat0.
  rewrite (at_off_load _ _ _ _ Hat), (at_off_load _ _ _ _ (at_off_cons _ _ _ _ Hat)). ret_step.
  rewrite (at_off_load _ _ _ _ Hat0). replace (data + 3) with (data + 2 + 1) by lia.
  rewrite (at_off_load _ _ _ _ (at_off_cons _ _ _ _ Hat0)). ret_step.
  replace (data + 4) with (data + 2 + 2) by lia. rewrite (at_off_read 2 _ _ _ Hat1) by lia. ret_step.
  replace (data + 6) with (data + 2 + 2 + 2) by lia. rewrite (at_off_read 2 _ _ _ Hat2) by lia. ret_step.
  change (8 * Z.of_nat 1) with 8. change (8 * Z.of_nat 0) with 0.
  rewrite Z.pow_0_r, !Z.div_1_r, Z.shiftl_mul_pow2 by lia. change (2 ^ 8) with 256.
  change (id / 256 mod 256 * 256) with (id / 256 mod 256 * 2 ^ 8).
  rewrite lor_disjoint by (change (2 ^ 8) with 256; zdiv). change (2 ^ 8) with 256. rewrite u16_id by zdiv.
  rewrite (Z.mod_small (flags / 256)) by zdiv.
  replace (Z.land (flags mod 256) 15) with (Z.land flags 15).
  { do 3 f_equal. zdiv. }
  change 15 with (Z.ones 4). rewrite !Z.land_ones by lia. change (2 ^ 4) with 16. zdiv.
Qed.

(** ** Lemmas: questions *)
Lemma zlen_enc_question q : zlen (enc_question q) = zlen (enc_name q.1) + 4.
Proof. unfold enc_question. rewrite !zlen_app, !zlen_be_bytes. lia. Qed.

Lemma enc_name_size labels : valid_name labels -> 2 <= zlen (enc_name labels) <= 257.
Proof.
  intros (Hne & _ & Hmax). rewrite zlen_enc_name by done. pose proof (zlen_nonneg (name_text labels)). lia.
Qed.

Lemma enc_questions_cons q qs : enc_questions (q :: qs) = enc_question q ++ enc_questions qs.
Proof. done. Qed.

Lemma query_parse_spec m data len q :
  at_off m data (enc_question q) -> valid_question q -> zlen (enc_name q.1) <= len < 2 ^ 32 ->
  query_parse m data len = Ret (parsed_question data q).
Proof.
  intros H [Hv Ht] Hlen. unfold query_parse, dns_domain_parse, parse, parsed_question.
  pose proof (enc_name_size _ Hv) as Hs. rewrite u32_id by lia.
  unfold enc_question in H. apply at_off_app in H as [Hn H].
  destruct Hn as (pre & post & Em & Ed).
  rewrite (parse_name 20 m pre q.1 post data 0) by (done || lia). ret_step.
  unfold domain_of_parse. zb. cbn [dd_valid dd_len negb].
  rewrite (u32_id (zlen _)) by lia. apply at_off_app in H as [H _].
  rewrite (at_off_read 2 _ _ _ H) by (done || lia). ret_step.
  rewrite zlen_enc_question, u32_id by (unfold DEFAULT_FLAGS_SIZE; lia). done.
Qed.

Lemma query_zone_done m len size rest real data dn :
  size <= zlen dn ->
  query_zone_step m len size (rest, real, data, dn) = Ret (inr (real, true, dn)).
Proof. intros H. unfold query_zone_step. zb. by rewrite andb_false_r. Qed.

Lemma query_zone_next m len size rest real data dn q :
  at_off m data (enc_question q) -> valid_question q -> zlen (enc_name q.1) <= len < 2 ^ 32 ->
  zlen (enc_question q) <= rest < 2 ^ 32 -> 0 <= real -> real + zlen (enc_question q) < 2 ^ 32 ->
  zlen dn < size ->
  query_zone_step m len size (rest, real, data, dn) =
  Ret (inl (rest - zlen (enc_question q), real + zlen (enc_question q),
            data + zlen (enc_question q), dn ++ [parsed_question data q])).
Proof.
  intros H Hv Hlen Hr Hreal Hr2 Hn. unfold query_zone_step.
  pose proof (enc_name_size _ (proj1 Hv)). pose proof (zlen_enc_question q).
  zb. cbn [andb]. rewrite (query_parse_spec m data len q) by done.
  ret_step. cbn [parsed_question q_valid q_len]. by rewrite !u32_id by lia.
Qed.

Lemma query_zone_loop m len qs : forall fuel rest real data done_,
  at_off m data (enc_questions qs) -> Forall valid_question qs ->
  Forall (fun q => zlen (enc_question q) <= len) qs -> len < 2 ^ 32 ->
  zlen (enc_questions qs) <= rest < 2 ^ 32 -> 0 <= real -> real + zlen (enc_questions qs) < 2 ^ 32 ->
  (length qs < fuel)%nat ->
  while_loop fuel (query_zone_step m len (zlen done_ + zlen qs)) (rest, real, data, done_) =
  Ret (real + zlen (enc_questions qs), true, done_ ++ parsed_questions data qs).
Proof.
  induction qs as [|q qs IH]; intros fuel rest real data dn H Hv Hl Hlen Hr Hreal Hr2 Hf;
    (destruct fuel as [|fuel]; [simpl in Hf; lia|]); cbn [while_loop].
  { rewrite query_zone_done by (rewrite (zlen_nil (A := question)); lia). ret_step. cbn [parsed_questions].
    rewrite app_nil_r. do 3 f_equal. change (enc_questions []) with (@nil Z). rewrite zlen_nil. lia. }
  rewrite enc_questions_cons, zlen_app in *. apply at_off_app in H as [Hq H].
  inversion Hv as [|? ? Hvq Hvs]; subst. inversion Hl as [|? ? Hlq Hls]; subst.
  pose proof (enc_name_size _ (proj1 Hvq)) as Hs. pose proof (zlen_enc_question q) as Hz.
  pose proof (zlen_nonneg (enc_questions qs)). pose proof (zlen_nonneg qs).
  rewrite zlen_cons, (query_zone_next _ _ _ _ _ _ _ q) by (done || lia). ret_step.
  replace (zlen dn + (1 + zlen qs)) with (zlen (dn ++ [parsed_question data q]) + zlen qs)
    by (rewrite zlen_app, zlen_cons, zlen_nil; lia).
  rewrite IH by (done || lia || (simpl in Hf; lia)).
  cbn [parsed_questions]. rewrite <- app_assoc. do 3 f_equal. lia.
Qed.

Lemma query_zone_parse_spec m data len qs :
  at_off m data (enc_questions qs) -> Forall valid_question qs ->
  zlen (enc_questions qs) <= len < 2 ^ 32 ->
  query_zone_parse m data len (zlen qs) =
  Ret (DnsQueryZone data (zlen (enc_questions qs)) true (parsed_questions data qs) []).
Proof.
  intros H Hv Hlen. unfold query_zone_parse. rewrite u32_id by (pose proof (zlen_nonneg (enc_questions qs)); lia).
  change (zlen qs) with (zlen (@nil dns_query) + zlen qs) at 2.
  rewrite query_zone_loop; try (done || lia).
  - apply Forall_forall. intros q Hq.
    assert (zlen (enc_question q) <= zlen (enc_questions qs)); [|lia].
    apply list_elem_of_split in Hq as (l1 & l2 & ->). unfold enc_questions.
    rewrite fmap_app, concat_app, fmap_cons, concat_cons, !zlen_app.
    pose proof (zlen_nonneg (concat (enc_question <$> l1))).
    pose proof (zlen_nonneg (concat (enc_question <$> l2))). lia.
  - unfold zlen. lia.
Qed.

(** ** Lemmas: building the question section *)
Definition query_of (labels : list str) : question := (labels, TYPE_A).

Definition generated_question (off : Z) (labels : list str) : dns_query :=
  parsed_question off (query_of labels).

Lemma copy_zero_offset from pre old post :
  length old = length from ->
  copy from (pre ++ old ++ post) 0 (zlen pre) (zlen from) = Ret (pre ++ from ++ post).
Proof. intros Ho. apply (copy_spec from pre old post 0 (zlen pre) from [] []); [by rewrite app_nil_r|done..]. Qed.

Lemma generateDomain_spec labels pre old post :
  valid_name labels -> length old = length (enc_question (query_of labels)) ->
  generateDomain (pre ++ old ++ post) (zlen pre) (name_text labels) =
  Ret (pre ++ enc_question (query_of labels) ++ post, generated_question (zlen pre) labels).
Proof.
  intros Hv Hold. pose proof (enc_name_size _ Hv) as Hs. unfold generateDomain, generated_question.
  pose proof (zlen_enc_question (query_of labels)) as Hz. cbn [query_of fst] in Hz.
  rewrite <- (take_drop (length (enc_name labels)) old), <- app_assoc.
  rewrite (domain_generate_spec labels pre _ _ (zlen pre));
    [|done|done|rewrite length_take; unfold zlen in *; lia].
  ret_step. cbn [dd_len]. unfold DEFAULT_FLAGS_SIZE.
  rewrite app_assoc, <- (zlen_app pre).
  rewrite (copy_zero_offset DEFAULT_FLAGS (pre ++ enc_name labels) (drop _ old) post);
    [|rewrite length_drop; unfold zlen in *; simpl; lia].
  ret_step. rewrite u32_id by lia. unfold parsed_question. rewrite Hz. cbn [query_of fst snd].
  do 2 f_equal. rewrite <- app_assoc. do 1 f_equal. unfold enc_question. cbn [query_of fst snd].
  by rewrite <- app_assoc.
Qed.

Fixpoint generated_questions (off : Z) (names : list (list str)) : list dns_query :=
  match names with
  | [] => []
  | n :: names' => generated_question off n ::
      generated_questions (off + zlen (enc_question (query_of n))) names'
  end.

Lemma generated_parsed off names :
  generated_questions off names = parsed_questions off (query_of <$> names).
Proof. revert off. induction names as [|n names IH]; intros off; [done|]. simpl. by rewrite IH. Qed.

Definition enc_names (names : list (list str)) : list Z := enc_questions (query_of <$> names).

Lemma enc_names_cons n names : enc_names (n :: names) = enc_question (query_of n) ++ enc_names names.
Proof. done. Qed.

Lemma generate_domains_spec names : forall pre old post size dn,
  Forall valid_name names -> length old = length (enc_names names) ->
  0 <= size -> size + zlen (enc_names names) < 2 ^ 32 ->
  generate_domains (pre ++ old ++ post) (zlen pre) size (name_text <$> names) dn =
  Ret (pre ++ enc_names names ++ post, zlen pre + zlen (enc_names names),
       size + zlen (enc_names names), dn ++ generated_questions (zlen pre) names).
Proof.
  induction names as [|n names IH]; intros pre old post size dn Hv Hold Hs Hsz.
  { destruct old; [|done]. cbn. rewrite app_nil_r, zlen_nil, !Z.add_0_r. done. }
  inversion Hv as [|? ? Hn Hns]; subst. rewrite enc_names_cons, length_app in Hold.
  rewrite enc_names_cons, zlen_app in *. cbn [fmap list_fmap generate_domains].
  rewrite <- (take_drop (length (enc_question (query_of n))) old), <- app_assoc.
  rewrite generateDomain_spec by (done || (rewrite length_take; lia)). ret_step.
  cbn [generated_question parsed_question q_len]. pose proof (zlen_nonneg (enc_names names)).
  pose proof (zlen_nonneg (enc_question (query_of n))). rewrite u32_id by lia.
  rewrite <- zlen_app, app_assoc, IH by (done || lia || (rewrite length_drop; lia)).
  cbn [generated_questions]. rewrite !zlen_app, <- !app_assoc. pair_eq; lia.
Qed.

Lemma copy_within_spec pre bs mid old post :
  length old = length bs ->
  copy_within (pre ++ bs ++ mid ++ old ++ post) (zlen pre) (zlen (pre ++ bs ++ mid)) (zlen bs) =
  Ret (pre ++ bs ++ mid ++ bs ++ post).
Proof.
  unfold copy_within. replace (Z.to_nat (zlen bs)) with (length bs) by (unfold zlen; lia).
  enough (forall done_ todo old, length old = length todo -> bs = done_ ++ todo ->
    for_loop (length todo) (zlen done_) (fun i m =>
      v ← load m (zlen pre + i); store m (zlen (pre ++ bs ++ mid) + i) v)
      (pre ++ bs ++ mid ++ done_ ++ old ++ post) = Ret (pre ++ bs ++ mid ++ bs ++ post)) as H.
  { intros Hold. apply (H [] bs old Hold). done. }
  intros dn todo. revert dn. induction todo as [|c todo IH]; intros dn [|o old'] Hold Hbs; try done.
  { rewrite app_nil_r in Hbs. by subst. }
  cbn [length for_loop]. rewrite (load_mid pre bs _ _ (zlen dn)); [|lia|rewrite Hbs; zlen].
  rewrite Hbs at 1. rewrite load_at by done. ret_step. 
  pose proof (store_at (pre ++ bs ++ mid ++ dn) o (old' ++ post)
    (zlen (pre ++ bs ++ mid) + zlen dn) c ltac:(rewrite !zlen_app; lia)) as E.
  rewrite <- !app_assoc in E. cbn [app]. rewrite E. ret_step.
  specialize (IH (dn ++ [c]) old'). rewrite zlen_app, zlen_cons, zlen_nil, Z.add_0_r in IH.
  rewrite <- IH; [|simpl in Hold; lia|by rewrite <- app_assoc].
  by rewrite <- !app_assoc.
Qed.

Lemma copy_domains_spec names : forall pre gap old post cur,
  length old = length (enc_names names) -> Forall valid_name names ->
  0 <= cur -> cur + zlen (enc_names names) < 2 ^ 32 ->
  copy_domains (pre ++ enc_names names ++ gap ++ old ++ post)
    (zlen pre + zlen (enc_names names) + zlen gap - cur) cur (generated_questions (zlen pre) names) =
  Ret (pre ++ enc_names names ++ gap ++ enc_names names ++ post).
Proof.
  induction names as [|n names IH]; intros pre gap old post cur Hold Hv Hc Hcs.
  { by destruct old. }
  inversion Hv as [|? ? Hn Hns]; subst. rewrite enc_names_cons, length_app in Hold.
  rewrite enc_names_cons in *. set (E := enc_question (query_of n)) in *. rewrite zlen_app in *.
  cbn [generated_questions copy_domains]. cbn [generated_question parsed_question q_len q_data]. fold E.
  pose proof (zlen_nonneg (enc_names names)). pose proof (zlen_nonneg E).
  rewrite <- (take_drop (length E) old).
  replace (zlen pre + (zlen E + zlen (enc_names names)) + zlen gap - cur + cur)
    with (zlen (pre ++ E ++ enc_names names ++ gap)) by (rewrite !zlen_app; lia).
  rewrite <- !app_assoc, (app_assoc (enc_names names) gap).
  rewrite copy_within_spec by (rewrite length_take; lia). ret_step.
  rewrite u32_id by lia.
  specialize (IH (pre ++ E) (gap ++ E) (drop (length E) old) post (cur + zlen E)).
  rewrite !zlen_app, <- !app_assoc in IH. rewrite <- !app_assoc.
  replace (zlen pre + (zlen E + zlen (enc_names names)) + zlen gap - cur)
    with (zlen pre + zlen E + zlen (enc_names names) + (zlen gap + zlen E) - (cur + zlen E)) by lia.
  rewrite IH by (done || lia || (rewrite length_drop; lia)). done.
Qed.

(** The section is written, and copied once more right after itself. *)
Lemma query_zone_generate_spec names pre old1 old2 post :
  Forall valid_name names -> length old1 = length (enc_names names) ->
  length old2 = length (enc_names names) -> zlen (enc_names names) < 2 ^ 32 ->
  query_zone_generate (pre ++ old1 ++ old2 ++ post) (zlen pre) (name_text <$> names) =
  Ret (pre ++ enc_names names ++ enc_names names ++ post,
       DnsQueryZone (zlen pre + zlen (enc_names names)) (zlen (enc_names names)) true
         (generated_questions (zlen pre) names) (name_text <$> names)).
Proof.
  intros Hv H1 H2 Hs. unfold query_zone_generate.
  rewrite generate_domains_spec by (done || lia). ret_step.
  pose proof (copy_domains_spec names pre [] old2 post 0 H2 Hv ltac:(lia) ltac:(lia)) as E.
  rewrite zlen_nil, !Z.add_0_r, Z.sub_0_r in E. rewrite !app_nil_l in E. rewrite app_nil_l, Z.add_0_l, E. done.
Qed.

(** ** Lemmas: answers *)
Lemma zlen_enc_answer ip ttl : zlen (enc_answer ip ttl) = 16.
Proof. done. Qed.

(** Writing the next field of a run of bytes that is being filled. *)
Lemma write_next w pre old post p v :
  (w <= 4)%nat -> p = zlen pre -> (w <= length old)%nat ->
  write w (pre ++ old ++ post) p v = Ret ((pre ++ be_bytes w v) ++ drop w old ++ post).
Proof.
  intros Hw -> Ho. rewrite <- (take_drop w old) at 1. rewrite <- app_assoc.
  rewrite write_spec by (done || (rewrite length_take; lia)). by rewrite <- app_assoc.
Qed.

Lemma resource_zone_generate_spec pre old post ip ttl :
  length old = 16%nat ->
  resource_zone_generate (pre ++ old ++ post) (zlen pre) ip ttl =
  Ret (pre ++ enc_answer ip ttl ++ post,
       DnsResourceZone (zlen pre) DEFAULT_SINGLE_IP_LEN true None None TYPE_A 1 ttl 0 [ip]).
Proof.
  intros Hold. unfold resource_zone_generate, enc_answer, DEFAULT_LEN.
  destruct old as [|o1 [|o2 old]]; [done..|]. simpl in Hold.
  cbn [app]. rewrite store_at by done. ret_step.
  rewrite cons_middle, app_assoc, store_at by (by rewrite zlen_app). ret_step.
  rewrite (cons_middle 12), app_assoc. set (pre2 := (pre ++ [192]) ++ [12]).
  assert (zlen pre2 = zlen pre + 2) as H2 by (unfold pre2; rewrite !zlen_app, !zlen_cons, zlen_nil; lia).
  rewrite (write_next 2 pre2 old) by lia. ret_step.
  rewrite write_next; [|lia|rewrite zlen_app, zlen_be_bytes; lia|rewrite length_drop; lia]. ret_step.
  rewrite write_next; [|lia|rewrite !zlen_app, !zlen_be_bytes; lia|rewrite !length_drop; lia]. ret_step.
  rewrite write_next; [|lia|rewrite !zlen_app, !zlen_be_bytes; lia|rewrite !length_drop; lia]. ret_step.
  rewrite write_next; [|lia|rewrite !zlen_app, !zlen_be_bytes; lia|rewrite !length_drop; lia]. ret_step.
  rewrite !drop_drop, drop_ge by lia. unfold pre2, TYPE_A. by rewrite <- !app_assoc.
Qed.

(** An answer that points at the name parsed at offset 12. *)
Definition parsed_answer (off : Z) (name : str) (ip ttl : Z) : dns_resource_zone :=
  DnsResourceZone off 16 true (Some (DnsDomain off 2 true name)) None TYPE_A 1 ttl 4 [ip].

Lemma resource_zone_parse_spec m original originalMax begin consume name ip ttl :
  at_off m (original + begin) (enc_answer ip ttl) ->
  parseRe 20 m original originalMax 12 (u64 (originalMax - 12)) [] = Ret (consume, name) ->
  consume <> 0 -> 12 < begin < originalMax -> originalMax < 2 ^ 32 ->
  ip_ok ip -> 0 <= ttl < 2 ^ 32 ->
  resource_zone_parse m original originalMax begin = Ret (parsed_answer (original + begin) name ip ttl).
Proof.
  intros H Hname Hc Hb Hmax Hip Httl. unfold resource_zone_parse, dns_domain_begin, parse.
  pose proof H as (pre & post & Em & Ed). unfold enc_answer in H, Em. unfold ip_ok in Hip.
  rewrite (parse_pointer 20 m pre ((be_bytes 2 1 ++ be_bytes 2 1 ++ be_bytes 4 ttl ++ be_bytes 2 4 ++
    be_bytes 4 ip) ++ post) original begin originalMax _ 192 12 12 consume name);
    [|by rewrite Em|done|rewrite u64_id; lia|done|done|lia|done|done].
  ret_step. unfold domain_of_parse. cbn [Z.eqb]. change (u32 2) with 2. cbn [dd_valid dd_len negb].
  at_split H. rewrite !zlen_be_bytes in *. change (zlen [192; 12]) with 2 in *.
  rewrite (at_off_read 2 _ _ _ Hat0) by lia. ret_step.
  replace (original + begin + 2 + 2) with (original + begin + 2 + Z.of_nat 2) by lia.
  rewrite (at_off_read 2 _ _ _ Hat1) by lia. ret_step.
  replace (original + begin + 2 + 4) with (original + begin + 2 + Z.of_nat 2 + Z.of_nat 2) by lia.
  rewrite (at_off_read 4 _ _ _ Hat2) by lia. ret_step.
  replace (original + begin + 2 + 8) with (original + begin + 2 + Z.of_nat 2 + Z.of_nat 2 + Z.of_nat 4) by lia.
  rewrite (at_off_read 2 _ _ _ Hat3) by lia. ret_step.
  unfold TYPE_CNAME. cbn [Z.eqb Pos.eqb]. change (4 mod 4 =? 0) with true. cbn iota.
  unfold resource_ips. change (Z.to_nat (4 / 4)) with 1%nat. cbn [for_loop].
  replace (original + begin + 2 + 10 + 0 * 4)
    with (original + begin + 2 + Z.of_nat 2 + Z.of_nat 2 + Z.of_nat 4 + Z.of_nat 2) by lia.
  rewrite (at_off_read 4 _ _ _ H) by lia. ret_step. done.
Qed.

(** ** Lemmas: termination *)
Lemma shl32_terminates x n : terminates (shl32 x n).
Proof. unfold shl32, terminates. by case_match. Qed.

Lemma read_terminates w m p r : terminates (read w m p r).
Proof.
  apply for_loop_terminates. intros. apply bind_terminates; [auto with outcome|]. intros v _.
  apply bind_terminates; [apply shl32_terminates|done].
Qed.
#[export] Hint Resolve shl32_terminates read_terminates : outcome.

Lemma domain_parse_terminates m data len : bytes_ok m -> terminates (dns_domain_parse m data len).
Proof. intros. unfold dns_domain_parse, parse. auto with outcome. Qed.

Lemma domain_begin_terminates m data size begin :
  bytes_ok m -> terminates (dns_domain_begin m data size begin).
Proof. intros. unfold dns_domain_begin, parse. auto with outcome. Qed.

Lemma domain_max_terminates m data size begin mx :
  bytes_ok m -> terminates (dns_domain_max m data size begin mx).
Proof. intros. unfold dns_domain_max, parse. auto with outcome. Qed.
#[export] Hint Resolve domain_parse_terminates domain_begin_terminates domain_max_terminates : outcome.

Lemma header_parse_terminates m data len : terminates (header_parse m data len).
Proof. unfold header_parse. case_match; [|done]. repeat (apply bind_terminates; [auto with outcome|intros ? _]). done. Qed.

Lemma query_parse_terminates m data len : bytes_ok m -> terminates (query_parse m data len).
Proof.
  intros Hm. unfold query_parse. apply bind_terminates; [auto with outcome|]. intros d _.
  case_match; auto with outcome.
Qed.
#[export] Hint Resolve header_parse_terminates query_parse_terminates : outcome.

(** A run of the question loop adds a question per turn, up to [size]. *)
Lemma query_zone_terminates m data len size : bytes_ok m -> terminates (query_zone_parse m data len size).
Proof.
  intros Hm. unfold query_zone_parse. apply bind_terminates; [|by intros [[??]?] _].
  apply (while_loop_terminates (fun st => Z.to_nat (size - zlen st.2))).
  - intros [[[rs rl] d] qs]. unfold query_zone_step. case_match; [|done].
    apply bind_terminates; [auto with outcome|]. intros q _. by case_match.
  - intros [[[rs rl] d] qs] [[[rs' rl'] d'] qs'] H. unfold query_zone_step in H.
    destruct ((0 <? rs) && (zlen qs <? size)) eqn:E; [|done]. inv_ret. case_match; simplify_eq.
    simpl. rewrite zlen_app, zlen_cons, zlen_nil. lia.
  - simpl. rewrite zlen_nil. lia.
Qed.

Lemma resource_zone_terminates m original mx begin :
  bytes_ok m -> terminates (resource_zone_parse m original mx begin).
Proof.
  intros Hm. unfold resource_zone_parse. apply bind_terminates; [auto with outcome|]. intros d _.
  case_match; [done|]. do 4 (apply bind_terminates; [auto with outcome|intros ? _]).
  case_match; [auto with outcome|]. case_match; [|done]. apply bind_terminates; [|done].
  apply for_loop_terminates. intros. auto with outcome.
Qed.
#[export] Hint Resolve query_zone_terminates resource_zone_terminates : outcome.

(** ** Lemmas: every question of a parsed zone has a name *)
Definition query_ok (q : dns_query) : Prop :=
  q_valid q = true /\ is_Some (q_domain q).

Lemma query_parse_ok m data len q : query_parse m data len = Ret q -> q_valid q = true -> query_ok q.
Proof.
  unfold query_parse. intros H Hq. apply bind_ret in H as (d & Ed & H).
  destruct (negb (dd_valid d)); inv_ret. by split; eauto.
Qed.

Lemma query_zone_parse_ok m data len size z :
  query_zone_parse m data len size = Ret z ->
  Forall query_ok (querys z) /\ zlen (querys z) <= Z.max 0 size.
Proof.
  unfold query_zone_parse. intros ([[r ok] qs] & E & H)%bind_ret. simplify_eq. simpl.
  apply (while_loop_inv (fun st : Z * Z * Z * list dns_query => Forall query_ok st.2 /\ zlen st.2 <= Z.max 0 size)
    (fun r : Z * bool * list dns_query => Forall query_ok r.2 /\ zlen r.2 <= Z.max 0 size) _ _ _ _) in E; [done| | |].
  - intros [[[rs rl] d] q0] [[[rs' rl'] d'] q1] [I1 I2] H. simpl in *. unfold query_zone_step in H.
    destruct ((0 <? rs) && (zlen q0 <? size)) eqn:Es; [|done]. apply bind_ret in H as (q & Eq & H).
    destruct (q_valid q) eqn:Ev; simplify_eq. split.
    + apply Forall_app. split; [done|]. constructor; [by eapply query_parse_ok|done].
    + rewrite zlen_app, zlen_cons, zlen_nil. lia.
  - intros [[[rs rl] d] q0] [[r' ok'] q1] [I1 I2] H. simpl in *. unfold query_zone_step in H.
    destruct ((0 <? rs) && (zlen q0 <? size)) eqn:Es; [|by simplify_eq].
    apply bind_ret in H as (q & Eq & H). by destruct (q_valid q); simplify_eq.
  - simpl. split; [done|]. rewrite zlen_nil. lia.
Qed.

(** ** Properties *)

(** A header written by [generate] or [generateAnswer] is parsed back:
    the id and both counts return as 16-bit values, the response bit is set
    exactly for answers, the operation and response codes are zero, and only the
    header's twelve bytes change. *)
Theorem header_roundtrip (pre old post : list Z) (id hostCount additionalCount answerCount len : Z)
    (isAnswer : bool) :
  length old = 12%nat -> 0 <= id < 65536 -> 12 <= len ->
  exists new, header_generate (pre ++ old ++ post) (zlen pre) id hostCount additionalCount answerCount isAnswer =
      Ret (pre ++ new ++ post, DnsHeader (zlen pre) 12 id 0 0 0 0 0) /\ length new = 12%nat /\
    header_parse (pre ++ new ++ post) (zlen pre) len =
      Ret (Some (DnsHeader (zlen pre) 12 id (u16 answerCount) (u16 hostCount) 0
                   (if isAnswer then 128 else 0) 0)).
Proof.
  intros Hold Hid Hlen. eexists. split; [by apply header_generate_spec|]. split; [done|].
  rewrite (header_parse_spec _ _ _ id (if isAnswer then 32896 else 256) (u16 hostCount)
    (u16 answerCount) (u16 additionalCount));
    [|apply at_off_here|done|done|by destruct isAnswer|apply u16_range|apply u16_range].
  by destruct isAnswer.
Qed.

Lemma header_roundtrip_witness :
  exists new, header_generate ([7] ++ replicate 12 9 ++ [8]) (zlen [7]) 4660 1 0 65538 true =
      Ret ([7] ++ new ++ [8], DnsHeader (zlen [7]) 12 4660 0 0 0 0 0) /\ length new = 12%nat /\
    header_parse ([7] ++ new ++ [8]) (zlen [7]) 512 =
      Ret (Some (DnsHeader (zlen [7]) 12 4660 (u16 65538) (u16 1) 0 128 0)).
Proof. apply (header_roundtrip [7] (replicate 12 9) [8] 4660 1 0 65538 512 true); [done|lia|lia]. Defined.

(** Each question of a zone is parsed with the length of the whole
    zone instead of what is left of it: when a message announces two questions and ends
    inside a label of the second that is no longer than the zone, the parser reads past
    the end of the block instead of rejecting the message. *)
Theorem query_zone_overrun (q : question) (k : Z) :
  valid_question q -> 1 <= k <= 63 -> k <= zlen (enc_question q) ->
  query_zone_parse (enc_question q ++ [k]) 0 (zlen (enc_question q ++ [k])) 2 = Undef OobRead.
Proof.
  intros Hv Hk Hlen. pose proof (zlen_enc_question q) as Hz. pose proof (enc_name_size _ (proj1 Hv)) as Hs.
  set (E := enc_question q) in *. set (m := E ++ [k]).
  assert (zlen m = zlen E + 1) as Hm by (unfold m; by rewrite zlen_app).
  assert (forall i, i = zlen E -> load m i = Ret k) as Hload by (intros i ->; by apply load_at).
  unfold query_zone_parse. rewrite u32_id by lia. change (Z.to_nat 2) with 2%nat. cbn [while_loop].
  rewrite (query_zone_next _ _ _ _ _ _ _ q); fold E;
    [|apply (at_off_here [] E [k])|done|lia|lia|lia|lia|rewrite zlen_nil; lia].
  ret_step. rewrite !Z.add_0_l. unfold query_zone_step. rewrite app_nil_l.
  change (zlen [parsed_question 0 q]) with 1. zb. cbn [andb].
  unfold query_parse, dns_domain_parse, parse. change 21%nat with (S 20). generalize 20%nat. intros r.
  rewrite u32_id by lia. rewrite parseRe_S. cbn [while_loop]. unfold parse_frame. zb.
  rewrite (Hload (zlen E + 0 + 0)) by lia. ret_step. rewrite land_192_small by lia. cbn [Z.eqb].
  zb. rewrite u64_id by lia. zb.
  by rewrite (copy_oob m) by lia.
Qed.

Lemma query_zone_overrun_witness :
  query_zone_parse (enc_question ([lit "a"; lit "cn"], 1) ++ [9]) 0
    (zlen (enc_question ([lit "a"; lit "cn"], 1) ++ [9])) 2 = Undef OobRead.
Proof.
  apply (query_zone_overrun ([lit "a"; lit "cn"], 1) 9); [|lia|vm_compute; congruence].
  split; [|simpl; lia]. split; [done|]. split; [|vm_compute; congruence].
  repeat constructor; unfold zlen; simpl; lia.
Defined.
