(* ===== verification/Request.v ===== *)
(** * DNS requests ([src/src/core/protocol/request.h], [request.cpp])

    [udp_request] and [tcp_request]: the constructor from host names and the
    parser of a received message, on the block the request owns. *)
From S2P Require Import Prelude Bytes Pool Text Domain Message.

(** ** Data *)
Record udp_request := UdpRequest {
  req_valid : bool;
  req_len : Z;
  header : option dns_header;
  query_zone : option dns_query_zone;
  hosts : list str
}.

(** [udp_request(len)] and [udp_request()]: nothing parsed yet. *)
Definition request_new (len : Z) : udp_request := UdpRequest true len None None [].

Definition SIZE_HEADER : Z := 2.

(** ** Building *)

(** [udp_request::init(data, hosts)]; [counter] is the id generator's. *)
Definition request_init (m : list Z) (data : Z) (hosts : list str) (counter : Z)
    : outcome (list Z * udp_request * Z) :=
  '(m, h, counter) ← generateQuery m data (zlen hosts) counter;
  '(m, zone) ← query_zone_generate m (data + h_len h) hosts;
  Ret (m, UdpRequest true (u32 (h_len h + z_len zone)) (Some h) (Some zone) hosts, counter).

(** [udp_request(hosts)], with the block of its [basic_data(1024)]. *)
Definition udp_request_of (junk : Z -> list Z) (st : pool) (hosts : list str) (counter : Z)
    : outcome (list Z * udp_request * Z * pool) :=
  '(b, st) ← alloc junk 1024 st;
  '(m, r, counter) ← request_init (data b) 0 hosts counter;
  Ret (m, r, counter, st).

(** [tcp_request(hosts)] *)
Definition tcp_request_of (junk : Z -> list Z) (st : pool) (hosts : list str) (counter : Z)
    : outcome (list Z * udp_request * Z * pool) :=
  '(b, st) ← alloc junk (1024 + SIZE_HEADER) st;
  '(m, r, counter) ← request_init (data b) 2 hosts counter;
  let dataLen := u16 (req_len r) in
  len_arr ← to_bytes 2 [0; 0] 0 dataLen;
  m ← copy len_arr m 0 0 SIZE_HEADER;
  Ret (m, UdpRequest (req_valid r) (u32 (req_len r + SIZE_HEADER)) (header r) (query_zone r)
            (Request.hosts r), counter, st).

(** ** Parsing *)
Definition query_hosts (querys : list dns_query) : list str :=
  omap (fun q => match q_domain q with
                 | Some d => if bool_decide (domain d = []) then None else Some (domain d)
                 | None => None
                 end) querys.

(** [udp_request::parse(n)] *)
Definition request_parse (m : list Z) (data : Z) (r : udp_request) (n : Z) : outcome udp_request :=
  let invalid h := UdpRequest false n h (query_zone r) (hosts r) in
  if DEFAULT_LEN <? n then
    h ← header_parse m data DEFAULT_LEN;
    match h with
    | None => Ret (invalid (header r))
    | Some h =>
        zone ← query_zone_parse m (data + DEFAULT_LEN) (n - DEFAULT_LEN) (questionCount h);
        if negb (z_valid zone) then Ret (invalid (Some h))
        else if zlen (querys zone) =? 0 then Ret (invalid (Some h))
        else Ret (UdpRequest (req_valid r) n (Some h) (Some zone)
                    (hosts r ++ query_hosts (querys zone)))
    end
  else Ret (invalid (header r)).

Definition get_host (r : udp_request) : str :=
  match hosts r with [] => [] | h :: _ => h end.

(** [query_zone->querys[0]]: the pointer is not tested. *)
Definition get_query_type (r : udp_request) : outcome Z :=
  match query_zone r with
  | None => Undef NullDeref
  | Some zone => match querys zone with q :: _ => Ret (queryType q) | [] => Undef VectorRange end
  end.

Definition get_query_type_value (r : udp_request) : outcome Z :=
  match query_zone r with
  | None => Undef NullDeref
  | Some zone => match querys zone with q :: _ => Ret (queryTypeValue q) | [] => Undef VectorRange end
  end.

(** ** The EDNS additional section *)
Fixpoint store_bytes (m : list Z) (i : Z) (bs : list Z) : outcome (list Z) :=
  match bs with
  | [] => Ret m
  | b :: bs' => m ← store m i b; store_bytes m (i + 1) bs'
  end.

(** [EDNSAdditionalZone::generate(ip)]: bytes 0 to 22 are stored in order. *)
Definition edns_generate (junk : Z -> list Z) (st : pool) (ip : Z)
    : outcome (list Z * basic_data * pool) :=
  let size := 23 in
  '(zone, st) ← alloc junk size st;
  m ← store_bytes (data zone) 0
        [0;                        (* name empty *)
         0; 41;                    (* type *)
         16; 0;                    (* udp size *)
         0; 0; 0; 0;               (* header *)
         0; 12;                    (* len *)
         0; 8;                     (* data *)
         0; 8;                     (* len *)
         0; 1;                     (* family *)
         0; 0;                     (* address len *)
         Z.land (Z.shiftr ip 24) 255; Z.land (Z.shiftr ip 16) 255;
         Z.land (Z.shiftr ip 8) 255; Z.land ip 255];
  Ret (m, zone, st).

(** ** Lemmas *)
Lemma zlen_parsed_questions off qs : zlen (parsed_questions off qs) = zlen qs.
Proof. revert off. induction qs as [|q qs IH]; intros off; [done|]. simpl. by rewrite !zlen_cons, IH. Qed.

Lemma name_text_nonempty labels : valid_name labels -> name_text labels <> [].
Proof.
  intros (Hne & Hl & _). destruct Hl as [|l ls [Hl _] _]; [done|]. destruct ls as [|l' ls].
  - change (name_text [l]) with l. intros ->. rewrite zlen_nil in Hl. lia.
  - rewrite name_text_cons. by destruct l.
Qed.

Lemma query_hosts_parsed off qs :
  Forall valid_question qs -> query_hosts (parsed_questions off qs) = (fun q => name_text q.1) <$> qs.
Proof.
  intros H. revert off. induction H as [|q qs [Hv _] _ IH]; intros off; [done|].
  cbn [parsed_questions]. unfold query_hosts. cbn [omap list_omap parsed_question q_domain domain].
  rewrite bool_decide_false by (by apply name_text_nonempty). rewrite fmap_cons. f_equal. apply IH.
Qed.

Lemma enc_questions_pos qs : qs <> [] -> Forall valid_question qs -> 6 <= zlen (enc_questions qs).
Proof.
  intros Hne H. destruct H as [|q qs [Hv _] _]; [done|]. rewrite enc_questions_cons, zlen_app, zlen_enc_question.
  pose proof (enc_name_size _ Hv). pose proof (zlen_nonneg (enc_questions qs)). lia.
Qed.

Lemma zlen_enc_header id flags qd an ar : zlen (enc_header id flags qd an ar) = 12.
Proof. done. Qed.

(** A well-formed message: header, questions, and anything after them. *)
Lemma request_parse_spec m data n id flags an ar qs len :
  at_off m data (enc_header id flags (zlen qs) an ar ++ enc_questions qs) ->
  0 <= id < 65536 -> 0 <= flags < 65536 -> 0 <= an < 65536 -> zlen qs < 65536 ->
  qs <> [] -> Forall valid_question qs -> 12 + zlen (enc_questions qs) <= n < 2 ^ 32 ->
  request_parse m data (request_new len) n =
  Ret (UdpRequest true n
    (Some (DnsHeader data 12 id an (zlen qs) (Z.land flags 15) (Z.land (flags / 256) 128)
               (Z.shiftr (Z.land (flags / 256) 120) 3)))
    (Some (DnsQueryZone (data + 12) (zlen (enc_questions qs)) true (parsed_questions (data + 12) qs) []))
    ((fun q => name_text q.1) <$> qs)).
Proof.
  intros H Hid Hfl Han Hqs Hne Hv Hn. pose proof (enc_questions_pos qs Hne Hv).
  apply at_off_app in H as [Hh Hq]. rewrite zlen_enc_header in Hq.
  unfold request_parse, DEFAULT_LEN. zb.
  rewrite (header_parse_spec m data 12 _ _ _ _ _ Hh) by (done || lia || (pose proof (zlen_nonneg qs); lia)).
  ret_step. cbn [questionCount].
  rewrite (query_zone_parse_spec m (data + 12) (n - 12) qs) by (done || lia). ret_step.
  cbn [z_valid querys negb]. rewrite zlen_parsed_questions.
  assert (zlen qs <> 0) by (destruct qs; [done|rewrite zlen_cons; pose proof (zlen_nonneg qs); lia]).
  zb. by rewrite query_hosts_parsed.
Qed.

Definition packet (id : Z) (names : list (list str)) : list Z :=
  enc_header id 256 (zlen names) 0 0 ++ enc_names names.

Lemma zlen_packet id names : zlen (packet id names) = 12 + zlen (enc_names names).
Proof. unfold packet. by rewrite zlen_app. Qed.

Lemma length_eq {A} (l : list A) n : zlen l = n -> length l = Z.to_nat n.
Proof. unfold zlen. lia. Qed.

(** The packet is written at [pre]; the questions follow it once more. *)
Lemma request_init_spec names pre old post counter :
  Forall valid_name names -> zlen names < 65536 ->
  zlen old = 12 + 2 * zlen (enc_names names) -> zlen old < 2 ^ 32 ->
  request_init (pre ++ old ++ post) (zlen pre) (name_text <$> names) counter =
  Ret (pre ++ packet (u16 counter) names ++ enc_names names ++ post,
       UdpRequest true (zlen (packet (u16 counter) names))
         (Some (DnsHeader (zlen pre) 12 (u16 counter) 0 0 0 0 0))
         (Some (DnsQueryZone (zlen pre + 12 + zlen (enc_names names)) (zlen (enc_names names)) true
                  (generated_questions (zlen pre + 12) names) (name_text <$> names)))
         (name_text <$> names),
       (id16 counter).2).
Proof.
  intros Hv Hn Hold Hs. unfold request_init, generateQuery. cbn [id16 fst snd].
  pose proof (zlen_nonneg (enc_names names)). pose proof (zlen_nonneg names).
  set (E := enc_names names) in *.
  assert (zlen (name_text <$> names) = zlen names) as -> by (unfold zlen; by rewrite length_fmap).
  destruct (split_range old 0 12) as (x & a & rest & Hx & Hx0 & Ha); [lia|lia|].
  destruct x; [|by rewrite zlen_cons in Hx0; pose proof (zlen_nonneg x); lia]. rewrite app_nil_l in Hx. subst old.
  rewrite zlen_app in Hold, Hs. assert (zlen a = 12) as Ha' by (unfold zlen; lia).
  rewrite <- app_assoc, header_generate_spec by done. ret_step.
  cbn [h_len]. rewrite (u16_id (zlen names)) by lia. change (u16 0) with 0.
  set (Hdr := enc_header (u16 counter) 256 (zlen names) 0 0).
  destruct (split_range rest 0 (length E)) as (y & b' & c' & Hy & Hy0 & Hb'); [lia|unfold zlen in *; lia|].
  destruct y; [|by rewrite zlen_cons in Hy0; pose proof (zlen_nonneg y); lia]. rewrite app_nil_l in Hy.
  rewrite Hy, <- app_assoc, app_assoc, <- (zlen_enc_header (u16 counter) 256 (zlen names) 0 0), <- zlen_app.
  rewrite query_zone_generate_spec;
    [|done|done|fold E; subst rest; rewrite zlen_app in Hold; unfold zlen in *; lia|fold E; lia].
  ret_step. cbn [z_len]. unfold packet. fold E Hdr. rewrite !zlen_app. change (zlen Hdr) with 12.
  rewrite u32_id by lia. pair_eq. by rewrite <- !app_assoc.
Qed.

Lemma zlen_enc_names_bound names : 6 * zlen names <= zlen (enc_names names) \/ ~ Forall valid_name names.
Proof.
  destruct (decide (Forall (fun n => 2 <= zlen (enc_name n)) names)) as [H|H].
  - left. induction H as [|n names Hn _ IH]; [done|].
    rewrite enc_names_cons, zlen_app, zlen_enc_question, zlen_cons. cbn [query_of fst]. lia.
  - right. intros Hv. apply H. eapply Forall_impl; [exact Hv|]. intros n Hn%enc_name_size. lia.
Qed.

Lemma query_of_valid names : Forall valid_name names -> Forall valid_question (query_of <$> names).
Proof. intros H. apply Forall_fmap. eapply Forall_impl; [exact H|]. intros n Hn. by split. Qed.

Lemma enc_header_eq id names : zlen names < 65536 ->
  packet id names = enc_header id 256 (zlen (query_of <$> names)) 0 0 ++ enc_questions (query_of <$> names).
Proof. intros. unfold packet. unfold zlen at 2. by rewrite length_fmap. Qed.

Lemma alloc_block junk size st :
  0 <= size <= 16384 -> exists b st', alloc junk size st = Ret (b, st') /\
    exists rest, data b = replicate (Z.to_nat size) 0 ++ rest.
Proof.
  intros Hs. unfold alloc, pmalloc. assert (exists c, chunk size = Ret c) as [c ->].
  { unfold chunk. repeat case_match; eauto; lia. }
  ret_step. eauto.
Qed.

(** A block of [size] fresh zeros holds the packet and the second writing. *)
Lemma request_init_alloc names size off rest counter :
  Forall valid_name names -> 0 <= off -> off + 12 + 2 * zlen (enc_names names) <= size <= 16384 ->
  exists tail r, request_init (replicate (Z.to_nat size) 0 ++ rest) off (name_text <$> names) counter =
      Ret (replicate (Z.to_nat off) 0 ++ packet (u16 counter) names ++ tail, r, (id16 counter).2) /\
    req_valid r = true /\ req_len r = zlen (packet (u16 counter) names) /\
    Request.hosts r = name_text <$> names /\ exists h, header r = Some h /\ Message.id h = u16 counter.
Proof.
  intros Hv Hoff Hs. destruct (zlen_enc_names_bound names) as [Hb|]; [|done].
  pose proof (zlen_nonneg (enc_names names)). set (n := 12 + 2 * zlen (enc_names names)).
  replace (Z.to_nat size) with (Z.to_nat off + (Z.to_nat n + Z.to_nat (size - off - n)))%nat by lia.
  rewrite !replicate_add, <- !app_assoc. set (pre := replicate (Z.to_nat off) 0).
  assert (off = zlen pre) as Ho by (unfold pre; rewrite zlen_replicate; lia). rewrite Ho.
  rewrite request_init_spec; [|done|lia|rewrite zlen_replicate; lia|rewrite zlen_replicate; lia].
  eexists _, _. split; [reflexivity|]. split_and!; [done..|]. by eexists.
Qed.

Lemma length_replicate_off off : 0 <= off -> zlen (replicate (Z.to_nat off) 0) = off.
Proof. intros. rewrite zlen_replicate. lia. Qed.

Lemma tcp_request_of_spec (junk : Z -> list Z) (st : pool) (names : list (list str)) (counter : Z) :
  Forall valid_name names -> 12 + 2 * zlen (enc_names names) <= 1024 ->
  exists m r st' tail, tcp_request_of junk st (name_text <$> names) counter =
      Ret (m, r, (id16 counter).2, st') /\
    let p := packet (u16 counter) names in
    m = be_bytes 2 (zlen p) ++ p ++ tail /\ req_len r = zlen p + SIZE_HEADER /\
    read 2 m 0 0 = Ret (req_len r - SIZE_HEADER) /\
    exists h, header r = Some h /\ Message.id h = u16 counter.
Proof.
  intros Hv Hs. unfold tcp_request_of, SIZE_HEADER.
  destruct (alloc_block junk (1024 + 2) st) as (b & st' & -> & rest & Hb); [lia|]. ret_step. rewrite Hb.
  destruct (request_init_alloc names (1024 + 2) 2 rest counter Hv) as (tail & r & -> & Hr & Hl & Hh & h & Hhd & Hid); [lia|lia|].
  ret_step. rewrite Hl. pose proof (zlen_packet (u16 counter) names) as Hp.
  pose proof (zlen_nonneg (enc_names names)). set (p := packet _ _) in *.
  rewrite (u16_id (zlen p)) by lia.
  pose proof (to_bytes_spec 2 [] [0; 0] [] 0 (zlen p) ltac:(lia) eq_refl eq_refl) as E.
  rewrite app_nil_r in E. cbn [app] in E. rewrite E, app_nil_r. ret_step.
  pose proof (copy_zero_offset (be_bytes 2 (zlen p)) [] [0; 0] (p ++ tail) eq_refl) as C.
  change (zlen (be_bytes 2 (zlen p))) with 2 in C. change (zlen []) with 0 in C.
  change (replicate (Z.to_nat 2) 0 ++ p ++ tail) with ([] ++ [0; 0] ++ p ++ tail). rewrite C. ret_step.
  eexists _, _, _, tail. split; [reflexivity|]. cbn [req_len]. rewrite u32_id by lia. split_and!; [done|done| |by exists h].
  rewrite Z.add_simpl_r. by rewrite (read_field 2 [] (p ++ tail)) by (done || lia).
Qed.

Lemma udp_request_of_spec (junk : Z -> list Z) (st : pool) (names : list (list str)) (counter : Z) :
  Forall valid_name names -> 12 + 2 * zlen (enc_names names) <= 1024 ->
  exists m r st' tail, udp_request_of junk st (name_text <$> names) counter =
      Ret (m, r, (id16 counter).2, st') /\
    let p := packet (u16 counter) names in
    m = p ++ tail /\ req_len r = zlen p /\ exists h, header r = Some h /\ Message.id h = u16 counter.
Proof.
  intros Hv Hs. unfold udp_request_of.
  destruct (alloc_block junk 1024 st) as (b & st' & -> & rest & Hb); [lia|]. ret_step. rewrite Hb.
  destruct (request_init_alloc names 1024 0 rest counter Hv) as (tail & r & -> & Hr & Hl & Hh & h & Hhd & Hid); [lia|lia|].
  ret_step. eexists _, _, _, tail. split; [reflexivity|]. split_and!; [done|done|by exists h].
Qed.

(** ** Properties *)

(** Claim C31. A request built from valid host names that fit the 1024-byte block
    is, as the receiver parses it from its own block, the same request: valid, with
    the id drawn from the generator, the host names in order and the type A. *)
Theorem request_roundtrip (junk : Z -> list Z) (st : pool) (names : list (list str)) (counter : Z) :
  names <> [] -> Forall valid_name names -> 12 + 2 * zlen (enc_names names) <= 1024 ->
  exists m r st', udp_request_of junk st (name_text <$> names) counter =
      Ret (m, r, (id16 counter).2, st') /\
    forall m' data n, at_off m' data (take (Z.to_nat (req_len r)) m) -> req_len r <= n < 2 ^ 32 ->
      exists r' h, request_parse m' data (request_new n) n = Ret r' /\ req_valid r' = true /\
        Request.hosts r' = name_text <$> names /\ header r' = Some h /\
        Message.id h = (id16 counter).1 /\ questionCount h = zlen names /\
        get_query_type r' = Ret TYPE_A.
Proof.
  intros Hne Hv Hs. unfold udp_request_of.
  destruct (alloc_block junk 1024 st) as (b & st' & -> & rest & Hb); [lia|]. ret_step. rewrite Hb.
  destruct (request_init_alloc names 1024 0 rest counter Hv) as (tail & r & -> & Hr & Hl & Hh & _); [lia|lia|].
  ret_step. eexists _, _, _. split; [reflexivity|]. rewrite Hl. change (replicate (Z.to_nat 0) 0) with (@nil Z).
  rewrite app_nil_l.
  rewrite take_app_length' by (unfold zlen; lia). intros m' d n Hat Hn.
  destruct (zlen_enc_names_bound names) as [Hbd|]; [|done].
  rewrite zlen_packet in Hn. pose proof (zlen_nonneg names).
  assert (zlen (query_of <$> names) = zlen names) as Hq by (unfold zlen; by rewrite length_fmap).
  rewrite enc_header_eq in Hat by lia. eexists _, _. split.
  { apply (request_parse_spec m' d n _ _ _ _ _ _ Hat); [apply u16_range|lia|lia|lia| | |].
    - by destruct names.
    - by apply query_of_valid.
    - done. }
  cbn [req_valid hosts header Message.id questionCount id16 fst]. split_and!; try done.
  - rewrite <- list_fmap_compose. done.
  - unfold get_query_type. cbn [query_zone querys]. by destruct names.
Qed.

Lemma request_roundtrip_witness :
  let names := [[lit "www"; lit "baidu"; lit "com"]; [lit "cn"]] in
  exists m r st', udp_request_of (fun _ => []) (Pool 0 0) (name_text <$> names) (-2) =
      Ret (m, r, (id16 (-2)).2, st') /\
    forall m' data n, at_off m' data (take (Z.to_nat (req_len r)) m) -> req_len r <= n < 2 ^ 32 ->
      exists r' h, request_parse m' data (request_new n) n = Ret r' /\ req_valid r' = true /\
        Request.hosts r' = name_text <$> names /\ header r' = Some h /\
        Message.id h = (id16 (-2)).1 /\ questionCount h = zlen names /\
        get_query_type r' = Ret TYPE_A.
Proof.
  apply (request_roundtrip (fun _ => []) (Pool 0 0) [[lit "www"; lit "baidu"; lit "com"]; [lit "cn"]] (-2)).
  - done.
  - repeat first [constructor | split]; try done; unfold zlen; simpl; lia.
  - vm_compute. congruence.
Defined.

(** A TCP request is the UDP packet behind its length: the block starts
    with the packet's size in two big-endian bytes, then the packet, and the length
    reported is two more than the packet's. *)
Theorem tcp_request_framed (junk : Z -> list Z) (st : pool) (names : list (list str)) (counter : Z) :
  Forall valid_name names -> 12 + 2 * zlen (enc_names names) <= 1024 ->
  exists m r st' tail, tcp_request_of junk st (name_text <$> names) counter =
      Ret (m, r, (id16 counter).2, st') /\
    let p := packet (u16 counter) names in
    m = be_bytes 2 (zlen p) ++ p ++ tail /\ req_len r = zlen p + SIZE_HEADER /\
    read 2 m 0 0 = Ret (req_len r - SIZE_HEADER).
Proof.
  intros Hv Hs. destruct (tcp_request_of_spec junk st names counter Hv Hs) as (m & r & st' & tail & E & Hm & Hl & Hr & _).
  by exists m, r, st', tail.
Qed.

Lemma tcp_request_framed_witness :
  let names := [[lit "baidu"; lit "com"]] in
  exists m r st' tail, tcp_request_of (fun n => replicate (Z.to_nat n) 255) (Pool 0 0) (name_text <$> names) 7 =
      Ret (m, r, (id16 7).2, st') /\
    let p := packet (u16 7) names in
    m = be_bytes 2 (zlen p) ++ p ++ tail /\ req_len r = zlen p + SIZE_HEADER /\
    read 2 m 0 0 = Ret (req_len r - SIZE_HEADER).
Proof.
  apply (tcp_request_framed (fun n => replicate (Z.to_nat n) 255) (Pool 0 0) [[lit "baidu"; lit "com"]] 7).
  - repeat first [constructor | split]; try done; unfold zlen; simpl; lia.
  - vm_compute. congruence.
Defined.

(** Claim C27. Parsing a request ends on every received block; when it accepts,
    there is a first question and its type is readable, and there is at most one host
    per announced question; when it rejects (short message, bad name, no
    question) the question zone is left null, so asking for the type of a rejected
    request dereferences a null pointer. *)
Theorem request_parse_outcome (m : list Z) (data len n : Z) :
  bytes_ok m ->
  terminates (request_parse m data (request_new len) n) /\
  (n <= 12 -> request_parse m data (request_new len) n = Ret (UdpRequest false n None None [])) /\
  forall r, request_parse m data (request_new len) n = Ret r ->
    if req_valid r
    then exists h t, header r = Some h /\ get_query_type r = Ret t /\
           zlen (Request.hosts r) <= Z.max 0 (questionCount h)
    else query_zone r = None /\ get_host r = [] /\ get_query_type r = Undef NullDeref.
Proof.
  intros Hm. unfold request_parse, DEFAULT_LEN. split_and!.
  - case_match; [|done]. apply bind_terminates; [auto with outcome|]. intros [h|] _; [|done].
    apply bind_terminates; [auto with outcome|]. intros z _. by repeat case_match.
  - intros Hn. by zb.
  - intros r H. case_match; [|by simplify_eq]. apply bind_ret in H as ([h|] & Eh & H); [|by simplify_eq].
    apply bind_ret in H as (z & Ez & H). apply query_zone_parse_ok in Ez as [Hok Hlen].
    destruct (negb (z_valid z)); [by simplify_eq|]. destruct (Z.eqb_spec (zlen (querys z)) 0); [by simplify_eq|].
    simplify_eq. cbn [req_valid header hosts request_new app]. unfold get_query_type. cbn [query_zone].
    destruct (querys z) as [|q qs] eqn:Eq; [done|]. eexists _, _. split_and!; [done..|].
    etransitivity; [|exact Hlen]. unfold zlen, query_hosts. clear. generalize (q :: qs). intros l.
    induction l as [|x l IH]; [done|]. cbn [omap list_omap length].
    repeat case_match; simpl in *; lia.
Qed.

Lemma request_parse_outcome_witness :
  let m := [0; 1; 1; 0; 0; 0; 0; 0; 0; 0; 0; 0; 0] in
  terminates (request_parse m 0 (request_new 1024) 13) /\
  (13 <= 12 -> request_parse m 0 (request_new 1024) 13 = Ret (UdpRequest false 13 None None [])) /\
  forall r, request_parse m 0 (request_new 1024) 13 = Ret r ->
    if req_valid r
    then exists h t, header r = Some h /\ get_query_type r = Ret t /\
           zlen (Request.hosts r) <= Z.max 0 (questionCount h)
    else query_zone r = None /\ get_host r = [] /\ get_query_type r = Undef NullDeref.
Proof.
  apply (request_parse_outcome [0; 1; 1; 0; 0; 0; 0; 0; 0; 0; 0; 0; 0] 0 1024 13).
  repeat constructor; lia.
Defined.
