(* ===== verification/Response.v ===== *)
(** * DNS responses ([src/src/core/protocol/response.h], [response.cpp])

    The response built from a record for a request, and the parser of the
    responses received over UDP and TCP. *)
From S2P Require Import Prelude Bytes Pool Text Domain Message Request.

(** ** Data *)
Record udp_response := UdpResponse {
  rsp_valid : bool;
  rsp_len : Z;
  rsp_header : option dns_header;
  queryZone : option dns_query_zone;
  answerZones : list dns_resource_zone;
  ips : list Z
}.

Definition response_new (len : Z) : udp_response := UdpResponse true len None None [] [].

Definition fist_ip (r : udp_response) : Z := match ips r with ip :: _ => ip | [] => 0 end.

(** [fist_ip_area()] and [ip_areas()], from what [get_area] says of an address. *)
Definition fist_ip_area (get_area : Z -> str) (r : udp_response) : str := get_area (fist_ip r).
Definition ip_areas (get_area : Z -> str) (r : udp_response) : list str := get_area <$> ips r.

(** ** Building *)

(** The loop that writes the answers, until [MAX_LEN] would be reached. *)
Fixpoint response_answers (m : list Z) (curData finalLen expire : Z) (todo : list Z)
    (zones : list dns_resource_zone) (out : list Z)
    : outcome (list Z * Z * list dns_resource_zone * list Z) :=
  match todo with
  | [] => Ret (m, finalLen, zones, out)
  | ip :: todo' =>
      if MAX_LEN <=? u32 (finalLen + DEFAULT_SINGLE_IP_LEN) then Ret (m, finalLen, zones, out)
      else
        '(m, zone) ← resource_zone_generate m curData ip expire;
        response_answers m (curData + rz_len zone) (finalLen + rz_len zone) expire todo'
          (zones ++ [zone]) (out ++ [ip])
  end.

(** [udp_response(request, record, expire)]; [src] is the request's block and
    [record_ips] the addresses of the record. *)
Definition udp_response_of (junk : Z -> list Z) (st : pool) (src : list Z) (request : udp_request)
    (record_ips : list Z) (expire : Z) : outcome (list Z * udp_response * pool) :=
  '(b, st) ← alloc junk 1024 st;
  let ips := if 5 <=? zlen record_ips then take 5 record_ips else record_ips in
  match header request with
  | None => Undef NullDeref
  | Some h =>
      let hostCount := match query_zone request with Some z => zlen (querys z) | None => 0 end in
      '(m, ah) ← generateAnswer (data b) 0 (Message.id h) hostCount (zlen ips);
      let finalLen := h_len ah in
      '(m, zone, finalLen) ←
        match query_zone request with
        | Some z =>
            '(m, zone) ← query_zone_copy src z m finalLen;
            Ret (m, Some zone, finalLen + z_len zone)
        | None => Ret (m, None, finalLen)
        end;
      '(m, finalLen, zones, out) ← response_answers m finalLen finalLen expire ips [] [];
      Ret (m, UdpResponse true (u32 finalLen) (Some ah) zone zones out, st)
  end.

(** ** Parsing *)

(** The state of [udp_response::parse]: the object, the two cursors, the size of
    the answers read, and [successParsedAll]. *)
Record parse_state := ParseState {
  resp : udp_response;
  dataZone : Z;
  restUnParseSize : Z;
  answerZonesSize : Z;
  successParsedAll : bool
}.

Definition resp_invalid (r : udp_response) : udp_response :=
  UdpResponse false 0 (rsp_header r) (queryZone r) (answerZones r) (ips r).

(** [for (i = answerZones.size(); i < answerCount && is_valid(); i++)] *)
Fixpoint parse_answers (m : list Z) (data max_readable : Z) (n : nat) (s : parse_state)
    : outcome parse_state :=
  match n with
  | O => Ret s
  | S n' =>
      let r := resp s in
      if rsp_valid r then
        answer ← resource_zone_parse m data max_readable (u64 (max_readable - restUnParseSize s));
        let s' :=
          if rz_valid answer then
            ParseState (UdpResponse (rsp_valid r) (rsp_len r) (rsp_header r) (queryZone r)
                          (answerZones r ++ [answer]) (ips r ++ ipv4s answer))
              (dataZone s + rz_len answer) (u64 (restUnParseSize s - rz_len answer))
              (answerZonesSize s + rz_len answer) (successParsedAll s)
          else ParseState (resp_invalid r) (dataZone s) (restUnParseSize s) (answerZonesSize s)
                 (successParsedAll s) in
        parse_answers m data max_readable n' s'
      else Ret s
  end.

(** One turn of the [while] of [udp_response::parse]. *)
Definition parse_turn (m : list Z) (data max_readable : Z) (s : parse_state)
    : outcome (parse_state + udp_response) :=
  let r := resp s in
  let with_resp r' := ParseState r' (dataZone s) (restUnParseSize s) (answerZonesSize s)
                        (successParsedAll s) in
  let finished := ParseState r (dataZone s) (restUnParseSize s) (answerZonesSize s) true in
  if rsp_valid r && negb (successParsedAll s) then
    match rsp_header r with
    | None =>
        h ← header_parse m (dataZone s) (u32 (restUnParseSize s));
        match h with
        | None => Ret (inl (with_resp (resp_invalid r)))
        | Some h =>
            Ret (inl (ParseState
              (UdpResponse (rsp_valid r) (rsp_len r) (Some h) (queryZone r) (answerZones r) (ips r))
              (dataZone s + h_len h) (u64 (restUnParseSize s - h_len h)) (answerZonesSize s)
              (successParsedAll s)))
        end
    | Some h =>
        if responseCode h =? 0 then
          match queryZone r with
          | None =>
              z ← query_zone_parse m (dataZone s) (restUnParseSize s) (questionCount h);
              if negb (z_valid z) then Ret (inl (with_resp (resp_invalid r)))
              else Ret (inl (ParseState
                (UdpResponse (rsp_valid r) (rsp_len r) (Some h) (Some z) (answerZones r) (ips r))
                (dataZone s + z_len z) (u64 (restUnParseSize s - z_len z)) (answerZonesSize s)
                (successParsedAll s)))
          | Some _ =>
              if zlen (answerZones r) <? answerCount h then
                s ← parse_answers m data max_readable
                      (Z.to_nat (answerCount h - zlen (answerZones r)))
                      (ParseState r (dataZone s + answerZonesSize s)
                         (u64 (restUnParseSize s - answerZonesSize s)) (answerZonesSize s)
                         (successParsedAll s));
                Ret (inl s)
              else Ret (inl finished)
          end
        else Ret (inl finished)
    end
  else Ret (inr r).

(** [udp_response::parse(max_readable)]: header, questions, answers and the turn that
    notices the end are at most four turns; the fifth leaves the loop. *)
Definition response_parse (m : list Z) (data : Z) (r : udp_response) (max_readable : Z)
    : outcome udp_response :=
  let r := UdpResponse true (rsp_len r) (rsp_header r) (queryZone r) (answerZones r) (ips r) in
  r ← (if DEFAULT_LEN <? max_readable
       then while_loop 5 (parse_turn m data max_readable) (ParseState r data max_readable 0 false)
       else Ret (resp_invalid r));
  Ret (UdpResponse (rsp_valid r) (u32 max_readable) (rsp_header r) (queryZone r) (answerZones r) (ips r)).

(** ** TCP *)
Record tcp_response := TcpResponse {
  tr_valid : bool;
  tr_len : Z;
  data_size : Z;
  tr_response : option udp_response
}.

(** [tcp_response::parse(maxReadable)] *)
Definition tcp_response_parse (m : list Z) (data : Z) (t : tcp_response) (maxReadable : Z)
    : outcome tcp_response :=
  if 2 <? maxReadable then
    ds ← read 2 m data (data_size t);
    if ds =? maxReadable - 2 then
      response ← response_parse m (data + 2) (response_new ds) ds;
      if rsp_valid response
      then Ret (TcpResponse (tr_valid t) (u32 maxReadable) ds (Some response))
      else Ret (TcpResponse false (u32 maxReadable) ds (tr_response t))
    else Ret (TcpResponse false (u32 maxReadable) ds (tr_response t))
  else Ret (TcpResponse false (u32 maxReadable) (data_size t) (tr_response t)).

(** ** Specification *)
Definition enc_answers (expire : Z) (ips : list Z) : list Z :=
  concat ((fun ip => enc_answer ip expire) <$> ips).

(** The addresses whose answers fit when [used] bytes are written. *)
Fixpoint fit_ips (used : Z) (ips : list Z) : list Z :=
  match ips with
  | [] => []
  | ip :: ips' => if 512 <=? used + 16 then [] else ip :: fit_ips (used + 16) ips'
  end.

Definition response_packet (id flags expire : Z) (qs : list question) (count : Z) (ips : list Z) : list Z :=
  enc_header id flags (zlen qs) count 0 ++ enc_questions qs ++ enc_answers expire ips.

Fixpoint parsed_answers (off : Z) (name : str) (ttl : Z) (ips : list Z) : list dns_resource_zone :=
  match ips with
  | [] => []
  | ip :: ips' => parsed_answer off name ip ttl :: parsed_answers (off + 16) name ttl ips'
  end.

(** ** Lemmas: building *)
Lemma zlen_enc_answers expire ips : zlen (enc_answers expire ips) = 16 * zlen ips.
Proof.
  unfold enc_answers. induction ips as [|ip ips IH]; [done|].
  rewrite fmap_cons, concat_cons, zlen_app, IH, zlen_enc_answer, zlen_cons. lia.
Qed.

Lemma zlen_fit_ips used ips : zlen (fit_ips used ips) <= zlen ips.
Proof.
  revert used. induction ips as [|ip ips IH]; intros used; [done|]. simpl. case_match.
  - rewrite zlen_cons. pose proof (zlen_nonneg ips). change (zlen (@nil Z)) with 0. lia.
  - rewrite !zlen_cons. specialize (IH (used + 16)). lia.
Qed.

Lemma fit_ips_all used ips : used + 16 * zlen ips < 512 -> fit_ips used ips = ips.
Proof.
  revert used. induction ips as [|ip ips IH]; intros used H; [done|]. rewrite zlen_cons in H.
  pose proof (zlen_nonneg ips). simpl. zb. by rewrite IH by lia.
Qed.

Lemma response_answers_spec expire todo : forall pre old post zones out,
  zlen old = 16 * zlen (fit_ips (zlen pre) todo) -> zlen pre < 2 ^ 31 ->
  exists zs, response_answers (pre ++ old ++ post) (zlen pre) (zlen pre) expire todo zones out =
    Ret (pre ++ enc_answers expire (fit_ips (zlen pre) todo) ++ post,
         zlen pre + zlen old, zones ++ zs, out ++ fit_ips (zlen pre) todo).
Proof.
  induction todo as [|ip todo IH]; intros pre old post zones out Hold Hp; cbn [response_answers fit_ips] in *.
  { exists []. rewrite (zlen_0_nil old Hold).
    rewrite !app_nil_r. change (zlen (@nil Z)) with 0. by rewrite Z.add_0_r. }
  pose proof (zlen_nonneg pre). unfold MAX_LEN, DEFAULT_SINGLE_IP_LEN.
  change (2 + 2 + 2 + 4 + 2 + 4) with 16. rewrite u32_id by lia.
  destruct (Z.leb_spec 512 (zlen pre + 16)).
  { exists []. rewrite (zlen_0_nil old Hold).
    rewrite !app_nil_r. change (zlen (@nil Z)) with 0. by rewrite Z.add_0_r. }
  rewrite zlen_cons in Hold. pose proof (zlen_nonneg (fit_ips (zlen pre + 16) todo)).
  rewrite <- (take_drop 16 old), <- app_assoc.
  rewrite resource_zone_generate_spec by (rewrite length_take; unfold zlen in *; lia). ret_step.
  cbn [rz_len]. unfold DEFAULT_SINGLE_IP_LEN. change (2 + 2 + 2 + 4 + 2 + 4) with 16.
  assert (zlen (pre ++ enc_answer ip expire) = zlen pre + 16) as Hz by (by rewrite zlen_app).
  rewrite <- Hz, app_assoc in *.
  edestruct (IH (pre ++ enc_answer ip expire) (drop 16 old) post) as [zs E].
  { unfold zlen in *. rewrite length_drop. lia. } { lia. }
  rewrite E. eexists (_ :: zs). rewrite Hz. unfold enc_answers. rewrite fmap_cons, concat_cons.
  rewrite <- !app_assoc. cbn [app]. pair_eq. unfold zlen in *. rewrite length_app, length_take, length_drop. lia.
Qed.

(** The response written for a request whose questions are known. *)
Lemma udp_response_of_spec junk st src request h z record_ips expire qs :
  header request = Some h -> query_zone request = Some z -> zlen (querys z) = zlen qs ->
  at_off src (z_data z) (enc_questions qs) -> z_len z = zlen (enc_questions qs) ->
  zlen qs < 65536 -> 12 + zlen (enc_questions qs) <= 932 ->
  let sent := if 5 <=? zlen record_ips then take 5 record_ips else record_ips in
  let fit := fit_ips (12 + zlen (enc_questions qs)) sent in
  exists tail r st', udp_response_of junk st src request record_ips expire =
      Ret (response_packet (Message.id h) 32896 expire qs (zlen sent) fit ++ tail, r, st') /\
    rsp_valid r = true /\ ips r = fit /\
    rsp_len r = zlen (response_packet (Message.id h) 32896 expire qs (zlen sent) fit).
Proof.
  intros Hh Hz Hq Hat Hzl Hqs Hs sent fit. unfold udp_response_of.
  destruct (alloc_block junk 1024 st) as (b & st' & -> & rest & Hb); [lia|]. ret_step. rewrite Hb, Hh, Hz.
  assert (zlen sent <= 5) as Hsent.
  { unfold sent. case_match; [|lia]. unfold zlen. rewrite length_take. lia. }
  fold sent. pose proof (zlen_nonneg sent). pose proof (zlen_nonneg (enc_questions qs)) as HQ0. pose proof (zlen_nonneg qs).
  pose proof (zlen_fit_ips (12 + zlen (enc_questions qs)) sent) as Hfit. fold fit in Hfit.
  pose proof (zlen_nonneg fit). set (Q := enc_questions qs) in *. set (A := enc_answers expire fit).
  assert (zlen A = 16 * zlen fit) as HA by apply zlen_enc_answers.
  replace (Z.to_nat 1024) with (12 + (length Q + (length A + (1012 - length Q - length A))))%nat
    by (unfold zlen in *; lia).
  rewrite !replicate_add, <- !app_assoc. unfold generateAnswer.
  rewrite <- (app_nil_l (replicate 12 0 ++ _)), header_generate_spec by done. ret_step. cbn [h_len app].
  rewrite (u16_id (zlen sent)), Hq, (u16_id (zlen qs)) by lia. change (u16 0) with 0.
  set (H12 := enc_header _ _ _ _ _). assert (zlen H12 = 12) as H12l by done.
  unfold query_zone_copy. rewrite Hzl. destruct Hat as (sp & sq & Esrc & Eoff).
  rewrite <- H12l, (copy_spec src H12 (replicate (length Q) 0) _ (z_data z) (zlen H12) Q sp sq);
    [|done|done|done|by rewrite length_replicate].
  ret_step. cbn [z_len]. rewrite app_assoc, <- zlen_app.
  edestruct (response_answers_spec expire sent (H12 ++ Q) (replicate (length A) 0)) as [zs E];
    [rewrite zlen_replicate, zlen_app, H12l; fold fit; unfold zlen in *; lia|rewrite zlen_app; lia|].
  rewrite E. ret_step. rewrite zlen_app, H12l in *. fold fit. eexists _, _, _. split.
  { unfold response_packet. fold Q A H12. rewrite <- !app_assoc. reflexivity. }
  cbn [rsp_valid ips rsp_len app]. split_and!; [done..|].
  unfold response_packet. fold Q A H12. rewrite !zlen_app, H12l, zlen_replicate, u32_id by (unfold zlen in *; lia).
  unfold zlen. lia.
Qed.

(** ** Lemmas: parsing *)
Lemma zlen_parsed_answers off name ttl ips : zlen (parsed_answers off name ttl ips) = zlen ips.
Proof. revert off. induction ips as [|ip ips IH]; intros off; [done|]. simpl. by rewrite !zlen_cons, IH. Qed.

Lemma parse_answers_spec m data mx consume name ttl ips : forall s,
  at_off m (data + (mx - restUnParseSize s)) (enc_answers ttl ips) ->
  parseRe 20 m data mx 12 (u64 (mx - 12)) [] = Ret (consume, name) -> consume <> 0 ->
  12 < mx - restUnParseSize s -> 16 * zlen ips <= restUnParseSize s -> mx < 2 ^ 32 ->
  Forall ip_ok ips -> 0 <= ttl < 2 ^ 32 -> rsp_valid (resp s) = true ->
  parse_answers m data mx (length ips) s =
  Ret (ParseState
    (UdpResponse true (rsp_len (resp s)) (rsp_header (resp s)) (queryZone (resp s))
       (answerZones (resp s) ++ parsed_answers (data + (mx - restUnParseSize s)) name ttl ips)
       (Response.ips (resp s) ++ ips))
    (dataZone s + 16 * zlen ips) (restUnParseSize s - 16 * zlen ips)
    (answerZonesSize s + 16 * zlen ips) (successParsedAll s)).
Proof.
  induction ips as [|ip ips IH]; intros s Hat Hname Hc Hb Hr Hmx Hips Httl Hv.
  { cbn [length parse_answers parsed_answers]. change (16 * zlen (@nil Z)) with 0.
    rewrite !app_nil_r, !Z.add_0_r, Z.sub_0_r. clear - Hv. destruct s as [[] ? ? ? ?]. cbn in *. by subst. }
  cbn [length parse_answers]. rewrite Hv. rewrite zlen_cons in *. pose proof (zlen_nonneg ips).
  unfold enc_answers in Hat. rewrite fmap_cons, concat_cons in Hat. apply at_off_app in Hat as [Ha Hat].
  rewrite zlen_enc_answer in Hat. inversion Hips as [|? ? Hip Hips']; subst.
  rewrite (u64_id (mx - _)) by lia.
  rewrite (resource_zone_parse_spec m data mx _ consume name ip ttl) by (done || lia). ret_step.
  cbn [parsed_answer rz_valid rz_len ipv4s]. rewrite (u64_id (restUnParseSize s - 16)) by lia.
  rewrite IH; cbn [resp restUnParseSize dataZone answerZonesSize successParsedAll rsp_valid rsp_len
    rsp_header queryZone answerZones Response.ips]; try (done || lia).
  - cbn [parsed_answers]. rewrite <- !app_assoc.
    replace (data + (mx - (restUnParseSize s - 16))) with (data + (mx - restUnParseSize s) + 16) by lia.
    f_equal. f_equal; lia.
  - replace (data + (mx - (restUnParseSize s - 16))) with (data + (mx - restUnParseSize s) + 16) by lia. done.
Qed.

Lemma parse_turn_stop m data mx s :
  rsp_valid (resp s) && negb (successParsedAll s) = false ->
  parse_turn m data mx s = Ret (inr (resp s)).
Proof. intros H. unfold parse_turn. by rewrite H. Qed.

Lemma turn_header m data mx len p rest asz h :
  header_parse m p (u32 rest) = Ret (Some h) ->
  parse_turn m data mx (ParseState (response_new len) p rest asz false) =
  Ret (inl (ParseState (UdpResponse true len (Some h) None [] []) (p + h_len h) (u64 (rest - h_len h))
              asz false)).
Proof.
  intros H. unfold parse_turn. cbn [resp response_new rsp_valid rsp_len rsp_header queryZone answerZones Response.ips dataZone restUnParseSize answerZonesSize successParsedAll andb negb].
  rewrite H. reflexivity.
Qed.

Lemma turn_query m data mx len p rest asz h z :
  responseCode h = 0 -> query_zone_parse m p rest (questionCount h) = Ret z -> z_valid z = true ->
  parse_turn m data mx (ParseState (UdpResponse true len (Some h) None [] []) p rest asz false) =
  Ret (inl (ParseState (UdpResponse true len (Some h) (Some z) [] []) (p + z_len z) (u64 (rest - z_len z))
              asz false)).
Proof.
  intros Hc H Hv. unfold parse_turn. cbn [resp response_new rsp_valid rsp_len rsp_header queryZone answerZones Response.ips dataZone restUnParseSize answerZonesSize successParsedAll andb negb].
  rewrite Hc. cbn [Z.eqb]. rewrite H. ret_step. rewrite Hv. reflexivity.
Qed.

Lemma turn_answers m data mx r p rest asz h z s :
  rsp_valid r = true -> rsp_header r = Some h -> responseCode h = 0 -> queryZone r = Some z ->
  zlen (answerZones r) < answerCount h ->
  parse_answers m data mx (Z.to_nat (answerCount h - zlen (answerZones r)))
    (ParseState r (p + asz) (u64 (rest - asz)) asz false) = Ret s ->
  parse_turn m data mx (ParseState r p rest asz false) = Ret (inl s).
Proof.
  intros Hv Hh Hc Hz Hl H. unfold parse_turn. cbn [resp successParsedAll dataZone restUnParseSize answerZonesSize].
  rewrite Hv, Hh, Hc, Hz. cbn [andb negb Z.eqb]. zb. by rewrite H.
Qed.

Lemma turn_finish m data mx r p rest asz h z :
  rsp_valid r = true -> rsp_header r = Some h -> responseCode h = 0 -> queryZone r = Some z ->
  answerCount h <= zlen (answerZones r) ->
  parse_turn m data mx (ParseState r p rest asz false) = Ret (inl (ParseState r p rest asz true)).
Proof.
  intros Hv Hh Hc Hz Hl. unfold parse_turn. cbn [resp successParsedAll dataZone restUnParseSize answerZonesSize].
  rewrite Hv, Hh, Hc, Hz. cbn [andb negb Z.eqb]. by zb.
Qed.

(** The first name of a packet, as the answers point at it. *)
Lemma first_name_spec m data mx (q : question) qs rest :
  at_off m (data + 12) (enc_questions (q :: qs) ++ rest) -> valid_name q.1 ->
  12 + zlen (enc_name q.1) <= mx < 2 ^ 32 ->
  parseRe 20 m data mx 12 (u64 (mx - 12)) [] = Ret (zlen (enc_name q.1), name_text q.1).
Proof.
  intros (pre & post & -> & Hoff) Hv Hmx. pose proof (enc_name_size q.1 Hv). rewrite u64_id by lia.
  eapply (parse_name 19 _ pre q.1); [|done|done|lia].
  rewrite enc_questions_cons. unfold enc_question. by rewrite <- !app_assoc.
Qed.

(** A successful packet: header without error code, its questions, its answers. *)
Lemma response_parse_spec m data mx id flags ttl (q : question) qs ips len :
  at_off m data (response_packet id flags ttl (q :: qs) (zlen ips) ips) ->
  Forall valid_question (q :: qs) -> Forall ip_ok ips -> 0 <= ttl < 2 ^ 32 ->
  0 <= id < 65536 -> 0 <= flags < 65536 -> Z.land flags 15 = 0 ->
  zlen (q :: qs) < 65536 -> zlen ips < 65536 ->
  12 + zlen (enc_questions (q :: qs)) + 16 * zlen ips <= mx < 2 ^ 32 ->
  response_parse m data (response_new len) mx =
  Ret (UdpResponse true mx
    (Some (DnsHeader data 12 id (zlen ips) (zlen (q :: qs)) 0 (Z.land (flags / 256) 128)
            (Z.shiftr (Z.land (flags / 256) 120) 3)))
    (Some (DnsQueryZone (data + 12) (zlen (enc_questions (q :: qs))) true
             (parsed_questions (data + 12) (q :: qs)) []))
    (parsed_answers (data + 12 + zlen (enc_questions (q :: qs))) (name_text q.1) ttl ips) ips).
Proof.
  intros Hat Hv Hips Httl Hid Hfl Hrc Hqn Hin Hmx. set (Q := q :: qs) in *.
  pose proof (zlen_nonneg ips). assert (0 <= zlen (A := question) Q < 65536) as HQn by (split; [apply zlen_nonneg|exact Hqn]).
  assert (6 <= zlen (enc_questions Q)) as HQ by (by apply enc_questions_pos).
  unfold response_packet in Hat. apply at_off_app in Hat as [Hh Hat]. rewrite zlen_enc_header in Hat.
  pose proof Hat as Hqa. apply at_off_app in Hat as [Hq Ha].
  assert (valid_name q.1) as Hn by (by inversion Hv as [|? ? [? _] _]).
  pose proof (enc_name_size q.1 Hn) as Hns.
  assert (zlen (enc_name q.1) <= zlen (enc_questions Q)) as Hnq.
  { unfold Q. rewrite enc_questions_cons, zlen_app, zlen_enc_question.
    pose proof (zlen_nonneg (enc_questions qs)). lia. }
  pose proof (first_name_spec m data mx q qs _ Hqa Hn ltac:(lia)) as Hname.
  unfold response_parse, DEFAULT_LEN. zb. cbn [while_loop].
  pose proof (header_parse_spec m data mx _ _ _ _ _ Hh ltac:(lia) Hid Hfl HQn ltac:(lia)) as Eh.
  rewrite Hrc in Eh. set (r0 := response_new len).
  change (UdpResponse true (rsp_len r0) (rsp_header r0) (queryZone r0) (answerZones r0) (Response.ips r0))
    with (response_new len).
  rewrite (turn_header m data mx len data mx 0 _ ltac:(rewrite u32_id by lia; exact Eh)). ret_step. cbn [h_len].
  rewrite (u64_id (mx - 12)) by lia.
  erewrite turn_query; [|done|exact (query_zone_parse_spec m (data + 12) (mx - 12) Q Hq Hv ltac:(lia))|done].
  ret_step. cbn [z_len].
  rewrite (u64_id (mx - 12 - _)) by lia. destruct ips as [|ip ips].
  { erewrite turn_finish by done. ret_step. rewrite parse_turn_stop by done. ret_step. by rewrite u32_id by lia. }
  assert (0 < zlen (ip :: ips)) as Hpos by (rewrite zlen_cons; pose proof (zlen_nonneg ips); lia).
  erewrite turn_answers; [|done..| |].
  2:{ cbn [answerCount answerZones]. change (zlen (@nil dns_resource_zone)) with 0. done. }
  2:{ cbn [answerCount answerZones]. change (zlen (@nil dns_resource_zone)) with 0.
      rewrite !Z.sub_0_r, (u64_id (mx - 12 - _)) by lia.
      replace (Z.to_nat (zlen (ip :: ips))) with (length (ip :: ips)) by (unfold zlen; lia).
      apply (parse_answers_spec m data mx (zlen (enc_name q.1)) (name_text q.1) ttl); cbn [restUnParseSize resp rsp_valid];
        [|done|lia|lia|lia|lia|done|done|done].
      by replace (data + (mx - (mx - 12 - zlen (enc_questions Q)))) with (data + 12 + zlen (enc_questions Q)) by lia. }
  ret_step. cbn [resp restUnParseSize rsp_len rsp_header queryZone answerZones Response.ips successParsedAll].
  replace (data + (mx - (mx - 12 - zlen (enc_questions Q)))) with (data + 12 + zlen (enc_questions Q)) by lia.
  erewrite turn_finish; [|done..|].
  2:{ cbn [answerCount answerZones]. rewrite app_nil_l, zlen_parsed_answers. lia. }
  ret_step. rewrite parse_turn_stop by done. ret_step. rewrite u32_id by lia. done.
Qed.

(** ** Lemmas: every outcome of parsing *)
Definition ips_of (r : udp_response) : Prop := Response.ips r = concat (ipv4s <$> answerZones r).

Lemma parse_answers_inv m data mx n : forall s s',
  parse_answers m data mx n s = Ret s' ->
  (ips_of (resp s) -> ips_of (resp s')) /\ rsp_header (resp s') = rsp_header (resp s) /\
  queryZone (resp s') = queryZone (resp s) /\ successParsedAll s' = successParsedAll s /\
  (rsp_valid (resp s') = true ->
     rsp_valid (resp s) = true /\ zlen (answerZones (resp s')) = zlen (answerZones (resp s)) + Z.of_nat n).
Proof.
  induction n as [|n IH]; intros s s' H; cbn [parse_answers] in H.
  { injection H as <-. split_and!; auto. intros ?. split; [done|lia]. }
  destruct (rsp_valid (resp s)) eqn:Hv; [|injection H as <-; split_and!; auto; congruence].
  apply bind_ret in H as (a & Ea & H). clear Ea.
  destruct (rz_valid a); apply IH in H as (H1 & H2 & H3 & H4 & H5);
    cbn [resp resp_invalid rsp_valid rsp_header queryZone answerZones successParsedAll] in H1, H2, H3, H4, H5;
    (split_and!; [|exact H2|exact H3|exact H4|]).
  - intros Hi. apply H1. unfold ips_of in *. cbn. by rewrite Hi, fmap_app, concat_app, fmap_cons, concat_cons, app_nil_r.
  - intros Hv'. destruct (H5 Hv') as [_ Hl]. rewrite zlen_app, zlen_cons in Hl.
    change (zlen (@nil dns_resource_zone)) with 0 in Hl. split; [done|lia].
  - done.
  - intros Hv'. by destruct (H5 Hv').
Qed.

Definition parse_inv (s : parse_state) : Prop :=
  let r := resp s in
  ips_of r /\ (rsp_header r = None -> queryZone r = None /\ answerZones r = []) /\
  (queryZone r = None -> answerZones r = []) /\
  (forall h, rsp_header r = Some h -> responseCode h <> 0 -> queryZone r = None) /\
  (successParsedAll s = true -> exists h, rsp_header r = Some h /\
     (responseCode h = 0 -> is_Some (queryZone r) /\ answerCount h <= zlen (answerZones r))).

Lemma parse_turn_inv m data mx s s' :
  parse_inv s -> parse_turn m data mx s = Ret (inl s') -> parse_inv s'.
Proof.
  unfold parse_turn, parse_inv. intros (I1 & I2 & I3 & I4 & I5) H.
  destruct (rsp_valid (resp s)) eqn:Hv; [|done]. destruct (successParsedAll s) eqn:Hd; [done|]. cbn [andb negb] in H.
  destruct (rsp_header (resp s)) as [h|] eqn:Hh.
  - destruct (Z.eqb_spec (responseCode h) 0) as [Hc|Hc].
    + destruct (queryZone (resp s)) as [z|] eqn:Hz.
      * destruct (Z.ltb_spec (zlen (answerZones (resp s))) (answerCount h)).
        -- apply bind_ret in H as (s2 & E & H). injection H as <-. apply parse_answers_inv in E as (E1 & E2 & E3 & E4 & _).
           cbn [resp successParsedAll] in E1, E2, E3, E4. rewrite E2, E3, E4, Hh, Hz.
           split_and!; auto; try done.
        -- injection H as <-. cbn. rewrite Hh, Hz. split_and!; try done. intros _. eexists. split; [done|]. intros _.
           split; [done|lia].
      * apply bind_ret in H as (z & Ez & H). destruct (negb (z_valid z)); injection H as <-; cbn; rewrite ?Hh, ?Hz;
          split_and!; try done; try congruence.
    + injection H as <-. cbn. rewrite Hh. split_and!; try done. intros _. eexists. split; [done|]. done.
  - destruct (I2 eq_refl) as [Iz Ia]. apply bind_ret in H as ([h|] & Eh & H); injection H as <-; cbn; rewrite ?Hh, ?Iz; split_and!; try done; congruence.
Qed.

Lemma parse_answers_terminates m data mx n s : bytes_ok m -> terminates (parse_answers m data mx n s).
Proof.
  intros Hm. revert s. induction n as [|n IH]; intros s; [done|]. cbn [parse_answers]. case_match; [|done].
  apply bind_terminates; [auto with outcome|]. intros a _. apply IH.
Qed.

Lemma parse_turn_terminates m data mx s : bytes_ok m -> terminates (parse_turn m data mx s).
Proof.
  intros Hm. unfold parse_turn. repeat case_match; try done;
    (apply bind_terminates; [auto using parse_answers_terminates with outcome|intros ? _; by repeat case_match]).
Qed.

(** What is left to read: the end, the header, the questions, the answers. *)
Definition parse_left (s : parse_state) : nat :=
  let r := resp s in
  if rsp_valid r && negb (successParsedAll s)
  then 1 + (if rsp_header r is Some _ then 0 else 1) + (if queryZone r is Some _ then 0 else 1) +
       (match rsp_header r with Some h => if zlen (answerZones r) <? answerCount h then 1 else 0 | None => 1 end)
  else 0.

Lemma parse_turn_less m data mx s s' :
  parse_turn m data mx s = Ret (inl s') -> (parse_left s' < parse_left s)%nat.
Proof.
  unfold parse_turn, parse_left. intros H.
  destruct (rsp_valid (resp s)) eqn:Hv; [|done]. destruct (successParsedAll s) eqn:Hd; [done|]. cbn [andb negb] in *.
  destruct (rsp_header (resp s)) as [h|] eqn:Hh.
  - destruct (responseCode h =? 0); [|injection H as <-; cbn; rewrite Hv; cbn; lia].
    destruct (queryZone (resp s)) as [z|] eqn:Hz.
    + destruct (Z.ltb_spec (zlen (answerZones (resp s))) (answerCount h)) as [Hl|].
      * apply bind_ret in H as (s2 & E & H). injection H as <-.
        destruct (rsp_valid (resp s2)) eqn:Hv2; [|cbn; lia].
        apply parse_answers_inv in E as (_ & E2 & E3 & _ & E5). destruct (E5 Hv2) as [_ E4].
        cbn [resp] in E2, E3, E4. rewrite E2, E3, Hh, Hz, E4.
        zb. destruct (negb _); cbn; lia.
      * injection H as <-. cbn. rewrite Hv. cbn. lia.
    + apply bind_ret in H as (z & Ez & H). destruct (negb (z_valid z)); injection H as <-; cbn; rewrite ?Hv, ?Hd; cbn; lia.
  - apply bind_ret in H as ([h|] & Eh & H); injection H as <-; cbn; rewrite ?Hv, ?Hd; cbn; [|lia].
    repeat case_match; lia.
Qed.

Definition reply_ips (record_ips : list Z) : list Z :=
  if 5 <=? zlen record_ips then take 5 record_ips else record_ips.

Lemma reply_ips_spec l : reply_ips l = take 5 l /\ zlen (reply_ips l) <= 5.
Proof.
  unfold reply_ips, zlen. case_match; rewrite ?length_take; [split; [done|lia]|]. rewrite take_ge by lia. split; [done|lia].
Qed.

(** What the server's parser keeps of a query packet. *)
Lemma server_request src data n id flags an ar qs request len :
  at_off src data (enc_header id flags (zlen qs) an ar ++ enc_questions qs) ->
  0 <= id < 65536 -> 0 <= flags < 65536 -> 0 <= an < 65536 -> zlen qs < 65536 ->
  qs <> [] -> Forall valid_question qs -> 12 + zlen (enc_questions qs) <= n < 2 ^ 32 ->
  request_parse src data (request_new len) n = Ret request ->
  exists h z, header request = Some h /\ Message.id h = id /\ query_zone request = Some z /\
    zlen (querys z) = zlen qs /\ at_off src (z_data z) (enc_questions qs) /\
    z_len z = zlen (enc_questions qs).
Proof.
  intros H Hid Hfl Han Hqs Hne Hv Hn. rewrite (request_parse_spec _ _ _ _ _ _ _ _ _ H) by done. intros [= <-].
  eexists _, _. split_and!; try done.
  - cbn [querys]. apply zlen_parsed_questions.
  - apply at_off_app in H as [_ H]. done.
Qed.

(** The bytes are the answer to the query [id] for [qs] with these addresses. *)
Definition decodes_as (bs : list Z) (id : Z) (qs : list question) (ips : list Z) (ttl : Z) : Prop :=
  forall len m data, at_off m data bs ->
    exists r h z, response_parse m data (response_new len) (zlen bs) = Ret r /\
      rsp_valid r = true /\ rsp_header r = Some h /\ Message.id h = id /\ qr h = 128 /\
      queryZone r = Some z /\ querys z = parsed_questions (data + 12) qs /\
      Response.ips r = ips /\ Forall (fun a => liveTime a = ttl) (answerZones r).

Lemma reply_decodes (junk : Z -> list Z) (st : pool) (src : list Z) (data n len id flags an ar expire : Z)
    (qs : list question) (record_ips : list Z) (request : udp_request) :
  at_off src data (enc_header id flags (zlen qs) an ar ++ enc_questions qs) ->
  0 <= id < 65536 -> 0 <= flags < 65536 -> 0 <= an < 65536 ->
  qs <> [] -> Forall valid_question qs -> zlen qs < 65536 ->
  12 + zlen (enc_questions qs) <= n < 2 ^ 32 -> zlen (enc_questions qs) < 420 ->
  request_parse src data (request_new len) n = Ret request ->
  Forall ip_ok record_ips -> 0 <= expire < 2 ^ 32 ->
  exists m r st', udp_response_of junk st src request record_ips expire = Ret (m, r, st') /\
    rsp_len r < 512 /\ zlen (take (Z.to_nat (rsp_len r)) m) = rsp_len r /\
    decodes_as (take (Z.to_nat (rsp_len r)) m) id qs (take 5 record_ips) expire.
Proof.
  intros Hat Hid Hfl Han Hne Hv Hqs Hn Hsize Hreq Hips Hexp.
  destruct (server_request _ _ _ _ _ _ _ _ _ _ Hat Hid Hfl Han Hqs Hne Hv Hn Hreq) as
    (h & z & Hh & Hi & Hz & Hzl & Hza & Hzn).
  edestruct (udp_response_of_spec junk st src request h z record_ips expire qs) as (tail & r & st' & E & Hrv & Hri & Hrl);
    [done..|lia|]. fold (reply_ips record_ips) in *. destruct (reply_ips_spec record_ips) as [Et Hl5].
  set (sent := reply_ips record_ips) in *. pose proof (zlen_nonneg sent). pose proof (zlen_nonneg (enc_questions qs)).
  assert (fit_ips (12 + zlen (enc_questions qs)) sent = sent) as Hf by (apply fit_ips_all; lia).
  rewrite Hf, Hi in *. set (p := response_packet _ _ _ _ _ _) in *.
  assert (zlen p = 12 + zlen (enc_questions qs) + 16 * zlen sent) as Hp
    by (unfold p, response_packet; rewrite !zlen_app, zlen_enc_answers, zlen_enc_header; lia).
  eexists _, _, _. split; [exact E|]. split; [lia|]. rewrite Hrl, take_app_length' by (unfold zlen; lia). split; [done|].
  intros len' m' data' Hat'. destruct qs as [|q qs]; [done|].
  assert (Forall ip_ok sent) as Hs by (rewrite Et; by apply Forall_take).
  eexists _, _, _. split; [apply (response_parse_spec m' data' (zlen p) id 32896 expire q qs sent); try done; lia|].
  cbn [rsp_valid rsp_header Message.id qr queryZone querys Response.ips answerZones]. split_and!; try done.
  generalize (data' + 12 + zlen (enc_questions (q :: qs))). generalize sent. clear.
  intros l. induction l as [|ip l IH]; intros off; constructor; [done|apply IH].
Qed.

(** ** Properties *)

(** Claim C10. The whole exchange: a query packet is parsed by the server, answered
    from a record, and the client's parser of the answer returns the id of the
    query, the same names and types, and the first five addresses of the record with
    the time to live given, when the packet stays below 512 bytes. *)
Theorem response_roundtrip (junk : Z -> list Z) (st : pool) (src : list Z) (data n id flags an ar expire : Z)
    (qs : list question) (record_ips : list Z) (request : udp_request) :
  at_off src data (enc_header id flags (zlen qs) an ar ++ enc_questions qs) ->
  0 <= id < 65536 -> 0 <= flags < 65536 -> 0 <= an < 65536 ->
  qs <> [] -> Forall valid_question qs -> zlen qs < 65536 ->
  12 + zlen (enc_questions qs) <= n < 2 ^ 32 -> zlen (enc_questions qs) < 420 ->
  request_parse src data (request_new n) n = Ret request ->
  Forall ip_ok record_ips -> 0 <= expire < 2 ^ 32 ->
  exists m r st', udp_response_of junk st src request record_ips expire = Ret (m, r, st') /\
    rsp_len r < 512 /\
    forall m' data', at_off m' data' (take (Z.to_nat (rsp_len r)) m) ->
      exists r' h z, response_parse m' data' (response_new (rsp_len r)) (rsp_len r) = Ret r' /\
        rsp_valid r' = true /\ rsp_header r' = Some h /\ Message.id h = id /\ qr h = 128 /\
        queryZone r' = Some z /\ querys z = parsed_questions (data' + 12) qs /\
        Response.ips r' = take 5 record_ips /\
        Forall (fun a => liveTime a = expire) (answerZones r').
Proof.
  intros Hat Hid Hfl Han Hne Hv Hqs Hn Hsize Hreq Hips Hexp.
  destruct (reply_decodes junk st src data n n id flags an ar expire qs record_ips request) as (m & r & st' & E & Hl & Hz & Hd);
    try done. exists m, r, st'. split; [done|]. split; [done|]. unfold decodes_as in Hd. rewrite Hz in Hd. apply Hd.
Qed.

Lemma response_roundtrip_witness :
  let qs := [([lit "www"; lit "baidu"; lit "com"], 1)] in
  let src := [9] ++ (enc_header 4660 256 1 0 0 ++ enc_questions qs) ++ [] in
  exists request, request_parse src 1 (request_new 31) 31 = Ret request /\
  exists m r st', udp_response_of (fun _ => []) (Pool 0 0) src request [16843009; 134744072] 600 = Ret (m, r, st') /\
    rsp_len r < 512 /\
    forall m' data', at_off m' data' (take (Z.to_nat (rsp_len r)) m) ->
      exists r' h z, response_parse m' data' (response_new (rsp_len r)) (rsp_len r) = Ret r' /\
        rsp_valid r' = true /\ rsp_header r' = Some h /\ Message.id h = 4660 /\ qr h = 128 /\
        queryZone r' = Some z /\ querys z = parsed_questions (data' + 12) qs /\
        Response.ips r' = take 5 [16843009; 134744072] /\
        Forall (fun a => liveTime a = 600) (answerZones r').
Proof.
  intros qs src. eexists. split; [vm_compute; reflexivity|].
  eapply (response_roundtrip (fun _ => []) (Pool 0 0) src 1 31 4660 256 0 0 600 qs).
  - exists [9], []. by split.
  - lia.
  - lia.
  - lia.
  - done.
  - repeat first [constructor | split]; try done; unfold zlen; simpl; lia.
  - reflexivity.
  - split; vm_compute; congruence.
  - reflexivity.
  - vm_compute. reflexivity.
  - repeat constructor; unfold ip_ok; lia.
  - lia.
Defined.

(** When the questions leave no room for an answer below 512 bytes, the
    response still announces one answer per address in its header but carries
    none: the answer count is written before the loop that stops at the limit. *)
Theorem response_count_mismatch (junk : Z -> list Z) (st : pool) (src : list Z) (data n id flags an ar expire : Z)
    (qs : list question) (record_ips : list Z) (request : udp_request) :
  at_off src data (enc_header id flags (zlen qs) an ar ++ enc_questions qs) ->
  0 <= id < 65536 -> 0 <= flags < 65536 -> 0 <= an < 65536 ->
  qs <> [] -> Forall valid_question qs -> zlen qs < 65536 ->
  12 + zlen (enc_questions qs) <= n < 2 ^ 32 -> 484 <= zlen (enc_questions qs) <= 920 ->
  request_parse src data (request_new n) n = Ret request -> record_ips <> [] ->
  exists m r st', udp_response_of junk st src request record_ips expire = Ret (m, r, st') /\
    Response.ips r = [] /\ rsp_len r = 12 + zlen (enc_questions qs) /\
    exists h, header_parse m 0 12 = Ret (Some h) /\ answerCount h = Z.min 5 (zlen record_ips).
Proof.
  intros Hat Hid Hfl Han Hne Hv Hqs Hn Hsize Hreq Hips.
  destruct (server_request _ _ _ _ _ _ _ _ _ _ Hat Hid Hfl Han Hqs Hne Hv Hn Hreq) as
    (h & z & Hh & Hi & Hz & Hzl & Hza & Hzn).
  edestruct (udp_response_of_spec junk st src request h z record_ips expire qs) as (tail & r & st' & E & Hrv & Hri & Hrl);
    [done..|lia|]. fold (reply_ips record_ips) in *. destruct (reply_ips_spec record_ips) as [Et Hl5].
  set (sent := reply_ips record_ips) in *. pose proof (zlen_nonneg sent). pose proof (zlen_nonneg qs).
  assert (fit_ips (12 + zlen (enc_questions qs)) sent = []) as Hf.
  { destruct sent; [done|]. cbn [fit_ips]. by zb. }
  rewrite Hf, Hi in *. eexists _, _, _. split; [exact E|]. split; [done|]. split.
  { rewrite Hrl. unfold response_packet. rewrite !zlen_app, zlen_enc_header. change (zlen (enc_answers _ [])) with 0. lia. }
  eexists. split.
  - apply (header_parse_spec _ 0 12 id 32896 (zlen qs) (zlen sent) 0); try done; [|lia].
    unfold response_packet. rewrite <- app_assoc. eexists [], _. done.
  - cbn [answerCount]. rewrite Et. unfold zlen. rewrite length_take. lia.
Qed.

Lemma response_count_mismatch_witness :
  let name := replicate 4 (replicate 60 97) in
  let qs := [(name, 1); (name, 1)] in
  let src := [] ++ (enc_header 1 256 2 0 0 ++ enc_questions qs) ++ [] in
  exists request, request_parse src 0 (request_new 510) 510 = Ret request /\
  exists m r st', udp_response_of (fun _ => []) (Pool 0 0) src request [1; 2] 60 = Ret (m, r, st') /\
    Response.ips r = [] /\ rsp_len r = 12 + zlen (enc_questions qs) /\
    exists h, header_parse m 0 12 = Ret (Some h) /\ answerCount h = Z.min 5 (zlen [1; 2]).
Proof.
  intros name qs src. eexists. split; [vm_compute; reflexivity|].
  eapply (response_count_mismatch (fun _ => []) (Pool 0 0) src 0 510 1 256 0 0 60 qs).
  - by exists [], [].
  - lia.
  - lia.
  - lia.
  - done.
  - assert (valid_question (name, 1)) as Hq; [|by repeat constructor].
    split; [|simpl; lia]. split; [done|]. split; [|vm_compute; congruence].
    apply Forall_replicate. split; [vm_compute; split; congruence|]. apply Forall_replicate. lia.
  - reflexivity.
  - vm_compute. split; congruence.
  - vm_compute. split; congruence.
  - vm_compute. reflexivity.
  - done.
Defined.

(** Claim C28. Parsing a response ends on every received block; it rejects 12 bytes or
    fewer; and what it accepts is consistent: there is a header, the addresses are those of the
    answers in order, and without an error code the question zone was read and all announced
    answers were. *)
Theorem response_parse_outcome (m : list Z) (data len mx : Z) :
  bytes_ok m ->
  terminates (response_parse m data (response_new len) mx) /\
  (mx <= 12 -> response_parse m data (response_new len) mx = Ret (UdpResponse false (u32 mx) None None [] [])) /\
  forall r, response_parse m data (response_new len) mx = Ret r -> rsp_valid r = true ->
    exists h, rsp_header r = Some h /\ Response.ips r = concat (ipv4s <$> answerZones r) /\
      (responseCode h <> 0 -> queryZone r = None /\ Response.ips r = []) /\
      (responseCode h = 0 -> is_Some (queryZone r) /\ answerCount h <= zlen (answerZones r)).
Proof.
  intros Hm. unfold response_parse, DEFAULT_LEN. split_and!.
  - apply bind_terminates; [|done]. case_match; [|done].
    apply (while_loop_terminates parse_left); [by intros; apply parse_turn_terminates|by intros; eapply parse_turn_less|].
    cbn. unfold parse_left. cbn. lia.
  - intros Hx. by zb.
  - intros r (r1 & E & H)%bind_ret Hv. injection H as <-. cbn [rsp_valid rsp_header Response.ips queryZone answerZones] in *.
    destruct (12 <? mx); [|injection E as <-; done].
    apply (while_loop_inv parse_inv (fun r => rsp_valid r = true -> exists h, rsp_header r = Some h /\ ips_of r /\
      (responseCode h <> 0 -> queryZone r = None /\ Response.ips r = []) /\
      (responseCode h = 0 -> is_Some (queryZone r) /\ answerCount h <= zlen (answerZones r)))) in E.
    + by apply E.
    + intros s s' I. by apply parse_turn_inv.
    + intros s r' (I1 & I2 & I3 & I4 & I5) H Hv'. unfold parse_turn in H.
      destruct (rsp_valid (resp s)) eqn:Hv1; [|cbn in H; injection H as <-; congruence].
      destruct (successParsedAll s); cbn [andb negb] in H.
      * injection H as <-. destruct (I5 eq_refl) as (h & Hh & Ha). exists h.
        do 2 (split; [done|]). split; [|exact Ha]. intros Hc. pose proof (I4 _ Hh Hc) as Hq. split; [done|].
        unfold ips_of in I1. by rewrite I1, (I3 Hq).
      * exfalso. repeat case_match; inv_ret; repeat case_match; done.
    + unfold parse_inv, ips_of. cbn. by split_and!.
    + done.
Qed.

Lemma response_parse_outcome_witness :
  let m := [0; 1; 129; 131; 0; 1; 0; 0; 0; 0; 0; 0; 0] in
  terminates (response_parse m 0 (response_new 1024) 13) /\
  (13 <= 12 -> response_parse m 0 (response_new 1024) 13 = Ret (UdpResponse false (u32 13) None None [] [])) /\
  forall r, response_parse m 0 (response_new 1024) 13 = Ret r -> rsp_valid r = true ->
    exists h, rsp_header r = Some h /\ Response.ips r = concat (ipv4s <$> answerZones r) /\
      (responseCode h <> 0 -> queryZone r = None /\ Response.ips r = []) /\
      (responseCode h = 0 -> is_Some (queryZone r) /\ answerCount h <= zlen (answerZones r)).
Proof.
  apply (response_parse_outcome [0; 1; 129; 131; 0; 1; 0; 0; 0; 0; 0; 0; 0] 0 1024 13). repeat constructor; lia.
Defined.

(** A TCP answer is accepted exactly when its two length bytes are the number
    of bytes received less two: a packet behind its length is parsed to its addresses, and
    a partial or overlong read of the same block is rejected. *)
Theorem tcp_response_framing (m : list Z) (data id flags expire n : Z) (qs : list question)
    (answers : list Z) (mx : Z) :
  let p := response_packet id flags expire qs (zlen answers) answers in
  at_off m data (be_bytes 2 (zlen p) ++ p) ->
  0 <= id < 65536 -> 0 <= flags < 65536 -> Z.land flags 15 = 0 ->
  qs <> [] -> Forall valid_question qs -> zlen qs < 65536 ->
  Forall ip_ok answers -> 0 <= expire < 2 ^ 32 -> zlen p < 65536 ->
  exists t, tcp_response_parse m data (TcpResponse true n 0 None) mx = Ret t /\
    (if mx =? zlen p + 2
     then tr_valid t = true /\ exists r, tr_response t = Some r /\ rsp_valid r = true /\ Response.ips r = answers
     else tr_valid t = false /\ tr_response t = None).
Proof.
  intros p Hat Hid Hfl Hrc Hne Hv Hqs Hips Hexp Hp. apply at_off_app in Hat as [Hl Hat].
  rewrite zlen_be_bytes in Hat. change (Z.of_nat 2) with 2 in Hat.
  assert (zlen p = 12 + zlen (enc_questions qs) + 16 * zlen answers) as Hz
    by (unfold p, response_packet; rewrite !zlen_app, zlen_enc_answers, zlen_enc_header; lia).
  pose proof (zlen_nonneg answers). pose proof (enc_questions_pos qs Hne Hv).
  unfold tcp_response_parse. destruct (Z.ltb_spec 2 mx).
  - cbn [data_size]. rewrite (at_off_read 2 _ _ _ Hl) by lia. ret_step. cbn [data_size].
    destruct (Z.eqb_spec mx (zlen p + 2)) as [->|].
    + replace (zlen p + 2 - 2) with (zlen p) by lia. rewrite Z.eqb_refl. destruct qs as [|q qs]; [done|].
      rewrite (response_parse_spec m (data + 2) (zlen p) id flags expire q qs answers) by (done || lia).
      ret_step. cbn [rsp_valid]. eexists. split; [done|]. split; [done|]. eexists. split; [done|]. done.
    + zb. eexists. split; [done|]. done.
  - zb. eexists. split; [done|]. done.
Qed.

Lemma tcp_response_framing_witness :
  let qs := [([lit "a"; lit "cn"], 1)] in
  let p := response_packet 7 33152 60 qs (zlen [16909060]) [16909060] in
  exists t, tcp_response_parse ([] ++ (be_bytes 2 (zlen p) ++ p) ++ []) 0 (TcpResponse true 1024 0 None) (zlen p + 2) = Ret t /\
    (if zlen p + 2 =? zlen p + 2
     then tr_valid t = true /\ exists r, tr_response t = Some r /\ rsp_valid r = true /\ Response.ips r = [16909060]
     else tr_valid t = false /\ tr_response t = None).
Proof.
  intros qs p. apply (tcp_response_framing ([] ++ (be_bytes 2 (zlen p) ++ p) ++ []) 0 7 33152 60 1024 qs [16909060] (zlen p + 2)).
  - by eexists [], [].
  - lia.
  - lia.
  - reflexivity.
  - done.
  - repeat first [constructor | split]; try done; unfold zlen; simpl; lia.
  - reflexivity.
  - repeat constructor; unfold ip_ok; lia.
  - lia.
  - reflexivity.
Defined.
