(* ===== verification/AreaRange.v ===== *)
(** * Area codes and address ranges ([src/src/common/main/utils/area_ip.h/.cpp])

    [area_ip_range] in its two textual forms (the tab-separated record and the
    CIDR block), the two-letter area codes, and the matching of an area
    against the patterns of a configuration. *)
From S2P Require Import Prelude Bytes Text.

(** ** [stoul] and [atoi] *)
Definition stoul (s : str) : outcome Z :=
  match strtol s with
  | None => Throw InvalidArgument
  | Some v => if Z.abs v <=? 18446744073709551615 then Ret (u64 v) else Throw OutOfRange
  end.

(** [atoi] on a C string: the [long] of [strtol] (which saturates) cut to an
    [int]; 0 when there is no number. *)
Definition atoi (s : str) : Z :=
  match strtol (cstr s) with
  | None => 0
  | Some v =>
      let l := Z.max (-9223372036854775808) (Z.min 9223372036854775807 v) in
      let w := u32 l in
      if w <? 2147483648 then w else w - 4294967296
  end.

(** ** Ranges *)
Record area_ip_range := AreaIpRange { start : Z; end_ : Z; area : str }.

Definition serialize (r : area_ip_range) : str :=
  to_string (start r) ++ lit "	" ++ to_string (end_ r) ++ lit "	" ++ area r.

Definition is_valid_range (r : area_ip_range) : bool :=
  (zlen (area r) =? 2) && (start r <=? end_ r) && negb (start r =? 0).

(** [area_ip_range::parse(str)]: an exception of [stoul] is caught, and leaves
    the fields assigned before it. *)
Definition range_parse (s : str) : outcome area_ip_range :=
  strs ← split s (lit "	");
  match strs with
  | [s0; s1; s2] =>
      match stoul s0 with
      | Ret v0 =>
          match stoul s1 with
          | Ret v1 => Ret (AreaIpRange (u32 v0) (u32 v1) s2)
          | _ => Ret (AreaIpRange (u32 v0) 0 [])
          end
      | _ => Ret (AreaIpRange 0 0 [])
      end
  | _ => Ret (AreaIpRange 0 0 [])
  end.

(** [area_ip_range::parse(rangeStr, area)] of a CIDR block. *)
Definition range_parse_cidr (rangeStr area : str) : outcome area_ip_range :=
  let index := find_first_of rangeStr 47 0 in
  head ← substr rangeStr 0 index;
  start ← str_to_ip head;
  tail ← substr rangeStr (u64 (index + 1)) (zlen rangeStr);
  ipNum ← shl32 1 (32 - atoi tail);
  Ret (AreaIpRange start (u32 (start + ipNum - 1)) area).

Definition in_range (ip : Z) (r : area_ip_range) : bool := (ip <=? end_ r) && (start r <=? ip).

(** ** Area codes *)
Definition is_upper (c : Z) : bool := (65 <=? c) && (c <=? 90).

Definition area_to_code (areaCode : str) : Z :=
  match areaCode with
  | [c0; c1] =>
      if (65 <=? c0) && (65 <=? c1) && (c1 <=? 90) && (c0 <=? 90)
      then let firstCode := u8 (c0 - 65) in
           let secondCode := u8 (c1 - 65) in
           u16 (firstCode * 26 + secondCode)
      else 0
  | _ => 0
  end.

Definition code_to_area (mark : Z) : str :=
  if (0 <=? mark) && (mark <=? 26 * 26 - 1) then [65 + mark / 26; 65 + mark mod 26] else [].

(** ** Matching *)

(** [areaReg[0]] of an empty string is its terminator. *)
Definition negated (areaReg : str) : bool := default 0 (head areaReg) =? 33.

Definition get_area_code (areaReg : str) : outcome str :=
  areaCode ← (if negated areaReg then substr areaReg 1 (u64 (zlen areaReg - 1)) else Ret areaReg);
  Ret (map toupper areaCode).

Fixpoint is_match_areas (areas : list str) (area : str) : outcome bool :=
  match areas with
  | [] => Ret false
  | areaReg :: rest =>
      let matchNot := negated areaReg in
      area_code ← get_area_code areaReg;
      if negb matchNot && bool_decide (area = area_code) then Ret true
      else if matchNot && negb (bool_decide (area = area_code)) then Ret true
      else is_match_areas rest area
  end.

(** ** Specification *)
Definition area_pattern (areaReg : str) : bool * str :=
  match areaReg with
  | c :: rest => if c =? 33 then (true, map toupper rest) else (false, map toupper areaReg)
  | [] => (false, [])
  end.

Definition matches (area areaReg : str) : bool :=
  let '(neg, code) := area_pattern areaReg in
  if neg then negb (bool_decide (area = code)) else bool_decide (area = code).

(** ** Lemmas *)
Lemma get_area_code_spec areaReg :
  zlen areaReg < npos -> get_area_code areaReg = Ret (area_pattern areaReg).2 /\
  negated areaReg = (area_pattern areaReg).1.
Proof.
  intros Hl. unfold get_area_code, negated, area_pattern. destruct areaReg as [|c rest]; [split; reflexivity|]. change (default 0 (head (c :: rest))) with c.
  rewrite zlen_cons in Hl. pose proof (zlen_nonneg rest). destruct (Z.eqb_spec c 33) as [->|]; [|by split].
  split; [|done]. rewrite zlen_cons, u64_id by (unfold npos in *; lia).
  pose proof (substr_at [33] rest (1 + zlen rest - 1) ltac:(lia)) as E. cbn [app] in E.
  change (zlen [33]) with 1 in E. rewrite E. ret_step. by rewrite take_ge by (unfold zlen; lia).
Qed.

Lemma is_match_areas_spec areas area :
  Forall (fun a => zlen a < npos) areas -> is_match_areas areas area = Ret (existsb (matches area) areas).
Proof.
  induction 1 as [|a areas Ha _ IH]; [done|]. cbn [is_match_areas existsb].
  destruct (get_area_code_spec a Ha) as [-> ->]. ret_step. unfold matches.
  destruct (area_pattern a) as [neg code]. cbn [fst snd].
  destruct neg, (bool_decide (area = code)); cbn [negb andb orb]; done.
Qed.

Lemma stoul_to_string n rest : 0 <= n < 2 ^ 64 -> stops rest -> stoul (to_string n ++ rest) = Ret n.
Proof.
  intros Hn Hr. unfold stoul. rewrite strtol_to_string by (done || lia). zb. by rewrite u64_id by lia.
Qed.

Lemma cstr_to_string n : 0 <= n -> cstr (to_string n) = to_string n.
Proof.
  intros Hn. apply cstr_no_nul. eapply Forall_impl; [by apply to_string_digits|].
  intros c Hc. unfold is_digit in Hc. lia.
Qed.

Lemma atoi_to_string n : 0 <= n <= 2147483647 -> atoi (to_string n) = n.
Proof.
  intros Hn. unfold atoi. rewrite cstr_to_string by lia.
  rewrite <- (app_nil_r (to_string n)), strtol_to_string by (done || lia).
  rewrite Z.min_r, Z.max_r by lia. rewrite u32_id by lia. by zb.
Qed.

Lemma to_string_short n : 0 <= n < 2 ^ 32 -> zlen (to_string n) <= 10.
Proof. intros Hn. pose proof (dec_digits_length 20 n 9). unfold zlen, to_string in *. lia. Qed.

Lemma zlen_ip_to_str ip : ip_ok ip -> zlen (ip_to_str ip) <= 15.
Proof.
  intros Hip. rewrite ip_to_str_segments by done. unfold ip_ok in Hip. rewrite !zlen_app.
  change (zlen (lit ".")) with 1.
  pose proof (zlen_to_string (ip / 2 ^ 24)). pose proof (zlen_to_string ((ip / 2 ^ 16) mod 256)).
  pose proof (zlen_to_string ((ip / 2 ^ 8) mod 256)). pose proof (zlen_to_string (ip mod 256)).
  pose proof (Z.mod_pos_bound (ip / 2 ^ 16) 256). pose proof (Z.mod_pos_bound (ip / 2 ^ 8) 256).
  pose proof (Z.mod_pos_bound ip 256). pose proof (Z.div_pos ip (2 ^ 24)).
  assert (ip / 2 ^ 24 < 256) by (apply Z.div_lt_upper_bound; lia). lia.
Qed.

Lemma cidr_parts ip bits tail area :
  ip_ok ip -> tail = to_string bits -> 0 <= bits <= 2147483647 ->
  range_parse_cidr (ip_to_str ip ++ lit "/" ++ tail) area =
  (ipNum ← shl32 1 (32 - bits); Ret (AreaIpRange ip (u32 (ip + ipNum - 1)) area)).
Proof.
  intros Hip -> Hb. unfold range_parse_cidr. change (lit "/") with [47].
  pose proof (zlen_ip_to_str ip Hip) as Hl. pose proof (to_string_short bits ltac:(lia)) as Hl2.
  pose proof (zlen_nonneg (ip_to_str ip)). pose proof (zlen_nonneg (to_string bits)).
  pose proof (find_first_of_at 47 [] (ip_to_str ip) (to_string bits) (ip_to_str_no_char ip 47 Hip eq_refl ltac:(done))) as E.
  cbn [app] in E. change (zlen []) with 0 in E. cbn [app]. rewrite E, Z.add_0_l.
  rewrite substr_head. ret_step. rewrite str_to_ip_roundtrip_lemma by done. ret_step.
  rewrite u64_id, cons_middle, app_assoc by lia.
  replace (zlen (ip_to_str ip) + 1) with (zlen (ip_to_str ip ++ [47])) by (by rewrite zlen_app).
  rewrite substr_at by apply zlen_nonneg. ret_step.
  rewrite take_ge by (rewrite zlen_app; unfold zlen; lia). by rewrite atoi_to_string.
Qed.

Lemma cidr_block_spec (ip bits : Z) (area : str) :
  ip_ok ip -> 0 <= bits <= 32 -> ip mod 2 ^ (32 - bits) = 0 ->
  if bits =? 0 then range_parse_cidr (ip_to_str ip ++ lit "/" ++ to_string bits) area = Undef BadShift
  else exists r, range_parse_cidr (ip_to_str ip ++ lit "/" ++ to_string bits) area = Ret r /\
    AreaRange.area r = area /\
    forall x, 0 <= x < 2 ^ 32 -> in_range x r = (x / 2 ^ (32 - bits) =? ip / 2 ^ (32 - bits)).
Proof.
  intros Hip Hb Hz. rewrite (cidr_parts ip bits) by (done || lia). destruct (Z.eqb_spec bits 0) as [->|Hb0]; [done|].
  rewrite shl32_ret, Z.shiftl_1_l by lia. ret_step. unfold ip_ok in Hip. set (N := 2 ^ (32 - bits)) in *.
  assert (0 < N) by (apply Z.pow_pos_nonneg; lia).
  assert (N <= 2 ^ 31) by (apply Z.pow_le_mono_r; lia).
  assert (N * 2 ^ bits = 2 ^ 32) as HN by (unfold N; rewrite <- Z.pow_add_r by lia; f_equal; lia).
  rewrite (u32_id N) by lia. pose proof (Z.div_mod ip N ltac:(lia)) as Hd. rewrite Hz, Z.add_0_r in Hd.
  assert (ip / N < 2 ^ bits) by (apply Z.div_lt_upper_bound; lia).
  assert (ip + N <= 2 ^ 32) by nia.
  eexists. split; [done|]. split; [done|]. intros x Hx. unfold in_range. cbn [start end_].
  rewrite u32_id by lia. set (q := ip / N) in *.
  pose proof (Z.div_mod x N ltac:(lia)) as Hdx. pose proof (Z.mod_pos_bound x N ltac:(lia)). set (qx := x / N) in *.
  destruct (Z.eqb_spec qx q) as [E|E].
  - rewrite andb_true_iff. rewrite E in *. lia.
  - rewrite andb_false_iff. assert (qx < q \/ q < qx) as [|] by lia; [right|left]; nia.
Qed.

(** ** Properties *)

(** Claim C40. A CIDR block [a.b.c.d/n] with [n] from 1 to 32 whose address has no host bits
    is read as exactly the addresses that share its first [n] bits; [/0] shifts by the
    width of the type, which C++ leaves undefined. *)
Theorem cidr_block (ip bits : Z) (area : str) :
  ip_ok ip -> 0 <= bits <= 32 -> ip mod 2 ^ (32 - bits) = 0 ->
  if bits =? 0 then range_parse_cidr (ip_to_str ip ++ lit "/" ++ to_string bits) area = Undef BadShift
  else exists r, range_parse_cidr (ip_to_str ip ++ lit "/" ++ to_string bits) area = Ret r /\
    AreaRange.area r = area /\
    forall x, 0 <= x < 2 ^ 32 -> in_range x r = (x / 2 ^ (32 - bits) =? ip / 2 ^ (32 - bits)).
Proof. apply cidr_block_spec. Qed.

Lemma cidr_block_witness :
  exists r, range_parse_cidr (ip_to_str 3232235520 ++ lit "/" ++ to_string 16) (lit "LAN") = Ret r /\
    area r = lit "LAN" /\
    forall x, 0 <= x < 2 ^ 32 -> in_range x r = (x / 2 ^ (32 - 16) =? 3232235520 / 2 ^ (32 - 16)).
Proof. apply (cidr_block 3232235520 16 (lit "LAN")); [unfold ip_ok; lia|lia|done]. Defined.

(** The record of a range reads back: [parse] inverts [serialize] for 32-bit
    bounds and an area without tab. *)
Theorem range_roundtrip (r : area_ip_range) :
  0 <= start r < 2 ^ 32 -> 0 <= end_ r < 2 ^ 32 -> 9 ∉ area r -> zlen (area r) < 2 ^ 32 ->
  range_parse (serialize r) = Ret r.
Proof.
  destruct r as [s e a]. cbn [start end_ area]. intros Hs He Ha Hl. unfold range_parse, serialize. cbn [start end_ area].
  change (lit "	") with [9]. set (text := to_string s ++ [9] ++ to_string e ++ [9] ++ a).
  assert (text = intercalate [9] [to_string s; to_string e; a]) as E by done.
  pose proof (to_string_short s Hs). pose proof (to_string_short e He).
  destruct (to_string_cons s ltac:(lia)) as (c & t & Ec & _).
  destruct (split_spec text [9]) as (parts & -> & Hp & Hf).
  { unfold text. by rewrite Ec. } { done. }
  { unfold text, npos. rewrite !zlen_app. change (zlen [9]) with 1. lia. }
  assert (parts = [to_string s; to_string e; a]) as ->.
  { apply (intercalate_inj 9).
    - intros ->. cbn in Hp. unfold text in Hp. by rewrite Ec in Hp.
    - done.
    - eapply Forall_impl; [exact Hf|]. intros p Hn Hin. apply Hn. by apply contains_char.
    - repeat constructor; [by apply to_string_no_char; [lia|]|by apply to_string_no_char; [lia|]|done].
    - by rewrite Hp. }
  ret_step. rewrite <- (app_nil_r (to_string s)), stoul_to_string by (done || lia).
  rewrite <- (app_nil_r (to_string e)), stoul_to_string by (done || lia).
  by rewrite !u32_id by lia.
Qed.

Lemma range_roundtrip_witness :
  range_parse (serialize (AreaIpRange 16777472 16778239 (lit "CN"))) = Ret (AreaIpRange 16777472 16778239 (lit "CN")).
Proof.
  apply (range_roundtrip (AreaIpRange 16777472 16778239 (lit "CN"))); [simpl; lia|simpl; lia| |reflexivity].
  vm_compute. intros H. repeat (apply elem_of_cons in H as [H|H]; [congruence|]). by apply not_elem_of_nil in H.
Defined.

(** Area codes and the numbers 0 to 675 are in bijection: each direction inverts the
    other on two capital letters, and every other text has code 0, which is also the code of AA. *)
Theorem area_code_bijection :
  (forall mark, 0 <= mark <= 675 -> area_to_code (code_to_area mark) = mark) /\
  (forall c0 c1, is_upper c0 = true -> is_upper c1 = true ->
     code_to_area (area_to_code [c0; c1]) = [c0; c1] /\ 0 <= area_to_code [c0; c1] <= 675) /\
  (forall mark, 675 < mark -> code_to_area mark = []) /\
  area_to_code (lit "AA") = 0 /\ area_to_code (lit "zz") = 0 /\ area_to_code (lit "LAN") = 0.
Proof.
  split_and!; [| | |done..].
  - intros mark Hm. unfold code_to_area. zb. cbn [andb area_to_code].
    assert (0 <= mark / 26 <= 25 /\ 0 <= mark mod 26 <= 25 /\ mark = 26 * (mark / 26) + mark mod 26) as (H1 & H2 & H3) by zdiv.
    zb. cbn [andb]. rewrite !u8_id, u16_id by lia. lia.
  - intros c0 c1. unfold is_upper. intros H0 H1. cbn [area_to_code]. zb. cbn [andb].
    rewrite !u8_id, u16_id by lia. split; [|lia]. unfold code_to_area. zb. cbn [andb].
    assert ((c0 - 65) * 26 + (c1 - 65) = (c1 - 65) + (c0 - 65) * 26) as -> by lia.
    rewrite Z.div_add, Z.mod_add, Z.div_small, Z.mod_small by lia. repeat f_equal; lia.
  - intros mark Hm. unfold code_to_area. zb. by rewrite andb_false_r.
Qed.

(** An area matches a list of patterns exactly when one of them accepts it: [XX]
    accepts that area in any letter case, [!XX] every other one. *)
Theorem match_areas_spec (areas : list str) (area : str) :
  Forall (fun a => zlen a < npos) areas ->
  is_match_areas areas area = Ret (existsb (matches area) areas).
Proof. apply is_match_areas_spec. Qed.

Lemma match_areas_spec_witness :
  is_match_areas [lit "us"; lit "!cn"] (lit "JP") = Ret (existsb (matches (lit "JP")) [lit "us"; lit "!cn"]).
Proof. apply (match_areas_spec [lit "us"; lit "!cn"] (lit "JP")). repeat constructor. Defined.
