(* ===== verification/AreaManager.v ===== *)
(** * The area manager ([manager] of [src/src/common/main/utils/area_ip.cpp])

    Which area an address belongs to: from the addresses resolved over the
    network ([net_caches]) first, then from the block lists of the areas
    ([default_caches]); missing knowledge is fetched by tasks posted to the
    manager's thread. A handler takes the clock it reads as an argument and
    returns the new state, with what it posted at the end of [posted]. *)
From S2P Require Import Prelude Bytes Text AreaRange.

(** ** State *)
Inductive post :=
  | PostLoadAreaIps (area_code : str)
  | PostLoadIpInfo (ip : Z).

Record area_ip_net_interface := NetInterface { url : str; area_json_path : str }.

Record manager := Manager {
  interfaces : list area_ip_net_interface;
  default_caches : gmap str (list area_ip_range);
  net_caches : gmap Z str;
  loading : gset Z;                       (* [ips] *)
  last_load_ip_info_time : Z;
  last_load_area_ips_time : Z;
  posted : list post
}.

Definition with_posted (st : manager) (p : post) : manager :=
  Manager (interfaces st) (default_caches st) (net_caches st) (loading st)
    (last_load_ip_info_time st) (last_load_area_ips_time st) (posted st ++ [p]).

(** The constructor: the four LAN blocks. *)
Definition lan_ranges : outcome (list area_ip_range) :=
  r1 ← range_parse_cidr (lit "192.168.0.0/16") (lit "LAN");
  r2 ← range_parse_cidr (lit "10.0.0.0/8") (lit "LAN");
  r3 ← range_parse_cidr (lit "172.16.0.0/16") (lit "LAN");
  r4 ← range_parse_cidr (lit "0.0.0.0/8") (lit "LAN");
  Ret [r1; r2; r3; r4].

Definition manager_init (conf : list area_ip_net_interface) (now : Z) : outcome manager :=
  ip_ranges ← lan_ranges;
  Ret (Manager conf {[ lit "LAN" := ip_ranges ]} ∅ ∅ now now []).

(** [area_ip_config::load(tree)], on the url and the path each child of
    [interfaces] holds. *)
Definition area_ip_config_load (nodes : list (str * str)) (conf : list area_ip_net_interface)
    : list area_ip_net_interface :=
  if bool_decide (nodes = []) then conf
  else omap (fun n => if bool_decide (n.1 = []) || bool_decide (n.2 = []) then None
                      else Some (NetInterface n.1 n.2)) nodes.

(** [load(json)]: [nodes] is what [read_json] finds below [interfaces], [None] when it
    throws [json_parser_error], which is caught. *)
Definition area_ip_config_load_json (nodes : option (list (str * str))) (conf : list area_ip_net_interface)
    : list area_ip_net_interface :=
  match nodes with Some nodes => area_ip_config_load nodes conf | None => conf end.

(** [area_ip_config()]: the two interfaces of the text it loads. *)
Definition area_ip_config_default : list area_ip_net_interface :=
  area_ip_config_load_json
    (Some [(lit "http://ip.taobao.com/outGetIpInfo?ip={IP}&accessKey=alibaba-inc", lit "data.country_id");
           (lit "http://ip-api.com/json/{IP}?lang=zh-CN", lit "countryCode")]) [].

Section lookup.
(** The order in which an [unordered_map] is iterated. *)
Context (iter : gmap str (list area_ip_range) -> list (str * list area_ip_range)).

(** ** Looking an address up *)
Definition is_area_ip_in (areaCode : str) (ip : Z) (caches : gmap str (list area_ip_range)) : bool :=
  match caches !! areaCode with
  | Some ranges => existsb (in_range ip) ranges
  | None => false
  end.

Definition get_area_in (ip : Z) (caches : gmap str (list area_ip_range)) : str :=
  if 0 <? ip
  then match List.find (fun it => is_area_ip_in it.1 ip caches) (iter caches) with
       | Some it => it.1
       | None => []
       end
  else [].

Definition get_area_net (ip : Z) (caches : gmap Z str) : str := default [] (caches !! ip).

(** [get_area(ip, async_load_net)] *)
Definition get_area (ip : Z) (async_load_net : bool) (st : manager) : str * manager :=
  let '(area, st) :=
    if negb (ip =? 0) then
      let area := get_area_net ip (net_caches st) in
      if bool_decide (area = []) then
        let area := get_area_in ip (default_caches st) in
        (area,
         if negb (bool_decide (area = lit "LAN")) && async_load_net
         then with_posted st (PostLoadIpInfo ip) else st)
      else (area, st)
    else ([], st) in
  (if bool_decide (area = []) then lit "default" else area, st).

(** ** Loading the block list of an area *)
Definition has_load_area_ips (areaCode : str) (st : manager) : bool :=
  bool_decide (is_Some (default_caches st !! areaCode)).

Definition async_load_area_ips (now : Z) (area_code : str) (st : manager) : manager :=
  if negb (has_load_area_ips area_code st) && (1000 <? u64 (now - last_load_area_ips_time st))
  then with_posted
         (Manager (interfaces st) (default_caches st) (net_caches st) (loading st)
            (last_load_ip_info_time st) now (posted st))
         (PostLoadAreaIps area_code)
  else st.

Fixpoint async_load_all (now : Z) (areas : list str) (st : manager) : outcome manager :=
  match areas with
  | [] => Ret st
  | area_reg :: rest =>
      area_code ← get_area_code area_reg;
      async_load_all now rest (async_load_area_ips now area_code st)
  end.

(** [is_area_ip(areas, ip)] *)
Definition is_area_ip (now : Z) (areas : list str) (ip : Z) (st : manager) : outcome (bool * manager) :=
  if bool_decide (areas = []) then Ret (true, st)
  else
    st ← async_load_all now areas st;
    let '(ip_area, st) := get_area ip true st in
    if bool_decide (ip_area = lit "default") then Ret (false, st)
    else b ← is_match_areas areas ip_area; Ret (b, st).

(** [is_area_ip(areaReg, ip)] on the text of an address. *)
Definition is_area_ip_str (now : Z) (areaReg ip : str) (st : manager) : outcome (bool * manager) :=
  addr ← str_to_ip ip; is_area_ip now [areaReg] addr st.
End lookup.

Section load.
(** The file system and the download of a list of blocks. *)
Context (file_exists : str -> bool) (http_get : str -> str -> Z * str)
  (open_lines : str -> option (list str)).

(** [download_area_ips]: the path of the list, empty when there is none. *)
Definition download_area_ips (area_code : str) : str :=
  let areaCodeLow := map tolower area_code in
  let filePath := lit "/etc/area-ips/" ++ area_code in
  if negb (file_exists filePath) then
    let result := http_get (lit "https://raw.githubusercontent.com")
      (lit "/herrbischoff/country-ip-blocks/master/ipv4/" ++ areaCodeLow ++ lit ".cidr") in
    if (result.1 =? 200) && negb (bool_decide (result.2 = [])) then filePath else []
  else filePath.

Fixpoint parse_lines (areaCode : str) (lines : list str) : outcome (list area_ip_range) :=
  match lines with
  | [] => Ret []
  | line :: rest =>
      if bool_decide (line = []) then parse_lines areaCode rest
      else r ← range_parse_cidr line areaCode; rs ← parse_lines areaCode rest; Ret (r :: rs)
  end.

(** [load_area_ips(area_code)] *)
Definition load_area_ips (area_code : str) (st : manager) : outcome (bool * manager) :=
  areaCode ← get_area_code area_code;
  if has_load_area_ips areaCode st then Ret (true, st)
  else
    let path := download_area_ips areaCode in
    if bool_decide (path = []) then Ret (false, st)
    else
      ip_ranges ← match open_lines path with Some lines => parse_lines areaCode lines | None => Ret [] end;
      let caches := if bool_decide (ip_ranges = []) then delete areaCode (default_caches st)
                    else <[areaCode := ip_ranges]> (default_caches st) in
      Ret (true, Manager (interfaces st) caches (net_caches st) (loading st)
                   (last_load_ip_info_time st) (last_load_area_ips_time st) (posted st)).
End load.

(** ** Resolving an address over the network *)
Definition NET_QPS : Z := 3.

(** The task posted by [async_load_ip_info_from_net]: [Some delay] when the
    lookup is scheduled, in milliseconds from now. *)
Definition schedule_load_ip_info (now ip : Z) (st : manager) : option Z * manager :=
  if bool_decide (ip ∈ loading st) then (None, st)
  else
    let last := if last_load_ip_info_time st <=? now then u64 (now + 1000 / NET_QPS)
                else u64 (last_load_ip_info_time st + 1000 / NET_QPS) in
    (Some (if now <? last then u64 (last - now) else 0),
     Manager (interfaces st) (default_caches st) (net_caches st) ({[ip]} ∪ loading st)
       last (last_load_area_ips_time st) (posted st)).

(** [do_load_ip_info(ip)], where [load_ip_info] asks the interfaces. *)
Definition do_load_ip_info (load_ip_info : Z -> str) (now ip : Z) (st : manager) : manager :=
  let net_area := get_area_net ip (net_caches st) in
  let st :=
    if bool_decide (net_area = []) then
      let area_code := load_ip_info ip in
      if negb (bool_decide (area_code = [])) then
        async_load_area_ips now area_code
          (Manager (interfaces st) (default_caches st) (<[ip := area_code]> (net_caches st)) (loading st)
             (last_load_ip_info_time st) (last_load_area_ips_time st) (posted st))
      else st
    else st in
  Manager (interfaces st) (default_caches st) (net_caches st) (loading st ∖ {[ip]})
    (last_load_ip_info_time st) (last_load_area_ips_time st) (posted st).

(** [string::find_first_of] with a set of characters. *)
Fixpoint find_first_in (set s : str) (i : Z) : Z :=
  match s with
  | [] => npos
  | c :: s' => if bool_decide (c ∈ set) then i else find_first_in set s' (i + 1)
  end.

(** [string::replace(pos, n, by)] *)
Definition replace (s : str) (pos n : Z) (by_ : str) : outcome str :=
  if pos <=? zlen s
  then Ret (take (Z.to_nat pos) s ++ by_ ++ drop (Z.to_nat (pos + n)) s)
  else Throw OutOfRange.

(** The host and the uri [load_ip_info(ip, interface)] asks. *)
Definition interface_request (interface : area_ip_net_interface) (ip : Z) : outcome (str * str) :=
  splits ← split_at (url interface) (lit "/")
             (u64 (find_first_in (lit "://") (url interface) 0 + 3)) 1;
  match splits with
  | host :: rest :: _ =>
      r ← replace rest (find rest (lit "{IP}") 0) 4 (ip_to_str ip);
      Ret (host, lit "/" ++ r)
  | _ => Undef VectorRange
  end.

Section net.
(** The HTTP client and the property tree of a JSON body: its parser ([None]
    for an exception), [get_child_optional] and [get] with a default. *)
Context {tree : Type} (http_get : str -> str -> Z * str) (read_json : str -> option tree)
  (get_child : tree -> str -> option tree) (get_str : tree -> str -> str).

Fixpoint json_walk (t : tree) (paths : list str) : str :=
  match paths with
  | [] => []
  | [p] => get_str t p
  | p :: rest => json_walk (default t (get_child t p)) rest
  end.

Definition load_ip_info_from (ip : Z) (interface : area_ip_net_interface) : outcome str :=
  '(host, uri) ← interface_request interface ip;
  let result := http_get host uri in
  area ← (if (result.1 =? 200) && negb (bool_decide (result.2 = []))
          then match read_json result.2 with
               | Some t => paths ← split (area_json_path interface) (lit "."); Ret (json_walk t paths)
               | None => Ret []
               end
          else Ret []);
  Ret (map toupper area).

(** [load_ip_info(ip)], on the interfaces in the order [shuffle] gave. *)
Fixpoint load_ip_info (ip : Z) (shuffled : list area_ip_net_interface) : outcome str :=
  match shuffled with
  | [] => Ret []
  | interface :: rest =>
      area ← load_ip_info_from ip interface;
      if negb (bool_decide (area = [])) then Ret area else load_ip_info ip rest
  end.
End net.

(** ** The file of resolved addresses *)
Definition net_record (ip : Z) (area : str) : str := ip_to_str ip ++ lit "	" ++ area.

(** The loop over [final_record], in the order of its iteration: the lines
    written and the new caches. *)
Fixpoint sync_records (records : list str) (out : list str) (new_caches : gmap Z str)
    : outcome (list str * gmap Z str) :=
  match records with
  | [] => Ret (out, new_caches)
  | it :: rest =>
      splits ← split it (lit "	");
      s0 ← match splits with s0 :: _ => Ret s0 | [] => Undef VectorRange end;
      uip ← str_to_ip s0;
      area ← match splits with _ :: a :: _ => Ret a | _ => Undef VectorRange end;
      if (zlen splits =? 2) && negb (uip =? 9) && negb (bool_decide (area = []))
      then sync_records rest (out ++ [it]) (<[uip := area]> new_caches)
      else sync_records rest out new_caches
  end.

(** [sync_net_area_ip()]: [lines] is the file ([None] when it cannot be
    opened), [iter] the iteration order of the set. The lines written are
    returned when the caches changed; whether they replace the file depends on
    its modification time. *)
Definition sync_net_area_ip (iter : gset str -> list str) (lines : option (list str)) (st : manager)
    : outcome (option (list str) * manager) :=
  match lines with
  | None => Ret (None, st)
  | Some lines =>
      let original : gset str := list_to_set (List.filter (fun l => negb (bool_decide (l = []))) lines) in
      let cached : gset str :=
        list_to_set ((fun p => net_record p.1 p.2) <$> map_to_list (net_caches st)) in
      let final_record := original ∪ cached in
      if negb (Nat.eqb (size original) (size final_record)) then
        '(out, new_caches) ← sync_records (iter final_record) [] ∅;
        Ret (Some out, Manager (interfaces st) (default_caches st) new_caches (loading st)
               (last_load_ip_info_time st) (last_load_area_ips_time st) (posted st))
      else Ret (None, st)
  end.

(** ** Lemmas: lookup *)
Section lookup_lemmas.
Context (iter : gmap str (list area_ip_range) -> list (str * list area_ip_range)).
Hypothesis iter_perm : forall m, iter m ≡ₚ map_to_list m.

Lemma get_area_in_spec ip caches :
  0 < ip ->
  (exists code ranges, caches !! code = Some ranges /\ existsb (in_range ip) ranges = true /\
     get_area_in iter ip caches = code) \/
  (get_area_in iter ip caches = [] /\
   forall code ranges, caches !! code = Some ranges -> existsb (in_range ip) ranges = false).
Proof.
  intros Hip. unfold get_area_in. zb. destruct (List.find _ (iter caches)) as [[code ranges]|] eqn:E.
  - left. apply List.find_some in E as [_ E]. cbn [fst] in *. unfold is_area_ip_in in E.
    destruct (caches !! code) as [rs|] eqn:Ec; [|done]. eauto.
  - right. split; [done|]. intros code ranges Hc.
    assert (In (code, ranges) (iter caches)) as Hin.
    { apply list_elem_of_In. rewrite iter_perm. by apply elem_of_map_to_list. }
    apply (List.find_none _ _ E) in Hin. cbn [fst] in Hin. unfold is_area_ip_in in Hin. by rewrite Hc in Hin.
Qed.

Lemma iter_singleton code ranges : iter {[ code := ranges ]} = [(code, ranges)].
Proof. apply Permutation_singleton_r. by rewrite iter_perm, map_to_list_singleton. Qed.
End lookup_lemmas.

Definition same_but_posted (st st' : manager) : Prop :=
  interfaces st' = interfaces st /\ default_caches st' = default_caches st /\ net_caches st' = net_caches st /\
  loading st' = loading st /\ last_load_ip_info_time st' = last_load_ip_info_time st /\
  exists l, posted st' = posted st ++ l.

#[export] Instance same_but_posted_preorder : PreOrder same_but_posted.
Proof.
  split.
  - intros st. unfold same_but_posted. split_and!; [done..|]. exists []. by rewrite app_nil_r.
  - intros s1 s2 s3 (A1 & A2 & A3 & A4 & A5 & l1 & A6) (B1 & B2 & B3 & B4 & B5 & l2 & B6). unfold same_but_posted.
    split_and!; try congruence. exists (l1 ++ l2). by rewrite B6, A6, app_assoc.
Qed.

Lemma async_load_area_ips_same now code st : same_but_posted st (async_load_area_ips now code st).
Proof.
  unfold async_load_area_ips. case_match; [|reflexivity]. unfold same_but_posted. cbn. split_and!; eauto.
Qed.

Lemma async_load_all_same now areas st :
  Forall (fun a => zlen a < npos) areas ->
  exists st', async_load_all now areas st = Ret st' /\ same_but_posted st st'.
Proof.
  intros H. revert st. induction H as [|a areas Ha _ IH]; intros st; cbn [async_load_all].
  { exists st. by split. }
  destruct (get_area_code_spec a Ha) as [-> _]. ret_step.
  destruct (IH (async_load_area_ips now (area_pattern a).2 st)) as (st' & -> & Hs).
  exists st'. split; [done|]. etransitivity; [apply async_load_area_ips_same|done].
Qed.

Lemma get_area_same iter ip b st :
  same_but_posted st (get_area iter ip b st).2.
Proof.
  unfold get_area. destruct (negb (ip =? 0)); [|reflexivity]. case_bool_decide; [|reflexivity]. cbn [snd].
  case_match; [|reflexivity]. unfold same_but_posted. cbn. split_and!; eauto.
Qed.

Lemma get_area_ext iter ip b st st' :
  default_caches st' = default_caches st -> net_caches st' = net_caches st ->
  (get_area iter ip b st').1 = (get_area iter ip b st).1.
Proof. intros Hd Hn. unfold get_area. rewrite Hd, Hn. destruct (negb (ip =? 0)); [|done]. by case_bool_decide. Qed.

(** The verdict [is_area_ip] reaches. *)
Definition verdict (iter : gmap str (list area_ip_range) -> list (str * list area_ip_range))
    (areas : list str) (ip : Z) (st : manager) : bool :=
  bool_decide (areas = []) ||
  (negb (bool_decide ((get_area iter ip true st).1 = lit "default")) &&
   existsb (matches (get_area iter ip true st).1) areas).

Lemma verdict_same iter areas ip st st' : same_but_posted st st' -> verdict iter areas ip st' = verdict iter areas ip st.
Proof. intros (_ & Hd & Hn & _). unfold verdict. by rewrite (get_area_ext iter ip true st st' Hd Hn). Qed.

Lemma is_area_ip_verdict iter now areas ip st : Forall (fun a => zlen a < npos) areas ->
  exists st', is_area_ip iter now areas ip st = Ret (verdict iter areas ip st, st') /\ same_but_posted st st'.
Proof.
  intros Ha. unfold is_area_ip, verdict. case_bool_decide as He; [by exists st|].
  destruct (async_load_all_same now areas st Ha) as (st1 & -> & Hs). ret_step.
  pose proof Hs as (_ & Hd & Hn & _).
  pose proof (get_area_ext iter ip true st st1 Hd Hn) as E.
  pose proof (get_area_same iter ip true st1) as Hs2.
  destruct (get_area iter ip true st1) as [a st2]. cbn [fst snd] in *. subst a.
  case_bool_decide as Hdef; cbn [negb andb orb].
  - exists st2. split; [done|]. by transitivity st1.
  - rewrite is_match_areas_spec by done. ret_step. exists st2. split; [done|]. by transitivity st1.
Qed.

(** ** Lemmas: loading *)
Definition cidr_line (b : Z * Z) : str := ip_to_str b.1 ++ lit "/" ++ to_string b.2.
Definition cidr_ok (b : Z * Z) : Prop := ip_ok b.1 /\ 1 <= b.2 <= 32 /\ b.1 mod 2 ^ (32 - b.2) = 0.
Definition in_block (x : Z) (b : Z * Z) : bool := x / 2 ^ (32 - b.2) =? b.1 / 2 ^ (32 - b.2).

Lemma parse_lines_spec areaCode blocks :
  Forall cidr_ok blocks ->
  exists ranges, parse_lines areaCode (cidr_line <$> blocks) = Ret ranges /\ length ranges = length blocks /\
    forall x, 0 <= x < 2 ^ 32 -> existsb (in_range x) ranges = existsb (in_block x) blocks.
Proof.
  induction 1 as [|b blocks (Hip & Hb & Hz) _ IH]; [by exists []|].
  destruct IH as (ranges & E & Hl & Hx). rewrite fmap_cons. cbn [parse_lines].
  pose proof (cidr_block_spec b.1 b.2 areaCode Hip ltac:(lia) Hz) as Hc.
  replace (b.2 =? 0) with false in Hc by lia. destruct Hc as (r & Er & _ & Hr).
  rewrite bool_decide_false.
  2:{ unfold cidr_line. intros H. apply (f_equal zlen) in H. rewrite !zlen_app in H. change (zlen (lit "/")) with 1 in H.
      change (zlen []) with 0 in H. pose proof (zlen_nonneg (ip_to_str b.1)). pose proof (zlen_nonneg (to_string b.2)). lia. }
  fold (cidr_line b) in Er. rewrite Er, E. ret_step. exists (r :: ranges). split; [done|]. split; [simpl; by rewrite Hl|].
  intros x Hxr. cbn [existsb]. by rewrite Hx, Hr.
Qed.

(** ** Lemmas: the file of resolved addresses *)
Definition net_ok (ip : Z) (area : str) : Prop :=
  ip_ok ip /\ ip <> 9 /\ area <> [] /\ 9 ∉ area /\ zlen area < 2 ^ 32.

Lemma split_net_record ip area :
  net_ok ip area -> split (net_record ip area) (lit "	") = Ret [ip_to_str ip; area].
Proof.
  intros (Hip & _ & Ha & Ht & Hl). change (lit "	") with [9]. unfold net_record. change (lit "	") with [9].
  pose proof (zlen_ip_to_str ip Hip).
  destruct (split_spec (ip_to_str ip ++ [9] ++ area) [9]) as (parts & -> & Hp & Hf).
  { intros H0. by apply app_eq_nil in H0 as [_ H0]. } { done. }
  { unfold npos. rewrite !zlen_app. change (zlen [9]) with 1. lia. }
  f_equal. apply (intercalate_inj 9).
  - intros ->. symmetry in Hp. by apply app_eq_nil in Hp as [_ Hp].
  - done.
  - eapply Forall_impl; [exact Hf|]. intros p Hn Hin. apply Hn. by apply contains_char.
  - repeat constructor; [|done]. by apply ip_to_str_no_char.
  - by rewrite Hp.
Qed.

Lemma net_record_inj ip1 a1 ip2 a2 :
  net_ok ip1 a1 -> net_ok ip2 a2 -> net_record ip1 a1 = net_record ip2 a2 -> ip1 = ip2 /\ a1 = a2.
Proof.
  intros H1 H2 E. pose proof (split_net_record _ _ H1) as E1. rewrite E, split_net_record in E1 by done.
  injection E1 as E1 E2. split; [|done]. destruct H1 as [H1 _], H2 as [H2 _].
  pose proof (str_to_ip_roundtrip_lemma ip1 H1) as R1. rewrite <- E1, str_to_ip_roundtrip_lemma in R1 by done. congruence.
Qed.

Definition records_of (m : gmap Z str) : gset str :=
  list_to_set ((fun p => net_record p.1 p.2) <$> map_to_list m).

Lemma elem_records_of m r : r ∈ records_of m <-> exists ip a, m !! ip = Some a /\ r = net_record ip a.
Proof.
  unfold records_of. rewrite elem_of_list_to_set, list_elem_of_fmap. split.
  - intros ([ip a] & -> & H). apply elem_of_map_to_list in H. eauto.
  - intros (ip & a & H & ->). exists (ip, a). split; [done|]. by apply elem_of_map_to_list.
Qed.

Lemma sync_records_spec (m : gmap Z str) records out caches :
  map_Forall net_ok m -> Forall (fun r => exists ip a, m !! ip = Some a /\ r = net_record ip a) records ->
  caches ⊆ m ->
  exists caches', sync_records records out caches = Ret (out ++ records, caches') /\ caches' ⊆ m /\ caches ⊆ caches' /\
    forall ip a, m !! ip = Some a -> net_record ip a ∈ records -> caches' !! ip = Some a.
Proof.
  intros Hm Hr. revert out caches. induction Hr as [|r records (ip & a & Hl & ->) _ IH]; intros out caches Hc.
  { exists caches. rewrite app_nil_r. split_and!; [done..|]. by intros ip a _ ?%not_elem_of_nil. }
  pose proof (Hm ip a Hl) as Hok. pose proof Hok as (Hip & H9 & Ha & _).
  cbn [sync_records]. rewrite split_net_record by done. ret_step. rewrite str_to_ip_roundtrip_lemma by done. ret_step.
  rewrite (bool_decide_false _ Ha). change (zlen [ip_to_str ip; a] =? 2) with true. zb. cbn [andb negb].
  destruct (IH (out ++ [net_record ip a]) (<[ip := a]> caches)) as (caches' & -> & H1 & H2 & H3).
  { by apply insert_subseteq_l. }
  exists caches'. rewrite <- app_assoc. split; [done|]. split; [done|].
  assert (caches' !! ip = Some a) as Hnew by (eapply lookup_weaken; [|exact H2]; by rewrite lookup_insert_eq).
  split.
  - apply map_subseteq_spec. intros i x Hi. destruct (decide (i = ip)) as [->|Hne].
    + assert (m !! ip = Some x) as Hx by (by eapply lookup_weaken). congruence.
    + eapply lookup_weaken; [|exact H2]. by rewrite lookup_insert_ne.
  - intros i x Hi [E|Hin]%elem_of_cons; [|by apply H3].
    apply net_record_inj in E as [-> ->]; [done|by apply Hm|done].
Qed.

Lemma records_of_subseteq f g :
  map_Forall net_ok f -> map_Forall net_ok g -> records_of g ⊆ records_of f <-> g ⊆ f.
Proof.
  intros Hf Hg. rewrite map_subseteq_spec. split.
  - intros H ip a Hl. assert (net_record ip a ∈ records_of f) as Hin by (apply H, elem_records_of; eauto).
    apply elem_records_of in Hin as (ip' & a' & Hl' & E). apply net_record_inj in E as [-> ->]; [done|by apply Hg|by apply Hf].
  - intros H r (ip & a & Hl & ->)%elem_records_of. apply elem_records_of. eauto.
Qed.

Definition lan_blocks : list area_ip_range :=
  [AreaIpRange 3232235520 3232301055 (lit "LAN"); AreaIpRange 167772160 184549375 (lit "LAN");
   AreaIpRange 2886729728 2886795263 (lit "LAN"); AreaIpRange 0 16777215 (lit "LAN")].

Lemma lan_ranges_eq : lan_ranges = Ret lan_blocks.
Proof. vm_compute. reflexivity. Qed.

Lemma lan_block ip :
  0 <= ip < 2 ^ 32 ->
  existsb (in_range ip) lan_blocks =
  (ip / 2 ^ 16 =? 192 * 256 + 168) || (ip / 2 ^ 24 =? 10) || (ip / 2 ^ 16 =? 172 * 256 + 16) || (ip / 2 ^ 24 =? 0).
Proof.
  intros Hip. unfold in_range, lan_blocks. cbn [existsb start end_]. rewrite orb_false_r, !orb_assoc.
  change (2 ^ 16) with 65536. change (2 ^ 24) with 16777216.
  f_equal; [f_equal; [f_equal|]|]; apply eq_true_iff_eq; rewrite andb_true_iff, !Z.leb_le, Z.eqb_eq; zdiv.
Qed.

(** ** Lemmas: the request rate *)
Lemma schedule_spec now ip st :
  0 <= now < 2 ^ 62 -> 0 <= last_load_ip_info_time st < 2 ^ 62 -> ip ∉ loading st ->
  exists d st', schedule_load_ip_info now ip st = (Some d, st') /\ loading st' = {[ip]} ∪ loading st /\
    last_load_ip_info_time st' = now + d /\ 0 <= d /\
    last_load_ip_info_time st + 333 <= now + d /\ now + d <= Z.max (last_load_ip_info_time st) now + 333.
Proof.
  intros Hn Hl Hip. unfold schedule_load_ip_info. rewrite bool_decide_false by done.
  change (1000 / NET_QPS) with 333. eexists _, _. split; [reflexivity|]. cbn [loading last_load_ip_info_time].
  destruct (Z.leb_spec (last_load_ip_info_time st) now).
  - rewrite !(u64_id (now + 333)) by lia. zb. rewrite u64_id by lia. split_and!; [done|lia..].
  - rewrite !(u64_id (last_load_ip_info_time st + 333)) by lia. zb. rewrite u64_id by lia. split_and!; [done|lia..].
Qed.

(** The times at which a sequence of requested lookups is fired. *)
Fixpoint fire_times (reqs : list (Z * Z)) (st : manager) : list Z :=
  match reqs with
  | [] => []
  | (now, ip) :: rest =>
      let '(d, st') := schedule_load_ip_info now ip st in
      match d with Some d => (now + d) :: fire_times rest st' | None => fire_times rest st' end
  end.

Lemma fire_times_head reqs : forall st,
  Forall (fun r => 0 <= r.1 < 2 ^ 60) reqs ->
  0 <= last_load_ip_info_time st < 2 ^ 61 - 333 * zlen reqs -> zlen reqs < 2 ^ 50 ->
  Sorted (fun a b => a + 333 <= b) (fire_times reqs st) /\
  HdRel (fun a b => a + 333 <= b) (last_load_ip_info_time st) (fire_times reqs st).
Proof.
  induction reqs as [|[now ip] reqs IH]; intros st Hr Hl Hc; [by split; constructor|].
  apply Forall_cons in Hr as [Hn Hr]. cbn [fst] in Hn. rewrite zlen_cons in Hl, Hc. pose proof (zlen_nonneg reqs).
  cbn [fire_times]. destruct (decide (ip ∈ loading st)) as [Hin|Hin].
  - unfold schedule_load_ip_info. rewrite bool_decide_true by done. apply IH; [done|lia|lia].
  - destruct (schedule_spec now ip st ltac:(lia) ltac:(lia) Hin) as (d & st' & -> & _ & Ht & Hd & Hge & Hle).
    destruct (IH st' Hr ltac:(lia) ltac:(lia)) as [IH1 IH2]. rewrite Ht in IH2. split; constructor; try done; lia.
Qed.

(** ** Properties *)

(** After start-up an address is in the area LAN exactly when it is in
    192.168.0.0/16, 10.0.0.0/8, 172.16.0.0/16 or 0.0.0.0/8; every other one is unknown
    ("default") until something is loaded. *)
Theorem initial_areas (iter : gmap str (list area_ip_range) -> list (str * list area_ip_range))
    (conf : list area_ip_net_interface) (now ip : Z) (load_net : bool) :
  (forall m, iter m ≡ₚ map_to_list m) -> 0 < ip < 2 ^ 32 ->
  exists st, manager_init conf now = Ret st /\
    (get_area iter ip load_net st).1 =
    if (ip / 2 ^ 16 =? 192 * 256 + 168) || (ip / 2 ^ 24 =? 10) || (ip / 2 ^ 16 =? 172 * 256 + 16) || (ip / 2 ^ 24 =? 0)
    then lit "LAN" else lit "default".
Proof.
  intros Hiter Hip. unfold manager_init. rewrite lan_ranges_eq. ret_step. eexists. split; [reflexivity|].
  rewrite <- lan_block by lia. unfold get_area, get_area_net. cbn [net_caches default_caches]. zb. cbn [negb].
  rewrite lookup_empty. cbn [default]. rewrite bool_decide_true by done. unfold get_area_in. zb.
  rewrite (iter_singleton iter Hiter). cbn [List.find fst]. unfold is_area_ip_in. rewrite lookup_singleton_eq.
  by destruct (existsb _ _).
Qed.

Lemma initial_areas_witness :
  exists st, manager_init [] 1000 = Ret st /\
    (get_area map_to_list 2886991873 true st).1 =
    if (2886991873 / 2 ^ 16 =? 192 * 256 + 168) || (2886991873 / 2 ^ 24 =? 10) ||
       (2886991873 / 2 ^ 16 =? 172 * 256 + 16) || (2886991873 / 2 ^ 24 =? 0)
    then lit "LAN" else lit "default".
Proof. apply (initial_areas map_to_list [] 1000 2886991873 true); [done|lia]. Defined.

(** [is_area_ip] answers whether the area known for the address matches one of
    the patterns, an unknown address matching none (not even a negated one) and an empty list
    matching all; the only changes it makes are posted loads and their time stamp. *)
Theorem is_area_ip_spec (iter : gmap str (list area_ip_range) -> list (str * list area_ip_range))
    (now : Z) (areas : list str) (ip : Z) (st : manager) :
  Forall (fun a => zlen a < npos) areas ->
  exists st', is_area_ip iter now areas ip st =
      Ret (bool_decide (areas = []) ||
           (negb (bool_decide ((get_area iter ip true st).1 = lit "default")) &&
            existsb (matches (get_area iter ip true st).1) areas), st') /\
    same_but_posted st st'.
Proof. apply is_area_ip_verdict. Qed.

Lemma is_area_ip_spec_witness :
  let st := Manager [] ∅ {[ 134744072 := lit "US" ]} ∅ 0 0 [] in
  exists st', is_area_ip map_to_list 5000 [lit "!cn"] 134744072 st =
      Ret (bool_decide ([lit "!cn"] = []) ||
           (negb (bool_decide ((get_area map_to_list 134744072 true st).1 = lit "default")) &&
            existsb (matches (get_area map_to_list 134744072 true st).1) [lit "!cn"]), st') /\
    same_but_posted st st'.
Proof. intros st. apply (is_area_ip_spec map_to_list 5000 [lit "!cn"] 134744072 st). repeat constructor. Defined.

(** Claim C38. Loading an area from a list of CIDR blocks makes exactly the addresses of
    those blocks addresses of the area, leaves the other areas alone, and is idempotent; when no
    list can be had nothing changes and the load reports failure. *)
Theorem load_area_ips_spec (file_exists : str -> bool) (http_get : str -> str -> Z * str)
    (open_lines : str -> option (list str)) (code : str) (blocks : list (Z * Z)) (st : manager) :
  zlen code < npos -> map toupper code = code -> negated code = false ->
  default_caches st !! code = None -> Forall cidr_ok blocks -> blocks <> [] ->
  let path := download_area_ips file_exists http_get code in
  open_lines path = Some (cidr_line <$> blocks) ->
  if bool_decide (path = [])
  then load_area_ips file_exists http_get open_lines code st = Ret (false, st)
  else exists st', load_area_ips file_exists http_get open_lines code st = Ret (true, st') /\
    (forall x, 0 <= x < 2 ^ 32 -> is_area_ip_in code x (default_caches st') = existsb (in_block x) blocks) /\
    (forall code', code' <> code -> default_caches st' !! code' = default_caches st !! code') /\
    net_caches st' = net_caches st /\
    load_area_ips file_exists http_get open_lines code st' = Ret (true, st').
Proof.
  intros Hl Hup Hneg Hnew Hb Hne path Ho. unfold load_area_ips.
  assert (get_area_code code = Ret code) as Hcode.
  { destruct (get_area_code_spec code Hl) as [-> Hn]. rewrite Hneg in Hn. f_equal.
    unfold area_pattern in *. destruct code as [|c code]; [done|]. by destruct (c =? 33). }
  rewrite Hcode. ret_step. unfold has_load_area_ips. rewrite Hnew.
  rewrite (bool_decide_false (is_Some None)) by apply is_Some_None. fold path. case_bool_decide as Hp; [done|].
  rewrite Ho. destruct (parse_lines_spec code blocks Hb) as (ranges & -> & Hlen & Hx). ret_step.
  rewrite (bool_decide_false (ranges = [])) by (intros ->; by destruct blocks).
  eexists. split; [reflexivity|]. cbn [default_caches net_caches]. split_and!; [| |done|].
  - intros x Hxr. unfold is_area_ip_in. by rewrite lookup_insert_eq, Hx.
  - intros code' Hc. by rewrite lookup_insert_ne.
  - rewrite bool_decide_true; [done|]. rewrite lookup_insert_eq. eauto.
Qed.

Lemma load_area_ips_spec_witness :
  let file_exists := fun _ : str => true in let http_get := fun _ _ : str => (0, [] : str) in
  let blocks := [(16777472, 24)] in let open_lines := fun _ : str => Some (cidr_line <$> blocks) in
  let st := Manager [] ∅ ∅ ∅ 0 0 [] in
  let path := download_area_ips file_exists http_get (lit "CN") in
  if bool_decide (path = [])
  then load_area_ips file_exists http_get open_lines (lit "CN") st = Ret (false, st)
  else exists st', load_area_ips file_exists http_get open_lines (lit "CN") st = Ret (true, st') /\
    (forall x, 0 <= x < 2 ^ 32 -> is_area_ip_in (lit "CN") x (default_caches st') = existsb (in_block x) blocks) /\
    (forall code', code' <> lit "CN" -> default_caches st' !! code' = default_caches st !! code') /\
    net_caches st' = net_caches st /\
    load_area_ips file_exists http_get open_lines (lit "CN") st' = Ret (true, st').
Proof.
  intros fe hg blocks ol st. apply (load_area_ips_spec fe hg ol (lit "CN") blocks st); try done.
  repeat constructor; unfold ip_ok; simpl; lia.
Defined.

(** Claim C39. Network lookups are spaced: whatever addresses are requested and whenever,
    the times at which the lookups are fired are at least 333 ms apart (three a second), and an
    address whose lookup is under way is not scheduled again. *)
Theorem lookup_rate (reqs : list (Z * Z)) (st : manager) :
  Forall (fun r => 0 <= r.1 < 2 ^ 60) reqs ->
  0 <= last_load_ip_info_time st < 2 ^ 61 - 333 * zlen reqs -> zlen reqs < 2 ^ 50 ->
  Sorted (fun a b => a + 333 <= b) (fire_times reqs st) /\
  forall now ip, ip ∈ loading st -> schedule_load_ip_info now ip st = (None, st).
Proof.
  intros Hr Hl Hc. split; [by apply fire_times_head|].
  intros now ip Hin. unfold schedule_load_ip_info. by rewrite bool_decide_true.
Qed.

Lemma lookup_rate_witness :
  let st := Manager [] ∅ ∅ ∅ 1000 0 [] in let reqs := [(1000, 1); (1001, 2); (1001, 1); (5000, 3)] in
  Sorted (fun a b => a + 333 <= b) (fire_times reqs st) /\
  forall now ip, ip ∈ loading st -> schedule_load_ip_info now ip st = (None, st).
Proof.
  intros st reqs. apply (lookup_rate reqs st); [repeat constructor; simpl; lia| |reflexivity]. vm_compute. split; congruence.
Defined.



(** A line of that file without a tab makes the merge read past the end of the
    split fields: their number is tested only after the second one was taken. *)
Theorem sync_untabbed_line (line : str) (ip : Z) (out : list str) (caches : gmap Z str) (rest : list str) :
  line <> [] -> 9 ∉ line -> zlen line < npos -> str_to_ip line = Ret ip ->
  sync_records (line :: rest) out caches = Undef VectorRange.
Proof.
  intros Hne Ht Hl Hip. cbn [sync_records]. change (lit "	") with [9].
  destruct (split_spec line [9] Hne ltac:(done) Hl) as (parts & -> & Hp & Hf). ret_step.
  assert (parts = [line]) as ->.
  { apply (intercalate_inj 9); [by intros ->|done| |by repeat constructor|by rewrite Hp].
    eapply Forall_impl; [exact Hf|]. intros p Hn Hin. apply Hn. by apply contains_char. }
  cbn [mbind outcome_bind]. by rewrite Hip.
Qed.

Lemma sync_untabbed_line_witness :
  sync_records [ip_to_str 16843009] [] ∅ = Undef VectorRange.
Proof.
  apply (sync_untabbed_line (ip_to_str 16843009) 16843009 [] ∅ []); [done| |done|].
  - apply ip_to_str_no_char; [unfold ip_ok; lia|done|done].
  - vm_compute. reflexivity.
Defined.
