(* ===== verification/Config.v ===== *)
(** * Configuration and server selection ([src/src/core/config.h], [config.cpp])

    The remote servers, which of them are asked about a domain, and the
    loading of the configuration file. *)
From S2P Require Import Prelude Bytes Text Domain AreaRange AreaManager.

(** ** Data *)
Record remote_dns_server := RemoteDnsServer {
  srv_ip : str;
  srv_port : Z;
  srv_type : str;
  whitelist : list str;                    (* in the order of its iteration *)
  blacklist : list str;
  areas : list str;
  timeout : Z;
  srv_cache_expire : Z;
  resolve_optimize_areas : list (str * Z)
}.

(** [remote_dns_server(ip, port, type)] *)
Definition new_server (ip : str) (port : Z) (type : str) : remote_dns_server :=
  RemoteDnsServer ip port type [] [] [] 100 (10 * 60) [].

Record config := Config {
  cfg_ip : str;
  cfg_port : Z;
  console_ip : str;
  console_port : Z;
  dns_cache_expire : Z;
  base_conf_dir : str;
  servers : list remote_dns_server;
  area_ip_config : list area_ip_net_interface
}.

Section ids.
(** [boost::algorithm::ireplace_all_copy(input, search, format)] *)
Context (ireplace_all_copy : str -> str -> str -> str).

Definition generate_server_id (serverIp : str) (serverPort : Z) : str :=
  ireplace_all_copy serverIp (lit ".") (lit "_") ++ lit "_" ++ to_string_int serverPort.

(** [remote_dns_server::id()] *)
Definition server_id (s : remote_dns_server) : str := generate_server_id (srv_ip s) (srv_port s).
End ids.

(** ** Selecting the servers for a domain *)
Section select.
(** [std::regex_match(domain, std::regex(regex))], which throws on a malformed
    expression. *)
Context (regex_match : str -> str -> outcome bool).
(** The pointers [remote_dns_server *] and what they point to. *)
Context {P : Type} (deref : P -> remote_dns_server).

Definition in_whitelist (domain regex : str) : outcome bool :=
  if bool_decide (domain = regex) || negb (find regex (lit "." ++ domain) 0 =? npos) then Ret true
  else regex_match domain regex.

Fixpoint any_whitelist (domain : str) (regexes : list str) : outcome bool :=
  match regexes with
  | [] => Ret false
  | regex :: rest => b ← in_whitelist domain regex; if (b : bool) then Ret true else any_whitelist domain rest
  end.

Fixpoint select_loop (domain fiDomain : str) (todo result : list P)
    : outcome (list P) :=
  match todo with
  | [] => Ret result
  | server :: rest =>
      if (bool_decide (fiDomain = lit "LAN") || bool_decide (fiDomain = lit "ARPA")) &&
         negb (bool_decide (lit "LAN" ∈ areas (deref server)))
      then select_loop domain fiDomain rest result
      else
        white ← any_whitelist domain (whitelist (deref server));
        if (white : bool) then Ret [server]
        else if bool_decide (domain ∈ blacklist (deref server)) then select_loop domain fiDomain rest result
        else select_loop domain fiDomain rest (result ++ [server])
  end.

Definition select_servers (domain : str) (servers : list P)
    : outcome (list P) :=
  fiDomain ← getFIDomain domain; select_loop domain fiDomain servers [].
End select.

(** ** Loading the configuration *)
Section load.
(** boost's property tree: [get] with a default for texts and integers,
    [get_child_optional] as the values below a node, and the text of a node. *)
Context {tree : Type} (get_str : tree -> str -> str -> str) (get_int : tree -> str -> Z -> Z)
  (get_child : tree -> str -> option (list tree)) (get_value : tree -> str)
  (get_tree : tree -> str -> option tree).
(** The effects of the area manager. *)
Context (load_area_ips : str -> manager -> outcome (bool * manager)).

Fixpoint load_areas (nodes : list tree) (acc : list str) (st : manager) : outcome (list str * manager) :=
  match nodes with
  | [] => Ret (acc, st)
  | v :: rest =>
      let area := get_value v in
      if bool_decide (area = []) then load_areas rest acc st
      else '(_, st) ← load_area_ips area st; load_areas rest (acc ++ [area]) st
  end.

(** One node of [servers]; [None] is [exit(1)]. *)
Definition load_server (default_expire : Z) (node : tree) (st : manager)
    : outcome (option remote_dns_server * manager) :=
  let serverIp := get_str node (lit "ip") [] in
  if bool_decide (serverIp = []) then Ret (None, st)
  else
    let server_port := get_int node (lit "port") 53 in
    let type := get_str node (lit "type") (lit "UDP") in
    let white := match get_child node (lit "whitelist") with
                 | Some nodes => remove_dups (get_value <$> nodes) | None => [] end in
    expire ← stoi (get_str node (lit "dns_cache_expire") (to_string_int default_expire));
    let tmo := get_int node (lit "timeout") 100 in
    '(areas, st) ← match get_child node (lit "areas") with
                   | Some nodes => load_areas nodes [] st | None => Ret ([], st) end;
    Ret (Some (RemoteDnsServer serverIp server_port type white [] areas tmo expire []), st).

Fixpoint load_servers (default_expire : Z) (nodes : list tree) (acc : list remote_dns_server) (st : manager)
    : outcome (option (list remote_dns_server) * manager) :=
  match nodes with
  | [] => Ret (Some acc, st)
  | node :: rest =>
      '(server, st) ← load_server default_expire node st;
      match server with
      | None => Ret (None, st)
      | Some server => load_servers default_expire rest (acc ++ [server]) st
      end
  end.

(** [config::load(base_conf_dir)]: [file] is the parsed configuration, [None]
    when the file is missing or malformed; the result [None] is [exit(1)].  A
    configuration without [servers] makes [get_child] throw. *)
Definition config_load (file : option tree) (dir : str) (c : config) (st : manager)
    : outcome (option config * manager) :=
  match file with
  | None => Ret (None, st)
  | Some tree =>
      let ip := get_str tree (lit "ip") (lit "127.0.0.1") in
      let port := get_int tree (lit "port") (cfg_port c) in
      let cport := get_int tree (lit "console_port") (console_port c) in
      let cip := get_str tree (lit "console_ip") (lit "127.0.0.1") in
      e ← stoi (get_str tree (lit "dns_cache_expire") (to_string (dns_cache_expire c)));
      let expire := u32 e in
      nodes ← match get_child tree (lit "servers") with Some n => Ret n | None => Throw RuntimeError end;
      '(loaded, st) ← load_servers expire nodes (servers c) st;
      match loaded with
      | None => Ret (None, st)
      | Some loaded =>
          if bool_decide (loaded = []) then Ret (None, st)
          else
            '(conf, st) ←
              match get_tree tree (lit "area_ip_config") with
              | Some node =>
                  interfaces_node ← match get_child node (lit "interfaces") with
                                    | Some n => Ret n | None => Throw RuntimeError end;
                  let conf := area_ip_config_load
                    ((fun n => (get_str n (lit "url") [], get_str n (lit "area_json_path") [])) <$> interfaces_node)
                    (area_ip_config c) in
                  Ret (conf, Manager conf (default_caches st) (net_caches st) (loading st)
                               (last_load_ip_info_time st) (last_load_area_ips_time st) (posted st))
              | None => Ret (area_ip_config c, st)
              end;
            Ret (Some (Config ip port cip cport expire dir loaded conf), st)
      end
  end.
End load.

(** ** Specification *)
Section spec.
Context (regex_match : str -> str -> bool) {P : Type} (deref : P -> remote_dns_server).

(** A domain of the local network is only for servers with the area LAN. *)
Definition eligible (fiDomain : str) (s : remote_dns_server) : bool :=
  negb (bool_decide (fiDomain = lit "LAN") || bool_decide (fiDomain = lit "ARPA")) ||
  bool_decide (lit "LAN" ∈ areas s).

Definition whitelisted (domain : str) (s : remote_dns_server) : bool :=
  existsb (fun regex => bool_decide (domain = regex) || negb (find regex (lit "." ++ domain) 0 =? npos) ||
             regex_match domain regex) (whitelist s).

Definition selected (domain fiDomain : str) (servers : list P) : list P :=
  match List.find (fun s => eligible fiDomain (deref s) && whitelisted domain (deref s)) servers with
  | Some s => [s]
  | None => List.filter (fun s => eligible fiDomain (deref s) && negb (bool_decide (domain ∈ blacklist (deref s)))) servers
  end.
End spec.

(** ** Lemmas *)
Section select_lemmas.
Context (regex_match : str -> str -> bool) {P : Type} (deref : P -> remote_dns_server).
Abbreviation rm := (fun d r => Ret (regex_match d r)).

Lemma any_whitelist_spec domain s :
  any_whitelist rm domain (whitelist s) = Ret (whitelisted regex_match domain s).
Proof.
  unfold whitelisted. induction (whitelist s) as [|regex rest IH]; [done|]. cbn [any_whitelist existsb].
  unfold in_whitelist. destruct (bool_decide _ || _); cbn [orb]; ret_step; [done|].
  by destruct (regex_match domain regex).
Qed.

Lemma select_loop_spec domain fi todo : forall result,
  select_loop rm deref domain fi todo result =
  Ret (match List.find (fun s => eligible fi (deref s) && whitelisted regex_match domain (deref s)) todo with
       | Some s => [s]
       | None => result ++ List.filter (fun s => eligible fi (deref s) && negb (bool_decide (domain ∈ blacklist (deref s)))) todo
       end).
Proof.
  induction todo as [|s todo IH]; intros result; [by rewrite app_nil_r|]. cbn [select_loop List.find List.filter].
  assert ((bool_decide (fi = lit "LAN") || bool_decide (fi = lit "ARPA")) && negb (bool_decide (lit "LAN" ∈ areas (deref s))) =
    negb (eligible fi (deref s))) as -> by (unfold eligible; by rewrite negb_orb, negb_involutive).
  destruct (eligible fi (deref s)); cbn [negb andb]; [|by rewrite IH].
  rewrite any_whitelist_spec. ret_step. destruct (whitelisted regex_match domain (deref s)); [done|].
  case_bool_decide; cbn [negb]; rewrite IH; [done|]. case_match; [done|]. by rewrite <- app_assoc.
Qed.
End select_lemmas.

(** The documented effect of the replacement the ids are built with. *)
Definition replaces_dots (ireplace : str -> str -> str -> str) : Prop :=
  forall s, ireplace s (lit ".") (lit "_") = map (fun c => if c =? 46 then 95 else c) s.

Lemma map_dots_inj s t :
  95 ∉ s -> 95 ∉ t -> map (fun c => if c =? 46 then 95 else c) s = map (fun c => if c =? 46 then 95 else c) t -> s = t.
Proof.
  revert t. induction s as [|c s IH]; intros [|d t] Hs Ht E; [done|done|done|]. cbn [map] in E. injection E as E1 E2.
  apply not_elem_of_cons in Hs as [Hc Hs]. apply not_elem_of_cons in Ht as [Hd Ht].
  f_equal; [|by apply IH]. destruct (Z.eqb_spec c 46), (Z.eqb_spec d 46); congruence.
Qed.

Lemma last_sep_unique (c : Z) (a b x y : str) : c ∉ x -> c ∉ y -> a ++ c :: x = b ++ c :: y -> a = b /\ x = y.
Proof.
  intros Hx Hy E. apply (f_equal reverse) in E. rewrite !reverse_app, !reverse_cons in E. rewrite <- !app_assoc in E.
  apply cut_unique in E as [E1 E2]; [|by rewrite elem_of_reverse..].
  apply (f_equal reverse) in E1, E2. by rewrite !reverse_involutive in E1, E2.
Qed.

Lemma to_string_int_nonneg n : 0 <= n -> to_string_int n = to_string n.
Proof. intros. unfold to_string_int. by zb. Qed.

Lemma to_string_inj a b : 0 <= a < 10 ^ 20 -> 0 <= b < 10 ^ 20 -> to_string a = to_string b -> a = b.
Proof.
  intros Ha Hb E. pose proof (strtol_to_string a [] Ha I) as E1. rewrite E, strtol_to_string in E1 by done. congruence.
Qed.

(** The servers selected through pointers are those selected from the servers themselves. *)
Lemma select_servers_deref {P : Type} (regex_match : str -> str -> outcome bool) (deref : P -> remote_dns_server)
    (domain : str) (l : list P) :
  select_servers regex_match (fun s => s) domain (fmap (M:=list) deref l) =
  (sel ← select_servers regex_match deref domain l; Ret (fmap (M:=list) deref sel)).
Proof.
  unfold select_servers. destruct (getFIDomain domain) as [fi| | |]; [|done..]. ret_step.
  assert (forall result : list P, select_loop regex_match (fun s => s) domain fi (fmap (M:=list) deref l) (fmap (M:=list) deref result) =
    (sel ← select_loop regex_match deref domain fi l result; Ret (fmap (M:=list) deref sel))) as H; [|exact (H [])].
  induction l as [|s l IH]; intros result; [done|]. cbn [fmap list_fmap select_loop].
  destruct (_ && _); [apply IH|]. destruct (any_whitelist _ _ _) as [[]| | |]; [done| |done..]. ret_step.
  case_bool_decide; [apply IH|]. rewrite <- IH. by rewrite fmap_app.
Qed.

Lemma select_servers_sub {P : Type} (regex_match : str -> str -> outcome bool) (deref : P -> remote_dns_server)
    (domain : str) (l sel : list P) : select_servers regex_match deref domain l = Ret sel -> sel ⊆ l.
Proof.
  unfold select_servers. intros (fi & _ & E)%bind_ret.
  assert (forall result sel, select_loop regex_match deref domain fi l result = Ret sel -> sel ⊆ result ++ l) as H;
    [|exact (H [] sel E)].
  clear E sel. induction l as [|s l IH]; intros result sel E; cbn [select_loop] in E.
  { injection E as <-. by rewrite app_nil_r. }
  destruct (_ && _); [apply IH in E; set_solver|]. apply bind_ret in E as ([] & _ & E); [injection E as <-; set_solver|].
  case_bool_decide; apply IH in E; set_solver.
Qed.

(** ** Properties *)

(** Claim C26. The servers selected for a domain are the first eligible server whose white
    list accepts the domain, alone; or, when no white list does, all eligible servers that do
    not black-list it, in the order of the configuration. A name under LAN or ARPA is only for
    servers with the area LAN. *)
Theorem select_servers_spec {P} (deref : P -> remote_dns_server) (regex_match : str -> str -> bool)
    (domain fiDomain : str) (servers : list P) :
  getFIDomain domain = Ret fiDomain ->
  select_servers (fun d r => Ret (regex_match d r)) deref domain servers =
  Ret (selected regex_match deref domain fiDomain servers).
Proof. intros Hf. unfold select_servers. rewrite Hf. ret_step. by rewrite select_loop_spec. Qed.

Lemma select_servers_spec_witness :
  let s1 := RemoteDnsServer (lit "192.168.1.1") 53 (lit "UDP") [] [] [lit "LAN"] 100 600 [] in
  let s2 := new_server (lit "8.8.8.8") 53 (lit "TCP") in
  let deref := fun b : bool => if b then s1 else s2 in
  select_servers (fun _ _ => Ret false) deref (lit "nas.lan") [false; true] =
  Ret (selected (fun _ _ => false) deref (lit "nas.lan") (lit "LAN") [false; true]).
Proof.
  intros s1 s2 deref. apply (select_servers_spec deref (fun _ _ => false) (lit "nas.lan") (lit "LAN") [false; true]).
  vm_compute. reflexivity.
Defined.

(** Servers with different addresses or ports have different ids: the id, under
    which a server's records and tasks are kept, determines both. *)
Theorem server_id_injective (ireplace : str -> str -> str -> str) (a b p q : Z) :
  replaces_dots ireplace -> ip_ok a -> ip_ok b -> 0 <= p < 65536 -> 0 <= q < 65536 ->
  generate_server_id ireplace (ip_to_str a) p = generate_server_id ireplace (ip_to_str b) q ->
  a = b /\ p = q.
Proof.
  intros Hr Ha Hb Hp Hq. unfold generate_server_id. rewrite !Hr, !to_string_int_nonneg by lia.
  change (lit "_") with [95]. cbn [app]. intros E.
  apply last_sep_unique in E as [E1 E2]; [|by apply to_string_no_char; [lia|]..].
  apply map_dots_inj in E1; [|by apply ip_to_str_no_char..].
  split; [|apply to_string_inj; [lia|lia|done]].
  pose proof (str_to_ip_roundtrip_lemma a Ha) as R. rewrite E1, str_to_ip_roundtrip_lemma in R by done. congruence.
Qed.

Lemma server_id_injective_witness :
  let ireplace := fun s _ _ : str => map (fun c => if c =? 46 then 95 else c) s in
  134744072 = 134744072 /\ 53 = 53.
Proof.
  intros ireplace. apply (server_id_injective ireplace 134744072 134744072 53 53); try (unfold ip_ok; lia); [|done].
  intros s. done.
Defined.
