(* ===== verification/TaskQueue.v ===== *)
(** * The task queue ([src/src/common/main/taskquque/task_queue.h])

    A queue of tasks with priorities, run at most [max_running] at a time and
    at most [max_qps] per second: submissions and completions come from any
    thread under the mutex, two timers of the queue's own thread refill the
    keys and dispatch. One step of the relation is one critical section or one
    timer callback. *)
From Stdlib Require Import Floats.SpecFloat.
From S2P Require Import Prelude.

(** ** [double]: IEEE binary64 *)
Module Double.
Definition of_Z (z : Z) : spec_float := binary_normalize 53 1024 z 0 false.
Definition add := SFadd 53 1024.
Definition sub := SFsub 53 1024.
Definition mul := SFmul 53 1024.
Definition div := SFdiv 53 1024.
(** [std::min(a, b)] *)
Definition min (a b : spec_float) : spec_float := if SFltb b a then b else a.
Definition ge (a b : spec_float) : bool := SFleb b a.
End Double.

(** ** Data *)
Inductive task_status := PENDING | RUNNING.

#[export] Instance task_status_eq : EqDecision task_status.
Proof. solve_decision. Defined.

#[export] Instance spec_float_eq : EqDecision spec_float.
Proof. solve_decision. Defined.

Section queue.
Context {input : Type}.

Record priority_task := PriorityTask {
  in_ : input;
  priority : Z;
  id : Z;
  pk : str;
  create_time : Z;
  status : task_status
}.

(** The constructor, with the value [id_generator] hands out. *)
Definition new_task (in_ : input) (priority : Z) (task_id : str) (now next_id : Z) : priority_task * Z :=
  (PriorityTask in_ priority next_id task_id now PENDING, u64 (next_id + 1)).

(** [operator<] of tasks. *)
Definition task_lt (a b : priority_task) : bool :=
  if priority a =? priority b then id b <? id a else priority a <? priority b.

(** [task_comparator], on pairs of an id and a priority. *)
Definition task_comparator (a b : Z * Z) : bool := a.2 <? b.2.

Record queue := Queue {
  key_count : spec_float;
  running : Z;
  tasks : gmap Z priority_task;
  p_queue : list (Z * Z);
  task_pks : gset str
}.

Section operations.
Context (max_qps max_running : Z).

Definition queue_init : queue := Queue (Double.of_Z 0) 0 ∅ [] ∅.

(** The callback of [schedule_generate_key]. *)
Definition generate_key (q : queue) : queue :=
  let duration := 50 in
  let key := Double.add (key_count q)
    (Double.div (Double.mul (Double.of_Z max_qps) (Double.of_Z duration)) (Double.of_Z 1000)) in
  let key := Double.min (Double.mul (Double.of_Z max_qps) (Double.of_Z 1)) key in
  Queue key (running q) (tasks q) (p_queue q) (task_pks q).

Definition submit (task : priority_task) (q : queue) : bool * queue :=
  if bool_decide (pk task = []) || bool_decide (pk task ∉ task_pks q) then
    (true,
     Queue (key_count q) (running q)
       (if tasks q !! id task is Some _ then tasks q else <[id task := task]> (tasks q))
       (p_queue q ++ [(id task, priority task)])
       (if bool_decide (pk task = []) then task_pks q else {[pk task]} ∪ task_pks q))
  else (false, q).

Definition complete (task : priority_task) (q : queue) : queue :=
  Queue (key_count q) (u32 (running q - 1)) (delete (id task) (tasks q)) (p_queue q)
    (task_pks q ∖ {[pk task]}).

(** [p_queue.top()] is some entry no other entry is above. *)
Definition is_top (e : Z * Z) (l : list (Z * Z)) : bool :=
  bool_decide (e ∈ l) && forallb (fun e' => negb (task_comparator e e')) l.

Definition can_dispatch (q : queue) : bool :=
  Double.ge (key_count q) (Double.of_Z 1) && negb (bool_decide (p_queue q = [])) &&
  (running q <? max_running).

Fixpoint remove_one (e : Z * Z) (l : list (Z * Z)) : list (Z * Z) :=
  match l with
  | [] => []
  | x :: l' => if bool_decide (x = e) then l' else x :: remove_one e l'
  end.

Definition set_running (t : priority_task) : priority_task :=
  PriorityTask (in_ t) (priority t) (id t) (pk t) (create_time t) RUNNING.

(** The critical section of [schedule_dispatch_task], where [top] is the entry
    the heap returns; the task returned is the one posted to the executor. *)
Definition dispatch (top : Z * Z) (q : queue) : outcome (option priority_task * queue) :=
  if can_dispatch q then
    match tasks q !! top.1 with
    | None => Throw OutOfRange
    | Some t =>
        let task := set_running t in
        Ret (Some task,
             Queue (Double.sub (key_count q) (Double.of_Z 1)) (u32 (running q + 1))
               (<[top.1 := task]> (tasks q)) (remove_one top (p_queue q)) (task_pks q))
    end
  else Ret (None, q).

Definition all (q : queue) : list priority_task := (map_to_list (tasks q)).*2.
Definition queue_size (q : queue) : Z := u32 (Z.of_nat (size (tasks q))).

(** ** Runs *)
Inductive event :=
  | Submit (t : priority_task) (accepted : bool)
  | Key
  | Dispatch (t : priority_task)
  | Idle
  | Complete (t : priority_task).

(** A client completes each task it was handed once. *)
Inductive queue_step : queue -> event -> queue -> Prop :=
  | step_submit q t b q' :
      tasks q !! id t = None -> status t = PENDING -> submit t q = (b, q') ->
      queue_step q (Submit t b) q'
  | step_key q : queue_step q Key (generate_key q)
  | step_dispatch q top t q' :
      is_top top (p_queue q) = true -> dispatch top q = Ret (Some t, q') ->
      queue_step q (Dispatch t) q'
  | step_idle q : can_dispatch q = false -> queue_step q Idle q
  | step_complete q t t' :
      tasks q !! id t = Some t' -> status t' = RUNNING -> pk t = pk t' ->
      queue_step q (Complete t) (complete t q).

Inductive queue_run : queue -> list event -> queue -> Prop :=
  | run_nil q : queue_run q [] q
  | run_snoc q1 tr q2 e q3 : queue_run q1 tr q2 -> queue_step q2 e q3 -> queue_run q1 (tr ++ [e]) q3.

(** ** Invariant *)
Definition running_tasks (q : queue) : gmap Z priority_task :=
  filter (fun kt => status kt.2 = RUNNING) (tasks q).

Record queue_inv (q : queue) : Prop := {
  inv_running : running q = Z.of_nat (size (running_tasks q));
  inv_bound : running q <= max_running;
  inv_ids : forall i t, tasks q !! i = Some t -> id t = i;
  inv_nodup : NoDup (p_queue q).*1;
  inv_pending : forall i p, (i, p) ∈ p_queue q <->
    exists t, tasks q !! i = Some t /\ status t = PENDING /\ priority t = p;
  inv_pks : forall k, k ∈ task_pks q <-> k <> [] /\ exists i t, tasks q !! i = Some t /\ pk t = k;
  inv_unique : forall i j t u, tasks q !! i = Some t -> tasks q !! j = Some u ->
    pk t = pk u -> pk t <> [] -> i = j
}.

(** ** Lemmas *)
Lemma is_top_spec e l : is_top e l = true <-> e ∈ l /\ Forall (fun e' => e'.2 <= e.2) l.
Proof.
  unfold is_top, task_comparator. rewrite andb_true_iff, bool_decide_eq_true, forallb_forall, Forall_forall.
  setoid_rewrite list_elem_of_In. split; intros [H1 H2]; (split; [done|]); intros x Hx; specialize (H2 x Hx); lia.
Qed.

Lemma remove_one_sub e l x : x ∈ remove_one e l -> x ∈ l.
Proof.
  induction l as [|y l IH]; simpl; [done|]. case_bool_decide; rewrite ?elem_of_cons; naive_solver.
Qed.

Lemma remove_one_fst_nodup e l : NoDup l.*1 -> NoDup (remove_one e l).*1.
Proof.
  induction l as [|y l IH]; simpl; [done|]. intros [Hy Hl]%NoDup_cons. case_bool_decide; [done|].
  simpl. apply NoDup_cons. split; [|auto]. intros (x & E & Hx)%list_elem_of_fmap.
  apply Hy, list_elem_of_fmap. eauto using remove_one_sub.
Qed.

Lemma remove_one_elem e l x : NoDup l.*1 -> e ∈ l -> (x ∈ remove_one e l <-> x ∈ l /\ x.1 <> e.1).
Proof.
  induction l as [|y l IH]; intros Hn He; [by apply not_elem_of_nil in He|]. rewrite fmap_cons in Hn. cbn [remove_one].
  apply NoDup_cons in Hn as [Hy Hl].
  assert (forall z, z ∈ l -> z.1 <> y.1) as Hne.
  { intros z Hz E. apply Hy. rewrite <- E. by apply list_elem_of_fmap_2. }
  case_bool_decide as Hye; [subst y|].
  - rewrite elem_of_cons. naive_solver.
  - assert (e ∈ l) as He' by (apply elem_of_cons in He as [->|]; done).
    rewrite !elem_of_cons, IH by done. pose proof (Hne e He'). naive_solver.
Qed.

Lemma running_insert q t q' :
  tasks q !! id t = None -> status t = PENDING -> tasks q' = <[id t := t]> (tasks q) ->
  running_tasks q' = running_tasks q.
Proof.
  intros Hf Hs Ht. unfold running_tasks. rewrite Ht. apply map_filter_insert_not'; simpl.
  - by rewrite Hs.
  - intros y Hy. congruence.
Qed.

Lemma submit_inv q t b q' :
  queue_inv q -> tasks q !! id t = None -> status t = PENDING -> submit t q = (b, q') -> queue_inv q'.
Proof.
  intros [Ir Ib Ii In Ip Ik Iu] Hf Hs. unfold submit. rewrite Hf.
  destruct (bool_decide (pk t = []) || bool_decide (pk t ∉ task_pks q)) eqn:Ec; intros [= <- <-]; [|by split].
  apply orb_true_iff in Ec. rewrite !bool_decide_eq_true in Ec.
  assert (forall i u, tasks q !! i = Some u -> i <> id t) as Hne by congruence.
  split; cbn [running tasks p_queue task_pks].
  - erewrite (running_insert q); done.
  - done.
  - intros i u. rewrite lookup_insert_Some. intros [[<- <-]|[_ Hu]]; [done|eauto].
  - rewrite fmap_app. apply NoDup_app. split; [done|]. split; [|apply NoDup_singleton].
    intros x (e & -> & He)%list_elem_of_fmap Hx. apply list_elem_of_singleton in Hx. destruct e as [i p]. simpl in Hx.
    apply Ip in He as (u & Hu & _). by apply Hne in Hu.
  - intros i p. rewrite elem_of_app, list_elem_of_singleton, Ip. setoid_rewrite lookup_insert_Some.
    split; [naive_solver|]. intros (u & [[<- <-]|[Hi Hu]] & ? & <-); [by right|left; eauto].
  - intros k. case_bool_decide as Hp.
    + rewrite Ik. setoid_rewrite lookup_insert_Some. split; [|naive_solver].
      intros [Hk (i & u & Hu & <-)]. split; [done|]. exists i, u. split; [|done]. right. split; [|done].
      intros E. by apply (Hne i u Hu).
    + rewrite elem_of_union, elem_of_singleton, Ik. setoid_rewrite lookup_insert_Some. split; [|naive_solver].
      intros [->|[Hk (i & u & Hu & <-)]]; [naive_solver|]. split; [done|]. exists i, u. split; [|done].
      right. split; [|done]. intros E. by apply (Hne i u Hu).
  - intros i j u v. rewrite !lookup_insert_Some. intros [[<- <-]|[Hi Hu]] [[<- <-]|[Hj Hv]] Hpk Hne'; [done| | |eauto].
    + destruct Ec as [|Ec]; [done|]. destruct Ec. apply Ik. split; [done|]. eauto.
    + destruct Ec as [|Ec]; [congruence|]. destruct Ec. rewrite <- Hpk. apply Ik. split; [done|]. eauto.
Qed.

Lemma running_dispatch q i t :
  tasks q !! i = Some t -> status t = PENDING ->
  size (filter (fun kt : Z * priority_task => status kt.2 = RUNNING) (<[i := set_running t]> (tasks q))) =
  S (size (running_tasks q)).
Proof.
  intros Hi Ht. unfold running_tasks. rewrite map_filter_insert_True by done. apply map_size_insert_None.
  apply map_lookup_filter_None. right. intros u Hu. simpl. congruence.
Qed.

Lemma dispatch_inv q top t q' :
  max_running < 2 ^ 32 -> queue_inv q -> is_top top (p_queue q) = true ->
  dispatch top q = Ret (Some t, q') -> queue_inv q'.
Proof.
  intros Hm [Ir Ib Ii In Ip Ik Iu] [Ht _]%is_top_spec. unfold dispatch, can_dispatch.
  destruct (Double.ge _ _ && _ && (running q <? max_running)) eqn:Ec; [|done].
  apply andb_true_iff in Ec as [_ Ec]. destruct top as [i p]. cbn [fst].
  apply Ip in Ht as Hp. destruct Hp as (u & Hu & Hs & Hp). rewrite Hu. intros [= <- <-].
  assert (forall j v, tasks q !! j = Some v -> exists v', <[i := set_running u]> (tasks q) !! j = Some v' /\
    pk v' = pk v /\ id v' = id v) as Hfw.
  { intros j v Hv. destruct (decide (j = i)) as [->|].
    - rewrite lookup_insert_eq. eexists. split; [done|]. by simplify_eq.
    - rewrite lookup_insert_ne by done. eauto. }
  assert (forall j v', <[i := set_running u]> (tasks q) !! j = Some v' -> exists v, tasks q !! j = Some v /\
    pk v' = pk v /\ id v' = id v) as Hbw.
  { intros j v'. rewrite lookup_insert_Some. intros [[<- <-]|[_ Hv]]; eauto. }
  split; cbn [running tasks p_queue task_pks].
  - unfold running_tasks at 1. cbn [tasks]. rewrite running_dispatch by done.
    rewrite u32_id; [lia|]. lia.
  - rewrite u32_id by lia. lia.
  - intros j v' (v & Hv & _ & ->)%Hbw. eauto.
  - by apply remove_one_fst_nodup.
  - intros j p'. rewrite remove_one_elem, Ip by done. cbn [fst]. setoid_rewrite lookup_insert_Some. split.
    + intros [(v & Hv & ? & ?) Hj]. exists v. split; [|done]. right. done.
    + intros (v & [[<- <-]|[Hj Hv]] & Hst & Hpr); [done|]. split; [|done]. eauto.
  - intros k. rewrite Ik. split.
    + intros [Hk (j & v & Hv & <-)]. apply Hfw in Hv as (v' & Hv' & E & _). split; [done|]. eauto.
    + intros [Hk (j & v' & Hv' & <-)]. apply Hbw in Hv' as (v & Hv & E & _). split; [done|]. eauto.
  - intros j1 j2 v1 v2 (w1 & H1 & E1 & _)%Hbw (w2 & H2 & E2 & _)%Hbw. rewrite E1, E2. eauto.
Qed.

Lemma complete_inv q t t' :
  queue_inv q -> tasks q !! id t = Some t' -> status t' = RUNNING -> pk t = pk t' ->
  max_running < 2 ^ 32 -> queue_inv (complete t q).
Proof.
  intros [Ir Ib Ii In Ip Ik Iu] Ht Hs Hpk Hm.
  assert (is_Some (running_tasks q !! id t)) as Hr by (exists t'; by apply map_lookup_filter_Some).
  assert (size (running_tasks q) <> 0)%nat as Hn.
  { intros Hz%map_size_empty_inv. rewrite Hz, lookup_empty in Hr. by destruct Hr. }
  split; cbn [complete running tasks p_queue task_pks].
  - unfold running_tasks at 1. cbn [complete tasks]. rewrite map_filter_delete. fold (running_tasks q).
    rewrite map_size_delete_Some by done. rewrite u32_id; lia.
  - rewrite u32_id; lia.
  - intros i u [_ Hu]%lookup_delete_Some. eauto.
  - done.
  - intros i p. rewrite Ip. setoid_rewrite lookup_delete_Some. split.
    + intros (u & Hu & Hp & <-). exists u. split; [|done]. split; [|done]. intros <-. congruence.
    + intros (u & [_ Hu] & Hp). eauto.
  - intros k. rewrite elem_of_difference, elem_of_singleton, Ik. setoid_rewrite lookup_delete_Some. split.
    + intros [[Hk (i & u & Hu & <-)] Hne]. split; [done|]. exists i, u. split; [|done]. split; [|done].
      intros <-. congruence.
    + intros [Hk (i & u & [Hi Hu] & <-)]. split; [split; [done|]; eauto|]. intros E. apply Hi.
      symmetry. eapply (Iu i (id t)); [done|done|congruence|done].
  - intros i j u v [_ Hu]%lookup_delete_Some [_ Hv]%lookup_delete_Some. eauto.
Qed.

Lemma step_inv q e q' : max_running < 2 ^ 32 -> queue_inv q -> queue_step q e q' -> queue_inv q'.
Proof.
  intros Hm I H. destruct H.
  - by eapply submit_inv.
  - destruct I. by split.
  - by eapply dispatch_inv.
  - done.
  - by eapply complete_inv.
Qed.

Lemma init_inv : 0 <= max_running -> queue_inv queue_init.
Proof.
  intros Hm. split; cbn; try done.
  - apply NoDup_nil_2.
  - intros i p. split; [by intros ?%not_elem_of_nil|]. by intros (t & Ht & _).
  - intros k. split; [set_solver|]. by intros (_ & i & t & Ht & _).
Qed.

Lemma run_inv tr q :
  0 <= max_running < 2 ^ 32 -> queue_run queue_init tr q -> queue_inv q.
Proof.
  intros Hm. remember queue_init as q0 eqn:E. induction 1 as [q|q1 tr q2 e q3 H IH Hs]; subst.
  - apply init_inv. lia.
  - eapply step_inv; [lia| |done]. by apply IH.
Qed.

Lemma dispatch_defined q top :
  queue_inv q -> is_top top (p_queue q) = true ->
  dispatch top q = Ret (None, q) /\ can_dispatch q = false \/
  exists t, tasks q !! top.1 = Some t /\ status t = PENDING /\ can_dispatch q = true /\
    dispatch top q = Ret (Some (set_running t),
      Queue (Double.sub (key_count q) (Double.of_Z 1)) (u32 (running q + 1))
        (<[top.1 := set_running t]> (tasks q)) (remove_one top (p_queue q)) (task_pks q)).
Proof.
  intros I [Ht _]%is_top_spec. unfold dispatch. destruct (can_dispatch q) eqn:Ec; [right|by left].
  destruct top as [i p]. apply (inv_pending _ I) in Ht as (t & Hi & Hs & _). cbn [fst]. rewrite Hi. eauto.
Qed.

(** A non-empty heap has a top. *)
Lemma top_exists l : l <> [] -> exists e, is_top e l = true.
Proof.
  intros Hl. setoid_rewrite is_top_spec. induction l as [|x l IH]; [done|]. destruct l as [|y l].
  - exists x. split; [apply list_elem_of_here|]. by repeat constructor.
  - destruct IH as (e & He & Hm); [done|]. destruct (Z.le_gt_cases e.2 x.2) as [Hx|Hx].
    + exists x. split; [apply list_elem_of_here|]. constructor; [done|]. eapply Forall_impl; [exact Hm|]. simpl. lia.
    + exists e. split; [by apply list_elem_of_further|]. constructor; [lia|done].
Qed.
End operations.

(** ** The queue of the server: 100 keys per second *)
Section rate.
Context (max_running : Z).

Definition keys (q : queue) (k : Z) : Prop := key_count q = Double.of_Z k /\ 0 <= k <= 100.

(** The refill, the test and the withdrawal, on each number of keys there can be. *)
Definition keys_ok (k : Z) : bool :=
  bool_decide (Double.min (Double.mul (Double.of_Z 100) (Double.of_Z 1)) (Double.add (Double.of_Z k)
    (Double.div (Double.mul (Double.of_Z 100) (Double.of_Z 50)) (Double.of_Z 1000))) =
    Double.of_Z (Z.min 100 (k + 5))) &&
  bool_decide (Double.ge (Double.of_Z k) (Double.of_Z 1) = (1 <=? k)) &&
  ((k <? 1) || bool_decide (Double.sub (Double.of_Z k) (Double.of_Z 1) = Double.of_Z (k - 1))).

Lemma keys_table : forallb keys_ok (seqZ 0 101) = true.
Proof. vm_compute. reflexivity. Qed.

Lemma keys_lookup k : 0 <= k <= 100 ->
  Double.min (Double.mul (Double.of_Z 100) (Double.of_Z 1)) (Double.add (Double.of_Z k)
    (Double.div (Double.mul (Double.of_Z 100) (Double.of_Z 50)) (Double.of_Z 1000))) =
    Double.of_Z (Z.min 100 (k + 5)) /\
  Double.ge (Double.of_Z k) (Double.of_Z 1) = (1 <=? k) /\
  (1 <= k -> Double.sub (Double.of_Z k) (Double.of_Z 1) = Double.of_Z (k - 1)).
Proof.
  intros Hk. pose proof keys_table as H. rewrite forallb_forall in H.
  assert (In k (seqZ 0 101)) as Hin by (apply list_elem_of_In, elem_of_seqZ; lia).
  apply H in Hin. unfold keys_ok in Hin. rewrite !andb_true_iff, orb_true_iff, !bool_decide_eq_true in Hin.
  destruct Hin as [[H1 H2] H3]. split_and!; [done..|]. intros Hk1. destruct H3 as [H3|H3]; [lia|done].
Qed.

Lemma generate_key_keys q k : keys q k -> keys (generate_key 100 q) (Z.min 100 (k + 5)).
Proof.
  intros [Hq Hk]. split; [|lia]. cbn [generate_key key_count]. rewrite Hq. by apply keys_lookup.
Qed.

Lemma dispatch_keys q k top t q' :
  keys q k -> dispatch max_running top q = Ret (Some t, q') -> 1 <= k /\ keys q' (k - 1).
Proof.
  intros [Hq Hk]. unfold dispatch, can_dispatch. destruct (keys_lookup k Hk) as (_ & Hge & Hsub).
  rewrite Hq, Hge. destruct (Z.leb_spec 1 k); [|done]. cbn [andb]. repeat case_match; intros [= <- <-].
  split; [done|]. split; [|lia]. cbn [key_count]. auto.
Qed.

Definition is_key (e : event) : bool := match e with Key => true | _ => false end.
Definition is_dispatch (e : event) : bool := match e with Dispatch _ => true | _ => false end.
Definition count (f : event -> bool) (tr : list event) : Z := zlen (List.filter f tr).

Lemma count_snoc f tr e : count f (tr ++ [e]) = count f tr + if f e then 1 else 0.
Proof.
  unfold count. rewrite List.filter_app, zlen_app. cbn [List.filter]. by destruct (f e).
Qed.

Lemma run_keys q tr q' k :
  keys q k -> queue_run 100 max_running q tr q' ->
  exists k', keys q' k' /\ k' + count is_dispatch tr <= k + 5 * count is_key tr.
Proof.
  intros Hk. induction 1 as [q|q1 tr q2 e q3 H IH Hs].
  { exists k. split; [done|]. change (count is_dispatch []) with 0. change (count is_key []) with 0. lia. }
  destruct (IH Hk) as (k2 & Hk2 & Hc). rewrite !count_snoc. destruct Hs as [q2 t b q3 _ _ Hs|q2|q2 top t q3 _ Hd|q2|q2 t t']; cbn [is_key is_dispatch].
  - exists k2. split; [|lia]. unfold submit in Hs. destruct Hk2 as [H1 H2]. case_match; injection Hs as <- <-; by split.
  - exists (Z.min 100 (k2 + 5)). split; [by apply generate_key_keys|]. lia.
  - apply (dispatch_keys _ k2) in Hd as [Hk1 Hd]; [|done]. exists (k2 - 1). split; [done|lia].
  - exists k2. split; [done|lia].
  - exists k2. split; [|lia]. destruct Hk2. by split.
Qed.

Lemma init_keys : keys queue_init 0.
Proof. done. Qed.

(** ** Lemmas: no run is stuck *)
Lemma pending_none q : queue_inv max_running q -> p_queue q = [] -> running q = 0 -> tasks q = ∅.
Proof.
  intros I Hp Hr. apply map_empty. intros i. destruct (tasks q !! i) as [t|] eqn:Ht; [|done]. exfalso.
  destruct (status t) eqn:Hs.
  - assert ((i, priority t) ∈ p_queue q) as Hin by (apply (inv_pending _ _ I); eauto).
    rewrite Hp in Hin. by apply not_elem_of_nil in Hin.
  - rewrite (inv_running _ _ I) in Hr. assert (size (running_tasks q) = 0%nat) as Hz by lia.
    apply map_size_empty_inv in Hz. assert (running_tasks q !! i = Some t) as E by by apply map_lookup_filter_Some.
    rewrite Hz in E. by rewrite lookup_empty in E.
Qed.

Lemma run_trans mq q1 tr1 q2 tr2 q3 :
  queue_run mq max_running q1 tr1 q2 -> queue_run mq max_running q2 tr2 q3 ->
  queue_run mq max_running q1 (tr1 ++ tr2) q3.
Proof.
  intros H1. induction 1 as [|q2 tr q3' e q4 H IH Hs]; [by rewrite app_nil_r|].
  rewrite app_assoc. econstructor; eauto.
Qed.

Definition is_submit (e : event) : bool := match e with Submit _ _ => true | _ => false end.

Lemma running_exists q : queue_inv max_running q -> running q <> 0 ->
  exists i t, tasks q !! i = Some t /\ status t = RUNNING.
Proof.
  intros I Hr. rewrite (inv_running _ _ I) in Hr.
  destruct (map_choose (running_tasks q)) as (i & t & H).
  { intros E. rewrite E, map_size_empty in Hr. lia. }
  apply map_lookup_filter_Some in H as [H Hs]. eauto.
Qed.

(** What is left to do: two steps for a pending task, one for a running one. *)
Definition work_left (q : queue) : nat := size (tasks q) + length (p_queue q).

Lemma remove_one_length e l : e ∈ l -> (length (remove_one e l) < length l)%nat.
Proof.
  induction l as [|x l IH]; [by intros ?%not_elem_of_nil|]. intros H. cbn [remove_one length].
  case_bool_decide; [lia|]. apply elem_of_cons in H as [->|H]; [done|]. cbn [length]. specialize (IH H). lia.
Qed.

Lemma work_step q k :
  1 <= max_running < 2 ^ 32 -> queue_inv max_running q -> keys q k -> tasks q <> ∅ ->
  exists tr q', queue_run 100 max_running q tr q' /\ Forall (fun e => is_submit e = false) tr /\
    (work_left q' < work_left q)%nat.
Proof.
  intros Hm I Hk Hne. destruct (decide (running q = 0)) as [Hr|Hr].
  - assert (p_queue q <> []) as Hp by (intros Hp; apply Hne; by apply pending_none).
    set (q1 := generate_key 100 q). assert (queue_inv max_running q1) as I1 by (destruct I; by split).
    pose proof (generate_key_keys q k Hk) as [Hq1 Hk1]. fold q1 in Hq1. destruct Hk as [_ Hk].
    destruct (top_exists (p_queue q1) Hp) as (top & Ht).
    destruct (dispatch_defined max_running q1 top I1 Ht) as [[_ Hc]|(t & Hl & Hs & Hc & Hd)].
    + exfalso. unfold can_dispatch in Hc. rewrite Hq1 in Hc. destruct (keys_lookup _ Hk1) as (_ & Hge & _).
      rewrite Hge in Hc. rewrite bool_decide_false in Hc by exact Hp. cbn [q1 generate_key running] in Hc. lia.
    + exists ([] ++ [Key] ++ [Dispatch (set_running t)]), (Queue (Double.sub (key_count q1) (Double.of_Z 1)) (u32 (running q1 + 1))
        (<[top.1 := set_running t]> (tasks q1)) (remove_one top (p_queue q1)) (task_pks q1)).
      split; [|split; [by repeat constructor|]].
      * rewrite app_assoc. econstructor; [econstructor; [constructor|apply step_key]|]. by eapply step_dispatch.
      * unfold work_left. cbn [tasks p_queue]. rewrite map_size_insert_Some by eauto.
        apply is_top_spec in Ht as [Ht _]. apply remove_one_length in Ht. subst q1. simpl in *. lia.
  - destruct (running_exists q I Hr) as (i & t & Hi & Hs). pose proof (inv_ids _ _ I _ _ Hi) as Hid. subst i.
    exists ([] ++ [Complete t]), (complete t q). split; [|split; [by repeat constructor|]].
    + econstructor; [constructor|]. by eapply step_complete.
    + unfold work_left. cbn [complete tasks p_queue]. rewrite map_size_delete_Some by eauto.
      assert (size (tasks q) <> 0)%nat; [|lia]. intros E%map_size_empty_inv. by rewrite E in Hne.
Qed.
End rate.
End queue.

Arguments priority_task : clear implicits.
Arguments queue : clear implicits.
Arguments event : clear implicits.

(** ** Properties *)

(** Claim C11. In every state the queue can reach, the number of tasks handed to the
    executor and not completed is [running] and never exceeds [max_running]; the heap
    holds exactly the pending tasks, once each, under their priorities; and no two live
    tasks share a non-empty key, [task_pks] being the set of those keys. *)
Theorem queue_safety {input} (max_qps max_running : Z) (tr : list (event input)) (q : queue input) :
  0 <= max_running < 2 ^ 32 -> queue_run max_qps max_running queue_init tr q ->
  running q = Z.of_nat (size (running_tasks q)) /\ running q <= max_running /\
  NoDup (p_queue q).*1 /\
  (forall i p, (i, p) ∈ p_queue q <-> exists t, tasks q !! i = Some t /\ status t = PENDING /\ priority t = p) /\
  (forall k, k ∈ task_pks q <-> k <> [] /\ exists i t, tasks q !! i = Some t /\ pk t = k) /\
  (forall i j t u, tasks q !! i = Some t -> tasks q !! j = Some u -> pk t = pk u -> pk t <> [] -> i = j).
Proof. intros Hm Hr. destruct (run_inv _ _ _ _ Hm Hr). by split_and!. Qed.

Lemma queue_safety_witness :
  let t := PriorityTask tt 100 7 [104] 0 PENDING in
  let q := (submit t queue_init).2 in
  running q = Z.of_nat (size (running_tasks q)) /\ running q <= 1 /\ NoDup (p_queue q).*1 /\
  (forall i p, (i, p) ∈ p_queue q <-> exists t, tasks q !! i = Some t /\ status t = PENDING /\ priority t = p) /\
  (forall k, k ∈ task_pks q <-> k <> [] /\ exists i t, tasks q !! i = Some t /\ pk t = k) /\
  (forall i j t u, tasks q !! i = Some t -> tasks q !! j = Some u -> pk t = pk u -> pk t <> [] -> i = j).
Proof.
  intros t q. apply (queue_safety 1 1 ([] ++ [Submit t true]) q); [lia|].
  econstructor; [constructor|]. by apply step_submit.
Defined.

(** Claim C30. A dispatch picks a pending task of the highest priority and starts it;
    looking up the task of the heap's top never fails in a reachable state. *)
Theorem dispatch_highest {input} (max_qps max_running : Z) (tr : list (event input)) (q : queue input) (top : Z * Z) :
  0 <= max_running < 2 ^ 32 -> queue_run max_qps max_running queue_init tr q ->
  is_top top (p_queue q) = true -> can_dispatch max_running q = true ->
  exists t q', dispatch max_running top q = Ret (Some (set_running t), q') /\
    tasks q !! id t = Some t /\ status t = PENDING /\ running q' = running q + 1 /\
    tasks q' !! id t = Some (set_running t) /\
    forall i u, tasks q !! i = Some u -> status u = PENDING -> priority u <= priority t.
Proof.
  intros Hm Hr Ht Hc. pose proof (run_inv _ _ _ _ Hm Hr) as I.
  destruct (dispatch_defined max_running q top I Ht) as [[_ E]|(t & Hl & Hs & _ & Hd)]; [congruence|].
  pose proof (inv_ids _ _ I _ _ Hl) as Hid. eexists _, _. split; [exact Hd|].
  rewrite Hid. cbn [running tasks]. split_and!; [done|done| |by rewrite lookup_insert_eq|].
  - rewrite u32_id; [done|]. pose proof (inv_running _ _ I). unfold can_dispatch in Hc. lia.
  - intros i u Hu Hus. apply is_top_spec in Ht as [Hin Hmax]. destruct top as [j p].
    apply (inv_pending _ _ I) in Hin as (t' & Hj & _ & Hp). cbn [fst snd] in *. simplify_eq.
    rewrite Forall_forall in Hmax. apply (Hmax (i, priority u)). apply (inv_pending _ _ I). eauto.
Qed.

Lemma dispatch_highest_witness :
  let t := PriorityTask tt 100 7 [104] 0 PENDING in
  let q := generate_key 100 (submit t queue_init).2 in
  exists t q', dispatch 100 (7, 100) q = Ret (Some (set_running t), q') /\
    tasks q !! id t = Some t /\ status t = PENDING /\ running q' = running q + 1 /\
    tasks q' !! id t = Some (set_running t) /\
    forall i u, tasks q !! i = Some u -> status u = PENDING -> priority u <= priority t.
Proof.
  intros t q. apply (dispatch_highest 100 100 (([] ++ [Submit t true]) ++ [Key]) q (7, 100)); [lia| |done|done].
  econstructor; [econstructor; [constructor|by apply step_submit]|apply step_key].
Defined.

(** Claim C29. The server's queue (100 keys a second, refilled every 50 ms in doubles)
    never dispatches more than five tasks per refill, whatever is submitted and completed;
    over any later stretch of a run the burst is at most the 100 keys saved. *)
Theorem dispatch_rate {input} (max_running : Z) (tr1 tr2 : list (event input)) (q1 q2 : queue input) :
  queue_run 100 max_running queue_init tr1 q1 -> queue_run 100 max_running q1 tr2 q2 ->
  count is_dispatch tr1 <= 5 * count is_key tr1 /\
  count is_dispatch tr2 <= 100 + 5 * count is_key tr2.
Proof.
  intros H1 H2. destruct (run_keys _ _ _ _ _ init_keys H1) as (k1 & Hk1 & Hc1).
  destruct (run_keys _ _ _ _ _ Hk1 H2) as (k2 & Hk2 & Hc2). destruct Hk1 as [_ Hk1]. destruct Hk2 as [_ Hk2]. lia.
Qed.

Lemma dispatch_rate_witness :
  count (input := unit) is_dispatch ([] ++ [Key]) <= 5 * count (input := unit) is_key ([] ++ [Key]) /\
  count (input := unit) is_dispatch [] <= 100 + 5 * count (input := unit) is_key [].
Proof.
  apply (dispatch_rate 100 ([] ++ [Key]) [] (generate_key 100 queue_init) (generate_key 100 queue_init)).
  - econstructor; [constructor|apply step_key].
  - constructor.
Defined.

(** A task is refused exactly while a live task has its key; a refused task
    changes nothing, an accepted one is pending, and once the live one is completed the
    same key is accepted again. *)
Theorem submit_dedup {input} (max_qps max_running : Z) (tr : list (event input)) (q : queue input) (t : priority_task input) :
  0 <= max_running < 2 ^ 32 -> queue_run max_qps max_running queue_init tr q ->
  tasks q !! id t = None -> status t = PENDING ->
  if decide (pk t <> [] /\ exists i u, tasks q !! i = Some u /\ pk u = pk t)
  then submit t q = (false, q) /\
       forall u, tasks q !! id u = Some u -> pk u = pk t -> (submit t (complete u q)).1 = true
  else exists q', submit t q = (true, q') /\ tasks q' = <[id t := t]> (tasks q) /\
       (id t, priority t) ∈ p_queue q'.
Proof.
  intros Hm Hr Hf Hs. pose proof (run_inv _ _ _ _ Hm Hr) as I.
  pose proof (inv_pks _ _ I (pk t)) as Hk. unfold submit. rewrite Hf. case_decide as Hd.
  - assert (pk t ∈ task_pks q) as Hin by by apply Hk. destruct Hd as [Hne _].
    rewrite !bool_decide_false by (done || (intros Hx; by apply Hx)). split; [done|].
    intros u Hu Hpk. rewrite bool_decide_true; [done|]. cbn [complete task_pks]. rewrite Hpk. set_solver.
  - rewrite <- Hk in Hd. rewrite (bool_decide_true (pk t ∉ _)) by done. rewrite orb_true_r.
    eexists. split; [done|]. cbn [tasks p_queue]. split; [done|]. apply elem_of_app. right. apply list_elem_of_here.
Qed.

Lemma submit_dedup_witness :
  let t := PriorityTask tt 100 7 [104] 0 PENDING in
  let q := (submit t queue_init).2 in
  let t2 := PriorityTask tt 99 8 [104] 0 PENDING in
  if decide (pk t2 <> [] /\ exists i u, tasks q !! i = Some u /\ pk u = pk t2)
  then submit t2 q = (false, q) /\
       forall u, tasks q !! id u = Some u -> pk u = pk t2 -> (submit t2 (complete u q)).1 = true
  else exists q', submit t2 q = (true, q') /\ tasks q' = <[id t2 := t2]> (tasks q) /\
       (id t2, priority t2) ∈ p_queue q'.
Proof.
  intros t q t2. apply (submit_dedup 1 1 ([] ++ [Submit t true]) q t2); [lia| |done|done].
  econstructor; [constructor|]. by apply step_submit.
Defined.

(** Claim C12. The queue never gets stuck: from every state reached by submissions,
    refills, dispatches and completions, further refills, dispatches and completions alone
    lead to a state without tasks. *)
Theorem queue_drains {input} (max_running : Z) (tr : list (event input)) (q : queue input) :
  1 <= max_running < 2 ^ 32 -> queue_run 100 max_running queue_init tr q ->
  exists tr' q', queue_run 100 max_running q tr' q' /\ Forall (fun e => is_submit e = false) tr' /\
    tasks q' = ∅.
Proof.
  intros Hm. revert tr q.
  enough (forall n q tr, (work_left q < n)%nat -> queue_run 100 max_running queue_init tr q ->
    exists tr' q', queue_run 100 max_running q tr' q' /\ Forall (fun e => is_submit e = false) tr' /\ tasks q' = ∅)
    as H by (intros tr q Hr; by eapply (H (S (work_left q)) q tr); [lia|]).
  induction n as [|n IH]; intros q tr Hn Hr; [lia|].
  destruct (decide (tasks q = ∅)) as [He|He]; [exists [], q; split; [constructor|]; by split|].
  destruct (run_keys _ _ _ _ _ init_keys Hr) as (k & Hk & _).
  destruct (work_step max_running q k Hm (run_inv 100 max_running tr q ltac:(lia) Hr) Hk He) as (tr1 & q1 & H1 & F1 & Hw).
  destruct (IH q1 (tr ++ tr1)) as (tr2 & q2 & H2 & F2 & E); [lia|by eapply run_trans|].
  exists (tr1 ++ tr2), q2. split; [by eapply run_trans|]. split; [by apply Forall_app|done].
Qed.

Lemma queue_drains_witness :
  let t := PriorityTask tt 100 7 [104] 0 PENDING in
  exists tr' q', queue_run 100 100 (submit t queue_init).2 tr' q' /\
    Forall (fun e => is_submit e = false) tr' /\ tasks q' = ∅.
Proof.
  intros t. apply (queue_drains 100 ([] ++ [Submit t true])); [lia|].
  econstructor; [constructor|]. by apply step_submit.
Defined.

(** Completing a task while none is running wraps the 32-bit [running]
    counter, and from then on nothing is dispatched, however many keys are generated and
    tasks submitted. *)
Theorem complete_underflow {input} (max_qps max_running : Z) (q : queue input) (t : priority_task input)
    (more : list (priority_task input)) (n : nat) :
  running q = 0 -> max_running < 2 ^ 32 ->
  can_dispatch max_running
    (Nat.iter n (generate_key max_qps) (foldr (fun t q => (submit t q).2) (complete t q) more)) = false.
Proof.
  intros Hr Hm. unfold can_dispatch.
  assert (forall q' : queue input, running (Nat.iter n (generate_key max_qps) q') = running q') as Hi.
  { intros q'. induction n as [|n IH]; [done|]. by rewrite Nat.iter_succ. }
  rewrite Hi. assert (running (foldr (fun t q => (submit t q).2) (complete t q) more) = u32 (0 - 1)) as ->.
  { induction more as [|u more IH]; [by cbn; rewrite Hr|]. cbn [foldr]. rewrite <- IH. unfold submit. by case_match. }
  change (u32 (0 - 1)) with 4294967295. rewrite andb_false_iff. right. lia.
Qed.

Lemma complete_underflow_witness :
  can_dispatch 100
    (Nat.iter 3 (generate_key 100) (foldr (fun t q => (submit t q).2)
      (complete (PriorityTask tt 100 7 [104] 0 RUNNING) queue_init) [PriorityTask tt 1 8 [] 0 PENDING])) = false.
Proof.
  apply (complete_underflow 100 100 queue_init (PriorityTask tt 100 7 [104] 0 RUNNING)
    [PriorityTask tt 1 8 [] 0 PENDING] 3); [done|lia].
Defined.
