(* ===== verification/Kv.v ===== *)
(** * Key-value stores ([src/src/common/main/kv])

    [abstract_kv] and its two implementations: [disk_kv], records with an
    expiry serialized by protobuf into leveldb, and [shm_kv], a map in shared
    memory. Both are written over a third-party map; [Store] is what they use
    of it. *)
From S2P Require Import Prelude.

(** ** The maps underneath: leveldb's [DB] and boost's shared-memory [map] *)
Class Store (D : Type) := {
  s_get : D -> str -> option str;
  s_put : D -> str -> str -> bool * D;    (* the status, and the map after it *)
  s_del : D -> str -> D;
  s_list : D -> list (str * str)          (* what an iterator visits *)
}.

Class StoreLaws (D : Type) `{Store D} := {
  s_get_put : forall d k v k', s_get (s_put d k v).2 k' =
    if (s_put d k v).1 then (if decide (k = k') then Some v else s_get d k') else s_get d k';
  s_get_del : forall d k k', s_get (s_del d k) k' = if decide (k = k') then None else s_get d k';
  s_list_get : forall d k v, (k, v) ∈ s_list d <-> s_get d k = Some v;
  s_list_nodup : forall d, NoDup (s_list d).*1
}.

(** ** The interface [abstract_kv] *)
Class AbstractKv (D : Type) := {
  kv_get : Z -> str -> D -> str * D;      (* [now] is the clock in milliseconds *)
  kv_put : Z -> str -> str -> Z -> D -> D; (* the last argument is [expire]; 0 in the short form *)
  kv_erase : str -> D -> D;
  kv_clear : D -> D;
  kv_list : Z -> D -> list (str * str)
}.

Definition key_ok (k : str) : Prop := k <> [] /\ Forall (fun c => c <> 0) k.

(** What a client may rely on: [kv_at d now k] is the value seen under [k]. *)
Class KvLaws (D : Type) `{AbstractKv D} := {
  kv_at : D -> Z -> str -> str;
  kv_get_value : forall d now k, (kv_get now k d).1 = kv_at d now k;
  kv_get_keeps : forall d now now' k k', now <= now' ->
    kv_at (kv_get now k d).2 now' k' = kv_at d now' k';
  kv_put_at : forall d now now' k k' v, key_ok k -> key_ok k' -> v <> [] ->
    kv_at (kv_put now k v 0 d) now' k' = if decide (k = k') then cstr v else kv_at d now' k';
  kv_erase_at : forall d now k k', key_ok k -> key_ok k' ->
    kv_at (kv_erase k d) now k' = if decide (k = k') then [] else kv_at d now k';
  kv_clear_at : forall d now k, kv_at (kv_clear d) now k = []
}.

(** ** [disk_kv] *)
Section disk.
Context {D : Type} `{StoreLaws D}.
(** The protobuf message [value]: its serialization, and what
    [ParseFromString] leaves in a fresh message. *)
Context (encode : Z -> str -> str) (decode : str -> Z * str).

Definition not_expired (now expire : Z) : bool := (expire =? 0) || (now / 1000 <? expire).

Definition disk_erase (key : str) (db : D) : D := s_del db key.

Definition disk_get (now : Z) (key : str) (db : D) : str * D :=
  match s_get db key with
  | Some data =>
      let '(expire, val) := decode data in
      if not_expired now expire then (val, db) else ([], disk_erase key db)
  | None => ([], db)
  end.

(** [val.set_data(value.c_str())] stops at the first NUL; the expiry is a
    32-bit field. *)
Definition disk_put (now : Z) (key value : str) (expire : Z) (db : D) : D :=
  let data := cstr value in
  let expire := if negb (expire =? 0) then u32 (now / 1000 + expire) else expire in
  (s_put db key (encode expire data)).2.

Definition disk_clear (db : D) : D := fold_left (fun db kv => disk_erase kv.1 db) (s_list db) db.

(** The pairs handed to the consumer, in the order of the iterator. *)
Definition disk_list (now : Z) (db : D) : list (str * str) :=
  omap (fun kv =>
    let '(expire, val) := decode kv.2 in
    if not_expired now expire then Some (kv.1, val) else None) (s_list db).

#[export] Instance disk_kv : AbstractKv D := {|
  kv_get := disk_get; kv_put := disk_put; kv_erase := disk_erase; kv_clear := disk_clear;
  kv_list := disk_list
|}.

(** *** Specification: a map of values with an expiry *)
Abbreviation spec := (gmap str (Z * str)).

Inductive op :=
  | OpGet (k : str)
  | OpPut (k v : str) (ttl : Z)
  | OpErase (k : str)
  | OpClear
  | OpList.

Inductive reply :=
  | Value (v : str)
  | Done
  | Pairs (l : list (str * str)).

Definition live (now : Z) (e : Z * str) : bool := not_expired now e.1.

Inductive spec_step (now : Z) (m : spec) : op -> reply -> spec -> Prop :=
  | spec_get_live k e : m !! k = Some e -> live now e = true -> spec_step now m (OpGet k) (Value e.2) m
  | spec_get_dead k e : m !! k = Some e -> live now e = false ->
      spec_step now m (OpGet k) (Value []) (delete k m)
  | spec_get_none k : m !! k = None -> spec_step now m (OpGet k) (Value []) m
  | spec_put k v ttl :
      spec_step now m (OpPut k v ttl) Done
        (<[k := (if ttl =? 0 then 0 else u32 (now / 1000 + ttl), cstr v)]> m)
  | spec_put_failed k v ttl : spec_step now m (OpPut k v ttl) Done m
  | spec_erase k : spec_step now m (OpErase k) Done (delete k m)
  | spec_clear : spec_step now m OpClear Done ∅
  | spec_list l : NoDup l.*1 ->
      (forall k v, (k, v) ∈ l <-> exists e, m !! k = Some e /\ live now e = true /\ e.2 = v) ->
      spec_step now m OpList (Pairs l) m.

Definition disk_step (now : Z) (o : op) (db : D) : reply * D :=
  match o with
  | OpGet k => let '(v, db) := disk_get now k db in (Value v, db)
  | OpPut k v ttl => (Done, disk_put now k v ttl db)
  | OpErase k => (Done, disk_erase k db)
  | OpClear => (Done, disk_clear db)
  | OpList => (Pairs (disk_list now db), db)
  end.

Definition represents (db : D) (m : spec) : Prop := forall k, decode <$> s_get db k = m !! k.

(** *** Lemmas *)
Hypothesis decode_encode : forall e d, 0 <= e < 2 ^ 32 -> decode (encode e d) = (e, d).

Lemma disk_put_represents now k v ttl db m :
  0 <= ttl < 2 ^ 32 -> represents db m ->
  represents (disk_put now k v ttl db) (<[k := (if ttl =? 0 then 0 else u32 (now / 1000 + ttl), cstr v)]> m) \/
  represents (disk_put now k v ttl db) m.
Proof.
  intros Ht Hr. unfold disk_put. set (e := if negb (ttl =? 0) then _ else _).
  assert (e = if ttl =? 0 then 0 else u32 (now / 1000 + ttl)) as <-.
  { unfold e. destruct (Z.eqb_spec ttl 0); done. }
  assert (0 <= e < 2 ^ 32) as He.
  { unfold e. destruct (negb _); [apply u32_range|done]. }
  destruct (s_put db k (encode e (cstr v))).1 eqn:Es; [left|right]; intros k'; rewrite s_get_put, Es; [|done].
  case_decide as Hk; [subst k'|].
  - rewrite lookup_insert_eq. simpl. by rewrite decode_encode.
  - by rewrite lookup_insert_ne.
Qed.

Lemma erase_all_get (l : list (str * str)) k : forall db,
  s_get db k = None \/ k ∈ l.*1 -> s_get (fold_left (fun db kv => disk_erase kv.1 db) l db) k = None.
Proof.
  induction l as [|[k1 v1] l IH]; intros db [Hn|Hin]; cbn [fold_left]; [done|by apply not_elem_of_nil in Hin| |];
    apply IH; unfold disk_erase; cbn [fst]; rewrite s_get_del; case_decide; auto.
  rewrite fmap_cons in Hin. apply elem_of_cons in Hin as [->|Hin]; [done|by right].
Qed.

Lemma disk_clear_get db k : s_get (disk_clear db) k = None.
Proof.
  apply erase_all_get. destruct (s_get db k) as [v|] eqn:E; [right|by left].
  apply s_list_get in E. by apply (list_elem_of_fmap_2 fst _ (k, v)).
Qed.

Lemma elem_disk_list now db k v :
  (k, v) ∈ disk_list now db <-> exists data, s_get db k = Some data /\ not_expired now (decode data).1 = true /\
    (decode data).2 = v.
Proof.
  unfold disk_list. rewrite list_elem_of_omap. split.
  - intros ([k' data] & Hin & He). simpl in He. destruct (decode data) as [e d] eqn:Ed.
    destruct (not_expired now e) eqn:En; [|done]. injection He as -> ->. apply s_list_get in Hin.
    exists data. by rewrite Ed.
  - intros (data & Hg & Hn & Hv). exists (k, data). split; [by apply s_list_get|]. simpl.
    destruct (decode data) as [e d]. simpl in *. rewrite Hn. by subst.
Qed.

Lemma disk_list_nodup now db : NoDup (disk_list now db).*1.
Proof.
  unfold disk_list. pose proof (s_list_nodup db) as Hn. induction (s_list db) as [|[k data] l IH]; [apply NoDup_nil_2|].
  cbn [omap list_omap]. rewrite fmap_cons in Hn. apply NoDup_cons in Hn as [Hk Hl]. cbn [fst snd] in *.
  destruct (decode data) as [e d]. destruct (not_expired now e); [|by apply IH]. rewrite fmap_cons. apply NoDup_cons.
  split; [|by apply IH]. intros ([k' v'] & E & Hin)%list_elem_of_fmap. simpl in E. subst k'.
  apply list_elem_of_omap in Hin as ([k2 data2] & Hin & He). simpl in He. destruct (decode data2) as [e2 d2].
  destruct (not_expired now e2); [|done]. injection He as -> _. apply Hk.
  apply (list_elem_of_fmap_2 fst _ (k, data2)). done.
Qed.

Lemma live_monotone now now' e : now <= now' -> not_expired now e = false -> not_expired now' e = false.
Proof.
  unfold not_expired. intros Hn. rewrite !orb_false_iff. intros [He Hl]. split; [done|].
  pose proof (Z.div_le_mono now now' 1000 ltac:(lia) Hn). lia.
Qed.

(** *** The interface *)
Definition disk_at (db : D) (now : Z) (k : str) : str := (disk_get now k db).1.

Lemma disk_at_get db db' now k : s_get db k = s_get db' k -> disk_at db now k = disk_at db' now k.
Proof.
  intros E. unfold disk_at, disk_get. rewrite E. destruct (s_get db' k) as [data|]; [|done].
  destruct (decode data) as [e v]. by destruct (not_expired now e).
Qed.

Lemma disk_get_keeps db now now' k k' :
  now <= now' -> disk_at (disk_get now k db).2 now' k' = disk_at db now' k'.
Proof.
  intros Hn. unfold disk_get. destruct (s_get db k) as [data|] eqn:E; [|done].
  destruct (decode data) as [e v] eqn:Ed. destruct (not_expired now e) eqn:El; [done|]. cbn [snd].
  destruct (decide (k = k')) as [<-|Hk].
  - unfold disk_at, disk_get, disk_erase. rewrite s_get_del, decide_True, E, Ed by done.
    by rewrite (live_monotone now now').
  - apply disk_at_get. unfold disk_erase. by rewrite s_get_del, decide_False.
Qed.
End disk.

(** The laws of the interface, when leveldb's writes succeed. *)
Definition disk_kv_laws {D} `{StoreLaws D} (encode : Z -> str -> str) (decode : str -> Z * str)
    (decode_encode : forall e d, 0 <= e < 2 ^ 32 -> decode (encode e d) = (e, d))
    (writes : forall d k v, (s_put d k v).1 = true) : @KvLaws D (disk_kv encode decode).
Proof.
  refine (@Build_KvLaws D (disk_kv encode decode) (disk_at decode) _ _ _ _ _).
  - done.
  - intros. by apply disk_get_keeps.
  - intros d now now' k k' v _ _ _. cbn [kv_put disk_kv]. unfold disk_put. cbn [negb Z.eqb].
    case_decide as Hk; [subst k'|].
    + unfold disk_at, disk_get. rewrite s_get_put, writes, decide_True by done. by rewrite decode_encode by lia.
    + apply disk_at_get. by rewrite s_get_put, writes, decide_False.
  - intros d now k k' _ _. cbn [kv_erase disk_kv]. unfold disk_erase. case_decide as Hk; [subst k'|].
    + unfold disk_at, disk_get. by rewrite s_get_del, decide_True.
    + apply disk_at_get. by rewrite s_get_del, decide_False.
  - intros d now k. unfold disk_at, disk_get. cbn [kv_clear disk_kv]. by rewrite disk_clear_get.
Defined.

(** ** [shm_kv] *)
Section shm.
Context {D : Type} `{StoreLaws D}.

(** Keys and values cross into shared memory as C strings. *)
Definition shm_get (key : str) (kv : D) : str :=
  if bool_decide (key = []) then []
  else match s_get kv (cstr key) with Some v => cstr v | None => [] end.

Definition shm_put (key value : str) (kv : D) : D :=
  if bool_decide (key = []) || bool_decide (value = []) then kv
  else (s_put kv (cstr key) (cstr value)).2.

(** [map::insert] leaves an existing key alone. *)
Definition shm_put_if_absent (key value : str) (kv : D) : D :=
  if bool_decide (key = []) || bool_decide (value = []) then kv
  else match s_get kv (cstr key) with
       | Some _ => kv
       | None => (s_put kv (cstr key) (cstr value)).2
       end.

Definition shm_erase (key : str) (kv : D) : D := s_del kv (cstr key).
Definition shm_clear (kv : D) : D := fold_left (fun kv p => s_del kv p.1) (s_list kv) kv.
Definition shm_list (kv : D) : list (str * str) := (fun p => (cstr p.1, cstr p.2)) <$> s_list kv.

#[export] Instance shm_kv : AbstractKv D := {|
  kv_get := fun _ k kv => (shm_get k kv, kv);
  kv_put := fun _ k v _ kv => shm_put k v kv;
  kv_erase := shm_erase; kv_clear := shm_clear;
  kv_list := fun _ kv => shm_list kv
|}.
End shm.

(** [shm_kv::create] and [share], on the table of instances of a process. *)
Section instances.
Context {D : Type} (open_segment : str -> D).

Definition shm_create (ns : str) (instances : gmap str D) : D * gmap str D :=
  match instances !! ns with
  | Some shm => (shm, instances)
  | None => let shm := open_segment ns in (shm, <[ns := shm]> instances)
  end.

Definition shm_share (ns : str) (instances : gmap str D) : option D := instances !! ns.
End instances.

Lemma cstr_nonempty s : Forall (fun c => c <> 0) s -> cstr s = s.
Proof. apply cstr_no_nul. Qed.

Lemma cstr_idem s : cstr (cstr s) = cstr s.
Proof. apply cstr_no_nul, cstr_nonzero. Qed.

Lemma shm_clear_get {D} `{StoreLaws D} (kv : D) k : s_get (shm_clear kv) k = None.
Proof. apply (disk_clear_get kv k). Qed.

Definition shm_kv_laws {D} `{StoreLaws D} (writes : forall d k v, (s_put d k v).1 = true) :
  @KvLaws D shm_kv.
Proof.
  refine (@Build_KvLaws D shm_kv (fun d _ k => shm_get k d) _ _ _ _ _); [done|done| | |].
  - intros d now now' k k' v [Hk0 Hk] [Hk0' Hk'] Hv. cbn [kv_put shm_kv]. unfold shm_put, shm_get.
    rewrite !bool_decide_false by done. cbn [orb]. rewrite s_get_put, writes, !cstr_nonempty by done.
    case_decide; [apply cstr_idem|done].
  - intros d now k k' [Hk0 Hk] [Hk0' Hk']. cbn [kv_erase shm_kv]. unfold shm_erase, shm_get.
    rewrite bool_decide_false, s_get_del, !cstr_nonempty by done. by case_decide.
  - intros d now k. cbn [kv_clear shm_kv]. unfold shm_get. rewrite shm_clear_get. by case_bool_decide.
Defined.

(** ** A store: finite maps (every write succeeds) *)
#[export] Instance map_store : Store (gmap str str) := {|
  s_get := fun d k => d !! k;
  s_put := fun d k v => (true, <[k := v]> d);
  s_del := fun d k => delete k d;
  s_list := map_to_list
|}.

#[export] Instance map_store_laws : StoreLaws (gmap str str).
Proof.
  split; cbn.
  - intros. apply lookup_insert.
  - intros. apply lookup_delete.
  - intros. apply elem_of_map_to_list.
  - intros. apply NoDup_fst_map_to_list.
Qed.

(** A codec: four bytes of expiry before the data. *)
Definition toy_encode (e : Z) (d : str) : str := [e / 2 ^ 24; e / 2 ^ 16 mod 256; e / 2 ^ 8 mod 256; e mod 256] ++ d.
Definition toy_decode (s : str) : Z * str :=
  match s with
  | a :: b :: c :: d :: rest => (a * 2 ^ 24 + b * 2 ^ 16 + c * 2 ^ 8 + d, rest)
  | _ => (0, [])
  end.

Lemma toy_decode_encode e d : 0 <= e < 2 ^ 32 -> toy_decode (toy_encode e d) = (e, d).
Proof. intros He. unfold toy_decode, toy_encode. cbn [app]. f_equal. change (2 ^ 24) with 16777216. change (2 ^ 16) with 65536. change (2 ^ 8) with 256. zdiv. Qed.

(** ** Properties *)



(** Through the interface both stores are maps of C strings: after a
    successful [put] of a non-empty value every [get], whatever was read in between, returns
    the value up to its first NUL, and other keys keep theirs. *)
Theorem kv_put_get {D} `{KvLaws D} (d : D) (now1 now2 now3 : Z) (k k' probe v : str) :
  key_ok k -> key_ok k' -> v <> [] -> now2 <= now3 ->
  (kv_get now3 k' (kv_get now2 probe (kv_put now1 k v 0 d)).2).1 =
  if decide (k = k') then cstr v else (kv_get now3 k' d).1.
Proof.
  intros Hk Hk' Hv Hn. rewrite kv_get_value, kv_get_keeps by done. rewrite kv_put_at by done.
  by rewrite kv_get_value.
Qed.

Lemma kv_put_get_witness :
  (@kv_get _ (disk_kv toy_encode toy_decode) 9000 [97] (@kv_get _ (disk_kv toy_encode toy_decode) 8000 [98]
    (@kv_put _ (disk_kv toy_encode toy_decode) 5000 [97] [7; 8; 0; 9] 0 (∅ : gmap str str))).2).1 =
  if decide ([97] = [97] :> str) then cstr [7; 8; 0; 9] else (@kv_get _ (disk_kv toy_encode toy_decode) 9000 [97] (∅ : gmap str str)).1.
Proof.
  apply (@kv_put_get _ _ (@disk_kv_laws (gmap str str) map_store map_store_laws toy_encode toy_decode toy_decode_encode (fun (_ : gmap str str) _ _ => eq_refl)) ∅ 5000 8000 9000
    [97] [97] [98] [7; 8; 0; 9]).
  - split; [done|]. by repeat constructor.
  - split; [done|]. by repeat constructor.
  - done.
  - lia.
Defined.
