(* ===== verification/Records.v ===== *)
(** * The record manager ([src/src/core/dns_record_manager.h], [.cpp])

    What each remote server answered for each domain, kept in a key-value
    store as protobuf messages; resolving a domain merges the answers of the
    servers selected for it. The stores are used through the interface
    [AbstractKv], the area manager through [AreaManager]. *)
From S2P Require Import Prelude Bytes Text Domain AreaRange AreaManager Config Kv.

(** ** Data *)
Record dns_ip_record := DnsIpRecord {
  ir_ip : Z;
  ir_match_area : bool;
  forbid : bool;
  ir_expire : bool;
  ir_expire_time : Z;
  ir_server : str;
  server_order : Z
}.

Definition compare (a b : dns_ip_record) : bool :=
  if negb (Bool.eqb (ir_match_area a) (ir_match_area b)) then
    if ir_match_area a then true else false
  else if negb (Bool.eqb (forbid a) (forbid b)) then
    if forbid b then true else false
  else server_order a <? server_order b.

Record dns_record := DnsRecord {
  rec_ips : list Z;
  expire_time : Z;
  server : str;
  rec_domain : str;
  rec_servers : gset str;
  expire : bool;
  match_area : bool;
  trusted_ip_count : Z;
  total_ip_count : Z
}.

Definition empty_record (domain : str) : dns_record :=
  DnsRecord [] 0 [] domain ∅ false false 0 0.

Definition bool_str (b : bool) : str := if b then lit "1" else lit "0".

(** [dns_record::serialize()] *)
Definition record_serialize (r : dns_record) : outcome str :=
  ips ← ips_to_str (rec_ips r);
  Ret (server r ++ lit "	" ++ rec_domain r ++ lit "	" ++ to_string (expire_time r) ++ lit "	" ++
       bool_str (match_area r) ++ lit "	" ++ ips ++ lit "	" ++ bool_str (expire r)).

(** The protobuf messages of [message.proto]. *)
Record pb_record := PbRecord { pb_expire : Z; pb_ips : list Z }.
Record pb_records := PbRecords { pb_domain : str; pb_map : gmap str pb_record }.
Record pb_reverse := PbReverse { rev_ip : Z; rev_domains : list str }.

Record dns_record_stats := DnsRecordStats {
  total_domain : Z; trusted_domain : Z; total_ip : Z; trusted_ip : Z
}.

Definition stats_serialize (s : dns_record_stats) : str :=
  lit "total_domain:" ++ to_string (total_domain s) ++ [10] ++ lit "trusted_domain:" ++ to_string (trusted_domain s) ++
  [10] ++ lit "total_ip:" ++ to_string (total_ip s) ++ [10] ++ lit "trusted_ip:" ++ to_string (trusted_ip s).

(** ** Merging the answers of the servers *)

(** A vector filled with the elements not yet in it. *)
Definition push_new (ips : list Z) (ip : Z) : list Z := if bool_decide (ip ∈ ips) then ips else ips ++ [ip].
Definition dedup (ips : list Z) : list Z := fold_left push_new ips [].

(** One turn of the selection loop: the server chosen, the addresses, and the
    two counters. *)
Definition select_ip (s : str * list Z * Z * Z) (item : dns_ip_record) : str * list Z * Z * Z :=
  let '(server, ips, trusted, total) := s in
  if ir_match_area item && negb (forbid item) then
    if negb (bool_decide (server = [])) && negb (bool_decide (ir_server item = server)) then s
    else if bool_decide (ir_ip item ∈ ips) then s
    else (ir_server item, ips ++ [ir_ip item], u32 (trusted + 1), u32 (total + 1))
  else (server, ips, trusted, u32 (total + 1)).

(** The second half of [transform]: from the collected addresses to the
    record. *)
Definition merge (sort : list dns_ip_record -> list dns_ip_record) (shuffle : list Z -> list Z)
    (domain : str) (answered : gset str) (ip_records : list dns_ip_record) : dns_record :=
  let ip_records := sort ip_records in
  let '(_, ips, trusted, total) := fold_left select_ip ip_records ([], [], 0, 0) in
  let ips := if bool_decide (ips = []) then dedup (ir_ip <$> ip_records) else ips in
  let ips := shuffle ips in
  match ip_records with
  | [] => DnsRecord ips 0 [] domain answered false false trusted total
  | r :: _ => DnsRecord ips (ir_expire_time r) (ir_server r) domain answered (ir_expire r)
                (ir_match_area r) trusted total
  end.

Section manager.
Context {D : Type} `{AbstractKv D}.
(** Third-party code: the id's replacement, regular expressions, protobuf, and
    the orders the standard library leaves open. *)
Context (ireplace : str -> str -> str -> str) (regex_match : str -> str -> outcome bool).
Context (encode : pb_records -> str) (decode : str -> pb_records).
Context (encode_rev : pb_reverse -> str) (decode_rev : str -> pb_reverse).
Context (sort : list dns_ip_record -> list dns_ip_record) (shuffle : list Z -> list Z).
Context (iter : gmap str (list area_ip_range) -> list (str * list area_ip_range)).
(** [config::INSTANCE.servers] *)
Context (servers : list remote_dns_server).

Record record_manager := RecordManager { db : D; reverse : D; area_manager : manager }.

(** The addresses one server answered. *)
Fixpoint server_ip_records (now : Z) (s : remote_dns_server) (r : pb_record) (order : Z) (ips : list Z)
    (st : manager) : outcome (list dns_ip_record * manager) :=
  match ips with
  | [] => Ret ([], st)
  | ip :: rest =>
      '(b, st) ← is_area_ip iter now (areas s) ip st;
      let tmp := DnsIpRecord ip b false (pb_expire r <? now / 1000) (pb_expire r) (server_id ireplace s) order in
      '(l, st) ← server_ip_records now s r order rest st;
      Ret (tmp :: l, st)
  end.

Fixpoint collect (now : Z) (records : pb_records) (todo : list remote_dns_server) (order : Z)
    (answered : gset str) (st : manager) : outcome (list dns_ip_record * gset str * manager) :=
  match todo with
  | [] => Ret ([], answered, st)
  | s :: rest =>
      let serverId := server_id ireplace s in
      let order := u8 (order + 1) in
      match pb_map records !! serverId with
      | Some r =>
          '(l, st) ← server_ip_records now s r order (pb_ips r) st;
          let answered := if bool_decide (pb_ips r = []) then answered else {[serverId]} ∪ answered in
          '(l', answered, st) ← collect now records rest order answered st;
          Ret (l ++ l', answered, st)
      | None => collect now records rest order answered st
      end
  end.

(** [dns_record_manager::transform(records)] *)
Definition transform (now : Z) (records : pb_records) (st : manager) : outcome (dns_record * manager) :=
  selected ← select_servers regex_match (fun s => s) (pb_domain records) servers;
  '(l, answered, st) ← collect now records selected 0 ∅ st;
  Ret (merge sort shuffle (pb_domain records) answered l, st).

(** [dns_record::transform(records)]: a record per configured server. *)
Fixpoint any_area_ip (now : Z) (areas : list str) (ips : list Z) (st : manager) : outcome (bool * manager) :=
  match ips with
  | [] => Ret (false, st)
  | ip :: rest =>
      '(b, st) ← is_area_ip iter now areas ip st;
      if (b : bool) then Ret (true, st) else any_area_ip now areas rest st
  end.

Fixpoint record_list (now : Z) (records : pb_records) (todo : list remote_dns_server) (st : manager)
    : outcome (list dns_record * manager) :=
  match todo with
  | [] => Ret ([], st)
  | s :: rest =>
      let serverId := server_id ireplace s in
      match pb_map records !! serverId with
      | Some item =>
          '(b, st) ← any_area_ip now (areas s) (pb_ips item) st;
          let record := DnsRecord (pb_ips item) (pb_expire item) serverId (pb_domain records) ∅
                          (pb_expire item <? now / 1000) b 0 0 in
          '(l, st) ← record_list now records rest st;
          Ret (record :: l, st)
      | None => record_list now records rest st
      end
  end.

Definition transform_list (now : Z) (records : pb_records) (st : manager) : outcome (list dns_record * manager) :=
  if bool_decide (pb_domain records = []) then Ret ([], st) else record_list now records servers st.

(** ** The operations *)
Definition get_dns_records_pb (now : Z) (domain : str) (st : record_manager) : pb_records * record_manager :=
  let '(data, d) := kv_get now domain (db st) in
  let record := if bool_decide (data = []) then PbRecords [] ∅ else decode data in
  (PbRecords domain (pb_map record), RecordManager d (reverse st) (area_manager st)).

Definition resolve (now : Z) (domain : str) (st : record_manager) : outcome (dns_record * record_manager) :=
  let '(records, st) := get_dns_records_pb now domain st in
  '(r, am) ← transform now records (area_manager st);
  Ret (r, RecordManager (db st) (reverse st) am).

Definition get_dns_record_list (now : Z) (domain : str) (st : record_manager)
    : outcome (list dns_record * record_manager) :=
  let '(records, st) := get_dns_records_pb now domain st in
  '(l, am) ← transform_list now records (area_manager st);
  Ret (l, RecordManager (db st) (reverse st) am).

Definition reverse_resolve (now ip : Z) (st : record_manager) : pb_reverse * record_manager :=
  let '(data, d) := kv_get now (to_string ip) (reverse st) in
  let record := if bool_decide (data = []) then PbReverse 0 [] else decode_rev data in
  (PbReverse ip (rev_domains record), RecordManager (db st) d (area_manager st)).

Definition add_reverse_record (now ip : Z) (domain : str) (st : record_manager) : record_manager :=
  let '(record, st) := reverse_resolve now ip st in
  if bool_decide (domain ∈ rev_domains record) then st
  else RecordManager (db st)
         (kv_put now (to_string ip) (encode_rev (PbReverse ip (rev_domains record ++ [domain]))) 0 (reverse st))
         (area_manager st).

Definition add_ip (now : Z) (domain : str) (st : record_manager) (ip : Z) : record_manager :=
  add_reverse_record now ip domain
    (RecordManager (db st) (reverse st) (with_posted (area_manager st) (PostLoadIpInfo ip))).

(** [add(domain, ips, dns_server, expire)]: what was read at the start is
    written back with the server's entry replaced. *)
Definition add (now : Z) (domain : str) (ips : list Z) (dns_server : str) (expire : Z) (st : record_manager)
    : record_manager :=
  let '(dns_records, st) := get_dns_records_pb now domain st in
  let pb := PbRecord (u32 (expire + now / 1000)) ips in
  let st := fold_left (add_ip now domain) ips st in
  RecordManager
    (kv_put now domain (encode (PbRecords domain (<[dns_server := pb]> (pb_map dns_records)))) 0 (db st))
    (reverse st) (area_manager st).

Definition remove (domain : str) (st : record_manager) : record_manager :=
  RecordManager (kv_erase domain (db st)) (reverse st) (area_manager st).

Definition clear (st : record_manager) : record_manager :=
  RecordManager (kv_clear (db st)) (reverse st) (area_manager st).

(** [stats()], over what the store lists. *)
Fixpoint stats_loop (now : Z) (entries : list (str * str)) (s : dns_record_stats) (am : manager)
    : outcome (dns_record_stats * manager) :=
  match entries with
  | [] => Ret (s, am)
  | (_, value) :: rest =>
      let records := decode value in
      if bool_decide (pb_domain records = []) then stats_loop now rest s am
      else
        '(record, am) ← transform now records am;
        stats_loop now rest
          (DnsRecordStats (u32 (total_domain s + 1))
             (if match_area record then u32 (trusted_domain s + 1) else trusted_domain s)
             (u32 (total_ip s + total_ip_count record)) (u16 (trusted_ip s + trusted_ip_count record))) am
  end.

Definition stats (now : Z) (st : record_manager) : outcome (dns_record_stats * record_manager) :=
  '(s, am) ← stats_loop now (kv_list now (db st)) (DnsRecordStats 0 0 0 0) (area_manager st);
  Ret (s, RecordManager (db st) (reverse st) am).

(** [dump()]: the lines of the file written. *)
Fixpoint dump_records (records : list dns_record) : outcome str :=
  match records with
  | [] => Ret []
  | r :: rest => l ← record_serialize r; t ← dump_records rest; Ret (l ++ [10] ++ t)
  end.

Fixpoint dump_loop (now : Z) (entries : list (str * str)) (am : manager) : outcome (str * manager) :=
  match entries with
  | [] => Ret ([], am)
  | (_, value) :: rest =>
      let records := decode value in
      if bool_decide (pb_domain records = []) then dump_loop now rest am
      else
        '(l, am) ← transform_list now records am;
        text ← dump_records l;
        '(t, am) ← dump_loop now rest am;
        Ret (text ++ t, am)
  end.

Definition dump (now : Z) (st : record_manager) : outcome (str * record_manager) :=
  '(text, am) ← dump_loop now (kv_list now (db st)) (area_manager st);
  Ret (text, RecordManager (db st) (reverse st) am).
End manager.

(** ** Specification *)

(** What [std::sort] and [std::shuffle] guarantee. *)
Definition not_after (a b : dns_ip_record) : Prop := compare b a = false.
Definition sorts (sort : list dns_ip_record -> list dns_ip_record) : Prop :=
  forall l, sort l ≡ₚ l /\ StronglySorted not_after (sort l).
Definition shuffles (shuffle : list Z -> list Z) : Prop := forall l, shuffle l ≡ₚ l.

#[export] Instance not_after_dec a b : Decision (not_after a b) := decide (compare b a = false).

(** ** Lemmas: merging *)
Lemma not_after_total : Total not_after.
Proof.
  intros a b. unfold not_after, compare. destruct (ir_match_area a), (ir_match_area b), (forbid a), (forbid b); cbn; auto; lia.
Qed.

#[export] Instance not_after_trans : Transitive not_after.
Proof.
  intros a b c. unfold not_after, compare.
  destruct (ir_match_area a), (ir_match_area b), (ir_match_area c), (forbid a), (forbid b), (forbid c); cbn; auto; lia.
Qed.

Lemma merge_sort_sorts : sorts (merge_sort not_after).
Proof.
  intros l. split; [apply merge_sort_Permutation|]. apply StronglySorted_merge_sort; [apply _|apply not_after_total].
Qed.

Lemma elem_push_new x ips ip : x ∈ push_new ips ip <-> x ∈ ips \/ x = ip.
Proof.
  unfold push_new. case_bool_decide; [|by rewrite elem_of_app, list_elem_of_singleton].
  split; [by left|]. intros [Hx| ->]; done.
Qed.

Lemma push_all l : forall ips, NoDup ips ->
  NoDup (fold_left push_new l ips) /\ forall x, x ∈ fold_left push_new l ips <-> x ∈ ips \/ x ∈ l.
Proof.
  induction l as [|ip l IH]; intros ips Hn; cbn [fold_left].
  - split; [done|]. intros x. rewrite elem_of_nil. tauto.
  - destruct (IH (push_new ips ip)) as [Hn' Hx].
    + unfold push_new. case_bool_decide; [done|]. apply NoDup_app. split; [done|]. split; [|apply NoDup_singleton].
      intros y Hy ->%list_elem_of_singleton. done.
    + split; [done|]. intros x. rewrite Hx, elem_push_new, elem_of_cons. tauto.
Qed.

Lemma dedup_spec l : NoDup (dedup l) /\ forall x, x ∈ dedup l <-> x ∈ l.
Proof. destruct (push_all l [] (NoDup_nil_2)) as [Hn Hx]. split; [done|]. intros x. rewrite Hx, elem_of_nil. tauto. Qed.

Definition usable (r : dns_ip_record) : Prop := forbid r = false /\ ir_server r <> [].
Definition own (s : str) (r : dns_ip_record) : bool := ir_match_area r && bool_decide (ir_server r = s).

Lemma select_ip_eq s r ips trusted total : s <> [] -> forbid r = false ->
  select_ip (s, ips, trusted, total) r =
  if own s r then
    if bool_decide (ir_ip r ∈ ips) then (s, ips, trusted, total)
    else (s, ips ++ [ir_ip r], u32 (trusted + 1), u32 (total + 1))
  else (s, ips, trusted, if ir_match_area r then total else u32 (total + 1)).
Proof.
  intros Hs Hf. unfold select_ip, own. rewrite Hf, (bool_decide_false (s = [])) by done.
  destruct (ir_match_area r); cbn [andb negb]; [|done].
  case_bool_decide as E; cbn [negb]; [|done]. by rewrite E.
Qed.

Lemma select_rest s l : forall ips trusted total, s <> [] -> Forall usable l -> NoDup ips -> trusted = u32 (zlen ips) ->
  exists total', fold_left select_ip l (s, ips, trusted, total) =
    (s, fold_left push_new (ir_ip <$> List.filter (own s) l) ips,
     u32 (zlen (fold_left push_new (ir_ip <$> List.filter (own s) l) ips)), total').
Proof.
  induction l as [|r l IH]; intros ips trusted total Hs Hl Hn Ht; [exists total; by rewrite Ht|].
  apply Forall_cons in Hl as [[Hf Hr] Hl]. cbn [fold_left List.filter]. rewrite select_ip_eq by done.
  destruct (own s r) eqn:Eo; [|by apply IH]. rewrite fmap_cons. cbn [fold_left]. unfold push_new at 2 4.
  case_bool_decide as Hin; [by apply IH|]. apply IH; [done|done| |].
  - apply NoDup_app. split; [done|]. split; [|apply NoDup_singleton]. by intros y Hy ->%list_elem_of_singleton.
  - subst trusted. autorewrite with wrap. f_equal. zlen.
Qed.

Lemma select_none l : forall total, Forall (fun r => ir_match_area r = false) l ->
  exists total', fold_left select_ip l ([], [], 0, total) = ([], [], 0, total').
Proof.
  induction l as [|r l IH]; intros total Hl; [by exists total|]. apply Forall_cons in Hl as [Hr Hl].
  cbn [fold_left]. unfold select_ip at 2. rewrite Hr. cbn [andb]. by apply IH.
Qed.

Lemma none_matches l : List.filter ir_match_area l = [] -> Forall (fun r => ir_match_area r = false) l.
Proof.
  induction l as [|r l IH]; intros E; [done|]. cbn [List.filter] in E. destruct (ir_match_area r) eqn:Er; [done|].
  constructor; [done|by apply IH].
Qed.

Lemma elem_filter {A} (f : A -> bool) l x : x ∈ List.filter f l <-> x ∈ l /\ f x = true.
Proof. rewrite !list_elem_of_In. apply List.filter_In. Qed.

(** The sorted records, when some address matches: the first has the best rank. *)
Lemma sorted_best sort rs r l : sorts sort -> Forall usable rs -> sort rs = r :: l ->
  List.filter ir_match_area rs <> [] ->
  r ∈ rs /\ ir_match_area r = true /\ Forall (fun x => server_order r <= server_order x) (List.filter ir_match_area rs).
Proof.
  intros Hs Hu E Hm. destruct (Hs rs) as [Hp Ho]. rewrite E in Hp, Ho. apply StronglySorted_inv in Ho as [_ Ho].
  assert (r ∈ rs) as Hr by (rewrite <- Hp; left).
  assert (forall x, x ∈ rs -> not_after r x) as Hall.
  { intros x Hx. rewrite <- Hp in Hx. apply elem_of_cons in Hx as [->|Hx].
    - unfold not_after, compare. rewrite !eqb_reflx. cbn. lia.
    - by apply (proj1 (Forall_forall _ _) Ho). }
  rewrite Forall_forall in Hu. assert (ir_match_area r = true) as Hrm.
  { destruct (List.filter ir_match_area rs) as [|y ys] eqn:Ey; [done|].
    assert (y ∈ rs /\ ir_match_area y = true) as [Hy Hym] by (apply elem_filter; rewrite Ey; left).
    specialize (Hall y Hy). unfold not_after, compare in Hall. rewrite Hym in Hall.
    destruct (ir_match_area r); [done|]. done. }
  split; [done|]. split; [done|]. apply Forall_forall. intros x [Hx Hxm]%elem_filter. specialize (Hall x Hx).
  unfold not_after, compare in Hall. rewrite Hrm, Hxm in Hall.
  rewrite (proj1 (Hu _ Hx)), (proj1 (Hu _ Hr)) in Hall. cbn in Hall. lia.
Qed.

(** Merging the answers: when some address lies in the area of the server that gave
    it, the record holds, once each and in some order, the matching addresses of one server, a
    server of the best rank among those with a matching address, and takes its expiry from it;
    otherwise it holds every address answered and is not marked as matching. *)
Lemma merge_records (sort : list dns_ip_record -> list dns_ip_record) (shuffle : list Z -> list Z)
    (domain : str) (answered : gset str) (rs : list dns_ip_record) :
  sorts sort -> shuffles shuffle -> Forall usable rs ->
  let r := merge sort shuffle domain answered rs in
  let matching := List.filter ir_match_area rs in
  NoDup (rec_ips r) /\ rec_domain r = domain /\
  if bool_decide (matching = [])
  then match_area r = false /\ trusted_ip_count r = 0 /\ (forall ip, ip ∈ rec_ips r <-> ip ∈ ir_ip <$> rs)
  else exists best, best ∈ rs /\ ir_match_area best = true /\
    Forall (fun x => server_order best <= server_order x) matching /\
    server r = ir_server best /\ match_area r = true /\
    expire_time r = ir_expire_time best /\ expire r = ir_expire best /\
    (forall ip, ip ∈ rec_ips r <-> exists x, x ∈ matching /\ ir_server x = ir_server best /\ ir_ip x = ip) /\
    trusted_ip_count r = u32 (zlen (rec_ips r)).
Proof.
  intros Hs Hsh Hu r matching. pose proof (proj1 (Hs rs)) as Hp. unfold r, merge. case_bool_decide as Hm.
  - assert (Forall (fun x => ir_match_area x = false) (sort rs)) as Hn.
    { rewrite Hp. by apply none_matches. }
    destruct (select_none _ 0 Hn) as [total ->]. rewrite bool_decide_true by done.
    destruct (dedup_spec (ir_ip <$> sort rs)) as [Hd Hx].
    assert (NoDup (shuffle (dedup (ir_ip <$> sort rs)))) as Hnd by (by rewrite (Hsh _)).
    assert (forall ip, ip ∈ shuffle (dedup (ir_ip <$> sort rs)) <-> ip ∈ ir_ip <$> rs) as Hips.
    { intros ip. by rewrite (Hsh _), Hx, Hp. }
    destruct (sort rs) as [|x l]; cbn; [done|]. apply Forall_cons in Hn as [Hxm _]. done.
  - destruct (sort rs) as [|best l] eqn:E.
    { symmetry in Hp. apply Permutation_nil_r in Hp. subst rs. done. }
    destruct (sorted_best sort rs best l Hs Hu E Hm) as (Hb & Hbm & Hord).
    assert (Forall usable (best :: l)) as Hul by (by rewrite Hp).
    apply Forall_cons in Hul as [[Hbf Hbs] Hul]. cbn [fold_left].
    assert (select_ip ([], [], 0, 0) best = (ir_server best, [ir_ip best], u32 (0 + 1), u32 (0 + 1))) as ->.
    { unfold select_ip. by rewrite Hbm, Hbf. }
    destruct (select_rest (ir_server best) l [ir_ip best] (u32 (0 + 1)) (u32 (0 + 1)) Hbs Hul (NoDup_singleton _) eq_refl)
      as [total ->].
    destruct (push_all (ir_ip <$> List.filter (own (ir_server best)) l) [ir_ip best] (NoDup_singleton _)) as [Hnd Hx].
    set (ips := fold_left push_new _ _) in *.
    assert (ips <> []) as Hne. { intros E0. assert (ir_ip best ∈ ips) as Hi by (apply Hx; left; left). by rewrite E0, elem_of_nil in Hi. }
    rewrite bool_decide_false by done. cbn [rec_ips rec_domain server match_area expire_time expire trusted_ip_count].
    split; [by rewrite (Hsh _)|]. split; [done|]. exists best. repeat (split; [done|]). split.
    + intros ip. rewrite (Hsh _), Hx, list_elem_of_singleton, list_elem_of_fmap. setoid_rewrite elem_filter.
      unfold matching. setoid_rewrite elem_filter. setoid_rewrite <- Hp. setoid_rewrite elem_of_cons. unfold own.
      setoid_rewrite andb_true_iff. setoid_rewrite bool_decide_eq_true. naive_solver.
    + f_equal. unfold zlen. by rewrite (Hsh _).
Qed.

(** ** Lemmas: resolving *)
Lemma find_first {A} (f : A -> bool) l : forall i s, l !! i = Some s -> f s = true ->
  (forall j t, (j < i)%nat -> l !! j = Some t -> f t = false) -> List.find f l = Some s.
Proof.
  induction l as [|a l IH]; intros i s Hi Hs Hl; [done|]. cbn [List.find]. destruct i as [|i].
  - injection Hi as ->. by rewrite Hs.
  - rewrite (Hl 0%nat a) by (done || lia). apply (IH i); [done|done|]. intros j x Hj Hx. apply (Hl (S j) x); [lia|done].
Qed.

Lemma exists_cons {A} (P : A -> Prop) x l : (exists y, y ∈ x :: l /\ P y) <-> P x \/ exists y, y ∈ l /\ P y.
Proof.
  split.
  - intros (y & [->|Hy]%elem_of_cons & Hp); [by left|right; by exists y].
  - intros [Hp|(y & Hy & Hp)]; [exists x|exists y]; (split; [|done]); by constructor.
Qed.

Section resolve_lemmas.
Context (ireplace : str -> str -> str -> str).
Context (iter : gmap str (list area_ip_range) -> list (str * list area_ip_range)).
Context (now : Z) (records : pb_records) (am : manager).

Abbreviation id := (server_id ireplace).
Definition short_areas (s : remote_dns_server) : Prop := Forall (fun a => zlen a < npos) (areas s).

(** The addresses kept for a server, and the verdict on one. *)
Definition ips_of (s : remote_dns_server) : list Z := from_option pb_ips [] (pb_map records !! id s).
Definition trusted (s : remote_dns_server) (ip : Z) : bool := verdict iter (areas s) ip am.

Definition answer (s : remote_dns_server) (order : Z) (r : pb_record) (ip : Z) : dns_ip_record :=
  DnsIpRecord ip (trusted s ip) false (pb_expire r <? now / 1000) (pb_expire r) (id s) order.

Fixpoint answers (todo : list remote_dns_server) (order : Z) : list dns_ip_record :=
  match todo with
  | [] => []
  | s :: rest =>
      match pb_map records !! id s with
      | Some r => answer s (u8 (order + 1)) r <$> pb_ips r
      | None => []
      end ++ answers rest (u8 (order + 1))
  end.

Lemma server_id_nonempty s : id s <> [].
Proof. unfold server_id, generate_server_id. intros E. by apply app_eq_nil in E as [_ [E _]%app_eq_nil]. Qed.

Lemma server_ip_records_eq s r order ips : forall st, short_areas s -> same_but_posted am st ->
  exists st', server_ip_records ireplace iter now s r order ips st = Ret (answer s order r <$> ips, st') /\
    same_but_posted am st'.
Proof.
  induction ips as [|ip ips IH]; intros st Hs Hst; [by exists st|]. cbn [server_ip_records].
  destruct (is_area_ip_verdict iter now (areas s) ip st Hs) as (st1 & -> & Hst1). ret_step.
  destruct (IH st1 Hs) as (st2 & -> & Hst2); [by transitivity st|]. ret_step. exists st2. split; [|done].
  rewrite fmap_cons. unfold answer at 2, trusted. by rewrite (verdict_same iter (areas s) ip am st Hst).
Qed.

Lemma collect_eq todo : forall order answered st, Forall short_areas todo -> same_but_posted am st ->
  exists answered' st', collect ireplace iter now records todo order answered st = Ret (answers todo order, answered', st') /\
    same_but_posted am st' /\
    (forall i, i ∈ answered' <-> i ∈ answered \/ exists s, s ∈ todo /\ id s = i /\ ips_of s <> []).
Proof.
  induction todo as [|s todo IH]; intros order answered st Hs Hst; cbn [collect answers].
  { exists answered, st. split; [done|]. split; [done|]. intros i. set_solver. }
  apply Forall_cons in Hs as [Hs Htodo]. destruct (pb_map records !! id s) as [r|] eqn:E.
  - destruct (server_ip_records_eq s r (u8 (order + 1)) (pb_ips r) st Hs Hst) as (st1 & -> & Hst1). ret_step.
    destruct (IH (u8 (order + 1)) (if bool_decide (pb_ips r = []) then answered else {[id s]} ∪ answered) st1 Htodo Hst1)
      as (ans & st2 & -> & Hst2 & Hans). ret_step.
    eexists _, st2. split; [done|]. split; [done|]. intros i. rewrite Hans.
    assert (ips_of s = pb_ips r) as Hips by (unfold ips_of; by rewrite E).
    rewrite exists_cons, Hips. case_bool_decide as Hn; [tauto|].
    rewrite elem_of_union, elem_of_singleton. intuition congruence.
  - destruct (IH (u8 (order + 1)) answered st Htodo Hst) as (ans & st2 & -> & Hst2 & Hans).
    exists ans, st2. split; [done|]. split; [done|]. intros i. rewrite Hans.
    assert (ips_of s = []) as Hips by (unfold ips_of; by rewrite E).
    rewrite exists_cons, Hips. tauto.
Qed.

(** Each record is the answer of the server at its rank. *)
Lemma elem_answers x todo : forall order, 0 <= order -> order + zlen todo < 256 ->
  x ∈ answers todo order <-> exists i s r, todo !! i = Some s /\ pb_map records !! id s = Some r /\
    ir_ip x ∈ pb_ips r /\ x = answer s (order + 1 + Z.of_nat i) r (ir_ip x).
Proof.
  induction todo as [|s todo IH]; intros order Ho Hl; cbn [answers].
  - rewrite elem_of_nil. split; [done|]. by intros (i & s & r & Hi & _).
  - rewrite zlen_cons in Hl. pose proof (zlen_nonneg todo). rewrite u8_id by lia.
    rewrite elem_of_app, IH by lia. split.
    + intros [Hx|(i & s' & r & Hi & Hr & Hip & Hx)].
      * destruct (pb_map records !! id s) as [r|] eqn:E; [|by apply elem_of_nil in Hx].
        apply list_elem_of_fmap in Hx as (ip & -> & Hip). exists 0%nat, s, r. split_and!; [done|done|done|].
        by rewrite Z.add_0_r.
      * exists (S i), s', r. split_and!; [done|done|done|]. rewrite Hx at 1. f_equal. lia.
    + intros ([|i] & s' & r & Hi & Hr & Hip & Hx).
      * injection Hi as <-. left. rewrite Hr, Hx. rewrite Z.add_0_r. by apply list_elem_of_fmap_2.
      * right. exists i, s', r. split_and!; [done|done|done|]. rewrite Hx at 1. f_equal. lia.
Qed.

Lemma answers_usable todo : forall order, Forall usable (answers todo order).
Proof.
  induction todo as [|s todo IH]; intros order; cbn [answers]; [done|]. apply Forall_app. split; [|apply IH].
  destruct (pb_map records !! id s); [|done]. apply Forall_fmap, Forall_true. intros ip. split; [done|].
  apply server_id_nonempty.
Qed.
End resolve_lemmas.

(** The server of the best matching record is the first with a matching address. *)
Lemma best_first ireplace iter now records am selected best : zlen selected < 256 ->
  NoDup (server_id ireplace <$> selected) ->
  let l := answers ireplace iter now records am selected 0 in
  let has s := existsb (trusted iter am s) (ips_of ireplace records s) in
  best ∈ l -> ir_match_area best = true ->
  Forall (fun x => server_order best <= server_order x) (List.filter ir_match_area l) ->
  exists s, List.find has selected = Some s /\ ir_server best = server_id ireplace s /\
    forall ip, (exists x, x ∈ List.filter ir_match_area l /\ ir_server x = ir_server best /\ ir_ip x = ip) <->
      ip ∈ ips_of ireplace records s /\ trusted iter am s ip = true.
Proof.
  intros Hl Hnd l has Hb Hbm Hord.
  assert (forall x, x ∈ l <-> exists i s r, selected !! i = Some s /\ pb_map records !! server_id ireplace s = Some r /\
    ir_ip x ∈ pb_ips r /\ x = answer ireplace iter now am s (0 + 1 + Z.of_nat i) r (ir_ip x)) as Hel.
  { intros x. apply elem_answers; lia. }
  apply Hel in Hb as (i & s & r & Hi & Hr & Hip & Hx). exists s.
  assert (ir_server best = server_id ireplace s) as Hbs by (by rewrite Hx).
  split_and!; [|done|].
  - apply (find_first _ _ i); [done| |].
    + unfold has, ips_of. rewrite Hr. cbn. apply existsb_exists. exists (ir_ip best). split; [by apply list_elem_of_In|].
      rewrite Hx in Hbm. exact Hbm.
    + intros j t Hj Ht. apply not_true_is_false. intros (ip & Hip' & Htr)%existsb_exists. apply list_elem_of_In in Hip'.
      unfold ips_of in Hip'. destruct (pb_map records !! server_id ireplace t) as [r'|] eqn:Er; [|by apply elem_of_nil in Hip'].
      set (x := answer ireplace iter now am t (0 + 1 + Z.of_nat j) r' ip).
      assert (x ∈ List.filter ir_match_area l) as Hxl.
      { apply elem_filter. split; [apply Hel; by exists j, t, r'|done]. }
      pose proof (proj1 (Forall_forall _ _) Hord x Hxl) as Hle. rewrite Hx in Hle. cbn in Hle. lia.
  - intros ip. split.
    + intros (x & [Hxl Hxm]%elem_filter & Hxs & <-). apply Hel in Hxl as (j & t & r' & Hj & Hr' & Hip' & Hx').
      assert (t = s) as ->.
      { rewrite Hx' in Hxs. cbn [ir_server answer] in Hxs. rewrite Hbs in Hxs.
        assert (j = i) as -> by (eapply (NoDup_lookup _ _ _ _ Hnd); rewrite list_lookup_fmap, ?Hj, ?Hi; cbn; by f_equal).
        congruence. }
      unfold ips_of. rewrite Hr'. split; [done|]. rewrite Hx' in Hxm. exact Hxm.
    + unfold ips_of. rewrite Hr. cbn [from_option]. intros [Hip' Htr].
      exists (answer ireplace iter now am s (0 + 1 + Z.of_nat i) r ip). split_and!; [|done|done].
      apply elem_filter. split; [apply Hel; by exists i, s, r|done].
Qed.

(** ** Adding, removing *)

(** A message that serializes without a NUL byte: no zero address, no zero
    expiry, no empty or NUL-holding text (a zero varint and a zero length are
    the NUL bytes of the wire format). *)
Definition storable_record (r : pb_record) : Prop := 0 < pb_expire r /\ Forall (fun ip => 0 < ip) (pb_ips r).
Definition storable (r : pb_records) : Prop :=
  key_ok (pb_domain r) /\ forall id e, pb_map r !! id = Some e -> key_ok id /\ storable_record e.

Record Protobuf (encode : pb_records -> str) (decode : str -> pb_records) : Prop := {
  pb_roundtrip : forall r, decode (encode r) = r;
  pb_no_nul : forall r, storable r -> Forall (fun c => c <> 0) (encode r);
  pb_nonempty : forall r, storable r -> encode r <> []
}.
Section store_lemmas.
Context {D : Type} `{KvLaws D}.
Context (encode : pb_records -> str) (decode : str -> pb_records) (pb : Protobuf encode decode).
Context (encode_rev : pb_reverse -> str) (decode_rev : str -> pb_reverse).

Abbreviation lookup_pb now domain st := (get_dns_records_pb decode now domain st).1.
Abbreviation after_lookup now domain st := (get_dns_records_pb decode now domain st).2.

(** What [get_dns_records_pb] finds depends on the value stored alone. *)
Definition found (data domain : str) : pb_records :=
  PbRecords domain (pb_map (if bool_decide (data = []) then PbRecords [] ∅ else decode data)).

Lemma lookup_pb_eq now domain (st : record_manager) : lookup_pb now domain st = found (kv_at (db st) now domain) domain.
Proof.
  unfold get_dns_records_pb, found. rewrite <- kv_get_value. by destruct (kv_get now domain (db st)).
Qed.

Lemma after_lookup_db now domain (st : record_manager) : db (after_lookup now domain st) = (kv_get now domain (db st)).2.
Proof. unfold get_dns_records_pb. by destruct (kv_get now domain (db st)). Qed.

Lemma add_reverse_record_db now ip domain (st : record_manager) :
  db (add_reverse_record encode_rev decode_rev now ip domain st) = db st.
Proof.
  unfold add_reverse_record, reverse_resolve. destruct (kv_get now (to_string ip) (reverse st)). by case_bool_decide.
Qed.

Lemma add_ips_db now domain ips : forall st : record_manager,
  db (fold_left (add_ip encode_rev decode_rev now domain) ips st) = db st.
Proof.
  induction ips as [|ip ips IH]; intros st; cbn [fold_left]; [done|]. rewrite IH. unfold add_ip.
  by rewrite add_reverse_record_db.
Qed.

Lemma add_db now domain ips server expire (st : record_manager) :
  db (add encode decode encode_rev decode_rev now domain ips server expire st) =
  kv_put now domain (encode (PbRecords domain
    (<[server := PbRecord (u32 (expire + now / 1000)) ips]> (pb_map (lookup_pb now domain st))))) 0
    (kv_get now domain (db st)).2.
Proof.
  rewrite <- after_lookup_db. unfold add. destruct (get_dns_records_pb decode now domain st) as [records st1] eqn:E.
  cbn [db fst snd]. by rewrite add_ips_db.
Qed.

Lemma add_lookup now now' domain domain' ips server expire (st : record_manager) :
  let old := pb_map (lookup_pb now domain st) in
  let new := PbRecords domain (<[server := PbRecord (u32 (expire + now / 1000)) ips]> old) in
  storable new -> key_ok domain' -> now <= now' ->
  lookup_pb now' domain' (add encode decode encode_rev decode_rev now domain ips server expire st) =
  if decide (domain = domain') then new else lookup_pb now' domain' st.
Proof.
  intros old new Hs Hd' Hn. rewrite !lookup_pb_eq, add_db. fold old. fold new.
  rewrite kv_put_at by (apply Hs || done || by apply (pb_nonempty _ _ pb)). case_decide as E.
  - subst domain'. rewrite cstr_no_nul by (by apply (pb_no_nul _ _ pb)). unfold found.
    rewrite bool_decide_false by (by apply (pb_nonempty _ _ pb)). by rewrite (pb_roundtrip _ _ pb).
  - by rewrite kv_get_keeps.
Qed.

Lemma remove_lookup now domain domain' (st : record_manager) : key_ok domain -> key_ok domain' ->
  lookup_pb now domain' (remove domain st) =
  if decide (domain = domain') then PbRecords domain' ∅ else lookup_pb now domain' st.
Proof.
  intros Hd Hd'. rewrite !lookup_pb_eq. cbn [remove db]. rewrite kv_erase_at by done. by case_decide.
Qed.

Lemma clear_lookup now domain (st : record_manager) : lookup_pb now domain (clear st) = PbRecords domain ∅.
Proof. rewrite lookup_pb_eq. cbn [clear db]. by rewrite kv_clear_at. Qed.
End store_lemmas.

(** Resolving looks the domain up once, and leaves the stores otherwise alone. *)
Lemma resolve_ret {D} `{AbstractKv D} ireplace regex_match decode sort shuffle iter servers now domain
    (st : record_manager) selected :
  Forall short_areas selected -> select_servers regex_match (fun s => s) domain servers = Ret selected ->
  exists r st', resolve ireplace regex_match decode sort shuffle iter servers now domain st = Ret (r, st') /\
    db st' = (kv_get now domain (db st)).2 /\ reverse st' = reverse st.
Proof.
  intros Hsa Hsel. unfold resolve, get_dns_records_pb. destruct (kv_get now domain (db st)) as [data d].
  unfold transform. cbn [pb_domain area_manager reverse db]. rewrite Hsel. ret_step.
  edestruct (collect_eq ireplace iter now) as (answered & am & -> & _ & _); [exact Hsa|reflexivity|]. ret_step. by eexists _, _.
Qed.

(** What resolving finds, whatever the areas say: addresses some selected server gave, and
    none only when no selected server gave one. *)
Lemma resolve_found {D} `{AbstractKv D} ireplace regex_match decode sort shuffle iter servers now domain
    (st : record_manager) selected :
  sorts sort -> shuffles shuffle -> Forall short_areas selected ->
  select_servers regex_match (fun s => s) domain servers = Ret selected -> zlen selected < 256 ->
  let ips := ips_of ireplace (get_dns_records_pb decode now domain st).1 in
  exists r st', resolve ireplace regex_match decode sort shuffle iter servers now domain st = Ret (r, st') /\
    NoDup (rec_ips r) /\ (forall ip, ip ∈ rec_ips r -> exists s, s ∈ selected /\ ip ∈ ips s) /\
    (forall s, s ∈ selected -> ips s <> [] -> rec_ips r <> []).
Proof.
  intros Hso Hsh Hsa Hsel Hlen ips. unfold resolve.
  assert (pb_domain (get_dns_records_pb decode now domain st).1 = domain) as Hd
    by (unfold get_dns_records_pb; by destruct (kv_get now domain (db st))).
  destruct (get_dns_records_pb decode now domain st) as [records st1] eqn:E. cbn [fst] in *. unfold transform. rewrite Hd, Hsel. ret_step.
  destruct (collect_eq ireplace iter now records (area_manager st1) selected 0 ∅ (area_manager st1) Hsa ltac:(reflexivity))
    as (answered & am & -> & _ & _). ret_step. eexists _, _. split; [done|].
  set (rs := answers _ _ _ _ _ _ _) in *.
  assert (forall ip, ip ∈ ir_ip <$> rs <-> exists s, s ∈ selected /\ ip ∈ ips s) as Hrs.
  { intros ip. rewrite list_elem_of_fmap. split.
    - intros (x & -> & (i & s & r & Hi & Hr & Hip & _)%elem_answers); [|lia|lia]. exists s.
      split; [by apply list_elem_of_lookup_2 in Hi|]. unfold ips, ips_of. by rewrite Hr.
    - intros (s & [i Hi]%list_elem_of_lookup & Hip). unfold ips, ips_of in Hip.
      destruct (pb_map records !! server_id ireplace s) as [r|] eqn:Er; [|by apply elem_of_nil in Hip].
      exists (answer ireplace iter now (area_manager st1) s (0 + 1 + Z.of_nat i) r ip). split; [done|].
      apply elem_answers; [lia|lia|]. by exists i, s, r. }
  pose proof (answers_usable ireplace iter now records (area_manager st1) selected 0) as Hu. fold rs in Hu.
  destruct (merge_records sort shuffle domain answered rs Hso Hsh Hu) as (Hn & _ & Hcase). split; [done|].
  assert (forall s, s ∈ selected -> ips s <> [] -> exists ip, ip ∈ ir_ip <$> rs) as Hsome.
  { intros s Hs Hi. destruct (ips s) as [|ip l] eqn:Ei; [done|]. exists ip. apply Hrs. exists s. split; [done|]. rewrite Ei. left. }
  assert (forall x, x ∈ List.filter ir_match_area rs -> x ∈ rs) as Hin.
  { intros x Hx. apply list_elem_of_In, List.filter_In in Hx as [Hx _]. by apply list_elem_of_In. }
  case_bool_decide as Hm.
  - destruct Hcase as (_ & _ & Hips). split; [intros ip Hip; by apply Hrs, Hips|]. intros s Hs Hi E0.
    destruct (Hsome s Hs Hi) as [ip Hip]. apply Hips in Hip. rewrite E0 in Hip. by apply elem_of_nil in Hip.
  - destruct Hcase as (best & Hb & Hbm & _ & _ & _ & _ & _ & Hips & _). split.
    + intros ip (x & Hx & _ & <-)%Hips. apply Hrs, list_elem_of_fmap. exists x. by split; [|apply Hin].
    + intros s _ _ E0. assert (ir_ip best ∈ rec_ips (merge sort shuffle domain answered rs)) as Hbi.
      { apply Hips. exists best. split; [|done]. apply list_elem_of_In, List.filter_In. by split; [apply list_elem_of_In|]. }
      rewrite E0 in Hbi. by apply elem_of_nil in Hbi.
Qed.

Lemma lookup_after {D} `{KvLaws D} decode now now' domain domain' (st st' : record_manager) : now <= now' ->
  db st' = (kv_get now domain (db st)).2 ->
  (get_dns_records_pb decode now' domain' st').1 = (get_dns_records_pb decode now' domain' st).1.
Proof. intros Hn E. by rewrite !lookup_pb_eq, E, kv_get_keeps. Qed.

(** *** The reverse index *)
Definition storable_reverse (r : pb_reverse) : Prop := 0 < rev_ip r < 2 ^ 32 /\ Forall key_ok (rev_domains r).

Record ProtobufReverse (encode : pb_reverse -> str) (decode : str -> pb_reverse) : Prop := {
  rev_roundtrip : forall r, decode (encode r) = r;
  rev_no_nul : forall r, storable_reverse r -> Forall (fun c => c <> 0) (encode r);
  rev_nonempty : forall r, storable_reverse r -> encode r <> []
}.

Definition add_new (domains : list str) (domain : str) : list str :=
  if bool_decide (domain ∈ domains) then domains else domains ++ [domain].

Lemma add_new_idem ds d : add_new (add_new ds d) d = add_new ds d.
Proof.
  unfold add_new at 1. rewrite bool_decide_true; [done|]. unfold add_new. case_bool_decide; [done|].
  apply elem_of_app. right. by constructor.
Qed.

Lemma to_string_key_ok n : 0 <= n -> key_ok (to_string n).
Proof.
  intros Hn. split; [by destruct (to_string_cons n Hn) as (c & s & -> & _)|]. apply Forall_forall. intros c Hc ->.
  by apply (to_string_no_char n 0 Hn eq_refl) in Hc.
Qed.

Section reverse_lemmas.
Context {D : Type} `{KvLaws D}.
Context (encode_rev : pb_reverse -> str) (decode_rev : str -> pb_reverse) (pb : ProtobufReverse encode_rev decode_rev).
Context (now : Z) (domain : str) (Hdomain : key_ok domain).

Abbreviation domains_of ip st := (rev_domains (reverse_resolve decode_rev now ip st).1).
Definition index_ok (st : record_manager) : Prop :=
  forall ip, 0 < ip < 2 ^ 32 -> Forall key_ok (domains_of ip st).

Definition domains_in (data : str) : list str :=
  rev_domains (if bool_decide (data = []) then PbReverse 0 [] else decode_rev data).

Lemma domains_of_eq ip (st : record_manager) : domains_of ip st = domains_in (kv_at (reverse st) now (to_string ip)).
Proof. unfold reverse_resolve. rewrite <- kv_get_value. by destruct (kv_get now (to_string ip) (reverse st)). Qed.

Lemma after_resolve ip (st : record_manager) :
  reverse (reverse_resolve decode_rev now ip st).2 = (kv_get now (to_string ip) (reverse st)).2.
Proof. unfold reverse_resolve. by destruct (kv_get now (to_string ip) (reverse st)). Qed.

Lemma add_reverse_at ip ip' (st : record_manager) : 0 < ip < 2 ^ 32 -> 0 < ip' < 2 ^ 32 -> index_ok st ->
  domains_of ip' (add_reverse_record encode_rev decode_rev now ip domain st) =
  if decide (ip = ip') then add_new (domains_of ip' st) domain else domains_of ip' st.
Proof.
  intros Hip Hip' Hok. unfold add_reverse_record. specialize (Hok ip Hip). pose proof (after_resolve ip st) as Ha.
  destruct (reverse_resolve decode_rev now ip st) as [r st1] eqn:E. cbn [fst snd] in *.
  assert (rev_domains r = domains_of ip st) as Hr by (by rewrite E). unfold add_new at 1.
  case_bool_decide as Hin.
  - rewrite !domains_of_eq, Ha, kv_get_keeps by lia. rewrite <- !domains_of_eq. case_decide as Hd; [|done].
    subst ip'. unfold add_new. by rewrite <- Hr, bool_decide_true.
  - set (new := PbReverse ip (rev_domains r ++ [domain])).
    assert (storable_reverse new) as Hs.
    { split; [done|]. apply Forall_app. split; [done|by apply Forall_singleton]. }
    rewrite !domains_of_eq. cbn [reverse]. rewrite Ha, kv_put_at by
      (apply to_string_key_ok; lia) || (by apply (rev_nonempty _ _ pb)).
    case_decide as Hd; [apply to_string_inj in Hd; [|lia|lia]; subst ip'|].
    + rewrite decide_True by done. rewrite cstr_no_nul by (by apply (rev_no_nul _ _ pb)). unfold domains_in at 1.
      rewrite bool_decide_false by (by apply (rev_nonempty _ _ pb)). rewrite (rev_roundtrip _ _ pb).
      rewrite <- domains_of_eq, <- Hr. unfold add_new. by rewrite bool_decide_false.
    + rewrite decide_False by (by intros ->). by rewrite kv_get_keeps by lia.
Qed.

Lemma add_ips_domains ips : forall (st : record_manager) ip', Forall (fun ip => 0 < ip < 2 ^ 32) ips ->
  0 < ip' < 2 ^ 32 -> index_ok st ->
  domains_of ip' (fold_left (add_ip encode_rev decode_rev now domain) ips st) =
  if decide (ip' ∈ ips) then add_new (domains_of ip' st) domain else domains_of ip' st.
Proof.
  induction ips as [|ip ips IH]; intros st ip' Hips Hip' Hok; cbn [fold_left].
  { by rewrite decide_False by apply not_elem_of_nil. }
  apply Forall_cons in Hips as [Hip Hips].
  assert (forall ip', 0 < ip' < 2 ^ 32 -> domains_of ip' (add_ip encode_rev decode_rev now domain st ip) =
    if decide (ip = ip') then add_new (domains_of ip' st) domain else domains_of ip' st) as Hone.
  { intros ip1 H1. unfold add_ip. rewrite add_reverse_at; [by rewrite !domains_of_eq|done|done|].
    intros ip2 H2. rewrite domains_of_eq. cbn [reverse]. rewrite <- domains_of_eq. by apply Hok. }
  rewrite IH; [|done|done|].
  - rewrite Hone by done. destruct (decide (ip = ip')) as [->|Hne].
    + rewrite (decide_True (P := ip' ∈ ip' :: ips)) by constructor. rewrite add_new_idem. by case_decide.
    + rewrite (decide_ext (ip' ∈ ip :: ips) (ip' ∈ ips)); [done|]. rewrite elem_of_cons. split; [|by right].
      intros [->|Hin]; [done|done].
  - intros ip1 H1. rewrite Hone by done. specialize (Hok ip1 H1). case_decide; [|done]. unfold add_new.
    case_bool_decide; [done|]. apply Forall_app. split; [done|by apply Forall_singleton].
Qed.
End reverse_lemmas.

(** ** A codec: the message's number in binary, with digits 1 and 2 *)
#[export] Instance pb_record_eq_dec : EqDecision pb_record. Proof. solve_decision. Defined.
#[export] Instance pb_records_eq_dec : EqDecision pb_records. Proof. solve_decision. Defined.
#[export] Instance pb_reverse_eq_dec : EqDecision pb_reverse. Proof. solve_decision. Defined.
#[export] Instance pb_record_countable : Countable pb_record :=
  inj_countable' (fun r => (pb_expire r, pb_ips r)) (fun '(e, i) => PbRecord e i) ltac:(by intros []).
#[export] Instance pb_records_countable : Countable pb_records :=
  inj_countable' (fun r => (pb_domain r, pb_map r)) (fun '(d, m) => PbRecords d m) ltac:(by intros []).
#[export] Instance pb_reverse_countable : Countable pb_reverse :=
  inj_countable' (fun r => (rev_ip r, rev_domains r)) (fun '(i, d) => PbReverse i d) ltac:(by intros []).

Fixpoint pos_str (p : positive) : str :=
  match p with xH => [3] | xO p => 1 :: pos_str p | xI p => 2 :: pos_str p end.
Fixpoint str_pos (s : str) : positive :=
  match s with 1 :: s => xO (str_pos s) | 2 :: s => xI (str_pos s) | _ => xH end.

Definition num_encode {A} `{Countable A} (a : A) : str := pos_str (encode a).
Definition num_decode {A} `{Countable A} (d : A) (s : str) : A := default d (decode (str_pos s)).

Lemma num_roundtrip {A} `{Countable A} (d a : A) : num_decode d (num_encode a) = a.
Proof.
  unfold num_decode, num_encode. assert (forall p, str_pos (pos_str p) = p) as ->.
  { induction p as [p IH|p IH|]; cbn; by rewrite ?IH. }
  by rewrite decode_encode.
Qed.

Lemma num_bytes {A} `{Countable A} (a : A) : Forall (fun c => c <> 0) (num_encode a) /\ num_encode a <> [].
Proof. unfold num_encode. split; [|by destruct (encode a)]. induction (encode a); cbn; by constructor. Qed.

Lemma num_protobuf : Protobuf num_encode (num_decode (PbRecords [] ∅)).
Proof. split; intros; [apply num_roundtrip|apply num_bytes..]. Qed.

Lemma num_protobuf_reverse : ProtobufReverse num_encode (num_decode (PbReverse 0 [])).
Proof. split; intros; [apply num_roundtrip|apply num_bytes..]. Qed.

(** ** Properties *)

(** The order the answers are sorted by is a strict weak order, as [std::sort]
    requires: irreflexive, transitive, and with incomparability transitive. *)
Theorem compare_strict_weak (a b c : dns_ip_record) :
  compare a a = false /\
  implb (compare a b && compare b c) (compare a c) = true /\
  implb (negb (compare a b) && negb (compare b c)) (negb (compare a c)) = true.
Proof.
  unfold compare.
  destruct (ir_match_area a), (ir_match_area b), (ir_match_area c), (forbid a), (forbid b), (forbid c); cbn;
    repeat split; repeat (case_match; cbn); lia || done.
Qed.

(** Claim C6. Resolving a domain returns whatever is stored: the address list is without
    repetition; when some selected server gave an address of its own areas, the list is exactly
    such addresses of the first server that gave one; otherwise it is everything the selected
    servers gave. The record names the servers that gave addresses, and resolving changes
    nothing in the area manager but the loads it posts. *)
Theorem resolve_spec {D} `{AbstractKv D} (ireplace : str -> str -> str -> str)
    (regex_match : str -> str -> outcome bool) (decode : str -> pb_records)
    (sort : list dns_ip_record -> list dns_ip_record) (shuffle : list Z -> list Z)
    (iter : gmap str (list area_ip_range) -> list (str * list area_ip_range))
    (servers selected : list remote_dns_server) (now : Z) (domain : str) (st : record_manager) :
  sorts sort -> shuffles shuffle -> Forall short_areas selected ->
  select_servers regex_match (fun s => s) domain servers = Ret selected -> zlen selected < 256 ->
  NoDup (server_id ireplace <$> selected) ->
  let records := (get_dns_records_pb decode now domain st).1 in
  let ips := ips_of ireplace records in
  let trusted := trusted iter (area_manager st) in
  exists r st', resolve ireplace regex_match decode sort shuffle iter servers now domain st = Ret (r, st') /\
    rec_domain r = domain /\ NoDup (rec_ips r) /\ same_but_posted (area_manager st) (area_manager st') /\
    (forall i, i ∈ rec_servers r <-> exists s, s ∈ selected /\ server_id ireplace s = i /\ ips s <> []) /\
    match List.find (fun s => existsb (trusted s) (ips s)) selected with
    | Some s => match_area r = true /\ server r = server_id ireplace s /\
        forall ip, ip ∈ rec_ips r <-> ip ∈ ips s /\ trusted s ip = true
    | None => match_area r = false /\ forall ip, ip ∈ rec_ips r <-> exists s, s ∈ selected /\ ip ∈ ips s
    end.
Proof.
  intros Hso Hsh Hsa Hsel Hlen Hnd records ips trusted. unfold resolve.
  assert (pb_domain records = domain /\ area_manager (get_dns_records_pb decode now domain st).2 = area_manager st) as [Hd Hm].
  { unfold records, get_dns_records_pb. by destruct (kv_get now domain (db st)). }
  destruct (get_dns_records_pb decode now domain st) as [records' st1] eqn:E. cbn [snd] in Hm.
  assert (records' = records) as Er by done. clearbody records. subst records'. unfold transform. rewrite Hd, Hsel, Hm. ret_step.
  destruct (collect_eq ireplace iter now records (area_manager st) selected 0 ∅ (area_manager st) Hsa ltac:(reflexivity))
    as (answered & am & -> & Hsame & Hans). ret_step.
  pose proof (answers_usable ireplace iter now records (area_manager st) selected 0) as Hu.
  destruct (merge_records sort shuffle domain answered _ Hso Hsh Hu) as (Hn & Hdom & Hcase).
  eexists _, _. split; [done|]. split; [done|]. split; [done|]. split; [done|]. split.
  { unfold merge in *. destruct (fold_left select_ip _ _) as [[[? ?] ?] ?].
    intros i. transitivity (i ∈ answered); [by destruct (sort _)|]. rewrite Hans. set_solver. }
  case_bool_decide as Hmatch.
  - destruct Hcase as (Hma & _ & Hips). destruct (List.find _ selected) as [s|] eqn:Ef.
    + apply List.find_some in Ef as [Hs (ip & Hip & Htr)%existsb_exists].
      apply list_elem_of_In in Hs, Hip. unfold ips, ips_of in Hip.
      destruct (pb_map records !! server_id ireplace s) as [r|] eqn:Er; [|by apply elem_of_nil in Hip].
      apply list_elem_of_lookup in Hs as [i Hi]. exfalso. apply none_matches in Hmatch. rewrite Forall_forall in Hmatch.
      specialize (Hmatch (answer ireplace iter now (area_manager st) s (0 + 1 + Z.of_nat i) r ip)).
      assert (false = true) as E0; [|done]. rewrite <- Htr. symmetry. apply Hmatch. apply elem_answers; [lia|lia|].
      by exists i, s, r.
    + split; [done|]. intros ip. rewrite Hips, list_elem_of_fmap. split.
      * intros (x & -> & (i & s & r & Hi & Hr & Hip & _)%elem_answers); [|lia|lia]. exists s.
        split; [by apply list_elem_of_lookup_2 in Hi|]. unfold ips, ips_of. by rewrite Hr.
      * intros (s & [i Hi]%list_elem_of_lookup & Hip). unfold ips, ips_of in Hip.
        destruct (pb_map records !! server_id ireplace s) as [r|] eqn:Er; [|by apply elem_of_nil in Hip].
        exists (answer ireplace iter now (area_manager st) s (0 + 1 + Z.of_nat i) r ip). split; [done|].
        apply elem_answers; [lia|lia|]. by exists i, s, r.
  - destruct Hcase as (best & Hb & Hbm & Hord & Hsrv & Hma & _ & _ & Hips & _).
    destruct (best_first ireplace iter now records (area_manager st) selected best Hlen Hnd Hb Hbm Hord)
      as (s & Hf & Hbs & Heq).
    replace (List.find _ selected) with (Some s) by (symmetry; exact Hf). split; [done|].
    split; [by rewrite Hsrv|]. intros ip. rewrite Hips. apply Heq.
Qed.

Lemma resolve_spec_witness :
  let ireplace := fun s _ _ : str => map (fun c => if c =? 46 then 95 else c) s in
  let s1 := new_server (lit "8.8.8.8") 53 (lit "TCP") in
  let s2 := new_server (lit "1.1.1.1") 53 (lit "UDP") in
  let d := @kv_put _ (disk_kv toy_encode toy_decode) 5000 (lit "example.com")
    (num_encode (PbRecords (lit "example.com") {[ lit "8_8_8_8_53" := PbRecord 600 [16909060; 16909060] ]})) 0
    (∅ : gmap str str) in
  exists r st', @resolve _ (disk_kv toy_encode toy_decode) ireplace (fun _ _ => Ret false) (num_decode (PbRecords [] ∅))
      (merge_sort not_after) (@List.rev Z) map_to_list [s1; s2] 9000 (lit "example.com")
      (RecordManager d ∅ (Manager [] ∅ ∅ ∅ 0 0 [])) = Ret (r, st') /\ NoDup (rec_ips r).
Proof.
  intros ireplace s1 s2 d.
  destruct (@resolve_spec _ (disk_kv toy_encode toy_decode) ireplace (fun _ _ => Ret false) (num_decode (PbRecords [] ∅))
    (merge_sort not_after) (@List.rev Z) map_to_list [s1; s2] [s1; s2] 9000 (lit "example.com")
    (RecordManager d ∅ (Manager [] ∅ ∅ ∅ 0 0 []))) as (r & st' & Hr & _ & Hn & _).
  - apply merge_sort_sorts.
  - intros l. symmetry. apply Permutation_rev.
  - by repeat constructor.
  - vm_compute. reflexivity.
  - vm_compute. reflexivity.
  - apply (bool_decide_unpack _). vm_compute. exact I.
  - exists r, st'. by split.
Defined.

(** Claim C7. Adding a server's answer replaces that server's entry of that domain, with the
    expiry counted from now, and nothing else: other servers' entries and other domains are
    found as before; every address leads back to the domain in the reverse index, which gains
    nothing else; removing a domain, or clearing, leaves it without entries. *)
Theorem add_spec {D} `{KvLaws D} (encode : pb_records -> str) (decode : str -> pb_records)
    (encode_rev : pb_reverse -> str) (decode_rev : str -> pb_reverse)
    (now now' : Z) (domain domain' server : str) (ips : list Z) (expire ip : Z) (st : record_manager) :
  Protobuf encode decode -> ProtobufReverse encode_rev decode_rev ->
  let found now domain st := (get_dns_records_pb decode now domain st).1 in
  let back ip st := rev_domains (reverse_resolve decode_rev now ip st).1 in
  let new := PbRecords domain (<[server := PbRecord (u32 (expire + now / 1000)) ips]> (pb_map (found now domain st))) in
  let st' := add encode decode encode_rev decode_rev now domain ips server expire st in
  storable new -> key_ok domain' -> now <= now' ->
  Forall (fun ip => 0 < ip < 2 ^ 32) ips -> 0 < ip < 2 ^ 32 -> index_ok decode_rev now st ->
  found now' domain' st' = (if decide (domain = domain') then new else found now' domain' st) /\
  back ip st' = (if decide (ip ∈ ips) then add_new (back ip st) domain else back ip st) /\
  found now' domain' (remove domain st') =
    (if decide (domain = domain') then PbRecords domain' ∅ else found now' domain' st) /\
  found now' domain' (clear st') = PbRecords domain' ∅.
Proof.
  intros Hpb Hrev found back new st' Hs Hd' Hn Hips Hip Hok.
  assert (found now' domain' st' = if decide (domain = domain') then new else found now' domain' st) as Hf
    by (by apply add_lookup).
  split; [done|]. split; [|split].
  - unfold back, st', add. destruct (get_dns_records_pb decode now domain st) as [records st1] eqn:E.
    assert (reverse st1 = reverse st) as Er.
    { unfold get_dns_records_pb in E. destruct (kv_get now domain (db st)). by injection E as _ <-. }
    rewrite !(domains_of_eq decode_rev now ip). cbn [reverse]. rewrite <- (domains_of_eq decode_rev now ip).
    rewrite add_ips_domains; [|done|apply Hs|done|done|].
    + by rewrite !(domains_of_eq decode_rev now ip), Er.
    + intros ip' Hip'. rewrite domains_of_eq, Er, <- domains_of_eq. by apply Hok.
  - unfold found. rewrite remove_lookup by (apply Hs || done). case_decide as E; [done|].
    unfold found in Hf. by rewrite Hf.
  - apply clear_lookup.
Qed.

Lemma add_spec_witness :
  let kv := disk_kv toy_encode toy_decode in
  let dec := num_decode (PbRecords [] ∅) in
  let st := RecordManager (∅ : gmap str str) (∅ : gmap str str) (Manager [] ∅ ∅ ∅ 0 0 []) in
  let st' := @add _ kv num_encode dec num_encode (num_decode (PbReverse 0 [])) 5000 (lit "a.com") [16909060] (lit "s") 60 st in
  let new := PbRecords (lit "a.com") (<[lit "s" := PbRecord (u32 (60 + 5000 / 1000)) [16909060]]>
    (pb_map (@get_dns_records_pb _ kv dec 5000 (lit "a.com") st).1)) in
  (@get_dns_records_pb _ kv dec 6000 (lit "b.com") st').1 =
  if decide (lit "a.com" = lit "b.com") then new else (@get_dns_records_pb _ kv dec 6000 (lit "b.com") st).1.
Proof.
  intros kv dec st st' new.
  assert (key_ok (lit "a.com") /\ key_ok (lit "b.com") /\ key_ok (lit "s")) as (Ha & Hb & Hs).
  { split_and!; (split; [done|]); apply (bool_decide_unpack _); vm_compute; exact I. }
  refine (proj1 (@add_spec _ kv
    (@disk_kv_laws (gmap str str) map_store map_store_laws toy_encode toy_decode toy_decode_encode (fun (_ : gmap str str) _ _ => eq_refl))
    num_encode dec num_encode (num_decode (PbReverse 0 [])) 5000 6000 (lit "a.com") (lit "b.com") (lit "s") [16909060] 60
    16909060 st num_protobuf num_protobuf_reverse _ Hb _ _ _ _)).
  - split; [done|]. intros i e Hi. cbn [pb_map] in Hi. apply (lookup_insert_Some (M := gmap str)) in Hi as [[<- <-]|[_ Hi]]; [|done].
    split; [done|]. split; [done|by apply Forall_singleton].
  - lia.
  - by apply Forall_singleton.
  - lia.
  - intros ip Hip. apply Forall_nil_2.
Defined.
