(* ===== verification/Client.v ===== *)
(** * The DNS client ([src/src/core/dns_client.h], [dns_client.cpp])

    Asking a remote server over UDP, TCP or TLS, and forwarding a packet. Each
    request is a chain of asynchronous socket operations on the client's single
    [io_context] thread, raced by a timer whose handler closes the socket and
    posts the release of the request's objects. [Section machine] is that
    thread with its queue of ready handlers; what each function does when an
    operation succeeds is [udp_handle], [tcp_handle], [tls_handle] and
    [forward_handle]. *)
From S2P Require Import Prelude Bytes Pool Text Domain Message Request Response.

(** ** Deadlines *)

(** [is_timeout_or_error]: [ec] tells whether the operation failed. *)
Definition is_timeout_or_error (ec : bool) (now beginTime timeout : Z) : bool :=
  if negb ec && (u64 (now - beginTime) <=? timeout) then false else true.

(** ** The thread of the client, for one request *)
Section machine.
Context {op local result : Type}.

(** What a completion handler does after the test of the deadline. *)
Inductive next :=
  | Start (o : op)            (* the next asynchronous operation *)
  | Complete (r : result)     (* [complete(r)] *)
  | Nothing.

Inductive ready_event :=
  | OpDone (o : op) (ec : bool) (bytes : list Z)
  | TimerDone
  | ShutdownDone
  | Free.

Record io := Io {
  now : Z;
  is_open : bool;                   (* the socket *)
  pending : option op;              (* the operation under way *)
  timer_waiting : bool;
  timer_alive : bool;               (* the timer object is not deleted *)
  shutting : bool;                  (* [async_shutdown] is under way *)
  ready : list ready_event;         (* the handlers queued, first to run first *)
  locals : local;
  completions : list result;        (* what [complete_handler] was called with *)
  freed : bool;                     (* the posted deletes have run *)
  fault : bool                      (* a deleted object was used *)
}.

Context (beginTime timeout : Z) (default_result : result).
(** The handlers after a success, what else a failed one does, the posted
    deletes; [graceful] tells that the timer shuts the stream down before it
    closes the socket. *)
Context (handle : local -> op -> list Z -> outcome (next * local)).
Context (on_fail : local -> op -> outcome local).
Context (release : local -> outcome local).
Context (graceful : bool).
(** What the system may deliver when an operation succeeds. *)
Context (delivers : op -> list Z -> Prop).

Definition io_start (now : Z) (o : op) (l : local) : io :=
  Io now true (Some o) true true false [] l [] false false.

(** [delete timer]: a waiting timer's handler is queued. *)
Definition complete (r : result) (s : io) : io :=
  Io (now s) (is_open s) (pending s) false false (shutting s)
    (if timer_waiting s then ready s ++ [TimerDone] else ready s) (locals s)
    (completions s ++ [r]) (freed s) (fault s || negb (timer_alive s)).

(** An operation on a closed socket fails at once. *)
Definition start_op (o : op) (s : io) : io :=
  Io (now s) (is_open s) (if is_open s then Some o else None) (timer_waiting s) (timer_alive s) (shutting s)
    (if is_open s then ready s else ready s ++ [OpDone o true []]) (locals s) (completions s) (freed s)
    (fault s || freed s).

(** [shutdown], [cancel], [close], and the deletes posted. *)
Definition close_socket (s : io) : io :=
  Io (now s) false None (timer_waiting s) (timer_alive s) (shutting s)
    (ready s ++ match pending s with Some o => [OpDone o true []] | None => [] end ++ [Free]) (locals s)
    (completions s) (freed s) (fault s || freed s).

Definition with_locals (l : local) (s : io) : io :=
  Io (now s) (is_open s) (pending s) (timer_waiting s) (timer_alive s) (shutting s) (ready s) l (completions s)
    (freed s) (fault s).

Definition run_event (e : ready_event) (s : io) : outcome io :=
  match e with
  | OpDone o ec bytes =>
      if is_timeout_or_error ec (now s) beginTime timeout then
        l ← on_fail (locals s) o; Ret (complete default_result (with_locals l s))
      else
        '(n, l) ← handle (locals s) o bytes;
        let s := with_locals l s in
        let s := Io (now s) (is_open s) (pending s) (timer_waiting s) (timer_alive s) (shutting s) (ready s) (locals s)
                   (completions s) (freed s) (fault s || freed s) in
        match n with
        | Start o => Ret (start_op o s)
        | Complete r => Ret (complete r s)
        | Nothing => Ret s
        end
  | TimerDone =>
      if graceful then
        Ret (Io (now s) (is_open s) (pending s) (timer_waiting s) (timer_alive s) true (ready s) (locals s)
               (completions s) (freed s) (fault s || freed s))
      else Ret (close_socket s)
  | ShutdownDone => Ret (close_socket s)
  | Free =>
      l ← release (locals s);
      Ret (Io (now s) (is_open s) (pending s) (timer_waiting s) (timer_alive s) (shutting s) (ready s) l
             (completions s) true (fault s || freed s))
  end.

Definition pop (rest : list ready_event) (s : io) : io :=
  Io (now s) (is_open s) (pending s) (timer_waiting s) (timer_alive s) (shutting s) rest (locals s) (completions s)
    (freed s) (fault s).

Definition op_done (o : op) (ec : bool) (bytes : list Z) (s : io) : io :=
  Io (now s) (is_open s) None (timer_waiting s) (timer_alive s) (shutting s) (ready s ++ [OpDone o ec bytes])
    (locals s) (completions s) (freed s) (fault s).

Definition timer_fired (s : io) : io :=
  Io (now s) (is_open s) (pending s) false (timer_alive s) (shutting s) (ready s ++ [TimerDone]) (locals s)
    (completions s) (freed s) (fault s).

Definition shutdown_done (s : io) : io :=
  Io (now s) (is_open s) (pending s) (timer_waiting s) (timer_alive s) false (ready s ++ [ShutdownDone]) (locals s)
    (completions s) (freed s) (fault s).

Definition tick (t : Z) (s : io) : io :=
  Io t (is_open s) (pending s) (timer_waiting s) (timer_alive s) (shutting s) (ready s) (locals s) (completions s)
    (freed s) (fault s).

(** One step: the system finishes something, or the thread runs the first
    handler queued. *)
Inductive io_step : io -> io -> Prop :=
  | io_run s e rest s' : ready s = e :: rest -> run_event e (pop rest s) = Ret s' -> io_step s s'
  | io_success s o bytes : pending s = Some o -> delivers o bytes -> io_step s (op_done o false bytes s)
  | io_error s o : pending s = Some o -> io_step s (op_done o true [] s)
  | io_timer s : timer_waiting s = true -> beginTime + timeout <= now s -> io_step s (timer_fired s)
  | io_shutdown s : shutting s = true -> io_step s (shutdown_done s).

Inductive io_reaches : nat -> io -> io -> Prop :=
  | reaches_refl s : io_reaches 0 s s
  | reaches_tick n s s' t : io_reaches n s s' -> now s' <= t -> io_reaches n s (tick t s')
  | reaches_step n s s' s'' : io_reaches n s s' -> io_step s' s'' -> io_reaches (S n) s s''.

(** Nothing is under way and nothing is queued. *)
Definition quiescent (s : io) : Prop :=
  ready s = [] /\ pending s = None /\ timer_waiting s = false /\ shutting s = false.
End machine.
Arguments next : clear implicits.
Arguments ready_event : clear implicits.
Arguments io : clear implicits.

(** ** Operations and local objects of a request *)
Inductive socket_op :=
  | SendTo (bytes : list Z)
  | ReceiveFrom
  | Connect
  | Handshake
  | WriteAll (bytes : list Z)
  | ReadLength
  | ReadData (n : Z).

(** [async_read] and [async_write] complete when everything is transferred;
    [async_receive_from] with one datagram, cut at the 1024 bytes given. *)
Definition delivers (o : socket_op) (bytes : list Z) : Prop :=
  Forall byte_ok bytes /\
  match o with
  | ReceiveFrom => zlen bytes <= 1024
  | ReadLength => zlen bytes = 2
  | ReadData n => zlen bytes = n
  | _ => bytes = []
  end.

Record request_objects := RequestObjects {
  req_block : list Z;      (* [dns_request->data] *)
  req_bytes : Z;           (* [dns_request->len] *)
  dnsId : Z;
  lengthBytes : list Z;
  dataBytes : list Z;
  dnsResponse : list Z;    (* the block of the response of the UDP functions *)
  mem : pool
}.

Definition with_length (l : request_objects) (b : list Z) : request_objects :=
  RequestObjects (req_block l) (req_bytes l) (dnsId l) b (dataBytes l) (dnsResponse l) (mem l).
Definition with_data (l : request_objects) (b : list Z) : request_objects :=
  RequestObjects (req_block l) (req_bytes l) (dnsId l) (lengthBytes l) b (dnsResponse l) (mem l).
Definition with_response (l : request_objects) (b : list Z) (m : pool) : request_objects :=
  RequestObjects (req_block l) (req_bytes l) (dnsId l) (lengthBytes l) (dataBytes l) b m.
Definition with_mem (l : request_objects) (m : pool) : request_objects :=
  RequestObjects (req_block l) (req_bytes l) (dnsId l) (lengthBytes l) (dataBytes l) (dnsResponse l) m.

(** What the system writes at the head of a buffer. *)
Definition received (block bytes : list Z) : list Z := bytes ++ drop (length bytes) block.

Definition request_id (r : udp_request) : outcome Z :=
  match header r with Some h => Ret (Message.id h) | None => Undef NullDeref end.

Section client.
Context (junk : Z -> list Z).

Abbreviation step := (outcome (next socket_op (list Z) * request_objects)).

(** ** [udp_dns] *)
Definition udp_dns (domain : str) (counter : Z) (st : pool) : outcome (socket_op * request_objects * Z) :=
  '(m, r, counter, st) ← udp_request_of junk st [domain] counter;
  qid ← request_id r;
  st ← pfree 1024 st;                     (* the local request ends with the function *)
  Ret (SendTo (take (Z.to_nat (req_len r)) m), RequestObjects m (req_len r) qid [] [] [] st, counter).

Definition udp_handle (l : request_objects) (o : socket_op) (bytes : list Z) : step :=
  match o with
  | SendTo _ =>
      '(b, st) ← alloc junk 1024 (mem l);
      Ret (Start ReceiveFrom, with_response l (data b) st)
  | ReceiveFrom =>
      let block := received (dnsResponse l) bytes in
      r ← response_parse block 0 (response_new 1024) (zlen bytes);
      ips ← (if rsp_valid r then
               match rsp_header r with
               | Some h => Ret (if Message.id h =? dnsId l then ips r else [])
               | None => Undef NullDeref
               end
             else Ret []);
      st ← pfree 1024 (mem l);
      Ret (Complete ips, with_response l block st)
  | _ => Ret (Nothing, l)
  end.

(** A failed receive deletes the response too. *)
Definition udp_fail (l : request_objects) (o : socket_op) : outcome request_objects :=
  match o with
  | ReceiveFrom => st ← pfree 1024 (mem l); Ret (with_mem l st)
  | _ => Ret l
  end.

(** ** [dns_client::parse] *)
Definition client_parse (length : Z) (dataBytes : list Z) (dnsId : Z) : outcome (list Z) :=
  if (0 <? length) && (length <=? 1024) then
    r ← response_parse dataBytes 0 (response_new length) length;
    if negb (rsp_valid r) then Ret []
    else
      match rsp_header r with
      | None => Undef NullDeref
      | Some h =>
          let valid := (Message.id h =? dnsId) && (responseCode h =? 0) in
          Ret (if valid then ips r else [])
      end
  else Ret [].

(** ** [tcp_dns] and [tcp_tls_dns], for one area *)

(** The port of the area's proxy, when it has one. *)
Definition area_port (port : Z) (area : str * Z) : Z := if 0 <? area.2 then area.2 else port.

Definition tcp_dns (domain : str) (counter : Z) (st : pool) : outcome (socket_op * request_objects * Z) :=
  '(m, r, counter, st) ← tcp_request_of junk st [domain] counter;
  dnsId ← request_id r;
  '(n1, st) ← pmalloc 2048 st;
  '(n2, st) ← pmalloc 2 st;
  Ret (Connect, RequestObjects m (req_len r) dnsId (junk n2) (junk n1) [] st, counter).

Definition write_request (l : request_objects) : step :=
  d ← copy (req_block l) (dataBytes l) 0 0 (req_bytes l);
  Ret (Start (WriteAll (take (Z.to_nat (req_bytes l)) d)), with_data l d).

Definition read_answer (l : request_objects) (o : socket_op) (bytes : list Z) : step :=
  match o with
  | WriteAll _ => Ret (Start ReadLength, l)
  | ReadLength =>
      let l := with_length l (received (lengthBytes l) bytes) in
      dataLen ← read 2 (lengthBytes l) 0 0;
      if 1024 <? dataLen then Ret (Complete [], l) else Ret (Start (ReadData dataLen), l)
  | ReadData _ =>
      let l := with_data l (received (dataBytes l) bytes) in
      ips ← client_parse (u16 (zlen bytes)) (dataBytes l) (dnsId l);
      Ret (Complete ips, l)
  | _ => Ret (Nothing, l)
  end.

Definition tcp_handle (l : request_objects) (o : socket_op) (bytes : list Z) : step :=
  match o with
  | Connect => write_request l
  | _ => read_answer l o bytes
  end.

Definition tls_handle (l : request_objects) (o : socket_op) (bytes : list Z) : step :=
  match o with
  | Connect => Ret (Start Handshake, l)
  | Handshake => write_request l
  | _ => read_answer l o bytes
  end.

(** The posted deletes: the two blocks, the request. *)
Definition tcp_release (l : request_objects) : outcome request_objects :=
  st ← pfree 2048 (mem l); st ← pfree 8 st; st ← pfree 2048 st; Ret (with_mem l st).

(** ** [forward_udp]: the result is the response's block and length, or null *)
Definition forward_udp (m : list Z) (len : Z) (st : pool) : socket_op * request_objects :=
  (SendTo (take (Z.to_nat len) m), RequestObjects m len 0 [] [] [] st).

Definition forward_handle (l : request_objects) (o : socket_op) (bytes : list Z)
    : outcome (next socket_op (option (list Z * Z)) * request_objects) :=
  match o with
  | SendTo _ =>
      '(b, st) ← alloc junk 1024 (mem l);
      Ret (Start ReceiveFrom, with_response l (data b) st)
  | ReceiveFrom =>
      let block := received (dnsResponse l) bytes in
      if 0 <? zlen bytes then Ret (Complete (Some (block, zlen bytes)), with_response l block (mem l))
      else st ← pfree 1024 (mem l); Ret (Nothing, with_response l block st)
  | _ => Ret (Nothing, l)
  end.

(** ** Asking through several areas *)
Record gather := Gather {
  counter : Z;                 (* [atomic_uint16_t] *)
  load_all : bool;
  result_ips : gset Z;
  deleted : bool
}.

Definition gather_init : gather := Gather 0 true ∅ false.

(** [each_handler]: the call it makes of [complete_handler], if any, and the
    state after it. [enough] is the comparison with the number of areas, [iter]
    the order of the set. *)
Definition each_handler (enough : Z -> bool) (iter : gset Z -> list Z) (ips : list Z) (g : gather)
    : outcome (option (list Z * bool) * gather) :=
  if deleted g then Undef UseAfterFree
  else
    let counter := u16 (counter g + 1) in
    let all := if zlen ips =? 0 then false else load_all g in
    let result := list_to_set ips ∪ result_ips g in
    if enough counter then Ret (Some (iter result, all), Gather counter all result true)
    else Ret (None, Gather counter all result false).

(** A [std::set] is iterated in ascending order. *)
Definition ascending (s : gset Z) : list Z := merge_sort Z.le (elements s).
Definition tcp_each (areas : list (str * Z)) := each_handler (fun c => c =? zlen areas) ascending.
Definition tls_each (iter : gset Z -> list Z) (areas : list (str * Z)) :=
  each_handler (fun c => zlen areas <=? c) iter.

Fixpoint each_all (each : list Z -> gather -> outcome (option (list Z * bool) * gather)) (answers : list (list Z))
    (g : gather) : outcome (list (list Z * bool) * gather) :=
  match answers with
  | [] => Ret ([], g)
  | ips :: rest =>
      '(call, g) ← each ips g;
      '(calls, g) ← each_all each rest g;
      Ret (match call with Some c => c :: calls | None => calls end, g)
  end.

(** The requests made for a list of areas, and the calls of [complete_handler]
    when they answered [answers]. *)
Definition area_requests (areas : list (str * Z)) : list (str * Z) :=
  match areas with [] => [([], 0)] | _ => areas end.

Definition multi_area (each : list Z -> gather -> outcome (option (list Z * bool) * gather))
    (areas : list (str * Z)) (answers : list (list Z)) : outcome (list (list Z * bool)) :=
  match areas with
  | [] | [_] => Ret ((fun ips => (ips, true)) <$> answers)
  | _ => '(calls, _) ← each_all each answers gather_init; Ret calls
  end.
End client.

(** ** Lemmas: the thread of a request *)
Section machine_lemmas.
Context {op local result : Type} (beginTime timeout : Z) (default_result : result).
Context (handle : local -> op -> list Z -> outcome (next op result * local)).
Context (on_fail : local -> op -> outcome local) (release : local -> outcome local) (graceful : bool).
Context (delivers : op -> list Z -> Prop).

Abbreviation step := (io_step beginTime timeout default_result handle on_fail release graceful delivers).
Abbreviation reaches := (io_reaches beginTime timeout default_result handle on_fail release graceful delivers).
Abbreviation exec := (run_event beginTime timeout default_result handle on_fail release graceful).

(** A measure of the chain of operations, which every handler shortens. *)
Definition shortens (rank : op -> nat) : Prop :=
  forall l o bytes n l', delivers o bytes -> handle l o bytes = Ret (n, l') ->
  match n with Start o' => (rank o' < rank o)%nat | Complete _ => True | Nothing => False end.

Definition is_op (e : ready_event op) : bool := if e is OpDone _ _ _ then true else false.
Definition is_free (e : ready_event op) : bool := if e is Free then true else false.
Definition count (f : ready_event op -> bool) (l : list (ready_event op)) : nat := length (List.filter f l).

Lemma count_app f l1 l2 : count f (l1 ++ l2) = (count f l1 + count f l2)%nat.
Proof. unfold count. by rewrite List.filter_app, length_app. Qed.
Lemma count_cons f e l : count f (e :: l) = ((if f e then 1 else 0) + count f l)%nat.
Proof. unfold count. cbn. by destruct (f e). Qed.
Lemma count_nil f : count f [] = 0%nat.
Proof. done. Qed.

(** No success is handled after the objects are deleted. *)
Fixpoint in_time (freed : bool) (l : list (ready_event op)) : Prop :=
  match l with
  | [] => True
  | OpDone o false bytes :: l => freed = false /\ delivers o bytes /\ in_time freed l
  | Free :: l => in_time true l
  | _ :: l => in_time freed l
  end.

Lemma in_time_app l1 l2 : forall fr, in_time fr (l1 ++ l2) <-> in_time fr l1 /\ in_time (fr || (0 <? count is_free l1)%nat) l2.
Proof.
  induction l1 as [|e l1 IH]; intros fr; cbn [in_time app].
  - change (count is_free []) with 0%nat. rewrite orb_false_r. tauto.
  - rewrite count_cons. destruct e as [o [] bytes| | |]; cbn [is_free]; rewrite IH, ?Nat.add_0_l; [tauto|tauto|tauto|tauto|].
    cbn [orb]. replace (0 <? 1 + count is_free l1)%nat with true by (symmetry; apply Nat.ltb_lt; lia). by rewrite orb_true_r.
Qed.

Definition opt_count {A} (o : option A) : nat := if o is Some _ then 1 else 0.
Definition ops_live (s : io op local result) : nat := opt_count (pending s) + count is_op (ready s).
Definition stages (s : io op local result) : nat :=
  Nat.b2n (timer_waiting s) + Nat.b2n (shutting s) + count (fun e => negb (is_op e)) (ready s) + Nat.b2n (freed s).

(** One operation lives until [complete] is called ([k] is 1 while its handler
    runs); one of the five stages of the release is current ([j] is 1 while the
    timer's handler runs); the socket is open until the deletes are posted. *)
Record io_inv (k j : nat) (s : io op local result) : Prop := {
  inv_live : (ops_live s + k + length (completions s) = 1)%nat;
  inv_alive : timer_alive s = bool_decide (completions s = []);
  inv_stage : (stages s + j = 1)%nat;
  inv_wait : timer_waiting s = true -> timer_alive s = true;
  inv_open : is_open s = negb (freed s || (0 <? count is_free (ready s))%nat);
  inv_pending : pending s <> None -> is_open s = true;
  inv_time : in_time (freed s) (ready s);
  inv_fault : fault s = false
}.

Ltac io_unfold := unfold ops_live, stages in *; cbn [now is_open pending timer_waiting timer_alive shutting ready locals
  completions freed fault opt_count] in *; rewrite ?count_app, ?count_cons, ?count_nil in *; cbn [is_op is_free negb] in *.

Lemma start_inv now o l : io_inv 0 0 (io_start now o l).
Proof. split; try done. Qed.

Lemma client_complete_inv r s : io_inv 1 0 s -> io_inv 0 0 (complete r s).
Proof.
  intros [Il Ia Is Iw Io Ip It If]. unfold complete.
  assert (completions s = []) as Hc by (destruct (completions s); [done|cbn in Il; lia]).
  assert (timer_alive s = true) as Hal by (rewrite Ia, Hc; done).
  destruct (timer_waiting s) eqn:Ew; split; io_unfold; rewrite ?length_app, ?Hc, ?Hal, ?If, ?Ew in *; cbn in *; try done; try lia.
  - by rewrite Nat.add_0_r.
  - apply in_time_app. by split.
Qed.

Lemma start_op_inv o s : freed s = false -> io_inv 1 0 s -> io_inv 0 0 (start_op o s).
Proof.
  intros Hfr [Il Ia Is Iw Io Ip It If]. unfold start_op.
  assert (pending s = None) as Hp by (unfold ops_live in Il; destruct (pending s); cbn [opt_count] in Il; [lia|done]).
  destruct (is_open s) eqn:Eo; split; io_unfold; rewrite ?Hp, ?If, ?Hfr in *; cbn in *; try done; try lia.
  - by rewrite Nat.add_0_r.
  - apply in_time_app. by split.
Qed.

Lemma close_inv s : io_inv 0 1 s -> io_inv 0 0 (close_socket s).
Proof.
  intros [Il Ia Is Iw Io Ip It If]. unfold close_socket.
  assert (freed s = false) as Hfr by (unfold stages in Is; destruct (freed s); [cbn in Is; lia|done]).
  split; io_unfold; rewrite ?Hfr, ?If in *; try done.
  - destruct (pending s); io_unfold; lia.
  - destruct (pending s); io_unfold; lia.
  - symmetry. apply negb_false_iff, Nat.ltb_lt. destruct (pending s); io_unfold; lia.
  - apply in_time_app. split; [done|]. by destruct (pending s).
Qed.

(** What is left when a handler is taken from the queue. *)
Lemma pop_inv e rest s : io_inv 0 0 s -> ready s = e :: rest -> is_free e = false ->
  io_inv (if is_op e then 1 else 0) (if is_op e then 0 else 1) (pop rest s).
Proof.
  intros [Il Ia Is Iw Io Ip It If] He Hf. unfold pop. rewrite He in *.
  destruct e as [o ec bytes| | |]; [| | |done]; split; io_unfold; rewrite ?He in *; io_unfold; try done; try lia.
  by destruct ec; [|destruct It as (_ & _ & It)].
Qed.

Lemma with_locals_inv k j l s : io_inv k j s -> io_inv k j (with_locals l s).
Proof. intros [Il Ia Is Iw Io Ip It If]. by split. Qed.

Lemma free_inv rest l s : io_inv 0 0 s -> ready s = Free :: rest ->
  io_inv 0 0 (Io (now s) (is_open s) (pending s) (timer_waiting s) (timer_alive s) (shutting s) rest l
    (completions s) true (fault s || freed s)).
Proof.
  intros [Il Ia Is Iw Io Ip It If] He.
  assert (freed s = false) as Hfr by (unfold stages in Is; rewrite He in Is; io_unfold; destruct (freed s); [cbn in Is; lia|done]).
  rewrite Hfr, He in *. split; io_unfold; rewrite ?He, ?Hfr, ?If in *; io_unfold; cbn [Nat.b2n] in *; try done; try lia.
Qed.

Lemma client_run_inv rank e rest s s' : shortens rank -> io_inv 0 0 s -> ready s = e :: rest ->
  exec e (pop rest s) = Ret s' -> io_inv 0 0 s'.
Proof.
  intros Hsh Hi He Hs. destruct e as [o ec bytes| | |]; cbn [run_event] in Hs.
  - pose proof (pop_inv _ _ _ Hi He eq_refl) as Hp. cbn [is_op] in Hp.
    destruct (is_timeout_or_error ec _ beginTime timeout) eqn:Et.
    + apply bind_ret in Hs as (l & _ & [= <-]). by apply client_complete_inv, with_locals_inv.
    + apply bind_ret in Hs as ([n l] & Hh & Hs). destruct ec; [done|].
      pose proof (inv_time _ _ _ Hi) as Ht. rewrite He in Ht. destruct Ht as (Hfr & Hd & _).
      pose proof (Hsh _ _ _ _ _ Hd Hh) as Hn.
      assert (io_inv 1 0 (with_locals l (pop rest s))) as Hl by (by apply with_locals_inv).
      unfold with_locals, pop in *. cbn [now is_open pending timer_waiting timer_alive shutting ready locals completions freed fault] in *.
      rewrite Hfr, (inv_fault _ _ _ Hi) in *.
      destruct n as [o'|r|]; [| |done]; injection Hs as <-; [by apply start_op_inv|by apply client_complete_inv].
  - pose proof (pop_inv _ _ _ Hi He eq_refl) as Hp. cbn [is_op] in Hp. destruct graceful; injection Hs as <-.
    + assert (freed s = false) as Hfr.
      { pose proof (inv_stage _ _ _ Hi) as Is. unfold stages in Is. rewrite He in Is. io_unfold.
        destruct (freed s); [cbn [Nat.b2n] in Is; lia|done]. }
      assert (shutting s = false) as Hsd.
      { pose proof (inv_stage _ _ _ Hi) as Is. unfold stages in Is. rewrite He in Is. io_unfold.
        destruct (shutting s); [cbn [Nat.b2n] in Is; lia|done]. }
      destruct Hp as [Il Ia Is Iw Io Ip It If]. unfold pop in *. split; io_unfold; rewrite ?Hfr, ?Hsd, ?If in *; cbn [Nat.b2n orb] in *; done || lia.
    + by apply close_inv.
  - pose proof (pop_inv _ _ _ Hi He eq_refl) as Hp. injection Hs as <-. by apply close_inv.
  - apply bind_ret in Hs as (l & _ & [= <-]). by apply (free_inv rest l s).
Qed.

Lemma client_step_inv rank s s' : shortens rank -> io_inv 0 0 s -> step s s' -> io_inv 0 0 s'.
Proof.
  intros Hsh Hi Hs. destruct Hs as [s e rest s' He Hr|s o bytes Hp Hd|s o Hp|s Hw Hn|s Hsd].
  - by eapply client_run_inv.
  - assert (freed s = false /\ count is_free (ready s) = 0%nat) as [Hfr Hc].
    { pose proof (inv_pending _ _ _ Hi) as Ip. rewrite Hp, (inv_open _ _ _ Hi) in Ip. specialize (Ip ltac:(done)).
      apply negb_true_iff, orb_false_iff in Ip as [-> Hc]. split; [done|]. apply Nat.ltb_ge in Hc. lia. }
    destruct Hi as [Il Ia Is Iw Io Ip It If]. unfold op_done. split; io_unfold; rewrite ?Hp in *; cbn [opt_count Nat.b2n] in *; try done; try lia.
    apply in_time_app. split; [done|]. cbn. by rewrite Hfr, Hc.
  - destruct Hi as [Il Ia Is Iw Io Ip It If]. unfold op_done. split; io_unfold; rewrite ?Hp in *; cbn [opt_count Nat.b2n] in *; try done; try lia.
    apply in_time_app. by split.
  - destruct Hi as [Il Ia Is Iw Io Ip It If]. unfold timer_fired. split; io_unfold; rewrite ?Hw in *; cbn [opt_count Nat.b2n] in *; try done; try lia.
    apply in_time_app. by split.
  - destruct Hi as [Il Ia Is Iw Io Ip It If]. unfold shutdown_done. split; io_unfold; rewrite ?Hsd in *; cbn [opt_count Nat.b2n] in *; try done; try lia.
    apply in_time_app. by split.
Qed.

Lemma reaches_inv rank n s s' : shortens rank -> io_inv 0 0 s -> reaches n s s' -> io_inv 0 0 s'.
Proof.
  intros Hsh Hi Hr. induction Hr as [s|n s s' t Hr IH Ht|n s s' s'' Hr IH Hs]; [done| |].
  - destruct (IH Hi) as [Il Ia Is Iw Io Ip It If]. by split.
  - eapply client_step_inv; [done|by apply IH|done].
Qed.

(** *** Every run ends *)
Section measure.
Context (rank : op -> nat).

Definition event_weight (e : ready_event op) : nat :=
  match e with OpDone o _ _ => 2 * rank o + 1 | TimerDone => 5 | ShutdownDone => 3 | Free => 1 end.
Definition queue_weight (l : list (ready_event op)) : nat := sum_list (event_weight <$> l).

Definition weight (s : io op local result) : nat :=
  (if pending s is Some o then 2 * rank o + 2 else 0) + queue_weight (ready s) +
  6 * Nat.b2n (timer_waiting s) + 4 * Nat.b2n (shutting s).

Lemma queue_weight_app l1 l2 : queue_weight (l1 ++ l2) = (queue_weight l1 + queue_weight l2)%nat.
Proof. unfold queue_weight. rewrite fmap_app. induction l1; cbn in *; lia. Qed.
Lemma queue_weight_cons e l : queue_weight (e :: l) = (event_weight e + queue_weight l)%nat.
Proof. done. Qed.
Lemma queue_weight_nil : queue_weight [] = 0%nat.
Proof. done. Qed.

Ltac weigh := unfold weight in *; cbn [now is_open pending timer_waiting timer_alive shutting ready locals
  completions freed fault complete start_op close_socket with_locals pop op_done timer_fired shutdown_done tick] in *;
  rewrite ?queue_weight_app, ?queue_weight_cons, ?queue_weight_nil in *; cbn [event_weight Nat.b2n] in *.

Lemma complete_weight r s : (weight (complete r s) <= weight s)%nat.
Proof. destruct (timer_waiting s) eqn:E; weigh; rewrite E; weigh; lia. Qed.

Lemma start_op_weight o s : pending s = None -> (weight (start_op o s) <= 2 * rank o + 2 + weight s)%nat.
Proof. intros E. destruct (is_open s) eqn:Eo; weigh; rewrite E, Eo; weigh; lia. Qed.

Lemma close_weight s : (weight (close_socket s) <= weight s + 1)%nat.
Proof. destruct (pending s) eqn:E; weigh; rewrite E; weigh; lia. Qed.

Lemma run_weight e rest s s' : shortens rank -> io_inv 0 0 s -> ready s = e :: rest ->
  exec e (pop rest s) = Ret s' -> (weight s' < weight s)%nat.
Proof.
  intros Hsh Hi He Hs. assert (weight s = event_weight e + weight (pop rest s))%nat as Hw by (weigh; rewrite He; weigh; lia).
  rewrite Hw. destruct e as [o ec bytes| | |]; cbn [run_event event_weight] in *.
  - destruct (is_timeout_or_error ec _ beginTime timeout) eqn:Et.
    + apply bind_ret in Hs as (l & _ & [= <-]). pose proof (complete_weight default_result (with_locals l (pop rest s))). weigh. lia.
    + apply bind_ret in Hs as ([n l] & Hh & Hs). destruct ec; [done|].
      pose proof (inv_time _ _ _ Hi) as Ht. rewrite He in Ht. destruct Ht as (Hfr & Hd & _).
      pose proof (Hsh _ _ _ _ _ Hd Hh) as Hn.
      assert (pending s = None) as Hp.
      { pose proof (inv_live _ _ _ Hi) as Il. unfold ops_live in Il. rewrite He, count_cons in Il. cbn [is_op] in Il.
        destruct (pending s); cbn [opt_count] in Il; [lia|done]. }
      destruct n as [o'|r|]; [| |done]; injection Hs as <-.
      * eapply Nat.le_lt_trans; [by apply start_op_weight|]. weigh. lia.
      * eapply Nat.le_lt_trans; [by apply complete_weight|]. weigh. lia.
  - destruct graceful; injection Hs as <-.
    + assert (shutting s = false) as Hsd.
      { pose proof (inv_stage _ _ _ Hi) as Is. unfold stages in Is. rewrite He in Is. io_unfold.
        destruct (shutting s); [cbn [Nat.b2n] in Is; lia|done]. }
      weigh. rewrite Hsd. weigh. lia.
    + pose proof (close_weight (pop rest s)). lia.
  - injection Hs as <-. pose proof (close_weight (pop rest s)). lia.
  - apply bind_ret in Hs as (l & _ & [= <-]). weigh. lia.
Qed.

Lemma step_weight s s' : shortens rank -> io_inv 0 0 s -> step s s' -> (weight s' < weight s)%nat.
Proof.
  intros Hsh Hi Hs. destruct Hs as [s e rest s' He Hr|s o bytes Hp Hd|s o Hp|s Hw Hn|s Hsd]; [by eapply run_weight|..];
    weigh; rewrite ?Hp, ?Hw, ?Hsd; weigh; lia.
Qed.

Lemma reaches_weight n s s' : shortens rank -> io_inv 0 0 s -> reaches n s s' -> (n + weight s' <= weight s)%nat.
Proof.
  intros Hsh Hi Hr. induction Hr as [s|n s s' t Hr IH Ht|n s s' s'' Hr IH Hs]; [done|by apply IH|].
  specialize (IH Hi). pose proof (step_weight _ _ Hsh (reaches_inv rank _ _ _ Hsh Hi Hr) Hs). lia.
Qed.
End measure.

(** *** The outcome of a request *)
Lemma quiescent_outcome s : io_inv 0 0 s -> quiescent s -> length (completions s) = 1%nat /\ freed s = true /\ is_open s = false.
Proof.
  intros [Il Ia Is Iw Io Ip It If] (Hr & Hp & Hw & Hsd). io_unfold. rewrite Hr, Hp, Hw, Hsd in *. io_unfold. cbn [Nat.b2n] in *.
  assert (freed s = true) as Hf by (destruct (freed s); [done|cbn in Is; lia]). rewrite Hf in *. split_and!; [lia|done|done].
Qed.

(** A state in which something is under way or queued has a next step, when
    the first handler queued runs to its end. *)
Lemma progress s : ~ quiescent s -> (forall e rest, ready s = e :: rest -> exists s', exec e (pop rest s) = Ret s') ->
  exists t s', now s <= t /\ step (tick t s) s'.
Proof.
  intros Hq Hrun. destruct (ready s) as [|e rest] eqn:Er.
  - destruct (pending s) as [o|] eqn:Ep.
    { exists (now s). eexists. split; [lia|]. by eapply io_error. }
    destruct (timer_waiting s) eqn:Ew.
    { exists (Z.max (now s) (beginTime + timeout)). eexists. split; [lia|]. apply io_timer; [done|cbn; lia]. }
    destruct (shutting s) eqn:Es.
    { exists (now s). eexists. split; [lia|]. by apply io_shutdown. }
    by destruct Hq.
  - destruct (Hrun e rest eq_refl) as [s' Hs']. exists (now s), s'. split; [lia|]. by eapply io_run.
Qed.
End machine_lemmas.

(** ** The three ways of asking *)
Inductive transport := UDP | TCP | TLS.

(** The operations a transport uses. *)
Definition uses (tr : transport) (o : socket_op) : bool :=
  match tr, o with
  | UDP, SendTo _ | UDP, ReceiveFrom => true
  | TCP, Connect | TLS, Connect | TLS, Handshake => true
  | TCP, WriteAll _ | TCP, ReadLength | TCP, ReadData _ | TLS, WriteAll _ | TLS, ReadLength | TLS, ReadData _ => true
  | _, _ => false
  end.

Section transports.
Context (junk : Z -> list Z) (tr : transport) (begin timeout : Z).

Definition ask (domain : str) (counter : Z) (st : pool) : outcome (socket_op * request_objects * Z) :=
  match tr with UDP => udp_dns junk domain counter st | TCP | TLS => tcp_dns junk domain counter st end.

Definition dns_handle : request_objects -> socket_op -> list Z -> outcome (next socket_op (list Z) * request_objects) :=
  match tr with UDP => udp_handle junk | TCP => tcp_handle | TLS => tls_handle end.
Definition dns_fail : request_objects -> socket_op -> outcome request_objects :=
  match tr with UDP => udp_fail | _ => fun l _ => Ret l end.
Definition dns_release : request_objects -> outcome request_objects :=
  match tr with UDP => fun l => Ret l | _ => tcp_release end.
Definition dns_graceful : bool := match tr with TLS => true | _ => false end.

(** Nothing is delivered for an operation the function never starts. *)
Definition dns_delivers (o : socket_op) (bytes : list Z) : Prop := uses tr o = true /\ delivers o bytes.

Definition dns_exec := run_event begin timeout [] dns_handle dns_fail dns_release dns_graceful.
Definition dns_reaches := io_reaches begin timeout [] dns_handle dns_fail dns_release dns_graceful dns_delivers.
Definition dns_step := io_step begin timeout [] dns_handle dns_fail dns_release dns_graceful dns_delivers.
End transports.

(** The operations a request still has before it. *)
Definition op_rank (o : socket_op) : nat :=
  match o with
  | Connect => 5 | Handshake => 4 | WriteAll _ => 3 | ReadLength => 2 | ReadData _ => 1
  | SendTo _ => 2 | ReceiveFrom => 1
  end.

Lemma dns_shortens junk tr : shortens (dns_handle junk tr) (dns_delivers tr) op_rank.
Proof.
  intros l o bytes n l' [Hu _] Hh. destruct tr, o; try done; cbn [dns_handle udp_handle tcp_handle tls_handle read_answer] in Hh.
  all: unfold write_request in Hh; try (injection Hh as <- <-; cbn; lia).
  all: apply bind_ret in Hh as (x & _ & Hh); try (destruct x as [x1 x2]; injection Hh as <- <-; cbn; lia); try (injection Hh as <- <-; cbn; lia).
  - apply bind_ret in Hh as (ips & _ & Hh). apply bind_ret in Hh as (st & _ & Hh). by injection Hh as <- <-.
  - destruct (1024 <? x); injection Hh as <- <-; cbn; lia || done.
  - destruct (1024 <? x); injection Hh as <- <-; cbn; lia || done.
Qed.

Lemma ask_rank junk tr domain counter st o l c : ask junk tr domain counter st = Ret (o, l, c) -> (op_rank o <= 5)%nat.
Proof.
  destruct tr; cbn [ask]; unfold udp_dns, tcp_dns; intros E;
    repeat (apply bind_ret in E as (? & _ & E); repeat case_match); injection E as <- _ _; cbn; lia.
Qed.

(** *** Forwarding *)
Section forward.
Context (junk : Z -> list Z) (begin timeout : Z) (ok : list Z -> Prop).

(** The datagrams received satisfy [ok]. *)
Definition forward_delivers (o : socket_op) (bytes : list Z) : Prop :=
  uses UDP o = true /\ delivers o bytes /\ (o = ReceiveFrom -> ok bytes).

Definition forward_reaches :=
  io_reaches begin timeout None (forward_handle junk) udp_fail (fun l => Ret l) false forward_delivers.

Lemma forward_shortens : (forall b, ok b -> 0 < zlen b) -> shortens (forward_handle junk) forward_delivers op_rank.
Proof.
  intros Hok l o bytes n l' (Hu & _ & Hne) Hh. destruct o; try done; cbn [forward_handle] in Hh.
  - apply bind_ret in Hh as ([b st] & _ & Hh). injection Hh as <- <-. cbn. lia.
  - specialize (Hok bytes (Hne eq_refl)). replace (0 <? zlen bytes) with true in Hh by lia. by injection Hh as <- <-.
Qed.
End forward.

Lemma reaches_run {op local result} begin timeout dr handle on_fail release graceful delivers n
    (s s1 s2 : io op local result) e rest :
  io_reaches begin timeout dr handle on_fail release graceful delivers n s s1 -> ready s1 = e :: rest ->
  run_event begin timeout dr handle on_fail release graceful e (pop rest s1) = Ret s2 ->
  io_reaches begin timeout dr handle on_fail release graceful delivers (S n) s s2.
Proof. intros H He Hs. eapply reaches_step; [done|by eapply io_run]. Qed.

Lemma forward_lost_run junk begin timeout sent l :
  0 <= timeout ->
  exists s, forward_reaches junk begin timeout (fun _ => True) 7 (io_start begin (SendTo sent) l) s /\ quiescent s /\
    completions s = [].
Proof.
  intros Ht. unfold forward_reaches.
  assert (is_timeout_or_error false begin begin timeout = false) as Hnow.
  { unfold is_timeout_or_error. cbn [negb andb]. replace (begin - begin) with 0 by lia. change (u64 0) with 0.
    by replace (0 <=? timeout) with true by lia. }
  pose proof (reaches_refl begin timeout None (forward_handle junk) udp_fail (fun l => Ret l) false
    (forward_delivers (fun _ => True)) (io_start begin (SendTo sent) l)) as H.
  destruct (alloc_block junk 1024 (mem l)) as (b & st & Ha & _); [lia|].
  (* sent, and an empty datagram *)
  eapply reaches_step in H; [|eapply (io_success _ _ _ _ _ _ _ _ _ _ []); [reflexivity|split_and!; done || by constructor]].
  eapply reaches_run in H; [|reflexivity|].
  2:{ cbn [run_event now pop op_done io_start forward_handle locals]. rewrite Hnow, Ha. reflexivity. }
  eapply reaches_step in H; [|eapply (io_success _ _ _ _ _ _ _ _ _ _ []); [reflexivity|split_and!; done || by constructor]].
  eapply reaches_run in H; [|reflexivity|].
  2:{ cbn [run_event now pop op_done start_op with_locals is_open io_start]. rewrite Hnow. reflexivity. }
  (* the timer *)
  eapply (reaches_tick _ _ _ _ _ _ _ _ _ _ _ (begin + timeout)) in H; [|cbn; lia].
  eapply reaches_step in H; [|eapply io_timer; [reflexivity|cbn; reflexivity]].
  eapply reaches_run in H; [|reflexivity|reflexivity]. eapply reaches_run in H; [|reflexivity|reflexivity].
  eexists. split; [exact H|]. split; [|reflexivity]. split; [|split; [|split]]; reflexivity.
Qed.

(** ** A conversation that goes well: what is started and the result *)
Section chain.
Context {op local result : Type} (handle : local -> op -> list Z -> outcome (next op result * local)).

Fixpoint chain (l : local) (o : op) (deliveries : list (list Z)) : outcome (list op * option result) :=
  match deliveries with
  | [] => Ret ([o], None)
  | bytes :: rest =>
      '(n, l) ← handle l o bytes;
      match n with
      | Start o' => '(ops, r) ← chain l o' rest; Ret (o :: ops, r)
      | Complete r => Ret ([o], Some r)
      | Nothing => Ret ([o], None)
      end
  end.

Lemma chain_start l o bytes rest o' l' : handle l o bytes = Ret (Start o', l') ->
  chain l o (bytes :: rest) = '(ops, r) ← chain l' o' rest; Ret (o :: ops, r).
Proof. intros E. cbn [chain]. by rewrite E. Qed.
End chain.

(** What the system delivers when the server answers [p]. *)
Definition deliveries (tr : transport) (p : list Z) : list (list Z) :=
  match tr with
  | UDP => [[]; p]
  | TCP => [[]; []; be_bytes 2 (zlen p); p]
  | TLS => [[]; []; []; be_bytes 2 (zlen p); p]
  end.

(** How the packet [q] is sent. *)
Definition request_op (tr : transport) (q : list Z) : socket_op :=
  match tr with UDP => SendTo q | _ => WriteAll (be_bytes 2 (zlen q) ++ q) end.

Section answers.
Context (id flags expire : Z) (qs : list question) (answers : list Z).
Let p := response_packet id flags expire qs (zlen answers) answers.
Context (Hid : 0 <= id < 65536) (Hfl : 0 <= flags < 65536) (Hrc : Z.land flags 15 = 0).
Context (Hqs : qs <> []) (Hv : Forall valid_question qs) (Hips : Forall ip_ok answers) (Hexp : 0 <= expire < 2 ^ 32).

Lemma parse_answer m len : at_off m 0 p -> zlen p <= 1024 ->
  exists r h, response_parse m 0 (response_new len) (zlen p) = Ret r /\ rsp_valid r = true /\ rsp_header r = Some h /\
    Message.id h = id /\ responseCode h = 0 /\ Response.ips r = answers.
Proof.
  intros Hat Hp. assert (zlen p = 12 + zlen (enc_questions qs) + 16 * zlen answers) as Hz
    by (unfold p, response_packet; rewrite !zlen_app, zlen_enc_answers, zlen_enc_header; lia).
  pose proof (zlen_nonneg answers). pose proof (zlen_nonneg (enc_questions qs)).
  assert (zlen qs < 65536) as Hqn.
  { assert (zlen qs <= zlen (enc_questions qs)); [|lia]. clear -Hv. induction qs as [|q qs0 IH]; [done|].
    apply Forall_cons in Hv as [[Hq _] Hv]. specialize (IH Hv).
    rewrite enc_questions_cons, zlen_app, zlen_enc_question, zlen_cons. pose proof (enc_name_size _ Hq). lia. }
  destruct qs as [|q qs']; [done|].
  rewrite (response_parse_spec m 0 (zlen p) id flags expire q qs' answers) by (done || lia).
  eexists _, _. split_and!; done.
Qed.

Lemma client_parse_answer m dnsId : at_off m 0 p -> zlen p <= 1024 ->
  client_parse (u16 (zlen p)) m dnsId = Ret (if id =? dnsId then answers else []).
Proof.
  intros Hat Hp. pose proof (zlen_nonneg p). unfold client_parse.
  assert (0 < zlen p) by (unfold p, response_packet; rewrite !zlen_app, zlen_enc_header; pose proof (zlen_nonneg (enc_questions qs));
    pose proof (zlen_nonneg (enc_answers expire answers)); lia).
  rewrite u16_id by lia. zb. destruct (parse_answer m (zlen p) Hat Hp) as (r & h & -> & Hrv & Hh & Hi & Hc & Hr). ret_step.
  rewrite Hrv, Hh, Hi, Hc, Hr. cbn [negb andb]. by rewrite Z.eqb_refl, andb_true_r.
Qed.
End answers.

Lemma received_at_off block bytes : at_off (received block bytes) 0 bytes.
Proof. exists [], (drop (length bytes) block). done. Qed.

Lemma write_request_spec (l : request_objects) bs tail : req_block l = bs ++ tail -> req_bytes l = zlen bs ->
  zlen bs <= zlen (dataBytes l) ->
  exists d, write_request l = Ret (Start (WriteAll bs), with_data l d).
Proof.
  intros Hb Hl Hd. unfold write_request. rewrite Hl.
  assert (exists old post, dataBytes l = old ++ post /\ length old = length bs) as (old & post & -> & Ho).
  { exists (take (length bs) (dataBytes l)), (drop (length bs) (dataBytes l)). rewrite take_drop, length_take.
    unfold zlen in Hd. split; [done|lia]. }
  pose proof (copy_spec (req_block l) [] old post 0 0 bs [] tail Hb eq_refl eq_refl Ho) as C. cbn [app] in C. rewrite C. ret_step.
  eexists. rewrite take_app_length' by (unfold zlen; lia). done.
Qed.

(** From the request written on a stream to the result. *)
Lemma stream_chain (handle : request_objects -> socket_op -> list Z -> outcome (next socket_op (list Z) * request_objects))
    (l : request_objects) x id flags expire qs answers :
  (forall l o bytes, match o with WriteAll _ | ReadLength | ReadData _ => handle l o bytes = read_answer l o bytes | _ => True end) ->
  0 <= id < 65536 -> 0 <= flags < 65536 -> Z.land flags 15 = 0 ->
  qs <> [] -> Forall valid_question qs -> Forall ip_ok answers -> 0 <= expire < 2 ^ 32 ->
  let p := response_packet id flags expire qs (zlen answers) answers in
  zlen p <= 65535 ->
  exists ops, chain handle l (WriteAll x) [[]; be_bytes 2 (zlen p); p] =
    Ret (WriteAll x :: ops, Some (if (zlen p <=? 1024) && (id =? dnsId l) then answers else [])).
Proof.
  intros Hh Hid Hfl Hrc Hqs Hv Hips Hexp p Hp. pose proof (zlen_nonneg p). cbn [chain]. rewrite !(Hh _ (WriteAll x)).
  cbn [read_answer]. ret_step. rewrite !(Hh _ ReadLength). cbn [read_answer].
  rewrite (at_off_read 2 _ 0 (zlen p)) by (apply received_at_off || lia). ret_step.
  destruct (Z.leb_spec (zlen p) 1024).
  - replace (1024 <? zlen p) with false by lia. ret_step. rewrite (Hh _ (ReadData _)). cbn [read_answer].
    unfold p at 6. rewrite (client_parse_answer id flags expire qs answers) by (done || apply received_at_off). ret_step.
    cbn [andb]. by eexists.
  - replace (1024 <? zlen p) with true by lia. ret_step. by eexists.
Qed.

Lemma packet_size id labels : valid_name labels -> zlen (packet id [labels]) <= 273 /\ 2 <= zlen (packet id [labels]).
Proof.
  intros Hn. pose proof (enc_name_size _ Hn) as Hsz. rewrite zlen_packet, enc_names_cons, zlen_app, zlen_enc_question.
  change (zlen (enc_names [])) with 0. cbn [query_of fst]. lia.
Qed.

Lemma udp_chain junk (l : request_objects) x id flags expire qs answers :
  0 <= id < 65536 -> 0 <= flags < 65536 -> Z.land flags 15 = 0 ->
  qs <> [] -> Forall valid_question qs -> Forall ip_ok answers -> 0 <= expire < 2 ^ 32 ->
  let p := response_packet id flags expire qs (zlen answers) answers in
  zlen p <= 1024 ->
  chain (udp_handle junk) l (SendTo x) [[]; p] =
    Ret ([SendTo x; ReceiveFrom], Some (if id =? dnsId l then answers else [])).
Proof.
  intros Hid Hfl Hrc Hqs Hv Hips Hexp p Hp. cbn [chain udp_handle].
  destruct (alloc_block junk 1024 (mem l)) as (b & st' & -> & _); [lia|]. ret_step. cbn [udp_handle].
  destruct (parse_answer id flags expire qs answers Hid Hfl Hrc Hqs Hv Hips Hexp (received (data b) p) 1024
    (received_at_off _ _) Hp) as (r & h & Hr & Hrv & Hh & Hi & _ & Hri).
  cbn [dnsResponse with_response]. fold p in Hr. rewrite Hr. ret_step. rewrite Hrv, Hh, Hi, Hri. ret_step.
  done.
Qed.

(** The same with an answer of which only the decoding is known. *)
Lemma udp_chain_decoded junk (l : request_objects) x bs id qs ips ttl : decodes_as bs id qs ips ttl -> zlen bs <= 1024 ->
  chain (udp_handle junk) l (SendTo x) [[]; bs] =
    Ret ([SendTo x; ReceiveFrom], Some (if id =? dnsId l then ips else [])).
Proof.
  intros Hd Hb. cbn [chain udp_handle].
  destruct (alloc_block junk 1024 (mem l)) as (b & st' & -> & _); [lia|]. ret_step. cbn [udp_handle].
  destruct (Hd 1024 (received (data b) bs) 0 (received_at_off _ _)) as (r & h & z & Hr & Hrv & Hh & Hi & _ & _ & _ & Hri & _).
  cbn [dnsResponse with_response]. rewrite Hr. ret_step. rewrite Hrv, Hh, Hi, Hri. ret_step. done.
Qed.

(** How a datagram request starts. *)
Lemma udp_dns_start junk labels counter st : valid_name labels ->
  exists l c, udp_dns junk (name_text labels) counter st = Ret (SendTo (packet (u16 counter) [labels]), l, c) /\
    dnsId l = u16 counter.
Proof.
  intros Hn. pose proof (packet_size (u16 counter) labels Hn) as Hpk. rewrite zlen_packet in Hpk.
  destruct (udp_request_of_spec junk st [labels] counter) as (m & r & st' & tail & E & Hm & Hl & h & Hh & Hi);
    [by apply Forall_singleton|lia|].
  unfold udp_dns. change (name_text <$> [labels]) with [name_text labels] in E. rewrite E. ret_step.
  unfold request_id. rewrite Hh. ret_step. eexists _, _. rewrite Hl, Hm, take_app_length' by (unfold zlen; lia). by split.
Qed.

(** How a stream request starts. *)
Lemma tcp_dns_start junk labels counter st : (forall n, 0 <= n -> zlen (junk n) = n) ->
  valid_name labels ->
  let q := packet (u16 counter) [labels] in
  exists l c tail, tcp_dns junk (name_text labels) counter st = Ret (Connect, l, c) /\ dnsId l = u16 counter /\
    req_block l = (be_bytes 2 (zlen q) ++ q) ++ tail /\ req_bytes l = zlen (be_bytes 2 (zlen q) ++ q) /\
    zlen (be_bytes 2 (zlen q) ++ q) <= zlen (dataBytes l).
Proof.
  intros Hj Hn q. assert (Forall valid_name [labels]) as Hns by (by apply Forall_singleton).
  pose proof (packet_size (u16 counter) labels Hn) as Hpk. unfold tcp_dns.
  destruct (tcp_request_of_spec junk st [labels] counter Hns) as (m & r & st' & tail & E & Hm & Hl & _ & h & Hh & Hi).
  { rewrite zlen_packet in Hpk. lia. }
  change (name_text <$> [labels]) with [name_text labels] in E. rewrite E. ret_step. unfold request_id. rewrite Hh. ret_step.
  unfold pmalloc, chunk. cbn [Z.leb Z.compare Pos.compare Pos.compare_cont]. ret_step.
  eexists _, _, tail. split; [reflexivity|]. cbn [dnsId req_block req_bytes dataBytes].
  unfold SIZE_HEADER in Hl. rewrite !zlen_app, zlen_be_bytes, Hj by lia. fold q in Hl, Hpk. rewrite <- app_assoc.
  split_and!; [done|done|lia|lia].
Qed.

(** ** Lemmas: several areas *)
Definition nonempty (ips : list Z) : bool := negb (zlen ips =? 0).
Definition all_ips (answers : list (list Z)) : gset Z := ⋃ (list_to_set <$> answers).

Lemma all_ips_cons ips answers : all_ips (ips :: answers) = list_to_set ips ∪ all_ips answers.
Proof. done. Qed.

Lemma elem_all_ips answers ip : ip ∈ all_ips answers <-> exists ips, ips ∈ answers /\ ip ∈ ips.
Proof.
  unfold all_ips. rewrite elem_of_union_list. split.
  - intros (X & (ips & -> & Hi)%list_elem_of_fmap & Hip). exists ips. by rewrite elem_of_list_to_set in Hip.
  - intros (ips & Hi & Hip). exists (list_to_set ips). split; [by apply list_elem_of_fmap_2|by apply elem_of_list_to_set].
Qed.

Section gather_lemmas.
Context (enough : Z -> bool) (iter : gset Z -> list Z) (total : Z).
Context (Htotal : 0 <= total < 65536) (Henough : enough total = true).
Context (Hmore : forall c, 0 <= c < total -> enough c = false).

Lemma each_handler_eq ips g : deleted g = false -> 0 <= counter g < 65535 ->
  each_handler enough iter ips g =
  let all := if zlen ips =? 0 then false else load_all g in
  let result := list_to_set ips ∪ result_ips g in
  if enough (counter g + 1) then Ret (Some (iter result, all), Gather (counter g + 1) all result true)
  else Ret (None, Gather (counter g + 1) all result false).
Proof. intros Hd Hc. unfold each_handler. by rewrite Hd, u16_id by lia. Qed.

Lemma each_all_spec answers : forall g, deleted g = false -> 0 <= counter g -> counter g + zlen answers = total ->
  answers <> [] ->
  exists g', each_all (each_handler enough iter) answers g =
    Ret ([(iter (all_ips answers ∪ result_ips g), load_all g && forallb nonempty answers)], g').
Proof.
  induction answers as [|ips answers IH]; intros g Hd Hc Hn Hne; [done|]. rewrite zlen_cons in Hn.
  pose proof (zlen_nonneg answers). cbn [each_all]. rewrite each_handler_eq by (done || lia).
  assert ((if zlen ips =? 0 then false else load_all g) = load_all g && nonempty ips) as ->.
  { unfold nonempty. destruct (zlen ips =? 0); cbn [negb]; [by rewrite andb_false_r|by rewrite andb_true_r]. }
  destruct answers as [|ips' answers].
  - replace (counter g + 1) with total by (change (zlen (@nil (list Z))) with 0 in Hn; lia). cbv zeta. rewrite Henough. ret_step. cbn [each_all]. ret_step.
    eexists. do 3 f_equal. f_equal; [|cbn [forallb]; by rewrite andb_true_r]. f_equal. rewrite all_ips_cons. change (all_ips []) with (∅ : gset Z). set_solver.
  - pose proof (zlen_nonneg answers). rewrite zlen_cons in Hn. rewrite Hmore by lia. ret_step.
    edestruct IH as (g' & ->); [..|]. 5:{ ret_step. eexists. do 3 f_equal. f_equal.
      - f_equal. cbn [result_ips]. rewrite !(all_ips_cons ips). set_solver.
      - cbn [load_all forallb]. by rewrite <- andb_assoc. }
    all: cbn [deleted counter]; rewrite ?zlen_cons; done || lia.
Qed.
End gather_lemmas.

(** ** Properties *)


(** Claim C9. A server that answers well is understood the same way over the three
    transports: the request for a valid name is sent as one packet, length-prefixed on a stream;
    the addresses of the answer are the result when the answer carries the request's id, and an
    answer with another id, or longer than 1024 bytes on a stream, gives none. *)
Theorem client_conversation (junk : Z -> list Z) (tr : transport) (labels : list str) (counter : Z) (st : pool)
    (id flags expire : Z) (qs : list question) (answers : list Z) :
  (forall n, 0 <= n -> zlen (junk n) = n) ->
  valid_name labels -> 0 <= id < 65536 -> 0 <= flags < 65536 -> Z.land flags 15 = 0 ->
  qs <> [] -> Forall valid_question qs -> Forall ip_ok answers -> 0 <= expire < 2 ^ 32 ->
  let p := response_packet id flags expire qs (zlen answers) answers in
  zlen p <= (if tr is UDP then 1024 else 65535) ->
  exists o l c ops, ask junk tr (name_text labels) counter st = Ret (o, l, c) /\
    chain (dns_handle junk tr) l o (deliveries tr p) =
      Ret (ops, Some (if (zlen p <=? 1024) && (id =? u16 counter) then answers else [])) /\
    request_op tr (packet (u16 counter) [labels]) ∈ ops.
Proof.
  intros Hj Hn Hid Hfl Hrc Hqs Hv Hips Hexp p Hp. pose proof (packet_size (u16 counter) labels Hn) as Hpk.
  destruct tr; unfold ask, dns_handle, deliveries, request_op.
  - destruct (udp_dns_start junk labels counter st Hn) as (l & c & -> & Hi). eexists _, _, _, _. split; [reflexivity|].
    rewrite (udp_chain junk _ _ id flags expire qs answers) by done. rewrite Hi. fold p. replace (zlen p <=? 1024) with true by lia.
    split; [done|]. by constructor.
  - destruct (tcp_dns_start junk labels counter st Hj Hn) as (l & c & tail & E & Hi & Hb & Hl & Hd).
    destruct (write_request_spec l _ tail Hb Hl Hd) as (d & Hw). exists Connect, l, c.
    destruct (stream_chain tcp_handle (with_data l d) (be_bytes 2 (zlen (packet (u16 counter) [labels])) ++ packet (u16 counter) [labels])
      id flags expire qs answers) as (ops & Ho); [by intros ? []|done..|]. cbn [dnsId with_data] in Ho. rewrite Hi in Ho.
    rewrite (chain_start tcp_handle l Connect [] _ _ _ Hw). fold p in Ho. rewrite Ho. ret_step. eexists. split; [done|]. split; [done|].
    by repeat constructor.
  - destruct (tcp_dns_start junk labels counter st Hj Hn) as (l & c & tail & E & Hi & Hb & Hl & Hd).
    destruct (write_request_spec l _ tail Hb Hl Hd) as (d & Hw). exists Connect, l, c.
    destruct (stream_chain tls_handle (with_data l d) (be_bytes 2 (zlen (packet (u16 counter) [labels])) ++ packet (u16 counter) [labels])
      id flags expire qs answers) as (ops & Ho); [by intros ? []|done..|]. cbn [dnsId with_data] in Ho. rewrite Hi in Ho.
    rewrite (chain_start tls_handle l Connect [] _ _ _ eq_refl).
    rewrite (chain_start tls_handle l Handshake [] _ _ _ Hw). fold p in Ho. rewrite Ho. ret_step. eexists. split; [done|]. split; [done|].
    by repeat constructor.
Qed.

(** Claim C22. Asking through several areas calls the handler once, after the last answer in
    whatever order they come, with every address some area gave, once; and it reports a complete
    load exactly when no area came back empty. With at most one area the answer is handed on. *)
Theorem multi_area_spec (iter : gset Z -> list Z) (areas : list (str * Z)) (answers : list (list Z)) (tls : bool) :
  (forall s, iter s ≡ₚ elements s) -> zlen areas < 65536 -> zlen answers = zlen (area_requests areas) ->
  exists ips all, multi_area (if tls then tls_each iter areas else tcp_each areas) areas answers = Ret [(ips, all)] /\
    (forall ip, ip ∈ ips <-> exists given, given ∈ answers /\ ip ∈ given) /\
    all = ((zlen areas <=? 1) || forallb nonempty answers) /\
    (1 < zlen areas -> NoDup ips).
Proof.
  intros Hit Hn Hl. pose proof (zlen_nonneg areas).
  assert (forall ips, answers = [ips] -> exists ips' all, Ret ((fun ips => (ips, true)) <$> answers) = Ret [(ips', all)] /\
    (forall ip, ip ∈ ips' <-> exists given, given ∈ answers /\ ip ∈ given) /\ all = true) as Hone.
  { intros ips ->. exists ips, true. split; [done|]. split; [|done]. intros ip. setoid_rewrite list_elem_of_singleton. naive_solver. }
  assert (zlen answers = 1 -> exists ips, answers = [ips]) as Hsingle.
  { destruct answers as [|x [|y l]]; [done|by exists x|]. rewrite !zlen_cons. pose proof (zlen_nonneg l). lia. }
  destruct areas as [|a [|b areas]].
  - destruct (Hsingle Hl) as [ips' ->]. destruct (Hone ips' eq_refl) as (ips & all & E & Hx & ->).
    exists ips, true. split_and!; [exact E|done|done|]. intros Hz. by vm_compute in Hz.
  - destruct (Hsingle Hl) as [ips' ->]. destruct (Hone ips' eq_refl) as (ips & all & E & Hx & ->).
    exists ips, true. split_and!; [exact E|done|done|]. intros Hz. by vm_compute in Hz.
  - clear Hone Hsingle. set (A := a :: b :: areas) in *. change (area_requests A) with A in Hl.
    assert (1 < zlen A) by (unfold A; rewrite !zlen_cons; pose proof (zlen_nonneg areas); lia).
    assert (answers <> []) as Hne by (intros ->; change (zlen (@nil (list Z))) with 0 in Hl; lia).
    assert (forall s, ascending s ≡ₚ elements s) as Hasc by (intros s; apply merge_sort_Permutation).
    assert (exists iter' g', (forall s, iter' s ≡ₚ elements s) /\
      each_all (if tls then tls_each iter A else tcp_each A) answers gather_init =
      Ret ([(iter' (all_ips answers ∪ result_ips gather_init), load_all gather_init && forallb nonempty answers)], g'))
      as (iter' & g' & Hi' & E).
    { destruct tls; [exists iter|exists ascending].
      - edestruct (each_all_spec (fun c => zlen A <=? c) iter (zlen A) ltac:(lia) ltac:(lia) ltac:(lia) answers gather_init) as (g' & E);
          [done|done|cbn; lia|done|]. exists g'. split; [done|exact E].
      - edestruct (each_all_spec (fun c => c =? zlen A) ascending (zlen A) ltac:(lia) ltac:(lia) ltac:(lia) answers gather_init) as (g' & E);
          [done|done|cbn; lia|done|]. exists g'. split; [done|exact E]. }
    exists (iter' (all_ips answers ∪ ∅)), (forallb nonempty answers). split.
    { unfold multi_area, A. fold A. rewrite E. done. }
    split.
    { intros ip. rewrite Hi', elem_of_elements, elem_of_union. rewrite (elem_all_ips answers ip). rewrite elem_of_empty. tauto. }
    split; [by replace (zlen A <=? 1) with false by lia|]. intros _. rewrite Hi'. apply NoDup_elements.
Qed.

Lemma multi_area_spec_witness :
  exists ips all, multi_area (tls_each elements [(lit "US", 6001); (lit "JP", 6002)]) [(lit "US", 6001); (lit "JP", 6002)]
      [[7; 9]; [9]] = Ret [(ips, all)] /\ (forall ip, ip ∈ ips <-> exists given, given ∈ [[7; 9]; [9]] /\ ip ∈ given) /\
    all = ((2 <=? 1) || forallb nonempty [[7; 9]; [9]]) /\ (1 < 2 -> NoDup ips).
Proof.
  apply (multi_area_spec elements [(lit "US", 6001); (lit "JP", 6002)] [[7; 9]; [9]] true); [done|done|done].
Defined.


Lemma client_conversation_witness :
  let junk := fun n => replicate (Z.to_nat n) 0 in
  let p := response_packet 7 33152 60 [([lit "a"; lit "cn"], 1)] (zlen [16909060]) [16909060] in
  exists o l c ops, ask junk TLS (name_text [lit "a"; lit "cn"]) 7 (Pool 0 0) = Ret (o, l, c) /\
    chain (dns_handle junk TLS) l o (deliveries TLS p) =
      Ret (ops, Some (if (zlen p <=? 1024) && (7 =? u16 7) then [16909060] else [])) /\
    request_op TLS (packet (u16 7) [[lit "a"; lit "cn"]]) ∈ ops.
Proof.
  intros junk p. apply (client_conversation junk TLS [lit "a"; lit "cn"] 7 (Pool 0 0) 7 33152 60 [([lit "a"; lit "cn"], 1)] [16909060]).
  - intros n Hn. unfold junk. rewrite zlen_replicate. lia.
  - repeat first [constructor | split]; try done; unfold zlen; simpl; lia.
  - lia.
  - lia.
  - reflexivity.
  - done.
  - repeat first [constructor | split]; try done; unfold zlen; simpl; lia.
  - repeat constructor; unfold ip_ok; lia.
  - lia.
  - vm_compute. discriminate.
Defined.

(** Claim C23. A forwarded packet whose server answers with data is handed its answer, or null
    on failure, exactly once; but when the server answers with an empty datagram the callback is
    never called: the socket is closed by the timer and nothing is left that could call it. *)
Theorem forward_udp_outcome (junk : Z -> list Z) (begin timeout : Z) (m : list Z) (len : Z) (st : pool) :
  0 <= timeout ->
  let '(o, l) := forward_udp m len st in
  (forall n s, forward_reaches junk begin timeout (fun b => 0 < zlen b) n (io_start begin o l) s ->
     fault s = false /\ (length (completions s) <= 1)%nat /\ (quiescent s -> length (completions s) = 1%nat)) /\
  exists s, forward_reaches junk begin timeout (fun _ => True) 7 (io_start begin o l) s /\ quiescent s /\ completions s = [].
Proof.
  intros Ht. unfold forward_udp. split.
  - intros n s Hr. assert (shortens (forward_handle junk) (forward_delivers (fun b => 0 < zlen b)) op_rank) as Hsh
      by (by apply forward_shortens).
    pose proof (reaches_inv _ _ _ _ _ _ _ _ _ _ _ _ Hsh (start_inv _ begin _ _) Hr) as Hi.
    split_and!; [apply Hi|pose proof (inv_live _ _ _ _ Hi); lia|].
    intros Hq. by destruct (quiescent_outcome _ _ Hi Hq).
  - by apply forward_lost_run.
Qed.

Lemma forward_udp_outcome_witness :
  let '(o, l) := forward_udp [0; 1] 2 (Pool 0 0) in
  exists s, forward_reaches (fun _ => []) 5 100 (fun _ => True) 7 (io_start 5 o l) s /\ quiescent s /\ completions s = [].
Proof. apply (forward_udp_outcome (fun _ => []) 5 100 [0; 1] 2 (Pool 0 0)). lia. Defined.
