(* ===== verification/Console.v ===== *)
(** * The console ([src/src/common/main/console], [src/src/common/main/command],
    [src/src/core/console_manager.cpp])

    Commands sent in a UDP datagram and answered in one: the receiving side
    with its fixed buffers and the commands it knows, the client that other
    processes (and the server itself, for the proxy) use, and the commands
    sent to the proxy. *)
From S2P Require Import Prelude Bytes Text Domain AreaRange AreaManager Config Kv Records.

Section console.
(** [boost::trim] *)
Context (trim : str -> str).

(** ** The client: [console::client::command] *)
Definition RES_SIZE : Z := 10240.

(** [res] after the io_context has run: [received] is the datagram, if one
    came in time.  The terminator is written one byte further than the text. *)
Definition reply_text (received : option (list Z)) : outcome str :=
  match received with
  | None => Ret []
  | Some bytes => if RES_SIZE <=? zlen bytes + 1 then Undef OobWrite else Ret (cstr bytes)
  end.

Definition command_reply (received : option (list Z)) : outcome (bool * str) :=
  result ← reply_text received;
  splits ← split result [10];
  match splits with
  | [] => Ret (false, lit "network error!")
  | s :: _ =>
      if bool_decide (s = lit "success")
      then text ← substr result 7 npos; Ret (true, trim text)
      else text ← substr result 6 npos; Ret (false, trim text)
  end.

(** ** The commands sent to the proxy and to the server *)
Definition register_area_port_command (ip : str) (port : Z) (area : str) : str :=
  lit "proxy register area virtual port --area=" ++ area ++ lit " --port=" ++ to_string_int port ++ lit " --ip=" ++ ip.

Definition register_area_port (result : bool * str) : outcome Z :=
  if result.1 then n ← stoi result.2; Ret (u16 n) else Ret 0.

Definition get_ip_available_proxy_areas_command (ip : str) : str := lit "proxy ip available areas --ip=" ++ ip.

Definition get_ip_available_proxy_areas (result : bool * str) : outcome (list str) :=
  if result.1 then split result.2 (lit ",") else Ret [].

Definition reverse_resolve_command (ip : Z) : str := lit "dns reverse resolve --ip=" ++ ip_to_str ip.

Definition reverse_resolve_result (result : bool * str) : outcome (list str) :=
  if result.1 then split result.2 (lit ",") else Ret [].

(** ** The receiving side: [udp_console] *)
Definition COMMAND_BUFFER : Z := 1024.
Definition RESPONSE_BUFFER : Z := 10240.

(** The datagram is terminated in the buffer it was received in. *)
Definition command_text (bytes : list Z) : outcome str :=
  if COMMAND_BUFFER <=? zlen bytes then Undef OobWrite else Ret (trim (cstr bytes)).

(** The words before the first that starts with a dash are the command. *)
Fixpoint split_command (splits : list str) (commands options : list str) (is_option : bool)
    : list str * list str :=
  match splits with
  | [] => (commands, options)
  | item :: rest =>
      let item := trim item in
      let dash := match item with c :: _ => c =? 45 | [] => false end in
      if negb is_option && negb dash then split_command rest (commands ++ [item]) options is_option
      else split_command rest commands (options ++ [item]) true
  end.

(** [boost::program_options]: the values by name, or an exception. *)
Context (parse_options : list str -> outcome (gmap str str)).

Definition parse_command (command : str) : outcome (list str * gmap str str) :=
  splits ← split command (lit " ");
  let '(commands, options) := split_command splits [] [] false in
  vm ← parse_options options;
  Ret (commands, vm).

(** [options[name].as<string>()] *)
Definition option_value (vm : gmap str str) (name : str) : outcome str :=
  match vm !! name with Some v => Ret v | None => Throw RuntimeError end.

(** [send_response]: the text is copied into the response buffer. *)
Definition send_response (result : str) : outcome (list Z) :=
  if RESPONSE_BUFFER <? zlen result then Undef OobWrite else Ret result.

Definition response_text (result : bool * str) : str :=
  (if result.1 then lit "success" else lit "failed") ++ [10] ++ result.2 ++ [10].

(** ** The commands of the server: [console_manager] *)
Section commands.
Context {D : Type} `{AbstractKv D}.
Context (ireplace : str -> str -> str -> str) (regex_match : str -> str -> outcome bool).
Context (decode : str -> pb_records) (decode_rev : str -> pb_reverse).
Context (sort : list dns_ip_record -> list dns_ip_record) (shuffle : list Z -> list Z).
Context (iter : gmap str (list area_ip_range) -> list (str * list area_ip_range)).
Context (servers : list remote_dns_server).

Definition DUMP_PATH : str := lit "/tmp/st-dns-record.txt".

Fixpoint serialize_all (records : list dns_record) : outcome (list str) :=
  match records with
  | [] => Ret []
  | r :: rest => s ← record_serialize r; l ← serialize_all rest; Ret (s :: l)
  end.

Abbreviation state := (@record_manager D).
(** What a command leaves: its result, the file it wrote, if any, the state. *)
Abbreviation effect := ((bool * str) * option str * state)%type.

Definition invalid_command : bool * str := (false, lit "not invalid command").

(** [console->impl] *)
Definition console_impl (now : Z) (commands : list str) (options : gmap str str) (st : state) : outcome effect :=
  let command := Bytes.join commands (lit " ") in
  ip ← option_value options (lit "ip");
  let with_domain (k : str -> outcome effect) : outcome effect :=
    if options !! lit "domain" is Some domain
    then if bool_decide (domain = []) then Ret (invalid_command, None, st) else k domain
    else Ret (invalid_command, None, st) in
  if bool_decide (command = lit "dns resolve") then
    with_domain (fun domain =>
      '(record, st) ← resolve ireplace regex_match decode sort shuffle iter servers now domain st;
      text ← record_serialize record;
      Ret ((true, text), None, st))
  else if bool_decide (command = lit "dns reverse resolve") then
    if bool_decide (ip = []) then Ret (invalid_command, None, st)
    else
      n ← str_to_ip ip;
      let '(record, st) := reverse_resolve decode_rev now n st in
      Ret ((true, Bytes.join (rev_domains record) (lit ",")), None, st)
  else if bool_decide (command = lit "dns record get") then
    with_domain (fun domain =>
      '(records, st) ← get_dns_record_list ireplace decode iter servers now domain st;
      strs ← serialize_all records;
      Ret ((true, Bytes.join strs [10]), None, st))
  else if bool_decide (command = lit "dns record dump") then
    '(text, st) ← dump ireplace decode iter servers now st;
    Ret ((true, DUMP_PATH), Some text, st)
  else if bool_decide (command = lit "dns record remove") then
    with_domain (fun domain => Ret ((true, []), None, remove domain st))
  else if bool_decide (command = lit "dns record clear") then Ret ((true, []), None, clear st)
  else if bool_decide (command = lit "dns record analyse") then
    '(s, st) ← stats ireplace regex_match decode sort shuffle iter servers now st;
    Ret ((true, stats_serialize s), None, st)
  else if bool_decide (command = lit "ip area") then
    n ← str_to_ip ip;
    let '(area, am) := get_area iter n true (area_manager st) in
    Ret ((true, area), None, RecordManager (db st) (Records.reverse st) am)
  else if bool_decide (command = lit "dns queue list") then
    Ret ((false, lit "not implemented in singleton"), None, st)
  else Ret (invalid_command, None, st).

(** The handler of a received datagram: the bytes sent back. *)
Definition console_receive (now : Z) (bytes : list Z) (st : state) : outcome (list Z * option str * state) :=
  command ← command_text bytes;
  '(commands, options) ← parse_command command;
  '(result, file, st) ← console_impl now commands options st;
  sent ← send_response (response_text result);
  Ret (sent, file, st).
End commands.
End console.

(** ** Specification *)

(** The documented effect of [boost::trim]: white space goes at both ends. *)
Definition bare (s : str) : Prop :=
  match s, last s with c :: _, Some d => is_space c = false /\ is_space d = false | _, _ => True end.
Definition trims (trim : str -> str) : Prop :=
  forall a s b, Forall (fun c => is_space c = true) a -> Forall (fun c => is_space c = true) b -> bare s ->
  trim (a ++ s ++ b) = s.

Definition word (s : str) : Prop := s <> [] /\ 32 ∉ s /\ bare s.

(** ** Lemmas *)

(** The first piece of a text cut at a character. *)
Lemma split_first c a b : zlen (a ++ c :: b) < npos -> c ∉ a ->
  exists rest, split (a ++ c :: b) [c] = Ret (a :: rest).
Proof.
  intros Hl Ha. destruct (split_spec (a ++ c :: b) [c]) as (parts & E & Hi & Hp); [by destruct a|done|done|].
  exists (tail parts). rewrite E. f_equal. rewrite Forall_forall in Hp.
  assert (forall p, p ∈ parts -> c ∉ p) as Hc by (intros p Hin; rewrite <- contains_char; by apply Hp).
  destruct parts as [|p [|q parts]]; cbn [intercalate tail] in *.
  - by destruct a.
  - subst p. exfalso. eapply Hc; [left|]. apply elem_of_app. right. left.
  - apply cut_unique in Hi as [-> _]; [done|apply Hc; left|done].
Qed.

Lemma cstr_id s : 0 ∉ s -> cstr s = s.
Proof. intros H. apply cstr_no_nul. apply Forall_forall. by intros c Hc ->. Qed.

(** Texts joined by a character they do not hold are cut apart again. *)
Lemma split_joined c words : words <> [] -> Forall (fun w => w <> [] /\ c ∉ w) words ->
  zlen (intercalate [c] words) < npos -> split (intercalate [c] words) [c] = Ret words.
Proof.
  intros Hne Hw Hl.
  assert (intercalate [c] words <> []) as Hn.
  { destruct Hw as [|w ws (Hn & _) Hw]; [done|]. by destruct ws, w. }
  destruct (split_spec _ [c] Hn ltac:(done) Hl) as (parts & -> & Hi & Hp). f_equal.
  apply (intercalate_inj c); [|done| |by eapply Forall_impl; [exact Hw|]; intros w (_ & H)|done].
  - intros ->. by rewrite <- Hi in Hn.
  - eapply Forall_impl; [exact Hp|]. intros p Hx. by rewrite <- contains_char.
Qed.

Lemma join_intercalate d words : d <> [] -> Forall (fun w => w <> []) words -> Bytes.join words d = intercalate d words.
Proof.
  intros Hd Hw. unfold Bytes.join. destruct Hw as [|w words Hn Hw]; [done|]. cbn [fold_left]. rewrite bool_decide_true by done.
  cbn [app]. revert w Hn. induction Hw as [|v words Hv Hw IH]; intros w Hn; [done|]. cbn [fold_left].
  rewrite bool_decide_false by done. rewrite IH by (by destruct w). rewrite intercalate_cons.
  destruct words as [|u words]; [cbn; by rewrite <- app_assoc|]. by rewrite !intercalate_cons, <- !app_assoc.
Qed.

Lemma trim_bare trim s : trims trim -> bare s -> trim s = s.
Proof. intros Ht Hb. pose proof (Ht [] s [] ltac:(done) ltac:(done) Hb) as E. by rewrite app_nil_r in E. Qed.

Definition dashed (s : str) : bool := match s with c :: _ => c =? 45 | [] => false end.

Lemma split_options trim words : trims trim -> Forall word words -> forall commands options,
  split_command trim words commands options true = (commands, options ++ words).
Proof.
  intros Ht Hw. induction Hw as [|w words (_ & _ & Hb) Hw IH]; intros commands options; cbn [split_command].
  - by rewrite app_nil_r.
  - cbn [negb andb]. by rewrite trim_bare, IH, <- app_assoc.
Qed.

Lemma split_command_spec trim cmds opts : trims trim -> Forall word cmds -> Forall word opts ->
  Forall (fun w => dashed w = false) cmds -> match opts with o :: _ => dashed o = true | [] => True end ->
  forall commands, split_command trim (cmds ++ opts) commands [] false = (commands ++ cmds, opts).
Proof.
  intros Ht Hc Ho Hd Hdo. induction Hc as [|w words (_ & _ & Hb) Hw IH]; intros commands; cbn [app].
  - rewrite app_nil_r. destruct opts as [|o opts]; [done|]. apply Forall_cons in Ho as [(_ & _ & Hb) Ho].
    cbn [split_command]. rewrite trim_bare by done. fold (dashed o). rewrite Hdo. cbn [negb andb]. by rewrite split_options.
  - apply Forall_cons in Hd as [Hdw Hd]. cbn [split_command]. rewrite trim_bare by done. fold (dashed w). rewrite Hdw.
    cbn [negb andb]. by rewrite IH, <- app_assoc.
Qed.

Lemma last_app_some {A} (a b : list A) : b <> [] -> last (a ++ b) = last b.
Proof. intros Hb. rewrite last_app. by destruct b as [|x b] using rev_ind; [|rewrite last_snoc]. Qed.

(** A reply that fits the buffers is read back. *)
Lemma reply_roundtrip trim ok text : trims trim -> bare text -> 0 ∉ text -> zlen text <= 10220 ->
  exists sent, send_response (response_text (ok, text)) = Ret sent /\ command_reply trim (Some sent) = Ret (ok, text).
Proof.
  intros Ht Hb Hz Hl. pose proof (zlen_nonneg text).
  set (head := if ok then lit "success" else lit "failed").
  assert (response_text (ok, text) = head ++ 10 :: (text ++ [10])) as -> by (by destruct ok).
  assert (zlen head <= 7 /\ 10 ∉ head /\ 0 ∉ head) as (Hh & Hh10 & Hh0).
  { destruct ok; (split; [vm_compute; discriminate|]); split; apply (bool_decide_unpack _); vm_compute; exact I. }
  assert (zlen (head ++ 10 :: text ++ [10]) <= 10230) as Hlen.
  { rewrite zlen_app, zlen_cons, zlen_app. change (zlen [10]) with 1. lia. }
  exists (head ++ 10 :: text ++ [10]). unfold send_response, RESPONSE_BUFFER. split; [by zb|].
  unfold command_reply, reply_text, RES_SIZE. zb. ret_step. rewrite cstr_id by (rewrite elem_of_app, elem_of_cons, elem_of_app, list_elem_of_singleton; naive_solver).
  destruct (split_first 10 head (text ++ [10])) as (rest & ->); [unfold npos; lia|done|]. ret_step.
  assert (trim (10 :: text ++ [10]) = text) as Et by (by apply (Ht [10] text [10]); [constructor|constructor|]).
  assert (forall n, zlen head = n -> n <= 7 -> substr (head ++ 10 :: text ++ [10]) n npos = Ret (10 :: text ++ [10])) as Hsub.
  { intros n <- _. rewrite substr_at by (unfold npos; lia). rewrite take_ge; [done|].
    cbn [length]. rewrite length_app. unfold zlen, npos in *. cbn [length]. lia. }
  destruct ok; subst head; [rewrite bool_decide_true by done|rewrite bool_decide_false by done];
    rewrite Hsub by done; ret_step; by rewrite Et.
Qed.

(** A text without white space. *)
Definition plain (s : str) : Prop := Forall (fun c => is_space c = false) s.

Lemma plain_bare s : plain s -> bare s.
Proof.
  intros H. unfold bare. destruct s as [|c s]; [done|]. destruct (last (c :: s)) as [d|] eqn:E; [|done].
  unfold plain in H. rewrite Forall_forall in H. split; apply H; [left|by apply last_Some_elem_of].
Qed.

Lemma bare_app c a b : is_space c = false -> plain b -> b <> [] -> bare ((c :: a) ++ b).
Proof.
  intros Hc Hp Hn. unfold bare. cbn [app]. destruct (last (c :: a ++ b)) as [d|] eqn:E; [|done]. split; [done|].
  change (c :: a ++ b) with ((c :: a) ++ b) in E. rewrite last_app_some in E by done.
  unfold plain in Hp. rewrite Forall_forall in Hp. by apply Hp, last_Some_elem_of.
Qed.

Lemma bare_intercalate c words : Forall (fun w => w <> [] /\ plain w) words -> bare (intercalate [c] words).
Proof.
  intros Hw. destruct words as [|w words]; [done|]. pose proof Hw as Hw0. apply Forall_cons in Hw as [[Hn Hp] Hw].
  unfold bare. destruct (intercalate [c] (w :: words)) as [|x s] eqn:E; [done|].
  assert (is_space x = false) as Hx.
  { destruct w as [|y w]; [done|]. assert (x = y) as -> by (destruct words; cbn in E; congruence).
    by apply Forall_cons in Hp as [Hp _]. }
  destruct (last (x :: s)) as [d|] eqn:El; [|done]. split; [done|]. rewrite <- E in El. clear E Hx x s Hn Hp Hw.
  induction words as [|v words IH] in w, Hw0, El |- *.
  - apply Forall_cons in Hw0 as [[Hn Hp] _]. cbn in El. unfold plain in Hp. rewrite Forall_forall in Hp.
    by apply Hp, last_Some_elem_of.
  - apply Forall_cons in Hw0 as [_ Hw0]. rewrite intercalate_cons in El. apply (IH v Hw0).
    rewrite <- El. apply Forall_cons in Hw0 as [[Hn _] _]. rewrite app_assoc. symmetry. apply last_app_some.
    by destruct words, v.
Qed.

Lemma intercalate_not_elem x c words : x <> c -> Forall (fun w => x ∉ w) words -> x ∉ intercalate [c] words.
Proof.
  intros Hx Hw. induction Hw as [|w words Hn Hw IH]; [apply not_elem_of_nil|]. destruct words as [|v words]; [done|].
  rewrite intercalate_cons, !elem_of_app, list_elem_of_singleton. naive_solver.
Qed.

Lemma plain_ip ip : ip_ok ip -> plain (ip_to_str ip) /\ ip_to_str ip <> [].
Proof.
  intros Hip. split.
  - apply Forall_forall. intros c Hc. apply not_true_is_false. intros Hs.
    apply (ip_to_str_no_char ip c Hip) in Hc; [done| |]; unfold is_space, is_digit in *; lia.
  - intros E. pose proof (str_to_ip_roundtrip_lemma ip Hip) as R. rewrite E in R.
    rewrite ip_to_str_segments in E by done. destruct (to_string_cons (ip / 2 ^ 24)) as (c & s & Ec & _).
    + apply Z.div_pos; [apply Hip|lia].
    + by rewrite Ec in E.
Qed.

Lemma reverse_command_parsed trim parse_options ip : trims trim -> ip_ok ip ->
  parse_command trim parse_options (reverse_resolve_command ip) =
  vm ← parse_options [lit "--ip=" ++ ip_to_str ip]; Ret ([lit "dns"; lit "reverse"; lit "resolve"], vm).
Proof.
  intros Ht Hip. destruct (plain_ip ip Hip) as [Hpl Hne]. unfold parse_command.
  set (opt := lit "--ip=" ++ ip_to_str ip).
  assert (plain opt) as Hopt by (apply Forall_app; split; [repeat constructor|done]).
  change (reverse_resolve_command ip) with (intercalate [32] [lit "dns"; lit "reverse"; lit "resolve"; opt]).
  assert (forall s, plain s -> 32 ∉ s) as H32.
  { intros s Hs Hin. unfold plain in Hs. rewrite Forall_forall in Hs. by apply Hs in Hin. }
  assert (forall s, s <> [] -> plain s -> word s) as Hword by (intros s Hs Hp; split_and!; auto using plain_bare).
  assert (Forall word [lit "dns"; lit "reverse"; lit "resolve"]) as Hc.
  { repeat constructor; try done; try apply (bool_decide_unpack _); vm_compute; exact I || done. }
  assert (Forall word [opt]) as Ho by (apply Forall_singleton, Hword; done).
  rewrite split_joined; [|done| |].
  - ret_step. rewrite (split_command_spec trim [lit "dns"; lit "reverse"; lit "resolve"] [opt]); try done. by repeat constructor.
  - apply (Forall_app_2 _ [_; _; _] [_]); eapply Forall_impl; try eassumption; by intros s (? & ? & _).
  - pose proof (zlen_ip_to_str ip Hip). change (intercalate _ _) with (lit "dns reverse resolve --ip=" ++ ip_to_str ip).
    rewrite zlen_app. change (zlen (lit _)) with 25. unfold npos. lia.
Qed.

Lemma impl_reverse_resolve {D} `{AbstractKv D} ireplace regex_match decode decode_rev sort shuffle iter servers now vm
    (st : record_manager) :
  console_impl ireplace regex_match decode decode_rev sort shuffle iter servers now
    [lit "dns"; lit "reverse"; lit "resolve"] vm st =
  ip ← option_value vm (lit "ip");
  if bool_decide (ip = []) then Ret (invalid_command, None, st)
  else
    n ← str_to_ip ip;
    let '(record, st) := reverse_resolve decode_rev now n st in
    Ret ((true, Bytes.join (rev_domains record) (lit ",")), None, st).
Proof.
  unfold console_impl. set (command := Bytes.join [_; _; _] (lit " ")).
  assert (command = lit "dns reverse resolve") as -> by (vm_compute; reflexivity).
  assert (bool_decide (lit "dns reverse resolve" = lit "dns resolve") = false) as -> by (vm_compute; reflexivity).
  assert (bool_decide (lit "dns reverse resolve" = lit "dns reverse resolve") = true) as -> by (vm_compute; reflexivity).
  done.
Qed.

(** *** A trimming function *)
Definition trim_spaces (s : str) : str := rev (skip_space (rev (skip_space s))).

Lemma skip_space_app a s : Forall (fun c => is_space c = true) a -> skip_space (a ++ s) = skip_space s.
Proof. intros Ha. induction Ha as [|c a Hc Ha IH]; [done|]. cbn. by rewrite Hc. Qed.

Lemma skip_space_head c s : is_space c = false -> skip_space (c :: s) = c :: s.
Proof. intros Hc. cbn. by rewrite Hc. Qed.

Lemma trim_spaces_trims : trims trim_spaces.
Proof.
  intros a s b Ha Hb Hs. unfold trim_spaces. rewrite skip_space_app by done.
  assert (Forall (fun c => is_space c = true) (rev b)) as Hrb.
  { apply Forall_forall. intros c Hc. rewrite Forall_forall in Hb. apply Hb. rewrite list_elem_of_In in *. by apply in_rev. }
  destruct s as [|c s].
  - cbn [app]. pose proof (skip_space_app b [] Hb) as E. rewrite app_nil_r in E. by rewrite E.
  - unfold bare in Hs. destruct (last (c :: s)) as [d|] eqn:El; [|by apply last_None in El]. destruct Hs as [Hc Hd].
    apply last_Some in El as [s' Es]. pose proof Es as Es'. rewrite Es.
    assert (skip_space ((s' ++ [d]) ++ b) = (s' ++ [d]) ++ b) as ->.
    { destruct s' as [|x s']; cbn [app]; [by rewrite skip_space_head|].
      injection Es' as -> _. by rewrite skip_space_head. }
    rewrite !rev_app_distr, skip_space_app by done. cbn [rev app]. rewrite skip_space_head by done. cbn [rev].
    by rewrite rev_involutive.
Qed.

(** ** Properties *)

(** Claim C24. A process that asks over the console which domains led to an address gets
    exactly the list the record manager holds: the command is printed, sent, cut into words,
    run, answered, and the answer cut apart again without loss, when the answer fits its buffer. *)
Theorem console_reverse_resolve {D} `{AbstractKv D} (trim : str -> str) (parse_options : list str -> outcome (gmap str str))
    (ireplace : str -> str -> str -> str) (regex_match : str -> str -> outcome bool)
    (decode : str -> pb_records) (decode_rev : str -> pb_reverse)
    (sort : list dns_ip_record -> list dns_ip_record) (shuffle : list Z -> list Z)
    (iter : gmap str (list area_ip_range) -> list (str * list area_ip_range)) (servers : list remote_dns_server)
    (now ip : Z) (vm : gmap str str) (st : record_manager) :
  trims trim -> ip_ok ip ->
  parse_options [lit "--ip=" ++ ip_to_str ip] = Ret vm -> vm !! lit "ip" = Some (ip_to_str ip) ->
  let domains := rev_domains (reverse_resolve decode_rev now ip st).1 in
  Forall (fun d => d <> [] /\ plain d /\ 44 ∉ d /\ 0 ∉ d) domains -> zlen (intercalate (lit ",") domains) <= 10220 ->
  exists sent st', console_receive trim parse_options ireplace regex_match decode decode_rev sort shuffle iter servers now
      (reverse_resolve_command ip) st = Ret (sent, None, st') /\
    (r ← command_reply trim (Some sent); reverse_resolve_result r) = Ret domains.
Proof.
  intros Ht Hip Hpo Hvm domains Hd Hl. destruct (plain_ip ip Hip) as [Hpl Hne]. pose proof (zlen_ip_to_str ip Hip) as Hz.
  assert (bare (reverse_resolve_command ip) /\ 0 ∉ reverse_resolve_command ip) as [Hbare H0].
  { split.
    - by apply (bare_app 100 (lit "ns reverse resolve --ip=")).
    - unfold reverse_resolve_command. rewrite elem_of_app. intros [Hin|Hin].
      + revert Hin. apply (bool_decide_unpack _). vm_compute. exact I.
      + by apply (ip_to_str_no_char ip 0 Hip eq_refl) in Hin. }
  unfold console_receive, command_text. rewrite cstr_id by done.
  replace (COMMAND_BUFFER <=? zlen (reverse_resolve_command ip)) with false.
  2:{ unfold COMMAND_BUFFER, reverse_resolve_command. rewrite zlen_app. change (zlen (lit _)) with 25. lia. }
  ret_step. rewrite trim_bare by done. rewrite reverse_command_parsed, Hpo by done. ret_step.
  rewrite impl_reverse_resolve. unfold option_value. rewrite Hvm. ret_step.
  rewrite (bool_decide_false (ip_to_str ip = [])) by done. rewrite str_to_ip_roundtrip_lemma by done. ret_step.
  unfold domains in *. destruct (reverse_resolve decode_rev now ip st) as [record st']. cbn [fst] in *.
  change (lit ",") with [44] in *.
  assert (Bytes.join (rev_domains record) [44] = intercalate [44] (rev_domains record)) as ->.
  { clear -Hd. apply join_intercalate; [discriminate|]. eapply Forall_impl; [exact Hd|]. intros d (Hn & _). exact Hn. }
  destruct (reply_roundtrip trim true (intercalate [44] (rev_domains record)) Ht) as (sent & E & Hr); [| |exact Hl|].
  - apply bare_intercalate. eapply Forall_impl; [exact Hd|]. intros d (Hn & Hp & _). by split.
  - apply intercalate_not_elem; [discriminate|]. eapply Forall_impl; [exact Hd|]. by intros d (_ & _ & _ & H0').
  - ret_step. rewrite E. ret_step. exists sent, st'. split; [reflexivity|]. rewrite Hr. ret_step.
    unfold reverse_resolve_result. cbn [fst snd]. clear -Hd Hl.
    destruct (rev_domains record) as [|d ds]; [reflexivity|]. apply split_joined; [discriminate| |unfold npos; lia].
    eapply Forall_impl; [exact Hd|]. by intros d' (Hn & _ & H44 & _).
Qed.

Lemma console_reverse_resolve_witness :
  let kv := disk_kv toy_encode toy_decode in
  let d := @kv_put _ kv 5000 (to_string 16909060) (num_encode (PbReverse 16909060 [lit "a.com"; lit "b.com"])) 0 (∅ : gmap str str) in
  let st := RecordManager (∅ : gmap str str) d (Manager [] ∅ ∅ ∅ 0 0 []) in
  let dec := num_decode (PbReverse 0 []) in
  let parse := fun _ : list str => Ret (<[lit "ip" := lit "1.2.3.4"]> {[lit "domain" := []]}) in
  exists sent st', @console_receive trim_spaces parse _ kv (fun s _ _ => s) (fun _ _ => Ret false)
      (num_decode (PbRecords [] ∅)) dec (merge_sort not_after) (@List.rev Z) map_to_list [] 6000
      (reverse_resolve_command 16909060) st = Ret (sent, None, st') /\
    (r ← command_reply trim_spaces (Some sent); reverse_resolve_result r) =
    Ret (rev_domains (@reverse_resolve _ kv dec 6000 16909060 st).1).
Proof.
  intros kv d st dec parse.
  assert (rev_domains (@reverse_resolve _ kv dec 6000 16909060 st).1 = [lit "a.com"; lit "b.com"]) as E by (vm_compute; reflexivity).
  apply (@console_reverse_resolve _ kv trim_spaces parse (fun s _ _ => s) (fun _ _ => Ret false)
    (num_decode (PbRecords [] ∅)) dec (merge_sort not_after) (@List.rev Z) map_to_list [] 6000 16909060
    (<[lit "ip" := lit "1.2.3.4"]> {[lit "domain" := []]}) st).
  - exact trim_spaces_trims.
  - unfold ip_ok. lia.
  - reflexivity.
  - vm_compute. reflexivity.
  - rewrite E. repeat constructor; try discriminate; apply (bool_decide_unpack _); vm_compute; exact I.
  - rewrite E. vm_compute. discriminate.
Defined.


