(* ===== verification/Server.v ===== *)
(** * The DNS server ([src/src/core/dns_server.h], [dns_server.cpp], [session.h/.cpp])

    Sessions from the packet received to the packet sent back, and the tasks
    that refresh the records from the remote servers. Each callback of the
    server is one definition: it takes the clock and the server's state and
    returns the operations it starts ([action]) with the state it leaves. What
    the remote servers are asked goes through [Client], the answers are kept by
    [Records], the tasks are queued by [TaskQueue]. *)
From S2P Require Import Prelude Bytes Pool Text Domain Message Request Response AreaRange.
From S2P Require Import AreaManager Config TaskQueue Kv Records Client Console.

(** ** Data *)
Inductive process_type := QUERY | FORWARD | DROP.

Record session := Session {
  ss_id : Z;
  ss_time : Z;
  client_endpoint : str * Z;
  request : udp_request;
  request_data : list Z;                        (* the block of the request *)
  ss_record : dns_record;
  ss_process_type : process_type;
  response : option (list Z * udp_response)     (* its block and the object *)
}.

Definition new_session (id : Z) (block : list Z) : session :=
  Session id 0 ([], 0) (request_new 1024) block (empty_record []) QUERY None.

Definition with_record (s : session) (r : dns_record) : session :=
  Session (ss_id s) (ss_time s) (client_endpoint s) (request s) (request_data s) r (ss_process_type s) (response s).
Definition with_process_type (s : session) (p : process_type) : session :=
  Session (ss_id s) (ss_time s) (client_endpoint s) (request s) (request_data s) (ss_record s) p (response s).
Definition with_reply (s : session) (r : option (list Z * udp_response)) : session :=
  Session (ss_id s) (ss_time s) (client_endpoint s) (request s) (request_data s) (ss_record s) (ss_process_type s) r.

(** A task of the queue: a domain and a [remote_dns_server *]. *)
Abbreviation task := (priority_task (str * nat)).

Inductive action :=
  | ReceiveInto (id : Z)
  | SendReply (id : Z) (endpoint : str * Z) (bytes : list Z)
  | WaitTimer (id : Z) (host : str)
  | ForwardTo (id : Z) (bytes : list Z) (server : remote_dns_server)
  | Resolve (t : task) (tr : transport) (server : remote_dns_server) (areas : list (str * Z))
  | WaitSchedule.

Definition MAX_PRIORITY : Z := 100.

(** [cal_expire(record)] *)
Definition cal_expire (dns_cache_expire : Z) (r : dns_record) : Z :=
  let expire := if negb (match_area r) then 1 else dns_cache_expire in
  let expire := Z.max expire (1 * 10) in
  Z.min expire (10 * 60).

Section server.
Context {D : Type} `{AbstractKv D}.
Context (junk : Z -> list Z).
Context (ireplace : str -> str -> str -> str) (regex_match : str -> str -> outcome bool).
Context (encode : pb_records -> str) (decode : str -> pb_records).
Context (encode_rev : pb_reverse -> str) (decode_rev : str -> pb_reverse).
Context (sort : list dns_ip_record -> list dns_ip_record) (shuffle : list Z -> list Z).
Context (iter : gmap str (list area_ip_range) -> list (str * list area_ip_range)).
(** The proxy's answers to commands, and the files of the area lists. *)
Context (proxy : str -> bool * str).
Context (load_area : str -> manager -> outcome (bool * manager)).

Record dns_server := DnsServer {
  rid : Z;
  cache_expire : Z;                        (* [config.dns_cache_expire] *)
  remote : list remote_dns_server;         (* what [config.servers] points to *)
  received_count : Z;
  sessions : gmap Z session;               (* the sessions allocated *)
  sync_queue : queue (str * nat);
  next_task : Z;
  records : @record_manager D;
  server_mem : pool
}.

Definition with_sessions (st : dns_server) (m : gmap Z session) : dns_server :=
  DnsServer (rid st) (cache_expire st) (remote st) (received_count st) m (sync_queue st) (next_task st) (records st)
    (server_mem st).
Definition with_records (st : dns_server) (r : record_manager) : dns_server :=
  DnsServer (rid st) (cache_expire st) (remote st) (received_count st) (sessions st) (sync_queue st) (next_task st) r
    (server_mem st).
Definition with_pool (st : dns_server) (m : pool) : dns_server :=
  DnsServer (rid st) (cache_expire st) (remote st) (received_count st) (sessions st) (sync_queue st) (next_task st)
    (records st) m.
Definition with_queue (st : dns_server) (q : queue (str * nat)) (next : Z) : dns_server :=
  DnsServer (rid st) (cache_expire st) (remote st) (received_count st) (sessions st) q next (records st) (server_mem st).
Definition with_remote (st : dns_server) (l : list remote_dns_server) : dns_server :=
  DnsServer (rid st) (cache_expire st) l (received_count st) (sessions st) (sync_queue st) (next_task st) (records st)
    (server_mem st).

(** The pointers of [config.servers]. *)
Definition pointers (st : dns_server) : list nat := seq 0 (length (remote st)).
Definition deref (st : dns_server) (p : nat) : remote_dns_server := nth p (remote st) (new_server [] 0 []).

Definition find_session (id : Z) (st : dns_server) : outcome session :=
  match sessions st !! id with Some s => Ret s | None => Undef UseAfterFree end.

(** ** [receive()]: a new session waits for a packet *)
Definition receive (st : dns_server) : outcome (list action * dns_server) :=
  let id := rid st in
  '(b, mem) ← alloc junk 1024 (server_mem st);
  Ret ([ReceiveInto id],
       DnsServer (u64 (id + 1)) (cache_expire st) (remote st) (received_count st)
         (<[id := new_session id (data b)]> (sessions st)) (sync_queue st) (next_task st) (records st) mem).

(** ** [end_session] *)
Fixpoint areas_of (ips : list Z) (am : manager) : manager :=
  match ips with
  | [] => am
  | ip :: rest => areas_of rest (get_area iter ip true am).2
  end.

(** The log asks for the areas of the answer, the query type and the addresses;
    then the session is deleted with its two blocks. *)
Definition end_session (s : session) (st : dns_server) : outcome dns_server :=
  let am := area_manager (records st) in
  let am := match response s with
            | Some (_, r) => areas_of (Response.ips r) (get_area iter (fist_ip r) true am).2
            | None => am
            end in
  _ ← get_query_type (request s);
  _ ← (if bool_decide (rec_ips (ss_record s) = []) then Ret [] else ips_to_str (rec_ips (ss_record s)));
  mem ← pfree 1024 (server_mem st);
  mem ← (match response s with Some _ => pfree 1024 mem | None => Ret mem end);
  Ret (with_pool (with_sessions (with_records st (RecordManager (db (records st)) (Records.reverse (records st)) am))
         (delete (ss_id s) (sessions st))) mem).

(** ** Answering *)
Definition build_reply (s : session) (st : dns_server) : outcome (session * dns_server) :=
  '(m, r, mem) ← udp_response_of junk (server_mem st) (request_data s) (request s) (rec_ips (ss_record s))
                   (cal_expire (cache_expire st) (ss_record s));
  Ret (with_reply s (Some (m, r)), with_pool st mem).

(** The [complete] of [process_session]. *)
Definition complete_session (s : session) (st : dns_server) : outcome (list action * dns_server) :=
  '(s, st) ← (match response s with Some _ => Ret (s, st) | None => build_reply s st end);
  match response s with
  | None => Undef NullDeref
  | Some (m, r) =>
      Ret ([SendReply (ss_id s) (client_endpoint s) (take (Z.to_nat (rsp_len r)) m)],
           with_sessions st (<[ss_id s := s]> (sessions st)))
  end.

(** The [complete] of [query_dns_record], which always builds the response. *)
Definition complete_query (s : session) (st : dns_server) : outcome (list action * dns_server) :=
  '(s, st) ← build_reply s st; complete_session s st.

Definition query_record_from_cache (now : Z) (host : str) (st : dns_server) : outcome (dns_record * dns_server) :=
  '(record, rm) ← resolve ireplace regex_match decode sort shuffle iter (remote st) now host (records st);
  let st := with_records st rm in
  if bool_decide (rec_ips record = []) then
    fiDomain ← getFIDomain host;
    if bool_decide (fiDomain = lit "LAN") || bool_decide (fiDomain = lit "lan") then
      name ← removeFIDomain host;
      '(record, rm) ← resolve ireplace regex_match decode sort shuffle iter (remote st) now name (records st);
      Ret (DnsRecord (rec_ips record) (expire_time record) (server record) host (rec_servers record) (expire record)
             (match_area record) (trusted_ip_count record) (total_ip_count record), with_records st rm)
    else Ret (record, st)
  else Ret (record, st).

(** ** Refreshing from the remote servers *)
Definition submit_task (now : Z) (domain : str) (p : nat) (priority : Z) (st : dns_server) : dns_server :=
  let pk := domain ++ lit "/" ++ server_id ireplace (deref st p) in
  let '(t, next) := new_task (domain, p) priority pk now (next_task st) in
  with_queue st (submit t (sync_queue st)).2 next.

Fixpoint sync_loop (now : Z) (domain : str) (servers : list nat) (priority : Z) (st : dns_server) : dns_server :=
  match servers with
  | [] => st
  | p :: rest => sync_loop now domain rest (u32 (priority - 1)) (submit_task now domain p priority st)
  end.

(** [sync_dns_record_from_remote(domain)] *)
Definition sync_dns_record_from_remote (now : Z) (domain : str) (st : dns_server) : outcome dns_server :=
  servers ← select_servers regex_match (deref st) domain (pointers st);
  if bool_decide (servers = []) then Ret st else Ret (sync_loop now domain servers MAX_PRIORITY st).

Fixpoint sync_loss_loop (now : Z) (host : str) (record : dns_record) (servers : list nat) (priority : Z)
    (st : dns_server) : dns_server :=
  match servers with
  | [] => st
  | p :: rest =>
      if bool_decide (server_id ireplace (deref st p) ∈ rec_servers record)
      then sync_loss_loop now host record rest priority st
      else sync_loss_loop now host record rest (u32 (priority - 1)) (submit_task now host p priority st)
  end.

Definition sync_loss_dns_record_from_remote (now : Z) (host : str) (record : dns_record) (st : dns_server)
    : outcome dns_server :=
  servers ← select_servers regex_match (deref st) host (pointers st);
  Ret (sync_loss_loop now host record servers MAX_PRIORITY st).

(** ** [query_dns_record] *)
Definition local_record (host : str) (r : dns_record) : dns_record :=
  DnsRecord (rec_ips r) (2 ^ 64 - 1) (lit "st-dns") host (rec_servers r) (expire r) (match_area r)
    (trusted_ip_count r) (total_ip_count r).

Definition query_dns_record (now : Z) (s : session) (st : dns_server) : outcome (list action * dns_server) :=
  let host := get_host (request s) in
  if bool_decide (host = lit "localhost") then
    complete_query (with_record s (local_record host (ss_record s))) st
  else
    '(record, st) ← query_record_from_cache now host st;
    if bool_decide (rec_ips record = []) then
      st ← sync_dns_record_from_remote now host st;
      Ret ([WaitTimer (ss_id s) host], with_sessions st (<[ss_id s := s]> (sessions st)))
    else
      '(acts, st) ← complete_query (with_record s record) st;
      st ← (if expire record || negb (match_area record) then sync_dns_record_from_remote now host st
            else sync_loss_dns_record_from_remote now host record st);
      Ret (acts, st).

(** ** [forward_dns_request] *)
Definition first_udp (servers : list remote_dns_server) : option remote_dns_server :=
  List.find (fun s => bool_decide (srv_type s = lit "UDP")) servers.

Definition forward_dns_request (s : session) (st : dns_server) : outcome (list action * dns_server) :=
  match first_udp (remote st) with
  | Some server =>
      Ret ([ForwardTo (ss_id s) (take (Z.to_nat (req_len (request s))) (request_data s)) server],
           with_sessions st (<[ss_id s := s]> (sessions st)))
  | None => complete_session s st
  end.

(** ** [process_session] *)
Definition process_session (now : Z) (s : session) (st : dns_server) : outcome (list action * dns_server) :=
  let r := ss_record s in
  let s := with_record s (DnsRecord (rec_ips r) (expire_time r) (server r) (get_host (request s)) (rec_servers r)
             (expire r) (match_area r) (trusted_ip_count r) (total_ip_count r)) in
  _ ← get_query_type_value (request s);
  type ← get_query_type (request s);
  if type =? TYPE_A then query_dns_record now s st
  else if type =? TYPE_AAAA then complete_session (with_process_type s DROP) st
  else forward_dns_request (with_process_type s FORWARD) st.

(** ** The callbacks *)

(** The packet of a session has come: [ec] tells an error, [bytes] the packet. *)
Definition on_received (now id : Z) (ec : bool) (bytes : list Z) (endpoint : str * Z) (st : dns_server)
    : outcome (list action * dns_server) :=
  '(acts, st) ← receive st;
  s ← find_session id st;
  let st := DnsServer (rid st) (cache_expire st) (remote st) (received_count st + 1) (sessions st) (sync_queue st)
              (next_task st) (records st) (server_mem st) in
  let s := Session id now endpoint (request s) (received (request_data s) bytes) (ss_record s) (ss_process_type s)
             (response s) in
  let finish s := st ← end_session s st; Ret (acts, st) in
  if negb ec && (0 <? zlen bytes) then
    r ← request_parse (request_data s) 0 (request s) (zlen bytes);
    let s := Session id now endpoint r (request_data s) (ss_record s) (ss_process_type s) (response s) in
    if req_valid r then '(acts', st) ← process_session now s st; Ret (acts ++ acts', st) else finish s
  else finish s.

(** The 100 ms of a query without cached addresses are over. *)
Definition on_timer (now id : Z) (host : str) (st : dns_server) : outcome (list action * dns_server) :=
  '(record, st) ← query_record_from_cache now host st;
  s ← find_session id st;
  complete_query (with_record s record) st.

(** [forward_udp] called back. *)
Definition on_forwarded (id : Z) (reply : option (list Z * Z)) (st : dns_server) : outcome (list action * dns_server) :=
  s ← find_session id st;
  complete_session (with_reply s ((fun '(m, len) => (m, UdpResponse true len None None [] [])) <$> reply)) st.

(** The response was sent, or could not be. *)
Definition on_sent (id : Z) (st : dns_server) : outcome (list action * dns_server) :=
  s ← find_session id st; st ← end_session s st; Ret ([], st).

(** The queue's executor: [sync_dns_record_from_remote(host, complete, server)]. *)
Definition on_task (t : task) (st : dns_server) : list action :=
  let server := deref st (in_ t).2 in
  if bool_decide (srv_type server = lit "TCP_SSL") then [Resolve t TLS server (resolve_optimize_areas server)]
  else if bool_decide (srv_type server = lit "TCP") then [Resolve t TCP server (resolve_optimize_areas server)]
  else if bool_decide (srv_type server = lit "UDP") then [Resolve t UDP server []]
  else [].

(** The client called back: the answer is added, the task completed. *)
Definition on_resolved (now : Z) (t : task) (ips : list Z) (load_all : bool) (st : dns_server) : outcome dns_server :=
  let host := (in_ t).1 in
  let server := deref st (in_ t).2 in
  let rm :=
    if bool_decide (ips = []) then records st
    else add encode decode encode_rev decode_rev now host ips (server_id ireplace server)
           (if load_all then srv_cache_expire server else Z.quot (srv_cache_expire server) 2) (records st) in
  '(_, rm) ← resolve ireplace regex_match decode sort shuffle iter (remote st) now host rm;
  Ret (with_queue (with_records st rm) (TaskQueue.complete t (sync_queue st)) (next_task st)).

(** ** [schedule()]: the proxies through which each server can be asked *)
Fixpoint optimize_areas (s : remote_dns_server) (areas : list str) (am : manager)
    : outcome (list (str * Z) * manager) :=
  match areas with
  | [] => Ret ([], am)
  | area :: rest =>
      matches ← is_match_areas (Config.areas s) area;
      result ← (if (matches : bool) then
                  a_port ← register_area_port (proxy (register_area_port_command (srv_ip s) (u16 (srv_port s)) area));
                  Ret (if 0 <? a_port then [(area, a_port)] else [])
                else Ret []);
      '(_, am) ← load_area area am;
      '(l, am) ← optimize_areas s rest am;
      Ret (result ++ l, am)
  end.

Fixpoint schedule_servers (servers : list remote_dns_server) (am : manager) : outcome (list remote_dns_server * manager) :=
  match servers with
  | [] => Ret ([], am)
  | s :: rest =>
      '(s, am) ←
        (if bool_decide (lit "LAN" ∈ Config.areas s) then Ret (s, am)
         else
           areas ← get_ip_available_proxy_areas (proxy (get_ip_available_proxy_areas_command (srv_ip s)));
           '(result, am) ← optimize_areas s areas am;
           Ret (RemoteDnsServer (srv_ip s) (srv_port s) (srv_type s) (whitelist s) (blacklist s) (Config.areas s)
                  (timeout s) (srv_cache_expire s) result, am));
      '(l, am) ← schedule_servers rest am;
      Ret (s :: l, am)
  end.

Definition schedule (st : dns_server) : outcome (list action * dns_server) :=
  '(l, am) ← schedule_servers (remote st) (area_manager (records st));
  Ret ([WaitSchedule],
       with_records (with_remote st l) (RecordManager (db (records st)) (Records.reverse (records st)) am)).

(** ** [start()]: the first packet is awaited, the proxies are asked *)
Definition start (st : dns_server) : outcome (list action * dns_server) :=
  '(a1, st) ← receive st; '(a2, st) ← schedule st; Ret (a1 ++ a2, st).

(** ** Runs: an operation under way ends and its callback runs, or the queue
    hands a task to the executor *)
Record system := System { core : dns_server; under_way : list action }.

Inductive callback (now : Z) : action -> dns_server -> list action -> dns_server -> Prop :=
  | cb_received id ec bytes endpoint st acts st' :
      rid st + 1 < 2 ^ 64 -> on_received now id ec bytes endpoint st = Ret (acts, st') ->
      callback now (ReceiveInto id) st acts st'
  | cb_sent id endpoint bytes st acts st' :
      on_sent id st = Ret (acts, st') -> callback now (SendReply id endpoint bytes) st acts st'
  | cb_timer id host st acts st' :
      on_timer now id host st = Ret (acts, st') -> callback now (WaitTimer id host) st acts st'
  | cb_forwarded id bytes server reply st acts st' :
      on_forwarded id reply st = Ret (acts, st') -> callback now (ForwardTo id bytes server) st acts st'
  | cb_resolved t tr server areas ips load_all st st' :
      on_resolved now t ips load_all st = Ret st' -> callback now (Resolve t tr server areas) st [] st'
  | cb_schedule st acts st' :
      schedule st = Ret (acts, st') -> callback now WaitSchedule st acts st'.

Inductive system_step : system -> system -> Prop :=
  | step_callback now a l1 l2 st acts st' :
      callback now a st acts st' -> system_step (System st (l1 ++ a :: l2)) (System st' (l1 ++ l2 ++ acts))
  | step_key st l max_qps :
      system_step (System st l) (System (with_queue st (generate_key max_qps (sync_queue st)) (next_task st)) l)
  | step_task st l max_running top t q :
      is_top top (p_queue (sync_queue st)) = true -> dispatch max_running top (sync_queue st) = Ret (Some t, q) ->
      system_step (System st l) (System (with_queue st q (next_task st)) (l ++ on_task t st)).

(** The session an operation belongs to. *)
Definition action_session (a : action) : option Z :=
  match a with
  | ReceiveInto id | SendReply id _ _ | WaitTimer id _ | ForwardTo id _ _ => Some id
  | _ => None
  end.
Definition is_receive (a : action) : bool := if a is ReceiveInto _ then true else false.

(** ** Lemmas: the life of a session *)
Definition keeps_sessions (st st' : dns_server) : Prop := sessions st' = sessions st /\ rid st' = rid st.

#[local] Instance keeps_sessions_preorder : PreOrder keeps_sessions.
Proof. split; [done|]. intros s1 s2 s3 [A1 A2] [B1 B2]. split; congruence. Qed.

(** A handler that leaves its session with one operation under way. *)
Definition one_action (id : Z) (st : dns_server) (acts : list action) (st' : dns_server) : Prop :=
  exists a s', acts = [a] /\ action_session a = Some id /\ is_receive a = false /\
    sessions st' = <[id := s']> (sessions st) /\ ss_id s' = id /\ rid st' = rid st.

Lemma build_reply_keeps s st s' st' : build_reply s st = Ret (s', st') -> ss_id s' = ss_id s /\ keeps_sessions st st'.
Proof. intros E. apply bind_ret in E as ([[m r] mem] & _ & [= <- <-]). done. Qed.

Lemma complete_session_one s st acts st' : complete_session s st = Ret (acts, st') -> one_action (ss_id s) st acts st'.
Proof.
  intros E. apply bind_ret in E as ([s1 st1] & E1 & E).
  assert (ss_id s1 = ss_id s /\ keeps_sessions st st1) as [Hid [Hs Hr]].
  { destruct (response s); [injection E1 as <- <-; done|by apply build_reply_keeps]. }
  destruct (response s1) as [[m r]|]; [|done]. injection E as <- <-. eexists _, s1. split_and!; [done|by cbn; f_equal|done| |exact Hid|done].
  cbn. by rewrite Hid, Hs.
Qed.

Lemma one_action_keeps id st st1 acts st' : keeps_sessions st st1 -> one_action id st1 acts st' -> one_action id st acts st'.
Proof. intros [Hs Hr] (a & s & H1 & H2 & H3 & H4 & H5 & H6). exists a, s. by rewrite Hs, Hr in *. Qed.

Lemma one_action_then id st acts st1 st' : one_action id st acts st1 -> keeps_sessions st1 st' -> one_action id st acts st'.
Proof. intros (a & s & H1 & H2 & H3 & H4 & H5 & H6) [Hs Hr]. exists a, s. by rewrite Hs, Hr. Qed.

Lemma complete_query_one s st acts st' : complete_query s st = Ret (acts, st') -> one_action (ss_id s) st acts st'.
Proof.
  intros E. apply bind_ret in E as ([s1 st1] & E1 & E). apply build_reply_keeps in E1 as [<- Hk].
  eapply one_action_keeps; [exact Hk|]. by apply complete_session_one.
Qed.

Lemma cache_keeps now host st r st' : query_record_from_cache now host st = Ret (r, st') -> keeps_sessions st st'.
Proof.
  intros E. apply bind_ret in E as ([r1 rm1] & _ & E). case_bool_decide; [|by injection E as _ <-].
  apply bind_ret in E as (fi & _ & E). destruct (_ || _); [|by injection E as _ <-].
  apply bind_ret in E as (name & _ & E). apply bind_ret in E as ([r2 rm2] & _ & [= _ <-]). done.
Qed.

Lemma sync_loop_keeps now host servers : forall p st, keeps_sessions st (sync_loop now host servers p st).
Proof. induction servers as [|s servers IH]; intros p st; [done|]. cbn [sync_loop]. by etransitivity; [|apply IH]. Qed.

Lemma sync_keeps now host st st' : sync_dns_record_from_remote now host st = Ret st' -> keeps_sessions st st'.
Proof.
  intros E. apply bind_ret in E as (servers & _ & E). case_bool_decide; injection E as <-; [done|apply sync_loop_keeps].
Qed.

Lemma sync_loss_loop_keeps now host r servers : forall p st, keeps_sessions st (sync_loss_loop now host r servers p st).
Proof.
  induction servers as [|s servers IH]; intros p st; [done|]. cbn [sync_loss_loop]. case_bool_decide; [apply IH|].
  by etransitivity; [|apply IH].
Qed.

Lemma sync_loss_keeps now host r st st' : sync_loss_dns_record_from_remote now host r st = Ret st' -> keeps_sessions st st'.
Proof. intros E. apply bind_ret in E as (servers & _ & [= <-]). apply sync_loss_loop_keeps. Qed.

Lemma query_one now s st acts st' : query_dns_record now s st = Ret (acts, st') -> one_action (ss_id s) st acts st'.
Proof.
  intros E. unfold query_dns_record in E. case_bool_decide; [by apply complete_query_one in E|].
  apply bind_ret in E as ([r st1] & E1 & E). apply cache_keeps in E1. eapply one_action_keeps; [exact E1|].
  case_bool_decide.
  - apply bind_ret in E as (st2 & E2 & [= <- <-]). apply sync_keeps in E2. eapply one_action_keeps; [exact E2|].
    by eexists _, s.
  - apply bind_ret in E as ([acts2 st2] & E2 & E). apply bind_ret in E as (st3 & E3 & [= <- <-]).
    apply complete_query_one in E2. eapply one_action_then; [exact E2|].
    destruct (_ || _); [by apply sync_keeps in E3|by apply sync_loss_keeps in E3].
Qed.

Lemma process_one now s st acts st' : process_session now s st = Ret (acts, st') -> one_action (ss_id s) st acts st'.
Proof.
  intros E. apply bind_ret in E as (v & _ & E). apply bind_ret in E as (type & _ & E).
  destruct (type =? TYPE_A); [by apply query_one in E|]. destruct (type =? TYPE_AAAA); [by apply complete_session_one in E|].
  unfold forward_dns_request in E. destruct (first_udp _); [|by apply complete_session_one in E].
  injection E as <- <-. by eexists _, _.
Qed.

Lemma end_session_deletes s st st' : end_session s st = Ret st' ->
  sessions st' = delete (ss_id s) (sessions st) /\ rid st' = rid st.
Proof.
  intros E. apply bind_ret in E as (ty & _ & E). apply bind_ret in E as (text & _ & E).
  apply bind_ret in E as (mem & _ & E). apply bind_ret in E as (mem' & _ & [= <-]). done.
Qed.

Definition ids_of (acts : list action) : list Z := omap action_session acts.

(** Each session has one operation under way, and one of them awaits a packet. *)
Record system_inv (s : system) : Prop := {
  inv_nodup : NoDup (ids_of (under_way s));
  inv_live : forall id, id ∈ ids_of (under_way s) <-> is_Some (sessions (core s) !! id);
  inv_id : forall id x, sessions (core s) !! id = Some x -> ss_id x = id /\ id < rid (core s);
  inv_listening : length (List.filter is_receive (under_way s)) = 1%nat;
  inv_rid : 0 <= rid (core s) < 2 ^ 64
}.

Lemma receive_eq st : exists block mem, receive st =
  Ret ([ReceiveInto (rid st)], DnsServer (u64 (rid st + 1)) (cache_expire st) (remote st) (received_count st)
    (<[rid st := new_session (rid st) block]> (sessions st)) (sync_queue st) (next_task st) (records st) mem).
Proof.
  unfold receive. destruct (alloc_block junk 1024 (server_mem st)) as (b & mem & -> & _); [lia|]. by eexists _, _.
Qed.

Lemma ids_of_app a b : ids_of (a ++ b) = ids_of a ++ ids_of b.
Proof. apply omap_app. Qed.

(** An operation of the session [id] ends, and its handler leaves at most one
    other of that session. *)
Lemma inv_replace id a l1 l2 st acts st' :
  system_inv (System st (l1 ++ a :: l2)) -> action_session a = Some id -> is_receive a = false ->
  one_action id st acts st' \/ (acts = [] /\ sessions st' = delete id (sessions st) /\ rid st' = rid st) ->
  system_inv (System st' (l1 ++ l2 ++ acts)).
Proof.
  intros [In Il Ii Ir Ib] Ha Hnr Hk. cbn [core under_way] in *.
  rewrite ids_of_app in In, Il. cbn [ids_of omap list_omap] in In, Il. rewrite Ha in In, Il.
  rewrite List.filter_app in Ir. cbn [List.filter] in Ir. rewrite Hnr in Ir.
  apply NoDup_app in In as (N1 & Nd & [N0 N2]%NoDup_cons).
  assert (id ∉ ids_of l1) as N3 by (intros Hin; apply (Nd id Hin); left).
  assert (forall j, (j ∈ ids_of l1 \/ j ∈ ids_of l2) <-> j <> id /\ is_Some (sessions st !! j)) as Hl.
  { intros j. rewrite <- Il, elem_of_app, elem_of_cons. split; [|naive_solver]. intros Hj. split; [|tauto]. intros ->. tauto. }
  destruct Hk as [(a' & s' & -> & Ha' & Hr' & Hs & Hid & Hrid)|(-> & Hs & Hrid)]; split; cbn [core under_way].
  - rewrite !ids_of_app. cbn [ids_of omap list_omap]. rewrite Ha'. apply NoDup_app. split; [done|]. split.
    + intros j Hj [Hj2|Hj2]%elem_of_app; [apply (Nd j Hj); by right|]. apply list_elem_of_singleton in Hj2. by subst j.
    + apply NoDup_app. split; [done|]. split; [|apply NoDup_singleton]. by intros j Hj ->%list_elem_of_singleton.
  - intros j. rewrite !ids_of_app, !elem_of_app. cbn [ids_of omap list_omap]. rewrite Ha', list_elem_of_singleton, Hs.
    rewrite lookup_insert_is_Some. specialize (Hl j). destruct (decide (id = j)) as [->|]; naive_solver.
  - intros j x. rewrite Hs, Hrid, lookup_insert_Some. intros [[<- <-]|[_ Hx]]; [|by apply Ii]. split; [done|].
    destruct (proj1 (Il id)) as [y Hy]; [apply elem_of_app; right; left|]. by apply Ii in Hy as [_ Hy].
  - rewrite !List.filter_app. cbn [List.filter]. by rewrite Hr', app_nil_r.
  - by rewrite Hrid.
  - rewrite app_nil_r, ids_of_app. apply NoDup_app. split; [done|]. split; [|done]. intros j Hj Hj2. apply (Nd j Hj). by right.
  - intros j. rewrite app_nil_r, ids_of_app, elem_of_app, Hs, Hl, lookup_delete_is_Some. naive_solver.
  - intros j x. rewrite Hs, Hrid, lookup_delete_Some. intros [_ Hx]. by apply Ii.
  - by rewrite app_nil_r, List.filter_app.
  - by rewrite Hrid.
Qed.

(** [receive] in a callback: the new session listens, the old one is held by
    the callback, which stands for any operation of it. *)
Lemma inv_receive id l1 l2 st acts st' endpoint bytes :
  system_inv (System st (l1 ++ ReceiveInto id :: l2)) -> rid st + 1 < 2 ^ 64 -> receive st = Ret (acts, st') ->
  acts = [ReceiveInto (rid st)] /\ system_inv (System st' (l1 ++ SendReply id endpoint bytes :: l2 ++ acts)) /\
  forall x, sessions st !! id = Some x -> sessions st' !! id = Some x.
Proof.
  intros [In Il Ii Ir Ib] Hb E. destruct (receive_eq st) as (block & mem & Er). rewrite Er in E. injection E as <- <-.
  cbn [core under_way] in *. rewrite ids_of_app in In, Il. cbn [ids_of omap list_omap action_session] in In, Il.
  rewrite List.filter_app in Ir. cbn [List.filter is_receive] in Ir. rewrite length_app in Ir. cbn [length] in Ir.
  assert (sessions st !! rid st = None) as Hnew.
  { destruct (sessions st !! rid st) as [x|] eqn:Ex; [|done]. apply Ii in Ex. lia. }
  assert (rid st ∉ ids_of l1 ++ id :: ids_of l2) as Hnin.
  { intros Hin. apply Il in Hin as [x Hx]. congruence. }
  split; [done|]. split.
  - split; cbn [core under_way sessions rid].
    + rewrite ids_of_app. cbn [ids_of omap list_omap action_session]. fold (ids_of (l2 ++ [ReceiveInto (rid st)])).
      rewrite ids_of_app. cbn [ids_of omap list_omap action_session].
      change (id :: ids_of l2 ++ [rid st]) with ((id :: ids_of l2) ++ [rid st]). rewrite app_assoc. apply NoDup_app.
      split; [done|]. split; [|apply NoDup_singleton]. by intros j Hj ->%list_elem_of_singleton.
    + intros j. rewrite ids_of_app. cbn [ids_of omap list_omap action_session]. fold (ids_of (l2 ++ [ReceiveInto (rid st)])).
      rewrite ids_of_app. cbn [ids_of omap list_omap action_session]. rewrite lookup_insert_is_Some.
      specialize (Il j). rewrite !elem_of_app, elem_of_cons, elem_of_app, list_elem_of_singleton in *.
      destruct (decide (rid st = j)) as [<-|]; naive_solver.
    + intros j x. rewrite lookup_insert_Some, u64_id by lia. intros [[<- <-]|[_ Hx]]; [cbn; split; [done|lia]|].
      apply Ii in Hx. lia.
    + rewrite !List.filter_app, length_app. cbn [List.filter is_receive]. rewrite List.filter_app, length_app. cbn. lia.
    + rewrite u64_id; lia.
  - intros x Hx. cbn [sessions]. rewrite lookup_insert_ne; [done|]. intros E. by rewrite <- E, Hnew in Hx.
Qed.

Lemma on_received_inv now id ec bytes endpoint l1 l2 st acts st' :
  system_inv (System st (l1 ++ ReceiveInto id :: l2)) -> rid st + 1 < 2 ^ 64 ->
  on_received now id ec bytes endpoint st = Ret (acts, st') -> system_inv (System st' (l1 ++ l2 ++ acts)).
Proof.
  intros Hi Hb E. apply bind_ret in E as ([a st1] & E1 & E).
  destruct (inv_receive id l1 l2 st a st1 endpoint bytes Hi Hb E1) as (Ha & H1 & _).
  apply bind_ret in E as (s & Es & E). unfold find_session in Es. destruct (sessions st1 !! id) as [x|] eqn:Ex; [|done].
  injection Es as ->. set (st2 := DnsServer (rid st1) _ _ _ _ _ _ _ _) in E. cbv zeta in E.
  assert (forall acts' st3, one_action id st2 acts' st3 \/ (acts' = [] /\ sessions st3 = delete id (sessions st2) /\ rid st3 = rid st2) ->
    system_inv (System st3 (l1 ++ l2 ++ a ++ acts'))) as Hdone.
  { intros acts' st3 Hk. replace (l1 ++ l2 ++ a ++ acts') with (l1 ++ (l2 ++ a) ++ acts') by (by rewrite <- !app_assoc).
    eapply (inv_replace id (SendReply id endpoint bytes)); [|done|done|exact Hk]. destruct H1 as [A1 A2 A3 A4 A5]. by split. }
  assert (forall s' st3, ss_id s' = id -> (st ← end_session s' st2; Ret (a, st)) = Ret (acts, st3) ->
    system_inv (System st3 (l1 ++ l2 ++ acts))) as Hend.
  { intros s' st3 Hid E'. apply bind_ret in E' as (st4 & E4 & E'). injection E' as <- <-. apply end_session_deletes in E4 as [Hs Hr].
    rewrite <- (app_nil_r a). apply Hdone. right. by rewrite Hid in Hs. }
  destruct (negb ec && (0 <? zlen bytes)); [|by eapply Hend; [|exact E]].
  apply bind_ret in E as (r & Er & E). destruct (req_valid r); [|by eapply Hend; [|exact E]].
  apply bind_ret in E as ([acts' st3] & E3 & E). injection E as <- <-. apply process_one in E3. apply Hdone. by left.
Qed.

Lemma find_session_ret id st s : find_session id st = Ret s -> sessions st !! id = Some s.
Proof. unfold find_session. by destruct (sessions st !! id); [intros [= ->]|]. Qed.

Lemma schedule_keeps st acts st' : schedule st = Ret (acts, st') -> acts = [WaitSchedule] /\ keeps_sessions st st'.
Proof. intros E. apply bind_ret in E as ([l am] & _ & [= <- <-]). done. Qed.

(** Operations that belong to no session come and go. *)
Lemma inv_other l1 l2 l st st' : system_inv (System st (l1 ++ l2)) -> keeps_sessions st st' ->
  ids_of l = [] -> List.filter is_receive l = [] -> system_inv (System st' (l1 ++ l2 ++ l)).
Proof.
  intros [In Il Ii Ir Ib] [Hs Hr] Hl Hf. cbn [core under_way] in *. rewrite app_assoc. split; cbn [core under_way];
    rewrite ?ids_of_app, ?List.filter_app, ?Hl, ?Hf, ?app_nil_r, ?Hs, ?Hr in *; done.
Qed.

Lemma inv_drop a l1 l2 st : system_inv (System st (l1 ++ a :: l2)) -> action_session a = None -> system_inv (System st (l1 ++ l2)).
Proof.
  intros [In Il Ii Ir Ib] Ha. cbn [core under_way] in *.
  assert (is_receive a = false) as Hr by (by destruct a).
  rewrite ids_of_app in In, Il. cbn [ids_of omap list_omap] in In, Il. rewrite Ha in In, Il.
  rewrite List.filter_app in Ir. cbn [List.filter] in Ir. rewrite Hr in Ir.
  split; cbn [core under_way]; rewrite ?ids_of_app, ?List.filter_app; done.
Qed.

Lemma callback_inv now a l1 l2 st acts st' : system_inv (System st (l1 ++ a :: l2)) -> callback now a st acts st' ->
  system_inv (System st' (l1 ++ l2 ++ acts)).
Proof.
  intros Hi Hc.
  destruct Hc as [id ec bytes ep st acts st' Hb E|id ep bytes st acts st' E|id host st acts st' E|id bytes srv reply st acts st' E|t tr srv areas ips all st st' E|st acts st' E].
  - by eapply on_received_inv.
  - apply bind_ret in E as (s & Hs%find_session_ret & E). apply bind_ret in E as (st1 & E1 & [= <- <-]).
    pose proof (inv_id _ Hi _ _ Hs) as [Hid _]. apply end_session_deletes in E1. rewrite Hid in E1.
    eapply (inv_replace id); [exact Hi|done|done|]. right. by split.
  - apply bind_ret in E as ([r st1] & E1 & E). apply cache_keeps in E1. apply bind_ret in E as (s & Hs%find_session_ret & E).
    rewrite (proj1 E1) in Hs. pose proof (inv_id _ Hi _ _ Hs) as [Hid _]. apply complete_query_one in E. cbn [ss_id with_record] in E. rewrite Hid in E.
    eapply (inv_replace id); [exact Hi|done|done|]. left. by eapply one_action_keeps.
  - apply bind_ret in E as (s & Hs%find_session_ret & E). pose proof (inv_id _ Hi _ _ Hs) as [Hid _].
    apply complete_session_one in E. cbn [ss_id with_reply] in E. rewrite Hid in E.
    eapply (inv_replace id); [exact Hi|done|done|]. by left.
  - apply bind_ret in E as ([r rm] & _ & [= <-]). apply inv_drop in Hi; [|done]. by eapply inv_other.
  - apply schedule_keeps in E as [-> Hk]. apply inv_drop in Hi; [|done]. by eapply inv_other.
Qed.

Lemma on_task_other t st : ids_of (on_task t st) = [] /\ List.filter is_receive (on_task t st) = [].
Proof. unfold on_task. by repeat case_bool_decide. Qed.

Lemma system_step_inv s s' : system_inv s -> system_step s s' -> system_inv s'.
Proof.
  intros Hi Hs. destruct Hs as [now a l1 l2 st acts st' Hc|st l q|st l mr top t q Ht Hd].
  - by eapply callback_inv.
  - destruct Hi as [A1 A2 A3 A4 A5]. by split.
  - destruct (on_task_other t st) as [H1 H2]. apply (inv_other [] l _ st); done.
Qed.

Lemma start_system_inv st acts st' : sessions st = ∅ -> 0 <= rid st -> rid st + 1 < 2 ^ 64 ->
  start st = Ret (acts, st') -> system_inv (System st' acts).
Proof.
  intros Hs H0 Hb E. apply bind_ret in E as ([a1 st1] & E1 & E). apply bind_ret in E as ([a2 st2] & E2 & [= <- <-]).
  destruct (receive_eq st) as (block & mem & Er). rewrite Er in E1. injection E1 as <- <-.
  apply schedule_keeps in E2 as [-> Hk]. eapply (inv_other [] [ReceiveInto (rid st)] [WaitSchedule]); [|exact Hk|done|done]. cbn [app].
  split; cbn [core under_way sessions rid ids_of omap list_omap action_session].
  - apply NoDup_singleton.
  - intros id. rewrite list_elem_of_singleton, Hs, lookup_insert_is_Some, lookup_empty. unfold is_Some. naive_solver.
  - intros id x. rewrite Hs, lookup_insert_Some, lookup_empty. intros [[<- <-]|[_ Hx]]; [|done]. cbn. rewrite u64_id; lia.
  - done.
  - rewrite u64_id; lia.
Qed.

(** ** Lemmas: answering *)

(** What a handler of a session may change besides the sessions. *)
Definition same_service (st st' : dns_server) : Prop :=
  remote st' = remote st /\ records st' = records st /\ cache_expire st' = cache_expire st /\
  sync_queue st' = sync_queue st /\ next_task st' = next_task st.

Definition query_packet (qid flags an ar : Z) (q : question) (rest : list Z) : list Z :=
  (enc_header qid flags 1 an ar ++ enc_questions [q]) ++ rest.

Section query.
Context (qid flags an ar : Z) (q : question) (rest : list Z).
Context (Hid : 0 <= qid < 65536) (Hfl : 0 <= flags < 65536) (Han : 0 <= an < 65536) (Hq : valid_question q).
Let bytes := query_packet qid flags an ar q rest.
Context (Hlen : zlen bytes <= 1024).

Lemma query_at block : at_off (received block bytes) 0 (enc_header qid flags (zlen [q]) an ar ++ enc_questions [q]).
Proof.
  exists [], (rest ++ drop (length bytes) block). split; [|done]. unfold received, bytes, query_packet.
  by rewrite <- !app_assoc.
Qed.

Lemma query_sizes : 12 + zlen (enc_questions [q]) <= zlen bytes < 2 ^ 32 /\ zlen (enc_questions [q]) < 420.
Proof.
  unfold bytes, query_packet in *. rewrite !zlen_app, zlen_enc_header in *. pose proof (zlen_nonneg rest).
  rewrite enc_questions_cons, zlen_app, zlen_enc_question in *. change (zlen (enc_questions [])) with 0 in *.
  pose proof (enc_name_size _ (proj1 Hq)). lia.
Qed.

Lemma query_parsed block : exists r, request_parse (received block bytes) 0 (request_new 1024) (zlen bytes) = Ret r /\
  req_valid r = true /\ get_host r = name_text q.1 /\ get_query_type r = Ret q.2 /\ get_query_type_value r = Ret q.2.
Proof.
  destruct query_sizes as [Hs _].
  rewrite (request_parse_spec _ _ _ _ _ _ _ _ _ (query_at block)) by (done || by apply Forall_singleton).
  eexists. split; [reflexivity|]. done.
Qed.

Lemma reply_built block r s st : request_parse (received block bytes) 0 (request_new 1024) (zlen bytes) = Ret r ->
  request s = r -> request_data s = received block bytes -> Forall ip_ok (rec_ips (ss_record s)) ->
  0 <= cal_expire (cache_expire st) (ss_record s) < 2 ^ 32 ->
  exists bs st', complete_query s st = Ret ([SendReply (ss_id s) (client_endpoint s) bs], st') /\
    zlen bs < 512 /\ decodes_as bs qid [q] (take 5 (rec_ips (ss_record s))) (cal_expire (cache_expire st) (ss_record s)) /\
    same_service st st'.
Proof.
  intros Hp Hr Hd Hips He. destruct query_sizes as [Hs Hsz].
  destruct (reply_decodes junk (server_mem st) (received block bytes) 0 (zlen bytes) 1024 qid flags an ar
    (cal_expire (cache_expire st) (ss_record s)) [q] (rec_ips (ss_record s)) r) as (m & rr & mem & E & Hl & Hz & Hdec);
    [apply query_at|done|done|done|done|by apply Forall_singleton|done|done|done|done|done|done|].
  unfold complete_query, build_reply. rewrite Hr, Hd, E. ret_step. unfold complete_session. cbn [response with_reply]. ret_step.
  cbn [response with_reply]. eexists _, _. split; [reflexivity|]. split; [by rewrite Hz|]. split; [done|]. done.
Qed.
End query.

Lemma complete_session_query s st : response s = None -> complete_session s st = complete_query s st.
Proof.
  intros Hr. unfold complete_query. unfold complete_session at 1. rewrite Hr. unfold build_reply.
  destruct (udp_response_of _ _ _ _ _ _) as [[[m r] mem]|e|u|]; done.
Qed.

Lemma cache_transport now host st st1 r st' : query_record_from_cache now host st = Ret (r, st') ->
  remote st1 = remote st -> records st1 = records st ->
  query_record_from_cache now host st1 = Ret (r, with_records st1 (records st')).
Proof.
  intros E Hre Hrec. unfold query_record_from_cache in *. rewrite Hre, Hrec.
  apply bind_ret in E as ([r1 rm1] & E1 & E). rewrite E1. ret_step. case_bool_decide; [|by injection E as <- <-].
  apply bind_ret in E as (fi & E2 & E). rewrite E2. ret_step. destruct (_ || _); [|by injection E as <- <-].
  apply bind_ret in E as (name & E3 & E). rewrite E3. ret_step. cbn [remote records with_records] in *. rewrite Hre.
  apply bind_ret in E as ([r2 rm2] & E4 & [= <- <-]). by rewrite E4.
Qed.

Lemma sync_ret now host st st1 sel : select_servers regex_match (deref st) host (pointers st) = Ret sel ->
  remote st1 = remote st -> exists st2, sync_dns_record_from_remote now host st1 = Ret st2.
Proof.
  intros E Hr. unfold sync_dns_record_from_remote, deref, pointers in *. rewrite Hr, E. ret_step. case_bool_decide; eauto.
Qed.

Lemma sync_loss_ret now host record st st1 sel : select_servers regex_match (deref st) host (pointers st) = Ret sel ->
  remote st1 = remote st -> exists st2, sync_loss_dns_record_from_remote now host record st1 = Ret st2.
Proof.
  intros E Hr. unfold sync_loss_dns_record_from_remote, deref, pointers in *. rewrite Hr, E. ret_step. eauto.
Qed.

Lemma on_received_parsed now id bytes endpoint st block r : id <> rid st ->
  sessions st !! id = Some (new_session id block) -> 0 < zlen bytes ->
  request_parse (received block bytes) 0 (request_new 1024) (zlen bytes) = Ret r ->
  exists st1, same_service st st1 /\
    on_received now id false bytes endpoint st =
    let s := Session id now endpoint r (received block bytes) (empty_record []) QUERY None in
    if req_valid r then '(acts', st3) ← process_session now s st1; Ret (ReceiveInto (rid st) :: acts', st3)
    else st3 ← end_session s st1; Ret ([ReceiveInto (rid st)], st3).
Proof.
  intros Hne Hs Hb Hp. destruct (receive_eq st) as (b & mem & Er). unfold on_received. rewrite Er. ret_step.
  unfold find_session. cbn [sessions]. rewrite lookup_insert_ne by done. rewrite Hs. ret_step. cbn [negb andb].
  replace (0 <? zlen bytes) with true by lia. cbn [request request_data new_session]. rewrite Hp. ret_step.
  eexists. split; [|reflexivity]. done.
Qed.

Lemma cache_service now host st r st' : query_record_from_cache now host st = Ret (r, st') ->
  cache_expire st' = cache_expire st.
Proof.
  intros E. apply bind_ret in E as ([r1 rm1] & _ & E). case_bool_decide; [|by injection E as _ <-].
  apply bind_ret in E as (fi & _ & E). destruct (_ || _); [|by injection E as _ <-].
  apply bind_ret in E as (name & _ & E). apply bind_ret in E as ([r2 rm2] & _ & [= _ <-]). done.
Qed.

Lemma sync_loop_same now host servers : forall p a b, remote a = remote b -> sync_queue a = sync_queue b ->
  next_task a = next_task b -> sync_queue (sync_loop now host servers p a) = sync_queue (sync_loop now host servers p b).
Proof.
  induction servers as [|s servers IH]; intros p a b Hr Hq Hn; [done|]. cbn [sync_loop]. apply IH; [done| |].
  - unfold submit_task, deref. cbn. by rewrite Hr, Hq, Hn.
  - cbn. by rewrite Hn.
Qed.

Lemma cal_expire_range ce r : 10 <= cal_expire ce r <= 600.
Proof. unfold cal_expire. case_match; lia. Qed.

(** ** Lemmas: refreshing *)
#[local] Set Default Proof Using "Type*".
#[local] Ltac only_keys := clear junk regex_match encode decode encode_rev decode_rev sort shuffle iter proxy load_area.

Definition sync_key (domain : str) (st : dns_server) (p : nat) : str := domain ++ lit "/" ++ server_id ireplace (deref st p).

(** The tasks of [servers], from priority [priority] and id [next] on, that the
    keys [pks] do not hold already. *)
Fixpoint new_tasks (domain : str) (st : dns_server) (pks : gset str) (next priority now : Z) (servers : list nat)
    : list task :=
  match servers with
  | [] => []
  | p :: rest =>
      let k := sync_key domain st p in
      let t := PriorityTask (domain, p) priority next k now PENDING in
      if bool_decide (k ∈ pks) then new_tasks domain st pks (u64 (next + 1)) (u32 (priority - 1)) now rest
      else t :: new_tasks domain st ({[k]} ∪ pks) (u64 (next + 1)) (u32 (priority - 1)) now rest
  end.

Definition queued (q : queue (str * nat)) (ts : list task) : Prop :=
  Forall (fun t => tasks q !! TaskQueue.id t = Some t /\ (TaskQueue.id t, priority t) ∈ p_queue q /\
    (pk t ∈ task_pks q)) ts.

Lemma sync_key_nonempty domain st p : sync_key domain st p <> [].
Proof. unfold sync_key. intros E. apply app_eq_nil in E as [_ E]. done. Qed.

Lemma queued_submit q t ts : tasks q !! TaskQueue.id t = None -> queued q ts -> queued (submit t q).2 ts.
Proof.
  only_keys.
  intros Hn Hq. eapply Forall_impl; [exact Hq|]. intros u (H1 & H2 & H3). unfold submit. rewrite Hn.
  destruct (_ || _); cbn [snd tasks p_queue task_pks]; [|done]. split_and!.
  - rewrite lookup_insert_ne; [done|]. intros E. rewrite E in Hn. congruence.
  - apply elem_of_app. by left.
  - case_bool_decide; [done|]. set_solver.
Qed.

(** What [sync_loop] leaves in the queue. *)
Lemma sync_loop_spec now domain servers : forall priority st ts,
  (forall i, next_task st <= i < next_task st + zlen servers -> tasks (sync_queue st) !! i = None) ->
  0 <= next_task st -> next_task st + zlen servers < 2 ^ 64 ->
  queued (sync_queue st) ts ->
  queued (sync_queue (sync_loop now domain servers priority st))
    (ts ++ new_tasks domain st (task_pks (sync_queue st)) (next_task st) priority now servers) /\
  length (p_queue (sync_queue (sync_loop now domain servers priority st))) =
    (length (p_queue (sync_queue st)) +
     length (new_tasks domain st (task_pks (sync_queue st)) (next_task st) priority now servers))%nat /\
  (forall p, p ∈ servers -> sync_key domain st p ∈ task_pks (sync_queue (sync_loop now domain servers priority st))) /\
  task_pks (sync_queue st) ⊆ task_pks (sync_queue (sync_loop now domain servers priority st)).
Proof.
  only_keys.
  induction servers as [|p servers IH]; intros priority st ts Hf H0 Hb Hq; cbn [sync_loop new_tasks].
  { rewrite app_nil_r. split_and!; [done|by rewrite Nat.add_0_r| |done]. intros p Hp. by apply elem_of_nil in Hp. }
  rewrite zlen_cons in Hf, Hb. pose proof (zlen_nonneg servers). rewrite u64_id by lia.
  set (t := PriorityTask (domain, p) priority (next_task st) (sync_key domain st p) now PENDING).
  set (st1 := submit_task now domain p priority st).
  assert (tasks (sync_queue st) !! TaskQueue.id t = None) as Hn by (apply Hf; cbn; lia).
  assert (sync_queue st1 = (submit t (sync_queue st)).2) as Hq1 by done.
  assert (next_task st1 = next_task st + 1) as Hn1 by (cbn; apply u64_id; lia).
  assert (forall i, next_task st1 <= i < next_task st1 + zlen servers -> tasks (sync_queue st1) !! i = None) as Hf1.
  { intros i Hi. rewrite Hq1. unfold submit. rewrite Hn. rewrite Hn1 in Hi. destruct (_ || _); cbn [snd tasks]; [|apply Hf; lia].
    rewrite lookup_insert_ne; [apply Hf; lia|]. cbn. lia. }
  assert (forall s, sync_key domain st1 s = sync_key domain st s) as Hkey by done.
  assert (forall pks next pr, new_tasks domain st1 pks next pr now servers = new_tasks domain st pks next pr now servers) as Hnt.
  { clear. induction servers as [|s servers IH]; intros pks next pr; [done|]. cbn [new_tasks]. by rewrite !IH. }
  pose proof (queued_submit _ t ts Hn Hq) as Hqs. rewrite <- Hq1 in Hqs.
  assert (task_pks (sync_queue st1) = {[sync_key domain st p]} ∪ task_pks (sync_queue st) /\
    length (p_queue (sync_queue st1)) = (length (p_queue (sync_queue st)) +
      (if bool_decide (sync_key domain st p ∈ task_pks (sync_queue st)) then 0 else 1))%nat) as [Hpk Hlen].
  { rewrite Hq1. unfold submit. rewrite Hn. cbn [pk t]. rewrite (bool_decide_false (sync_key domain st p = [])) by apply sync_key_nonempty.
    cbn [orb]. destruct (decide (sync_key domain st p ∈ task_pks (sync_queue st))) as [Hin|Hin].
    - rewrite (bool_decide_true _ Hin), (bool_decide_false (sync_key domain st p ∉ _)) by (intros Hc; by apply Hc).
      cbn [snd task_pks p_queue]. split; [set_solver|lia].
    - rewrite (bool_decide_false _ Hin), (bool_decide_true (sync_key domain st p ∉ _)) by done.
      cbn [snd task_pks p_queue]. rewrite length_app. by split. }
  case_bool_decide as Hin.
  - destruct (IH (u32 (priority - 1)) st1 ts Hf1 ltac:(lia) ltac:(lia) Hqs) as (I1 & I2 & I3 & I4).
    assert (task_pks (sync_queue st1) = task_pks (sync_queue st)) as Heq by (rewrite Hpk; set_solver).
    rewrite Heq, Hn1, Hnt in *. split_and!; [done|lia| |done].
    intros s [->|Hs]%elem_of_cons; [by apply I4|by apply I3].
  - assert (queued (sync_queue st1) (ts ++ [t])) as Hqt.
    { apply Forall_app. split; [done|]. apply Forall_singleton. rewrite Hq1. unfold submit. rewrite Hn. cbn [pk t].
      rewrite (bool_decide_false (sync_key domain st p = [])) by apply sync_key_nonempty.
      rewrite (bool_decide_true (sync_key domain st p ∉ _)) by done. cbn [orb snd tasks p_queue task_pks].
      split_and!; [by rewrite lookup_insert_eq|apply elem_of_app; right; by left|set_solver]. }
    destruct (IH (u32 (priority - 1)) st1 (ts ++ [t]) Hf1 ltac:(lia) ltac:(lia) Hqt) as (I1 & I2 & I3 & I4).
    rewrite Hpk, Hn1, Hnt, <- app_assoc in *. split_and!; [done|cbn [length]; lia| |set_solver].
    intros s [->|Hs]%elem_of_cons; [apply I4; set_solver|by apply I3].
Qed.

(** *** The tasks of a refresh *)
Lemma new_tasks_keys domain st servers : forall pks next priority now,
  NoDup (pk <$> new_tasks domain st pks next priority now servers) /\
  forall k, k ∈ pk <$> new_tasks domain st pks next priority now servers <->
    k ∈ sync_key domain st <$> servers /\ k ∉ pks.
Proof.
  only_keys.
  induction servers as [|p servers IH]; intros pks next priority now; cbn [new_tasks fmap list_fmap].
  { split; [constructor|]. intros k. rewrite elem_of_nil. tauto. }
  case_bool_decide as Hin.
  - destruct (IH pks (u64 (next + 1)) (u32 (priority - 1)) now) as [Hn He]. split; [done|]. intros k. rewrite He.
    rewrite elem_of_cons. split; [tauto|]. intros [[->|Hk] Hp]; [done|tauto].
  - destruct (IH ({[sync_key domain st p]} ∪ pks) (u64 (next + 1)) (u32 (priority - 1)) now) as [Hn He].
    cbn [fmap list_fmap pk]. split.
    + constructor; [|done]. rewrite He. set_solver.
    + intros k. rewrite !elem_of_cons, He. destruct (decide (k = sync_key domain st p)) as [->|]; set_solver.
Qed.

Lemma new_tasks_priorities domain st servers : forall pks next priority now, zlen servers <= priority < 2 ^ 32 ->
  StronglySorted (fun a b => b < a) (TaskQueue.priority <$> new_tasks domain st pks next priority now servers) /\
  Forall (fun t => 0 < TaskQueue.priority t <= priority) (new_tasks domain st pks next priority now servers).
Proof.
  only_keys.
  induction servers as [|p servers IH]; intros pks next priority now Hp; cbn [new_tasks]; [split; constructor|].
  rewrite zlen_cons in Hp. pose proof (zlen_nonneg servers). rewrite u32_id by lia.
  assert (forall pks', StronglySorted (fun a b => b < a) (TaskQueue.priority <$> new_tasks domain st pks' (u64 (next + 1)) (priority - 1) now servers) /\
    Forall (fun t => 0 < TaskQueue.priority t <= priority - 1) (new_tasks domain st pks' (u64 (next + 1)) (priority - 1) now servers)) as Hr
    by (intros pks'; apply IH; lia).
  case_bool_decide.
  - destruct (Hr pks) as [Hs Hf]. split; [done|]. eapply Forall_impl; [exact Hf|]. intros t Ht. cbn in Ht. lia.
  - destruct (Hr ({[sync_key domain st p]} ∪ pks)) as [Hs Hf]. split.
    + cbn [fmap list_fmap]. constructor; [done|]. rewrite Forall_fmap. eapply Forall_impl; [exact Hf|]. intros t Ht. cbn in *. lia.
    + constructor; [cbn; lia|]. eapply Forall_impl; [exact Hf|]. intros t Ht. cbn in Ht. lia.
Qed.

(** *** The parse that fails *)
Lemma request_parse_invalid m data len n r : request_parse m data (request_new len) n = Ret r -> req_valid r = false ->
  query_zone r = None.
Proof.
  unfold request_parse. case_match; [|by intros [= <-]]. intros ([h|] & _ & E)%bind_ret; [|by injection E as <-].
  apply bind_ret in E as (z & _ & E). case_match; [by injection E as <-|]. case_match; [by injection E as <-|].
  by injection E as <-.
Qed.

(** A query of a name with cached addresses, in the handler of its packet. *)
Lemma cached_reply (now id qid flags an ar : Z) (q : question) (rest : list Z) (endpoint : str * Z)
    (st st1 : dns_server) (block : list Z) (record : dns_record) (sel : list nat) :
  0 <= qid < 65536 -> 0 <= flags < 65536 -> 0 <= an < 65536 -> valid_question q ->
  zlen (query_packet qid flags an ar q rest) <= 1024 ->
  id <> rid st -> sessions st !! id = Some (new_session id block) ->
  q.2 = TYPE_A -> let host := name_text q.1 in host <> lit "localhost" ->
  query_record_from_cache now host st = Ret (record, st1) -> rec_ips record <> [] -> Forall ip_ok (rec_ips record) ->
  select_servers regex_match (deref st) host (pointers st) = Ret sel ->
  exists bs st' ttl, on_received now id false (query_packet qid flags an ar q rest) endpoint st =
      Ret ([ReceiveInto (rid st); SendReply id endpoint bs], st') /\
    zlen bs < 512 /\ decodes_as bs qid [q] (take 5 (rec_ips record)) ttl /\
    ttl = cal_expire (cache_expire st) record /\ 10 <= ttl <= 600.
Proof.
  intros Hid Hfl Han Hq Hlen Hne Hses Ht host Hh Hcache Hips Hok Hsel.
  destruct (query_parsed qid flags an ar q rest Hid Hfl Han Hq Hlen block) as (r & Hp & Hv & Hhost & Hty & Htv).
  destruct (query_sizes qid flags an ar q rest Hq Hlen) as [Hsz _].
  destruct (on_received_parsed now id (query_packet qid flags an ar q rest) endpoint st block r Hne Hses) as (sta & Hsame & E);
    [pose proof (zlen_nonneg (enc_questions [q])); lia|exact Hp|].
  rewrite E. cbv zeta. rewrite Hv. clear E. unfold process_session, Server.request. cbn [with_record Server.request].
  fold Server.request. rewrite Htv, Hty. ret_step. rewrite Ht. cbn [Z.eqb TYPE_A Pos.eqb].
  unfold query_dns_record. cbn [with_record Server.request ss_record]. rewrite Hhost. fold host.
  rewrite (bool_decide_false _ Hh). destruct Hsame as (S1 & S2 & S3 & S4 & S5).
  rewrite (cache_transport now host st sta record st1 Hcache S1 S2). ret_step. rewrite (bool_decide_false _ Hips).
  set (s := with_record _ record). pose proof (cal_expire_range (cache_expire st) record) as Hr.
  destruct (reply_built qid flags an ar q rest Hid Hfl Han Hq Hlen block r s (with_records sta (records st1)) Hp
    eq_refl eq_refl Hok) as (bs & st2 & E2 & Hz & Hd & Hsame2).
  { cbn [ss_record with_record s with_records cache_expire]. rewrite S3. lia. }
  cbn [ss_record with_record s with_records cache_expire] in Hd. rewrite S3 in Hd. rewrite E2. ret_step.
  assert (remote st2 = remote st) as Hr2 by (rewrite (proj1 Hsame2); exact S1).
  destruct (expire record || negb (match_area record)).
  - destruct (sync_ret now host st st2 sel Hsel Hr2) as [st3 ->]. ret_step. eexists bs, st3, _. split; [done|]. done.
  - destruct (sync_loss_ret now host record st st2 sel Hsel Hr2) as [st3 ->]. ret_step. eexists bs, st3, _. split; [done|]. done.
Qed.

Lemma deref_pointers st : deref st <$> pointers st = remote st.
Proof.
  apply list_eq. intros i. unfold pointers, deref. rewrite list_lookup_fmap. destruct (decide (i < length (remote st))%nat) as [Hi|Hi].
  - rewrite lookup_seq_lt by done. cbn [fmap option_fmap option_map]. destruct (lookup_lt_is_Some_2 _ _ Hi) as [s Hs].
    rewrite Hs. f_equal. rewrite nth_lookup. cbn. by rewrite Hs.
  - rewrite lookup_seq_ge by lia. symmetry. apply lookup_ge_None. lia.
Qed.

Lemma selected_servers host st selp : select_servers regex_match (deref st) host (pointers st) = Ret selp ->
  Forall short_areas (remote st) ->
  select_servers regex_match (fun s => s) host (remote st) = Ret (deref st <$> selp) /\ Forall short_areas (deref st <$> selp).
Proof.
  intros Hsel Hsa. rewrite <- (deref_pointers st) in Hsa |- *. split; [by rewrite select_servers_deref, Hsel|].
  rewrite Forall_fmap in Hsa |- *. apply Forall_forall. intros x Hx. rewrite Forall_forall in Hsa. apply Hsa.
  by eapply select_servers_sub.
Qed.

(** A stored answer of a selected server makes the cache answer for the name. *)
Lemma cache_found now host st selp : sorts sort -> shuffles shuffle ->
  select_servers regex_match (deref st) host (pointers st) = Ret selp -> Forall short_areas (remote st) -> zlen selp < 256 ->
  let ips := ips_of ireplace (get_dns_records_pb decode now host (records st)).1 in
  (exists p, p ∈ selp /\ ips (deref st p) <> []) ->
  exists record st', query_record_from_cache now host st = Ret (record, st') /\ rec_ips record <> [] /\
    NoDup (rec_ips record) /\ forall ip, ip ∈ rec_ips record -> exists p, p ∈ selp /\ ip ∈ ips (deref st p).
Proof.
  intros Hso Hsh Hsel Hsa Hlen ips (p & Hp & Hne).
  destruct (selected_servers host st selp Hsel Hsa) as [Hv Hsas].
  destruct (resolve_found ireplace regex_match decode sort shuffle iter (remote st) now host (records st) (deref st <$> selp))
    as (r & rm & E & Hn & Hin & Hsome); [done|done|done|done|by unfold zlen; rewrite length_fmap|].
  assert (rec_ips r <> []) as Hr by (apply (Hsome (deref st p)); [by apply list_elem_of_fmap_2|done]).
  eexists r, _. unfold query_record_from_cache. rewrite E. ret_step. rewrite bool_decide_false by done. split; [done|].
  split; [done|]. split; [done|]. intros ip (s & (x & -> & Hx)%list_elem_of_fmap & Hip)%Hin. by exists x.
Qed.

(** ** Properties *)


(** Claim C2. An A query for a name with cached addresses is answered from the cache in the
    handler of its packet, after the next packet is awaited: the datagram fits 512 bytes and
    decodes to the query's id and question and the record's first five addresses, all with the
    time to live of [cal_expire], which is between 10 and 600 seconds. *)
Theorem query_answered (now id qid flags an ar : Z) (q : question) (rest : list Z) (endpoint : str * Z)
    (st st1 : dns_server) (block : list Z) (record : dns_record) (sel : list nat) :
  0 <= qid < 65536 -> 0 <= flags < 65536 -> 0 <= an < 65536 -> valid_question q ->
  zlen (query_packet qid flags an ar q rest) <= 1024 ->
  id <> rid st -> sessions st !! id = Some (new_session id block) ->
  q.2 = TYPE_A -> let host := name_text q.1 in host <> lit "localhost" ->
  query_record_from_cache now host st = Ret (record, st1) -> rec_ips record <> [] -> Forall ip_ok (rec_ips record) ->
  select_servers regex_match (deref st) host (pointers st) = Ret sel ->
  exists bs st' ttl, on_received now id false (query_packet qid flags an ar q rest) endpoint st =
      Ret ([ReceiveInto (rid st); SendReply id endpoint bs], st') /\
    zlen bs < 512 /\ decodes_as bs qid [q] (take 5 (rec_ips record)) ttl /\
    ttl = cal_expire (cache_expire st) record /\ 10 <= ttl <= 600.
Proof. apply cached_reply. Qed.

(** A query of IPv6 addresses, and one for localhost, is answered in the handler of its
    packet with the question and no address at all. *)
Theorem query_empty (now id qid flags an ar : Z) (q : question) (rest : list Z) (endpoint : str * Z)
    (st : dns_server) (block : list Z) :
  0 <= qid < 65536 -> 0 <= flags < 65536 -> 0 <= an < 65536 -> valid_question q ->
  zlen (query_packet qid flags an ar q rest) <= 1024 ->
  id <> rid st -> sessions st !! id = Some (new_session id block) ->
  q.2 = TYPE_AAAA \/ (q.2 = TYPE_A /\ name_text q.1 = lit "localhost") ->
  exists bs st' ttl, on_received now id false (query_packet qid flags an ar q rest) endpoint st =
      Ret ([ReceiveInto (rid st); SendReply id endpoint bs], st') /\
    zlen bs < 512 /\ decodes_as bs qid [q] [] ttl /\ 10 <= ttl <= 600 /\ records st' = records st.
Proof.
  intros Hid Hfl Han Hq Hlen Hne Hses Hkind.
  destruct (query_parsed qid flags an ar q rest Hid Hfl Han Hq Hlen block) as (r & Hp & Hv & Hhost & Hty & Htv).
  destruct (query_sizes qid flags an ar q rest Hq Hlen) as [Hsz _].
  destruct (on_received_parsed now id (query_packet qid flags an ar q rest) endpoint st block r Hne Hses) as (sta & Hsame & E);
    [pose proof (zlen_nonneg (enc_questions [q])); lia|exact Hp|].
  rewrite E. cbv zeta. rewrite Hv. clear E. unfold process_session. cbn [with_record Server.request ss_record empty_record].
  rewrite Htv, Hty. ret_step.
  assert (forall s, request s = r -> request_data s = received block (query_packet qid flags an ar q rest) ->
    ss_id s = id -> client_endpoint s = endpoint -> rec_ips (ss_record s) = [] ->
    exists bs st' ttl, ('(acts', st3) ← complete_query s sta; Ret (ReceiveInto (rid st) :: acts', st3)) =
      Ret ([ReceiveInto (rid st); SendReply id endpoint bs], st') /\
    zlen bs < 512 /\ decodes_as bs qid [q] [] ttl /\ 10 <= ttl <= 600 /\ records st' = records st) as Hreply.
  { intros s H1 H2 H3 H4 H5. pose proof (cal_expire_range (cache_expire sta) (ss_record s)) as Hr.
    destruct (reply_built qid flags an ar q rest Hid Hfl Han Hq Hlen block r s sta Hp H1 H2) as (bs & st2 & E2 & Hz & Hd & Hsame2);
      [rewrite H5; constructor|lia|]. rewrite H5 in Hd. rewrite E2, H3, H4. ret_step.
    eexists bs, st2, _. split; [done|]. split; [done|]. split; [exact Hd|]. split; [done|].
    by rewrite (proj1 (proj2 Hsame2)), (proj1 (proj2 Hsame)). }
  destruct Hkind as [->|[-> Hl]].
  - cbn [Z.eqb TYPE_A TYPE_AAAA Pos.eqb]. rewrite complete_session_query by done. by apply Hreply.
  - cbn [Z.eqb TYPE_A Pos.eqb]. unfold query_dns_record. cbn [with_record Server.request ss_record]. rewrite Hhost, (bool_decide_true _ Hl).
    by apply Hreply.
Qed.

(** Claim C3. An A query for a name without cached addresses waits on its timer while the
    servers selected for the name are asked; when the timer ends it is answered with the
    addresses the cache then holds, none if there are none yet. *)
Theorem query_uncached (now now' id qid flags an ar : Z) (q : question) (rest : list Z) (endpoint : str * Z)
    (st st1 : dns_server) (block : list Z) (record : dns_record) (sel : list nat) :
  0 <= qid < 65536 -> 0 <= flags < 65536 -> 0 <= an < 65536 -> valid_question q ->
  zlen (query_packet qid flags an ar q rest) <= 1024 ->
  id <> rid st -> sessions st !! id = Some (new_session id block) ->
  q.2 = TYPE_A -> let host := name_text q.1 in host <> lit "localhost" ->
  query_record_from_cache now host st = Ret (record, st1) -> rec_ips record = [] ->
  select_servers regex_match (deref st) host (pointers st) = Ret sel ->
  exists s st', on_received now id false (query_packet qid flags an ar q rest) endpoint st =
      Ret ([ReceiveInto (rid st); WaitTimer id host], st') /\ sessions st' !! id = Some s /\
    sync_queue st' = sync_queue (sync_loop now host sel MAX_PRIORITY st) /\
    forall later record' st2, sessions later !! id = Some s ->
      query_record_from_cache now' host later = Ret (record', st2) -> Forall ip_ok (rec_ips record') ->
      exists bs st3 ttl, on_timer now' id host later = Ret ([SendReply id endpoint bs], st3) /\ zlen bs < 512 /\
        decodes_as bs qid [q] (take 5 (rec_ips record')) ttl /\ ttl = cal_expire (cache_expire later) record'.
Proof.
  intros Hid Hfl Han Hq Hlen Hne Hses Ht host Hh Hcache Hips Hsel.
  destruct (query_parsed qid flags an ar q rest Hid Hfl Han Hq Hlen block) as (r & Hp & Hv & Hhost & Hty & Htv).
  destruct (query_sizes qid flags an ar q rest Hq Hlen) as [Hsz _].
  destruct (on_received_parsed now id (query_packet qid flags an ar q rest) endpoint st block r Hne Hses) as (sta & Hsame & E);
    [pose proof (zlen_nonneg (enc_questions [q])); lia|exact Hp|].
  rewrite E. cbv zeta. rewrite Hv. clear E. unfold process_session. cbn [with_record Server.request ss_record].
  rewrite Htv, Hty. ret_step. rewrite Ht. cbn [Z.eqb TYPE_A Pos.eqb].
  unfold query_dns_record. cbn [with_record Server.request ss_record]. rewrite Hhost. fold host.
  rewrite (bool_decide_false _ Hh). destruct Hsame as (S1 & S2 & S3 & S4 & S5).
  rewrite (cache_transport now host st sta record st1 Hcache S1 S2). ret_step. rewrite (bool_decide_true _ Hips).
  unfold sync_dns_record_from_remote. replace (select_servers regex_match (deref _) host _) with (Ret sel)
    by (rewrite <- Hsel; unfold deref, pointers; cbn [with_records remote]; by rewrite S1). ret_step.
  set (s := with_record (Session _ _ _ _ _ _ _ _) _).
  match goal with |- context [if bool_decide (sel = []) then Ret ?a else Ret ?b] =>
    assert (exists st2, (if bool_decide (sel = []) then Ret a else Ret b) = Ret st2 /\
      sync_queue st2 = sync_queue (sync_loop now host sel MAX_PRIORITY st)) as (st2 & -> & Hq2) end.
  { case_bool_decide as He; (eexists; split; [reflexivity|]); [subst sel; exact S4|]. by apply sync_loop_same. }
  ret_step. eexists s, _. split; [done|]. split; [apply lookup_insert_eq|]. split; [exact Hq2|].
  intros later record' st3 Hs Hc Hok. unfold on_timer. rewrite Hc. ret_step.
  destruct (cache_keeps _ _ _ _ _ Hc) as [Hk _]. unfold find_session. rewrite Hk, Hs. ret_step.
  pose proof (cache_service _ _ _ _ _ Hc) as Hce. pose proof (cal_expire_range (cache_expire later) record') as Hr.
  destruct (reply_built qid flags an ar q rest Hid Hfl Han Hq Hlen block r (with_record s record') st3 Hp
    eq_refl eq_refl Hok) as (bs & st4 & E4 & Hz & Hd & _).
  { cbn [ss_record with_record]. rewrite Hce. lia. }
  cbn [ss_record with_record s] in Hd. rewrite Hce in Hd. rewrite E4. by eexists bs, st4, _.
Qed.

(** Claim C20. A packet that cannot be parsed, and a network error, end the session after the next
    packet is awaited; but ending it asks the request for its type, through the question zone
    that was never parsed: the null pointer is followed. *)
Theorem malformed_query (now id : Z) (ec : bool) (bytes : list Z) (endpoint : str * Z) (st : dns_server)
    (block : list Z) :
  id <> rid st -> sessions st !! id = Some (new_session id block) ->
  ec = true \/ bytes = [] \/
  (exists r, request_parse (received block bytes) 0 (request_new 1024) (zlen bytes) = Ret r /\ req_valid r = false) ->
  on_received now id ec bytes endpoint st = Undef NullDeref.
Proof.
  intros Hne Hs Hbad. destruct (receive_eq st) as (b & mem & Er). unfold on_received. rewrite Er. ret_step.
  unfold find_session. cbn [sessions]. rewrite lookup_insert_ne by done. rewrite Hs. ret_step.
  cbn [Server.request request_data new_session].
  destruct (negb ec && (0 <? zlen bytes)) eqn:Ego; [|done].
  destruct Hbad as [->|[->|(r & Hp & Hv)]]; [done|by rewrite andb_comm in Ego|].
  rewrite Hp. ret_step. rewrite Hv. unfold end_session. cbn [Server.request response]. unfold get_query_type.
  by rewrite (request_parse_invalid _ _ _ _ _ Hp Hv).
Qed.

(** Claim C18. Refreshing a domain queues one task for each selected server whose refresh of that
    domain is not under way or queued already, in the order of the servers and with priorities
    that go down from 100; afterwards every selected server's refresh is on the queue's list, so
    refreshing again queues nothing. *)
Theorem refresh_queued (now : Z) (host : str) (st : dns_server) (sel : list nat) :
  select_servers regex_match (deref st) host (pointers st) = Ret sel -> zlen sel <= 100 ->
  (forall i, next_task st <= i < next_task st + zlen sel -> tasks (sync_queue st) !! i = None) ->
  0 <= next_task st -> next_task st + zlen sel < 2 ^ 64 ->
  exists st' ts, sync_dns_record_from_remote now host st = Ret st' /\ queued (sync_queue st') ts /\
    length (p_queue (sync_queue st')) = (length (p_queue (sync_queue st)) + length ts)%nat /\
    NoDup (pk <$> ts) /\
    (forall k, k ∈ pk <$> ts <-> k ∈ sync_key host st <$> sel /\ k ∉ task_pks (sync_queue st)) /\
    StronglySorted (fun a b => b < a) (TaskQueue.priority <$> ts) /\
    Forall (fun t => 0 < TaskQueue.priority t <= MAX_PRIORITY) ts /\
    forall p, p ∈ sel -> sync_key host st p ∈ task_pks (sync_queue st').
Proof.
  intros Hsel Hlen Hf H0 Hb. unfold sync_dns_record_from_remote. rewrite Hsel. ret_step.
  destruct (sync_loop_spec now host sel MAX_PRIORITY st [] Hf H0 Hb) as (S1 & S2 & S3 & _); [constructor|].
  destruct (new_tasks_keys host st sel (task_pks (sync_queue st)) (next_task st) MAX_PRIORITY now) as [Hn He].
  destruct (new_tasks_priorities host st sel (task_pks (sync_queue st)) (next_task st) MAX_PRIORITY now) as [Hp1 Hp2];
    [unfold MAX_PRIORITY; lia|].
  exists (sync_loop now host sel MAX_PRIORITY st), (new_tasks host st (task_pks (sync_queue st)) (next_task st) MAX_PRIORITY now sel).
  split; [case_bool_decide as E; [by rewrite E|done]|]. done.
Qed.

(** Claim C19. When a server's client calls back with addresses they are stored as that server's
    answer for the domain, for the server's expiry if every area answered and for half of it
    otherwise; with no address nothing is stored. Either way the task is completed. *)
Theorem refresh_stored `{!KvLaws D} (now now' : Z) (t : task) (ips : list Z) (load_all : bool) (domain' : str)
    (st : dns_server) (sel : list remote_dns_server) :
  Protobuf encode decode -> let host := (in_ t).1 in let srv := deref st (in_ t).2 in
  let sid := server_id ireplace srv in
  let found now domain rm := (get_dns_records_pb decode now domain rm).1 in
  let ttl := if load_all then srv_cache_expire srv else Z.quot (srv_cache_expire srv) 2 in
  let new := PbRecords host (<[sid := PbRecord (u32 (ttl + now / 1000)) ips]> (pb_map (found now host (records st)))) in
  (ips <> [] -> storable new) -> key_ok domain' -> now <= now' -> Forall short_areas sel ->
  select_servers regex_match (fun s => s) host (remote st) = Ret sel ->
  exists st', on_resolved now t ips load_all st = Ret st' /\
    sync_queue st' = TaskQueue.complete t (sync_queue st) /\
    found now' domain' (records st') =
      (if decide (ips <> [] /\ host = domain') then new else found now' domain' (records st)).
Proof.
  clear junk proxy load_area.
  intros Hpb host srv sid found ttl new Hst Hk Hn Hsa Hsel. unfold on_resolved. fold host srv.
  set (rm := if bool_decide (ips = []) then _ else _).
  destruct (resolve_ret ireplace regex_match decode sort shuffle iter (remote st) now host rm sel Hsa Hsel)
    as (r & rm' & -> & Hdb & _). ret_step. eexists. split; [done|]. split; [done|].
  unfold found. cbn [with_queue with_records records]. rewrite (lookup_after _ now now' host domain' rm rm' Hn Hdb).
  unfold rm. case_bool_decide as Hi.
  - rewrite decide_False; [done|]. tauto.
  - etransitivity.
    { apply (add_lookup encode decode Hpb encode_rev decode_rev now now' host domain' ips (server_id ireplace srv) ttl (records st) (Hst Hi) Hk Hn). }
    fold new. destruct (decide (host = domain')) as [Hh|Hh].
    + by rewrite decide_True.
    + by rewrite decide_False by tauto.
Qed.

(** Claim C4. What a server was asked and answered reaches the next client: after the callback
    of the refresh of a name, an A query for that name is answered in the handler of its packet
    with one to five distinct addresses, each of them from this answer or from an answer to the
    same name that another selected server gave before. *)
Theorem learned_name_answered `{!KvLaws D} (now now' id qid flags an ar : Z) (q : question) (rest : list Z)
    (endpoint : str * Z) (t : task) (ips : list Z) (load_all : bool) (st : dns_server) (block : list Z) (selp : list nat) :
  Protobuf encode decode -> sorts sort -> shuffles shuffle ->
  0 <= qid < 65536 -> 0 <= flags < 65536 -> 0 <= an < 65536 -> valid_question q ->
  zlen (query_packet qid flags an ar q rest) <= 1024 -> q.2 = TYPE_A ->
  let host := name_text q.1 in let srv := deref st (in_ t).2 in let sid := server_id ireplace srv in
  let old := (get_dns_records_pb decode now host (records st)).1 in
  let ttl := if load_all then srv_cache_expire srv else Z.quot (srv_cache_expire srv) 2 in
  host <> lit "localhost" -> (in_ t).1 = host -> (in_ t).2 ∈ selp ->
  select_servers regex_match (deref st) host (pointers st) = Ret selp -> Forall short_areas (remote st) -> zlen selp < 256 ->
  ips <> [] -> Forall ip_ok ips -> (forall p, p ∈ selp -> Forall ip_ok (ips_of ireplace old (deref st p))) ->
  storable (PbRecords host (<[sid := PbRecord (u32 (ttl + now / 1000)) ips]> (pb_map old))) -> now <= now' ->
  id <> rid st -> sessions st !! id = Some (new_session id block) ->
  exists st1 bs st2 l ttl', on_resolved now t ips load_all st = Ret st1 /\
    on_received now' id false (query_packet qid flags an ar q rest) endpoint st1 =
      Ret ([ReceiveInto (rid st); SendReply id endpoint bs], st2) /\
    decodes_as bs qid [q] l ttl' /\ l <> [] /\ NoDup l /\ zlen l <= 5 /\
    forall ip, ip ∈ l -> ip ∈ ips \/ exists p, p ∈ selp /\ ip ∈ ips_of ireplace old (deref st p).
Proof.
  clear proxy load_area.
  intros Hpb Hso Hsh Hid Hfl Han Hq Hlen Ht host srv sid old ttl Hh Hhost Hin Hsel Hsa Hls Hips Hok Hold Hst Hnow Hne Hses.
  destruct (selected_servers host st selp Hsel Hsa) as [Hv Hsas].
  unfold on_resolved. rewrite Hhost, bool_decide_false by done. fold srv sid.
  set (rm := add _ _ _ _ _ _ _ _ _ _).
  destruct (resolve_ret ireplace regex_match decode sort shuffle iter (remote st) now host rm _ Hsas Hv)
    as (r & rm' & -> & Hdb & _). ret_step. set (st1 := with_queue _ _ _).
  set (new := PbRecords host _) in Hst.
  assert ((get_dns_records_pb decode now' host (records st1)).1 = new) as Hnew.
  { unfold st1. cbn [with_queue with_records records]. rewrite (lookup_after _ now now' host host rm rm' Hnow Hdb). etransitivity.
    { apply (add_lookup encode decode Hpb encode_rev decode_rev now now' host host ips sid ttl (records st) Hst); [apply Hst|done]. }
    by rewrite decide_True. }
  assert (forall p ip, ip ∈ ips_of ireplace new (deref st p) -> ip ∈ ips \/ ip ∈ ips_of ireplace old (deref st p)) as Hof.
  { intros p ip. unfold ips_of, new. cbn [pb_map]. destruct (decide (sid = server_id ireplace (deref st p))) as [E|E].
    - rewrite <- E, lookup_insert_eq. by left.
    - rewrite lookup_insert_ne by done. by right. }
  destruct (cache_found now' host st1 selp Hso Hsh Hsel Hsa Hls) as (record & st2 & Hc & Hr & Hn & Hfrom).
  { exists (in_ t).2. split; [done|]. rewrite Hnew. unfold ips_of, new. cbn [pb_map]. by rewrite lookup_insert_eq. }
  rewrite Hnew in Hfrom.
  destruct (cached_reply now' id qid flags an ar q rest endpoint st1 st2 block record selp) as (bs & st3 & ttl' & E & _ & Hd & _); try done.
  { apply Forall_forall. intros ip (p & Hp & [Hip|Hip]%Hof)%Hfrom; [by eapply (proj1 (Forall_forall _ _))|].
    eapply (proj1 (Forall_forall _ _)); [by apply Hold|done]. }
  exists st1, bs, st3, (take 5 (rec_ips record)), ttl'. split; [done|]. split; [exact E|]. split; [exact Hd|]. split; [by destruct (rec_ips record)|].
  split; [eapply sublist_NoDup; [exact Hn|apply sublist_take]|]. split; [unfold zlen; rewrite length_take; lia|].
  intros ip Hip. apply (sublist_subseteq _ _ (sublist_take _ _)) in Hip. destruct (Hfrom ip Hip) as (p & Hp & [Hi|Hi]%Hof); [by left|].
  right. by exists p.
Qed.

(** Claim C5. One st-dns can be the remote server of another: the packet that the client sends over UDP
    for a name is a query the server answers from its cache in the handler of the packet, and with
    the server's datagram as the answer the client's result is the first five addresses cached. *)
Theorem chained_servers (junk' : Z -> list Z) (mem : pool) (labels : list str) (counter now id : Z) (endpoint : str * Z)
    (st st1 : dns_server) (block : list Z) (record : dns_record) (sel : list nat) :
  valid_name labels -> let host := name_text labels in host <> lit "localhost" ->
  id <> rid st -> sessions st !! id = Some (new_session id block) ->
  query_record_from_cache now host st = Ret (record, st1) -> rec_ips record <> [] -> Forall ip_ok (rec_ips record) ->
  select_servers regex_match (deref st) host (pointers st) = Ret sel ->
  exists bytes l c bs st', ask junk' UDP host counter mem = Ret (SendTo bytes, l, c) /\
    on_received now id false bytes endpoint st = Ret ([ReceiveInto (rid st); SendReply id endpoint bs], st') /\
    chain (dns_handle junk' UDP) l (SendTo bytes) (deliveries UDP bs) =
      Ret ([SendTo bytes; ReceiveFrom], Some (take 5 (rec_ips record))).
Proof.
  intros Hn host Hh Hne Hses Hc Hips Hok Hsel. unfold ask, dns_handle, deliveries.
  destruct (udp_dns_start junk' labels counter mem Hn) as (l & c & Eask & Hi).
  assert (query_packet (u16 counter) 256 0 0 (query_of labels) [] = packet (u16 counter) [labels]) as Hpk.
  { unfold query_packet. by rewrite app_nil_r. }
  pose proof (packet_size (u16 counter) labels Hn) as Hsz. pose proof (u16_range counter) as Hr.
  destruct (cached_reply now id (u16 counter) 256 0 0 (query_of labels) [] endpoint st st1 block record sel)
    as (bs & st' & ttl & E & Hz & Hd & _); try done.
  { rewrite Hpk. lia. }
  rewrite Hpk in E. exists (packet (u16 counter) [labels]), l, c, bs, st'. split; [exact Eask|]. split; [exact E|].
  rewrite (udp_chain_decoded junk' l _ bs _ _ _ _ Hd) by lia. by rewrite Hi, Z.eqb_refl.
Qed.

(** What [schedule] finds for one server, from the areas and the ports its proxy gives. *)
Definition optimized (available : remote_dns_server -> list str) (port : remote_dns_server -> str -> Z)
    (s : remote_dns_server) : remote_dns_server :=
  if bool_decide (lit "LAN" ∈ Config.areas s) then s
  else RemoteDnsServer (srv_ip s) (srv_port s) (srv_type s) (whitelist s) (blacklist s) (Config.areas s) (timeout s)
         (srv_cache_expire s)
         (omap (fun a => if existsb (matches a) (Config.areas s) && (0 <? port s a) then Some (a, port s a) else None)
            (available s)).

Section schedule_lemmas.
Context (available : remote_dns_server -> list str) (port : remote_dns_server -> str -> Z).
Context (Hload : forall a am, exists b am', load_area a am = Ret (b, am')).

Lemma optimize_areas_spec s l : forall am, short_areas s ->
  (forall a, a ∈ l -> existsb (matches a) (Config.areas s) = true ->
     register_area_port (proxy (register_area_port_command (srv_ip s) (u16 (srv_port s)) a)) = Ret (port s a)) ->
  exists am', optimize_areas s l am =
    Ret (omap (fun a => if existsb (matches a) (Config.areas s) && (0 <? port s a) then Some (a, port s a) else None) l, am').
Proof.
  induction l as [|a l IH]; intros am Hs Hp; cbn [optimize_areas omap list_omap]; [by eexists|].
  rewrite is_match_areas_spec by done. ret_step. destruct (Hload a am) as (b & am1 & Hl).
  destruct (IH am1 Hs) as (am2 & E2); [intros a' Ha'; apply Hp; by right|].
  specialize (Hp a ltac:(left)). destruct (existsb (matches a) (Config.areas s)); cbn [andb].
  - rewrite Hp by done. ret_step. rewrite Hl. ret_step. rewrite E2. ret_step. exists am2. by destruct (0 <? port s a).
  - ret_step. rewrite Hl. ret_step. rewrite E2. ret_step. by exists am2.
Qed.

Lemma schedule_servers_spec l : forall am, Forall short_areas l ->
  (forall s, s ∈ l -> lit "LAN" ∉ Config.areas s ->
     get_ip_available_proxy_areas (proxy (get_ip_available_proxy_areas_command (srv_ip s))) = Ret (available s) /\
     forall a, a ∈ available s -> existsb (matches a) (Config.areas s) = true ->
       register_area_port (proxy (register_area_port_command (srv_ip s) (u16 (srv_port s)) a)) = Ret (port s a)) ->
  exists am', schedule_servers l am = Ret (optimized available port <$> l, am').
Proof.
  induction l as [|s l IH]; intros am Hs Hp; cbn [schedule_servers fmap list_fmap]; [by eexists|].
  apply Forall_cons in Hs as [Hs Hl]. unfold optimized at 1. case_bool_decide as Hlan.
  - ret_step. destruct (IH am Hl) as [am' ->]; [intros s' Hs'; apply Hp; by right|]. ret_step. by eexists.
  - destruct (Hp s ltac:(left) Hlan) as [-> Hport]. ret_step.
    destruct (optimize_areas_spec s (available s) am Hs Hport) as [am1 ->]. ret_step.
    destruct (IH am1 Hl) as [am' ->]; [intros s' Hs'; apply Hp; by right|]. ret_step. by eexists.
Qed.
End schedule_lemmas.

(** Claim C21. The schedule leaves each server of the local network as it was, and gives every
    other server the areas that its proxy offers, that match its areas, and that the proxy gave a
    port above zero for, in the order offered, and the schedule runs again. *)
Theorem schedule_proxies (available : remote_dns_server -> list str) (port : remote_dns_server -> str -> Z) (st : dns_server) :
  (forall a am, exists b am', load_area a am = Ret (b, am')) -> Forall short_areas (remote st) ->
  (forall s, s ∈ remote st -> lit "LAN" ∉ Config.areas s ->
     get_ip_available_proxy_areas (proxy (get_ip_available_proxy_areas_command (srv_ip s))) = Ret (available s) /\
     forall a, a ∈ available s -> existsb (matches a) (Config.areas s) = true ->
       register_area_port (proxy (register_area_port_command (srv_ip s) (u16 (srv_port s)) a)) = Ret (port s a)) ->
  exists st', schedule st = Ret ([WaitSchedule], st') /\ remote st' = optimized available port <$> remote st /\
    sessions st' = sessions st /\ sync_queue st' = sync_queue st /\ db (records st') = db (records st).
Proof.
  intros Hl Hs Hp. unfold schedule.
  destruct (schedule_servers_spec available port Hl (remote st) (area_manager (records st)) Hs Hp) as [am' ->]. ret_step.
  eexists. split; [done|]. done.
Qed.
End server.

(** ** Witnesses: a server with two remote servers and one name in its cache *)
Module Toy.
#[export] Instance kv : AbstractKv (gmap str str) := disk_kv toy_encode toy_decode.
Definition ireplace := fun s _ _ : str => map (fun c => if c =? 46 then 95 else c) s.
Definition regex_match := fun _ _ : str => Ret false.
Definition decode := num_decode (PbRecords [] ∅).
Definition decode_rev := num_decode (PbReverse 0 []).
Definition sort := merge_sort not_after.
Definition proxy : str -> bool * str := fun command =>
  if bool_decide (command = lit "proxy ip available areas --ip=8.8.8.8") then (true, lit "JP,CN") else (true, lit "4010").
Definition load_area := fun (_ : str) (am : manager) => Ret (true, am).
Definition junk := fun _ : Z => @nil Z.
Definition s1 := RemoteDnsServer (lit "8.8.8.8") 53 (lit "TCP") [] [] [lit "JP"] 100 600 [].
Definition s2 := RemoteDnsServer (lit "1.1.1.1") 53 (lit "UDP") [] [] [lit "LAN"] 100 600 [].
Definition store : gmap str str := @kv_put _ kv 5000 (lit "example.com")
  (num_encode (PbRecords (lit "example.com") {[ lit "8_8_8_8_53" := PbRecord 600 [16909060] ]})) 0 ∅.
Definition server (id : Z) (ss : gmap Z session) : dns_server := DnsServer id 60 [s1; s2] 0 ss queue_init 0
  (RecordManager store ∅ (Manager [] ∅ ∅ ∅ 0 0 [])) (Pool 0 0).
Definition name : list str := [lit "example"; lit "com"].
Definition other : list str := [lit "example"; lit "org"].
Definition endpoint := (lit "10.0.0.1", 4000).
End Toy.
Import Toy.

(** Running a computation for one part of its result. *)
Lemma part_ret {A B} (f : A -> B) (m : outcome A) b : (a ← m; Ret (f a)) = Ret b -> exists a, m = Ret a /\ f a = b.
Proof. destruct m; intros E; [|done..]. injection E as <-. eauto. Qed.

Lemma toy_question n t : n = name \/ n = other -> 0 <= t < 65536 -> valid_question (n, t).
Proof.
  intros Hn Ht. split; [|exact Ht]. destruct Hn as [-> | ->];
    repeat first [constructor | split]; try done; unfold zlen; simpl; lia.
Qed.

Abbreviation toy := (server 2 {[1 := new_session 1 []]}).
Abbreviation toy_received st q := (on_received junk ireplace regex_match decode sort (@List.rev Z) map_to_list 6000 1 false
  (query_packet 7 256 0 0 q []) endpoint st).
Abbreviation toy_cache host := (query_record_from_cache ireplace regex_match decode sort (@List.rev Z) map_to_list 6000 host toy).


Lemma query_answered_witness : exists bs st' ttl,
  toy_received toy (name, TYPE_A) = Ret ([ReceiveInto 2; SendReply 1 endpoint bs], st') /\
  decodes_as bs 7 [(name, TYPE_A)] [16909060] ttl.
Proof.
  destruct (part_ret (fun x => rec_ips x.1) (toy_cache (lit "example.com")) [16909060]) as ([record st1] & E & Hips);
    [vm_compute; reflexivity|]. cbn [fst] in Hips.
  destruct (query_answered junk ireplace regex_match decode sort (@List.rev Z) map_to_list 6000 1 7 256 0 0 (name, TYPE_A) []
    endpoint toy st1 [] record [0%nat; 1%nat]) as (bs & st' & ttl & E' & _ & Hd & _).
  - lia.
  - lia.
  - lia.
  - apply toy_question; [by left|cbn; unfold TYPE_A, TYPE_AAAA; lia].
  - vm_compute. discriminate.
  - discriminate.
  - reflexivity.
  - reflexivity.
  - apply (bool_decide_unpack _). vm_compute. exact I.
  - exact E.
  - by rewrite Hips.
  - rewrite Hips. apply Forall_singleton. unfold ip_ok. cbn. lia.
  - vm_compute. reflexivity.
  - exists bs, st', ttl. rewrite Hips in Hd. by split.
Defined.

Lemma chained_servers_witness : exists bytes l c bs st',
  ask junk UDP (lit "example.com") 7 (Pool 0 0) = Ret (SendTo bytes, l, c) /\
  on_received junk ireplace regex_match decode sort (@List.rev Z) map_to_list 6000 1 false bytes endpoint toy =
    Ret ([ReceiveInto 2; SendReply 1 endpoint bs], st') /\
  chain (dns_handle junk UDP) l (SendTo bytes) (deliveries UDP bs) = Ret ([SendTo bytes; ReceiveFrom], Some [16909060]).
Proof.
  destruct (part_ret (fun x => rec_ips x.1) (toy_cache (lit "example.com")) [16909060]) as ([record st1] & E & Hips);
    [vm_compute; reflexivity|]. cbn [fst] in Hips.
  destruct (chained_servers junk ireplace regex_match decode sort (@List.rev Z) map_to_list junk (Pool 0 0) name 7 6000 1
    endpoint toy st1 [] record [0%nat; 1%nat]) as (bytes & l & c & bs & st' & E1 & E2 & E3).
  - apply (toy_question name TYPE_A); [by left|unfold TYPE_A; lia].
  - apply (bool_decide_unpack _). vm_compute. exact I.
  - discriminate.
  - reflexivity.
  - exact E.
  - by rewrite Hips.
  - rewrite Hips. apply Forall_singleton. unfold ip_ok. cbn. lia.
  - vm_compute. reflexivity.
  - rewrite Hips in E3. exists bytes, l, c, bs, st'. split; [exact E1|]. split; [exact E2|exact E3].
Defined.

Lemma query_empty_witness : exists bs st' ttl,
  toy_received toy (name, TYPE_AAAA) = Ret ([ReceiveInto 2; SendReply 1 endpoint bs], st') /\
  decodes_as bs 7 [(name, TYPE_AAAA)] [] ttl.
Proof.
  destruct (query_empty junk ireplace regex_match decode sort (@List.rev Z) map_to_list 6000 1 7 256 0 0 (name, TYPE_AAAA) []
    endpoint toy []) as (bs & st' & ttl & E & _ & Hd & _).
  - lia.
  - lia.
  - lia.
  - apply toy_question; [by left|cbn; unfold TYPE_A, TYPE_AAAA; lia].
  - vm_compute. discriminate.
  - discriminate.
  - reflexivity.
  - by left.
  - exists bs, st', ttl. by split.
Defined.

Lemma query_uncached_witness : exists s st',
  toy_received toy (other, TYPE_A) = Ret ([ReceiveInto 2; WaitTimer 1 (lit "example.org")], st') /\
  sessions st' !! 1 = Some s /\ size (tasks (sync_queue st')) = 2%nat.
Proof.
  destruct (part_ret (fun x => rec_ips x.1) (toy_cache (lit "example.org")) []) as ([record st1] & E & Hips);
    [vm_compute; reflexivity|]. cbn [fst] in Hips.
  destruct (query_uncached junk ireplace regex_match decode sort (@List.rev Z) map_to_list 6000 6100 1 7 256 0 0 (other, TYPE_A) []
    endpoint toy st1 [] record [0%nat; 1%nat]) as (s & st' & E' & Hs & Hq & _).
  - lia.
  - lia.
  - lia.
  - apply toy_question; [by right|unfold TYPE_A; lia].
  - vm_compute. discriminate.
  - discriminate.
  - reflexivity.
  - reflexivity.
  - apply (bool_decide_unpack _). vm_compute. exact I.
  - exact E.
  - exact Hips.
  - vm_compute. reflexivity.
  - exists s, st'. split; [exact E'|]. split; [exact Hs|]. rewrite Hq. vm_compute. reflexivity.
Defined.

Lemma malformed_query_witness :
  on_received junk ireplace regex_match decode sort (@List.rev Z) map_to_list 6000 1 false [0; 1; 1; 0; 0] endpoint toy =
  Undef NullDeref.
Proof.
  apply (malformed_query junk ireplace regex_match decode sort (@List.rev Z) map_to_list 6000 1 false [0; 1; 1; 0; 0] endpoint toy []).
  - discriminate.
  - reflexivity.
  - right. right. eexists. split; vm_compute; reflexivity.
Defined.

Lemma refresh_queued_witness :
  exists st' ts, sync_dns_record_from_remote ireplace regex_match 6000 (lit "example.org") toy = Ret st' /\
    queued (sync_queue st') ts /\ NoDup (pk <$> ts) /\ sync_key ireplace (lit "example.org") toy 1 ∈ task_pks (sync_queue st').
Proof.
  destruct (refresh_queued ireplace regex_match 6000 (lit "example.org") toy [0%nat; 1%nat])
    as (st' & ts & E & Hq & _ & Hn & _ & _ & _ & Hp).
  - vm_compute. reflexivity.
  - vm_compute. discriminate.
  - intros i _. reflexivity.
  - cbn. lia.
  - vm_compute. reflexivity.
  - exists st', ts. split; [exact E|]. split; [exact Hq|]. split; [exact Hn|]. apply Hp. right. left.
Defined.

Lemma refresh_stored_witness :
  let t := PriorityTask (lit "example.org", 0%nat) 100 0 (lit "k") 6000 RUNNING in
  exists st', on_resolved ireplace regex_match num_encode decode num_encode decode_rev sort (@List.rev Z) map_to_list 6000 t
      [16909061] true toy = Ret st' /\
    pb_map (get_dns_records_pb decode 7000 (lit "example.org") (records st')).1 !! lit "8_8_8_8_53" = Some (PbRecord 606 [16909061]).
Proof.
  intros t.
  assert (key_ok (lit "example.org") /\ key_ok (lit "8_8_8_8_53")) as [Hk Hk2].
  { split; (split; [done|]); apply (bool_decide_unpack _); vm_compute; exact I. }
  destruct (@refresh_stored (gmap str str) Toy.kv ireplace regex_match num_encode decode num_encode decode_rev sort (@List.rev Z) map_to_list
    (@disk_kv_laws (gmap str str) map_store map_store_laws toy_encode toy_decode toy_decode_encode (fun (_ : gmap str str) _ _ => eq_refl))
    6000 7000 t [16909061] true (lit "example.org") toy [s1; s2]) as (st' & E & _ & Hf).
  - apply num_protobuf.
  - intros _. split; [exact Hk|]. intros i e Hi. cbn [pb_map] in Hi.
    apply (lookup_insert_Some (M := gmap str)) in Hi as [[<- <-]|[_ Hi]]; [|vm_compute in Hi; destruct i; discriminate Hi].
    split; [exact Hk2|]. split; [vm_compute; reflexivity|by apply Forall_singleton].
  - exact Hk.
  - lia.
  - by repeat constructor.
  - vm_compute. reflexivity.
  - exists st'. split; [exact E|]. rewrite Hf. vm_compute. reflexivity.
Defined.

Lemma learned_name_answered_witness :
  let t := PriorityTask (lit "example.org", 0%nat) 100 0 (lit "k") 6000 RUNNING in
  exists st1 bs st2 l ttl, on_resolved ireplace regex_match num_encode decode num_encode decode_rev sort (@List.rev Z) map_to_list 5900 t
      [16909061; 16909062] true toy = Ret st1 /\
    toy_received st1 (other, TYPE_A) = Ret ([ReceiveInto 2; SendReply 1 endpoint bs], st2) /\
    decodes_as bs 7 [(other, TYPE_A)] l ttl /\ l <> [].
Proof.
  intros t.
  assert (key_ok (lit "example.org") /\ key_ok (lit "8_8_8_8_53")) as [Hk Hk2].
  { split; (split; [done|]); apply (bool_decide_unpack _); vm_compute; exact I. }
  destruct (@learned_name_answered (gmap str str) Toy.kv junk ireplace regex_match num_encode decode num_encode decode_rev sort (@List.rev Z)
    map_to_list
    (@disk_kv_laws (gmap str str) map_store map_store_laws toy_encode toy_decode toy_decode_encode (fun (_ : gmap str str) _ _ => eq_refl))
    5900 6000 1 7 256 0 0 (other, TYPE_A) [] endpoint t [16909061; 16909062] true toy [] [0%nat; 1%nat])
    as (st1 & bs & st2 & l & ttl & E1 & E2 & Hd & Hl & _).
  - apply num_protobuf.
  - apply merge_sort_sorts.
  - intros l. symmetry. apply Permutation_rev.
  - lia.
  - lia.
  - lia.
  - apply toy_question; [by right|unfold TYPE_A; lia].
  - vm_compute. discriminate.
  - reflexivity.
  - apply (bool_decide_unpack _). vm_compute. exact I.
  - reflexivity.
  - left.
  - vm_compute. reflexivity.
  - by repeat constructor.
  - reflexivity.
  - discriminate.
  - repeat constructor; cbn; lia.
  - intros p Hp. repeat (apply elem_of_cons in Hp as [->|Hp];
      [match goal with |- Forall _ ?l => assert (l = []) as -> by (vm_compute; reflexivity) end; constructor|]).
    by apply elem_of_nil in Hp.
  - split; [exact Hk|]. intros i e Hi. cbn [pb_map] in Hi.
    apply (lookup_insert_Some (M := gmap str)) in Hi as [[<- <-]|[_ Hi]]; [|vm_compute in Hi; destruct i; discriminate Hi].
    split; [exact Hk2|]. split; [vm_compute; reflexivity|repeat constructor].
  - lia.
  - discriminate.
  - reflexivity.
  - exists st1, bs, st2, l, ttl. split; [exact E1|]. split; [exact E2|]. split; [exact Hd|exact Hl].
Defined.

Lemma schedule_proxies_witness :
  exists st', schedule proxy load_area toy = Ret ([WaitSchedule], st') /\
    resolve_optimize_areas <$> remote st' = [[(lit "JP", 4010)]; []].
Proof.
  destruct (schedule_proxies proxy load_area (fun _ => [lit "JP"; lit "CN"]) (fun _ _ => 4010) toy) as (st' & E & Hr & _).
  - intros a am. by exists true, am.
  - by repeat constructor.
  - intros s Hs Hlan. apply elem_of_cons in Hs as [->|Hs].
    + split; [vm_compute; reflexivity|]. intros a Ha _.
      repeat (apply elem_of_cons in Ha as [->|Ha]; [vm_compute; reflexivity|]). by apply elem_of_nil in Ha.
    + apply list_elem_of_singleton in Hs as ->. exfalso. apply Hlan. left.
  - exists st'. split; [exact E|]. rewrite Hr. vm_compute. reflexivity.
Defined.
