(* ===== verification/Service.v ===== *)
(** * The life of the service ([dns_server::start], [wait_start] and [shutdown] of
    [src/src/core/dns_server.cpp])

    What happens around the callbacks of [Server]: one thread runs [start],
    another waits for it and shuts it down, as the integration test does. Each
    statement that touches a member shared by the two is one operation; the two
    programs are interleaved in every way. *)
From S2P Require Import Prelude.

(** ** Data *)

(** A pointer member; the constructor sets only [ss]. *)
Inductive pointer := Garbage | Live | Freed.
#[export] Instance pointer_eq : EqDecision pointer. Proof. solve_decision. Defined.

Record service := Service {
  state : Z;                         (* [std::atomic<uint8_t>], not initialized *)
  ss : pointer; iw : pointer; schedule_iw : pointer; schedule_timer : pointer;
  ic_stopped : bool; schedule_stopped : bool;
  threads_run : bool;                (* the threads of [start] exist *)
  scheduled : bool                   (* [schedule] has set its timer *)
}.
#[export] Instance service_eq : EqDecision service. Proof. solve_decision. Defined.

Inductive member := Ss | Iw | ScheduleIw | ScheduleTimer.
Inductive operation :=
  | New (m : member) | Use (m : member) | Delete (m : member)
  | RunThreads | JoinThreads | IncState | SetState (v : Z) | WaitState | StopIc | StopScheduleIc | Schedule
  | AwaitScheduled.                  (* not of the code: a wait for the schedule, to compare with *)
#[export] Instance member_eq : EqDecision member. Proof. solve_decision. Defined.
#[export] Instance operation_eq : EqDecision operation. Proof. solve_decision. Defined.

Definition at_member (m : member) (s : service) : pointer :=
  match m with Ss => ss s | Iw => iw s | ScheduleIw => schedule_iw s | ScheduleTimer => schedule_timer s end.

Definition set_member (m : member) (p : pointer) (s : service) : service :=
  match m with
  | Ss => Service (state s) p (iw s) (schedule_iw s) (schedule_timer s) (ic_stopped s) (schedule_stopped s) (threads_run s) (scheduled s)
  | Iw => Service (state s) (ss s) p (schedule_iw s) (schedule_timer s) (ic_stopped s) (schedule_stopped s) (threads_run s) (scheduled s)
  | ScheduleIw => Service (state s) (ss s) (iw s) p (schedule_timer s) (ic_stopped s) (schedule_stopped s) (threads_run s) (scheduled s)
  | ScheduleTimer => Service (state s) (ss s) (iw s) (schedule_iw s) p (ic_stopped s) (schedule_stopped s) (threads_run s) (scheduled s)
  end.

Definition set_state (v : Z) (s : service) : service :=
  Service v (ss s) (iw s) (schedule_iw s) (schedule_timer s) (ic_stopped s) (schedule_stopped s) (threads_run s) (scheduled s).

(** The object a pointer refers to, or the error of following it. *)
Definition follow (m : member) (s : service) : outcome unit :=
  match at_member m s with Live => Ret tt | Garbage => Undef UninitUse | Freed => Undef UseAfterFree end.

(** ** The operations: [None] is an operation that has to wait *)
Definition exec (o : operation) (s : service) : outcome (option service) :=
  match o with
  | New m => Ret (Some (set_member m Live s))
  | Use m => _ ← follow m s; Ret (Some s)
  | Delete m => _ ← follow m s; Ret (Some (set_member m Freed s))
  | RunThreads => Ret (Some (Service (state s) (ss s) (iw s) (schedule_iw s) (schedule_timer s) (ic_stopped s) (schedule_stopped s) true (scheduled s)))
  | JoinThreads => Ret (if ic_stopped s && schedule_stopped s then Some s else None)
  | IncState => Ret (Some (set_state (u8 (state s + 1)) s))
  | SetState v => Ret (Some (set_state v s))
  | WaitState => Ret (if state s =? 0 then None else Some s)
  | StopIc => Ret (Some (Service (state s) (ss s) (iw s) (schedule_iw s) (schedule_timer s) true (schedule_stopped s) (threads_run s) (scheduled s)))
  | StopScheduleIc => Ret (Some (Service (state s) (ss s) (iw s) (schedule_iw s) (schedule_timer s) (ic_stopped s) true (threads_run s) (scheduled s)))
  | Schedule =>
      _ ← follow ScheduleTimer s;
      Ret (Some (Service (state s) (ss s) (iw s) (schedule_iw s) (schedule_timer s) (ic_stopped s) (schedule_stopped s) (threads_run s) true))
  | AwaitScheduled => Ret (if scheduled s then Some s else None)
  end.

(** [dns_server(config)]: [state] is what the memory held. *)
Definition constructed (garbage : Z) : service := Service garbage Live Garbage Garbage Garbage false false false false.

(** [start()] *)
Definition start_program : list operation :=
  [New Iw; New ScheduleIw; RunThreads; Use Ss; IncState; New ScheduleTimer; Schedule; JoinThreads].

(** [wait_start()] *)
Definition wait_start : list operation := [WaitState].

(** [shutdown()]; [apm_logger::disable] is [Apm]'s. *)
Definition shutdown : list operation :=
  [SetState 2; Use Ss; Use ScheduleTimer; StopIc; StopScheduleIc; Use Ss; Delete Iw; Delete ScheduleIw; Delete ScheduleTimer; Delete Ss].

(** ** Two threads *)
Record threads := Threads { the_service : service; starter : list operation; controller : list operation }.
#[export] Instance threads_eq : EqDecision threads. Proof. solve_decision. Defined.

Definition advance (o : operation) (s : service) (k : service -> threads) : list (outcome threads) :=
  match exec o s with Ret (Some s) => [Ret (k s)] | Ret None => [] | Undef u => [Undef u] | Throw e => [Throw e] | NoFuel => [NoFuel] end.

Definition successors (t : threads) : list (outcome threads) :=
  match starter t with [] => [] | o :: rest => advance o (the_service t) (fun s => Threads s rest (controller t)) end ++
  match controller t with [] => [] | o :: rest => advance o (the_service t) (fun s => Threads s (starter t) rest) end.

(** An execution up to where it stops: an error, or no thread that can go on. *)
Inductive ends : threads -> outcome threads -> Prop :=
  | ends_stuck t : successors t = [] -> ends t (Ret t)
  | ends_error t r : r ∈ successors t -> (forall t', r <> Ret t') -> ends t r
  | ends_step t t' r : Ret t' ∈ successors t -> ends t' r -> ends t r.

(** All of these ends, computed. *)
Fixpoint explore (fuel : nat) (t : threads) : list (outcome threads) :=
  match successors t with
  | [] => [Ret t]
  | l => match fuel with
         | O => [NoFuel]
         | S fuel => mjoin ((fun r => match r with Ret t' => explore fuel t' | r => [r] end) <$> l)
         end
  end.

Definition size (t : threads) : nat := (length (starter t) + length (controller t))%nat.

Lemma advance_shorter o s k t : Ret t ∈ advance o s k -> exists s', t = k s'.
Proof.
  unfold advance. destruct (exec o s) as [[s'|]| | |]; intros H; try (apply list_elem_of_singleton in H; try done);
    [injection H as ->; by exists s'|by apply elem_of_nil in H].
Qed.

Lemma successors_shorter t t' : Ret t' ∈ successors t -> (size t' < size t)%nat.
Proof.
  unfold successors, size. intros [H|H]%elem_of_app.
  - destruct (starter t) as [|o rest]; [by apply elem_of_nil in H|]. apply advance_shorter in H as [s ->]. cbn. lia.
  - destruct (controller t) as [|o rest]; [by apply elem_of_nil in H|]. apply advance_shorter in H as [s ->]. cbn. lia.
Qed.

Lemma explore_step fuel t : successors t <> [] ->
  explore (S fuel) t = mjoin ((fun r => match r with Ret t' => explore fuel t' | r => [r] end) <$> successors t).
Proof. intros H. cbn [explore]. by destruct (successors t). Qed.

(** The exploration is complete and finds nothing else, given one turn per operation. *)
Lemma ends_explore t r : ends t r -> forall fuel, (size t <= fuel)%nat -> r ∈ explore fuel t.
Proof.
  intros He. induction He as [t Hs|t r Hin Hr|t t' r Hin _ IH]; intros fuel Hf.
  - destruct fuel; cbn [explore]; rewrite Hs; left.
  - assert (0 < size t)%nat as Hp by (unfold size, successors in *; destruct (starter t), (controller t); cbn in *; try lia; by apply elem_of_nil in Hin).
    destruct fuel as [|fuel]; [lia|]. rewrite explore_step by (intros E; rewrite E in Hin; by apply elem_of_nil in Hin).
    apply list_elem_of_join. exists [r]. split; [left|]. apply list_elem_of_fmap. exists r. split; [|done].
    destruct r as [t'| | |]; try done. by destruct (Hr t').
  - pose proof (successors_shorter _ _ Hin) as Hs. destruct fuel as [|fuel]; [lia|].
    rewrite explore_step by (intros E; rewrite E in Hin; by apply elem_of_nil in Hin).
    apply list_elem_of_join. exists (explore fuel t'). split; [apply IH; lia|]. apply list_elem_of_fmap. by exists (Ret t').
Qed.

Lemma explore_ends fuel : forall t r, (size t <= fuel)%nat -> r ∈ explore fuel t -> ends t r.
Proof.
  induction fuel as [|fuel IH]; intros t r Hf Hr.
  - destruct (successors t) as [|x l] eqn:E; [cbn [explore] in Hr; rewrite E in Hr; apply list_elem_of_singleton in Hr as ->; by constructor|].
    unfold size, successors in *. destruct (starter t), (controller t); cbn in *; try lia; done.
  - destruct (decide (successors t = [])) as [E|E].
    + cbn [explore] in Hr. rewrite E in Hr. apply list_elem_of_singleton in Hr as ->. by constructor.
    + rewrite explore_step in Hr by done. apply list_elem_of_join in Hr as (l & Hl & (x & -> & Hx)%list_elem_of_fmap).
      destruct x as [t'|e|u|].
      * eapply ends_step; [exact Hx|]. apply IH; [|done]. pose proof (successors_shorter _ _ Hx). lia.
      * apply list_elem_of_singleton in Hl as ->. by apply ends_error.
      * apply list_elem_of_singleton in Hl as ->. by apply ends_error.
      * apply list_elem_of_singleton in Hl as ->. by apply ends_error.
Qed.

#[export] Instance ub_kind_eq : EqDecision ub_kind. Proof. solve_decision. Defined.
#[export] Instance exn_eq : EqDecision exn. Proof. solve_decision. Defined.
#[export] Instance outcome_eq {A} `{EqDecision A} : EqDecision (outcome A). Proof. solve_decision. Defined.

Definition same_ends (t : threads) (l : list (outcome threads)) : bool :=
  forallb (fun r => bool_decide (r ∈ l)) (explore (size t) t) && forallb (fun r => bool_decide (r ∈ explore (size t) t)) l.

Lemma same_ends_spec t l r : same_ends t l = true -> ends t r <-> r ∈ l.
Proof.
  intros [H1 H2]%andb_true_iff. rewrite forallb_forall in H1, H2. split.
  - intros He. pose proof (ends_explore _ _ He (size t) (le_n _)) as Hin. apply list_elem_of_In in Hin.
    by apply H1, bool_decide_eq_true in Hin.
  - intros Hr. apply list_elem_of_In in Hr. apply H2, bool_decide_eq_true in Hr. by apply (explore_ends (size t)).
Qed.

(** ** Properties *)
Definition shut_down : service := Service 2 Freed Freed Freed Freed true true true true.


(** [state] holds whatever its memory held: 255 becomes 0, and the server runs while
    [wait_start] waits for ever; another value lets a shutdown pass before anything was created. *)
Lemma state_garbage :
  (exists s, ends (Threads (constructed 255) start_program wait_start) (Ret (Threads s [JoinThreads] [WaitState])) /\
     at_member Ss s = Live /\ scheduled s = true) /\
  ends (Threads (constructed 1) start_program (wait_start ++ shutdown)) (Undef UninitUse).
Proof.
  split.
  - exists (Service 0 Live Live Live Live false false true true). split; [|done]. apply (explore_ends 9); [vm_compute; lia|].
    apply (bool_decide_unpack _). vm_compute. exact I.
  - do 2 (eapply ends_step; [right; left|]). eapply ends_step; [right; left|]. apply ends_error; [right; left|done].
Qed.
